(* ===== verification/_CoqProject ===== *)
-Q . S2P
Prelude.v
PyStruct.v
PyPath.v
UsbConstants.v
HidConstants.v
UsbDescriptors.v
MsOs20Descriptors.v
HidDescriptors.v
World.v
Gadget.v
Composite.v
HidGadget.v
HidFeatures.v
Devices.v
TestDevice.v
GadgetReads.v
GadgetMsOs.v
GadgetEndpoints.v
HidReports.v
HidProtocol.v
CompositeDispatch.v
EchoDevice.v
LinuxGadgetfs.v
GadgetfsDriver.v
GadgetfsEcho.v
Server.v
ServerOwnership.v
ServerDriver.v
DepsRules.v
DepsRuleLaws.v
DepsResults.v
DepsCheckers.v
DepsBuilder.v
DepsDirectories.v
DepsWalk.v
DepsChecks.v
DepsExample.v
DepsGraph.v
DepsGraphLaws.v
GnHelpers.v
GnRuns.v
GnGrammar.v
GnRoundTrip.v
GnArgs.v
DataPack.v
DataPackLaws.v
LoadingGraph.v
LoadingLinks.v
LoadingSort.v
LoadingCost.v
LoadingJson.v
LoadingExample.v
Lru.v
LruLaws.v
JsonComments.v
JsonCommentLaws.v
MemoryMap.v
NativeHeap.v
NativeHeapLaws.v
MemoryClassifiers.v
MemoryClassifierLaws.v
MemoryExample.v
BisectBuilds.v
BisectLaws.v
BisectSearch.v
PerfBisect.v
PerfBisectLaws.v
PerfBisectSearch.v
