(* ===== verification/Prelude.v ===== *)
(** * A verification library for the programs of this repository

    ** What is verified

    The repository is a browser runtime with the tools of its build.  Its Python
    programs are independent of each other.  The library models ten of them, the
    last three without the parts that are named under "Not modelled":

    - the USB gadget emulator, src/src/tools/usb_gadget: a server that turns a
      small computer into a USB device a test can control.  It builds descriptors
      (usb_descriptors.py, msos20_descriptors.py, hid_descriptors.py), answers the
      control requests of a host (gadget.py), combines features into a composite
      device (composite_gadget.py), speaks the HID protocol (hid_gadget.py), has
      keyboard, mouse and echo devices (keyboard_gadget.py, mouse_gadget.py,
      hid_echo_gadget.py, echo_gadget.py and the others), drives the Linux
      gadgetfs kernel interface (linux_gadgetfs.py) and is controlled over HTTP
      (server.py, __main__.py, package.py);
    - checkdeps, src/src/buildtools/checkdeps: it reads the DEPS files of a source
      tree, checks the includes and imports of every file against the rules in
      them (rules.py, builddeps.py, cpp_checker.py, java_checker.py, checkdeps.py),
      reports the violations (results.py), and collects and draws the graph of
      what depends on what (graphdeps.py);
    - gn_helpers.py, src/src/build: the values that scripts exchange with the GN
      build generator, printed and parsed;
    - data_pack.py, src/src/tools/grit/grit/format: the files that hold the
      resources of a program, written, read and combined;
    - graph.py, src/src/tools/android/loading: directed graphs of the requests of
      a page load, sorted, explored, measured and serialized;
    - lru.py, src/src/tools/swarming_client/utils: the dictionary of a cache that
      evicts what was used least recently, and its state file;
    - json_comment_eater.py, src/src/tools/json_comment_eater: JSON texts without
      their comments;
    - memory_inspector, src/src/tools/memory_inspector/memory_inspector: the memory
      map of a process and the search in it (core/memory_map.py), its allocations
      with their stack frames and symbols (core/native_heap.py, core/stacktrace.py,
      core/symbol.py), and the trees of rules that sort both into sums
      (classification/rules.py, results.py, mmap_classifier.py,
      native_heap_classifier.py);
    - bisect-builds.py, src/src/tools: the search for the build that broke
      something, with downloads in the background;
    - auto_bisect, src/src/tools/auto_bisect: the search for the revision that
      changed a measurement, which goes on in the repositories a revision contains
      (bisect_perf_regression.py), the states of its revisions (bisect_state.py)
      and the range its results report (bisect_results.py).

    ** How code becomes definitions

    Python values are the values they denote: integers are [Z], byte strings
    [list byte], text [string], a dict a [gmap] and a set a [gset].  Where the
    order in which Python 2 walks a dict or a set matters, it is the parameter
    [DictOrder] of this file: some enumeration of the elements, about which
    nothing else is known.  A call that may raise returns an [outcome]; a method
    that changes the state is a computation of the monad [M], which keeps the
    state reached when an exception is raised, as Python does.  Objects that are
    shared and changed after they have been stored are references: descriptors
    are positions in a heap, features and gadgets are numbers.  A loop or a
    recursion that is not structural takes fuel, and running out of fuel is an
    exception of its own, [recursion_error], or no answer; theorems say how much
    fuel is enough.

    ** The files

    Foundations.  Prelude: exceptions, monads, invariants of computations, dict
    order.  PyStruct: bytes, the [struct] module, UTF-16.  PyPath: string methods
    and [posixpath].

    Descriptors.  UsbConstants, HidConstants: usb_constants.py, hid_constants.py.
    UsbDescriptors: the descriptor classes on a heap, their sizes and encodings,
    with the host's walk over the encoding as the reference reader.
    MsOs20Descriptors: msos20_descriptors.py.  HidDescriptors: report descriptors
    and a parser of their items.

    The gadget.  World: the records of all objects and the interface of a
    controller, [Chip] and its laws [ChipLaws].  Gadget: gadget.py, operation by
    operation.  GadgetReads, GadgetMsOs, GadgetEndpoints: the theorems about
    control reads, the Microsoft descriptors and endpoint selection.

    Devices.  Composite: composite_gadget.py over the interface [Features].
    HidGadget: hid_gadget.py over the interface [HidFeatures].  HidFeatures: the
    keyboard, mouse and echo features.  Devices: the feature of echo_gadget.py and
    the gadgets the programs create.  TestDevice: the device of gadget_test.py and
    the expectations of its tests, run on the model.  HidReports, HidProtocol,
    CompositeDispatch, EchoDevice: the theorems about these; CompositeDispatch
    states what a composite gadget asks of its features as [FeatureLaws], and
    EchoDevice shows that the features of the repository keep it.

    The controller.  LinuxGadgetfs: linux_gadgetfs.py, with the kernel's files and
    the event loop as the interface [Env], pipes as queues and child processes as
    one turn of their loops.  GadgetfsDriver: what each call does.  GadgetfsEcho:
    the processes, the event loop and the echo device together, under every
    interleaving.

    The server.  Server: server.py over the interfaces [ServerChip], with the laws
    [ServerChipLaws], and [Host].  ServerOwnership: claims, bindings, updates.
    ServerDriver: the gadgetfs controller satisfies [ServerChipLaws].

    checkdeps.  DepsRules: rules.py.  DepsResults: results.py.  DepsCheckers:
    cpp_checker.py, java_checker.py.  DepsBuilder: builddeps.py, checkdeps.py,
    and the collection of graphdeps.py.  DepsRuleLaws, DepsDirectories, DepsWalk,
    DepsChecks: the theorems.  DepsExample: a small repository for their
    witnesses.  DepsGraph: the rendering of graphdeps.py, over the interface
    [RegexpSearch].  DepsGraphLaws: what the drawn graph says.

    gn_helpers.py.  GnHelpers: printing, unescaping and the parser as a state of
    input and position.  GnRuns: what each scanning method does at a position of
    the input.  GnGrammar: a declarative grammar of values, for which the parser is
    sound and complete.  GnRoundTrip, GnArgs: printed values, and lists of
    arguments, are read back.

    data_pack.py.  DataPack: the format and its operations.  DataPackLaws: reading
    what was written, and combining.

    graph.py.  LoadingGraph: nodes and edges as objects, the graph with its lists
    of edges at the nodes, every method.  LoadingLinks: the lists are right, through
    updates.  LoadingSort: exploration and topological sorting.  LoadingCost: the
    costliest path.  LoadingJson: the dicts of a graph read back.  LoadingExample:
    the graphs of the tests, and what the code does beside its documentation.

    lru.py.  Lru: the dictionary on an ordered list of items.  LruLaws: the
    specification with times it refines, and its file.

    json_comment_eater.py.  JsonComments: the scanner by positions.
    JsonCommentLaws: the rules of what is left of a text, which it decides.

    memory_inspector.  MemoryMap: the entries of a map, and what the search in it
    finds.  NativeHeap: symbols, frames and allocations, and the three passes over
    a heap.  NativeHeapLaws: what these passes do.  MemoryClassifiers: rules, buckets
    and the two classifiers over the interface [RegexpEngine].  MemoryClassifierLaws:
    the trees that load, and the sums in them.  MemoryExample: the unit tests.

    bisect-builds.py.  BisectBuilds: the search as a computation on its variables
    and the downloads that run, with the answers about builds as a function.
    BisectLaws: what one round does to the range and to the downloads.
    BisectSearch: the whole search, and searches.

    auto_bisect.  PerfBisect: the states as shared objects with a table of their
    places, the loop of the search, the range of the results.  PerfBisectLaws: the
    places through any history, and what a pass through the loop keeps.
    PerfBisectSearch: the whole search, and the unit tests.

    ** What the theorems show

    Descriptors: the encoding of a tree of descriptors is cut by a host's walk
    into exactly the tree in preorder, its announced sizes are its sizes, and
    encoding terminates on every heap without cycles; constructors accept what
    their field lists say; report descriptors parse back.

    The gadget: reads answer at most what was asked, do not change the device,
    and a short read is the beginning of a long one (the language table being the
    exception the code has); strings and compatible IDs read back; through every
    history the BOS descriptor announces the right length, and endpoints are routed
    to interfaces where they are active, with a controller that may fail in any call,
    as long as the last SET_CONFIGURATION could stop the endpoints it had to.

    Devices: a keyboard refines a set of held modifiers and a multiset of pressed
    keys, which every report it sends shows to the host, whatever calls of the
    controller fail; typed text reaches the host; mouse and echo reports arrive;
    composite gadgets are built exactly when interface numbers do not clash and, once
    configured, route every request for an interface or an endpoint, but
    SET_INTERFACE, to the feature that owns it; the echo gadget echoes at both speeds.
    The last two assume a controller that accepts every call, as the mock of the
    repository's tests does ([ChipTotal]); what the driver of linux_gadgetfs.py
    refuses of the echo gadget is shown in GadgetfsDriver.

    The controller: which endpoints it refuses, what an accepted one writes; the
    decoding of kernel events; every process belongs to an endpoint, but for those
    whose endpoint was started again while open; packets are echoed in order and
    eventually under every interleaving.

    The server: claims are exclusive, the controller drives nothing or what the
    server believes, updates come only from files named after their hash.

    checkdeps: the rule that applies is the last one given that covers the
    include, although older rules are dropped; the table of directory rules is a
    cache of a recursion over the path; the walk visits exactly the directories
    that are not skipped and stops; the violations of a file are those of its
    includes outside disabled blocks up to the first long gap; temporary rules
    allow what they were printed for; the drawn graph has a line for exactly the
    edges the filters want, by the rule of a directory or of the nearest one above,
    when no directory without rules lies between two with rules.

    gn_helpers.py: the parser returns a value exactly on the texts of the grammar
    and raises its own exception on all others; what is printed is read back, for
    values and for whole argument lists.

    data_pack.py: resources are written exactly when they fit the fields of the
    format and then read back; a combined file holds the union of what its parts
    contribute, or KeyError is raised, when a later part repeats a contributed
    identifier or is text in another encoding.

    graph.py: every edge is once in the list of its start and of its end, through
    any history; exploring finds exactly what paths reach; the sort ends, respects
    every edge and leaves out only what cycles lead to; the cost is that of the
    costliest path, when no edge comes from outside the part that is considered; the
    dict of a graph reads back to a copy.

    lru.py: every sequence of operations answers as a dictionary that evicts an
    entry whose last use is oldest; a saved state loads as it was.

    json_comment_eater.py: the scanner always ends and answers the one text that
    the rules for strings and comments leave; on closed strings, eating again
    changes nothing.

    memory_inspector: looking up an address finds the entry that was added for it;
    the pass over the pages ends and counts the resident bytes of every allocation,
    but for a last byte that is alone on its page; frames get the symbols of their
    addresses; a rule file loads exactly when its names and patterns are right; a
    bucket holds the sum of the records its rule is the first to match, and its
    children add up to it.

    bisect-builds.py: for all answers with finitely many retries the search returns,
    with two builds that only unknown ones lie between and that are what the range
    says of its ends; when all are good or bad it asks no more often than the
    logarithm of the range, and when none is to be retried it stops every download
    of a range of three builds or more.

    auto_bisect: every state knows its place, whatever is inserted; the search ends,
    also where it goes on in contained repositories, and leaves all states cut in one
    place by a broken one and a working one, with only states between them whose run
    failed, with whatever code; these two are the range of the results and give the
    culprits.

    Where the code does something else than its documentation says, the theorem
    says so in its comment, or its hypotheses exclude the case and a lemma or an
    example named there shows what the code does.

    ** Bounds and fuel

    [max_depth] of a heap is one more than its number of objects: a chain of
    references without repetition is not longer.  [directory_depth] is the length
    of a path plus two: every step up removes a character.  The walk's fuel is the
    number of directories; [wait_for_child] and the scan for Java packages take
    the number of rounds as an argument.  The loops of the GN parser take as many
    rounds as the input has characters, plus one, and its recursion three levels
    for each of them: a value, its list and the loop of the list.  The loop over
    the parents of a graph node takes the length of its path.  The exploration of a
    page load graph takes a round for every initial node and every node of the
    graph, its sort one for each node considered, and the way back along the
    costliest path one for each node, which is too few only on a cycle, where the
    loop of the code has no end.  The scanner of JSON comments takes a round for
    each character of the text, and so does its search for the end of a string.
    The binary search in a memory map takes the length of the map, the pass over an
    allocation two more than its pages, a bisection of builds the number of builds and
    of retries, and one of revisions four times the length of the longest list of
    revisions, since repositories are contained three deep at most.  Integers are unbounded as in Python and
    leave the model only through [struct], which checks their range.

    ** What is not modelled

    Printing to the console, and Python's limit on the depth of recursion.  Code
    outside the repository, which is a parameter: the kernel's gadgetfs files and
    the event loop ([Env]), the HTTP server and processes ([Host]), regular
    expressions given in DEPS files ([Regexp]) or on the command line
    ([RegexpSearch]), the evaluation of DEPS files, the file system and git
    ([Repository]).  The zip archive of package.py, the option parsers and the
    pipes to GraphViz are calls of the standard library and nothing else.  Text is
    byte strings: no [unicode] objects.  [Format] takes the pairs that the nodes of
    a resource tree answer and [RePack] the numbers of its whitelist file, whose
    text is not parsed.  Costs in page load graphs are integers: the rounding of
    floating point is left out.  The JSON text of the state of an LRU dictionary is
    the library's: [load] and [save] work on the value it holds.  Of memory_inspector
    the rules inferred from a heap, the text forms of frames and symbols, the parser
    of memory dumps and the backends that talk to devices are left out; a rule file
    is the value its text denotes, and its regular expressions are the parameter
    [RegexpEngine].  Of bisect-builds.py the archives, the transfer of a file, the
    running of a build and the questions about it are the environment.  Of auto_bisect
    running a revision, git and the lists of revisions are the environment, and the
    statistics of the results and their printing are left out.  The other
    programs of the repository are listed in the manifest with the reason they are
    left out. *)

(** ** This file

    Python exceptions, the error monad and the state monad the components are
    written in, invariant rules for stateful code, the iteration order of dicts and
    sets, and generic lemmas. *)

From Stdlib Require Export ZArith Lia.
From Stdlib Require Import Strings.Byte.
From stdpp Require Export base gmap strings list fin_maps pretty.

#[export] Set Default Goal Selector "!".

(** ** Exceptions *)

(** The exceptions the modelled code raises or lets escape.  A message is kept
    where the source writes it; [struct.error] and the errors raised by the
    interpreter carry none. *)
Inductive exn :=
  | RuntimeError (msg : string)
  | ValueError (msg : string)
  | TypeError (msg : string)
  | NotImplementedError (msg : string)
  | AttributeError (name : string)
  | AssertionError
  | KeyError
  | StructError
  | IndexError
  | OSError (errno : Z)
  | PyException (msg : string)
  | GNException (msg : string)
  | WrongFileVersion
  | StopIteration
  | SystemExit
  | UnboundLocalError (name : string).

#[export] Instance exn_eq_dec : EqDecision exn.
Proof. solve_decision. Defined.

(** CPython gives up on unbounded recursion with this exception; here it also
    stands for the fuel of a recursion or a loop running out. *)
Definition recursion_error : exn := RuntimeError "maximum recursion depth exceeded".

(** The result of a call: a value or a raised exception. *)
Inductive outcome (A : Type) :=
  | Ok (a : A)
  | Raise (e : exn).
Arguments Ok {_} _.
Arguments Raise {_} _.

#[export] Instance outcome_eq_dec {A} `{EqDecision A} : EqDecision (outcome A).
Proof. solve_decision. Defined.

#[export] Instance outcome_ret : MRet outcome := λ A a, Ok a.
#[export] Instance outcome_bind : MBind outcome := λ A B f o,
  match o with Ok a => f a | Raise e => Raise e end.
#[export] Instance outcome_fmap : FMap outcome := λ A B f o,
  match o with Ok a => Ok (f a) | Raise e => Raise e end.

(** [assert b] of Python. *)
Definition assert_ (b : bool) : outcome unit :=
  if b then Ok () else Raise AssertionError.

Definition of_option {A} (e : exn) (o : option A) : outcome A :=
  match o with Some a => Ok a | None => Raise e end.

(** ** Stateful computations *)

(** A method that may change the state [S] and may raise.  The state reached at
    the point of the exception is kept: Python does not roll back. *)
Definition M (S A : Type) : Type := S → outcome A * S.

#[export] Instance M_ret {S} : MRet (M S) := λ A a s, (Ok a, s).
#[export] Instance M_bind {S} : MBind (M S) := λ A B f m s,
  match m s with
  | (Ok a, s') => f a s'
  | (Raise e, s') => (Raise e, s')
  end.

Definition raise {S A} (e : exn) : M S A := λ s, (Raise e, s).
Definition gets {S A} (f : S → A) : M S A := λ s, (Ok (f s), s).
Definition modify {S} (f : S → S) : M S unit := λ s, (Ok (), f s).
Definition lift {S A} (o : outcome A) : M S A := λ s, (o, s).

(** Run a computation on a component [T] of a larger state [S]. *)
Definition zoom {S T A} (get : S → T) (set : T → S → S) (m : M T A) : M S A :=
  λ s, let '(o, t) := m (get s) in (o, set t s).

(** [for x in l: f(x)]. *)
Fixpoint mfor {S A} (l : list A) (f : A → M S unit) : M S unit :=
  match l with
  | [] => mret ()
  | x :: l => f x ;; mfor l f
  end.

(** [if b: m], without an [else]. *)
Definition when {S} (b : bool) (m : M S unit) : M S unit :=
  if b then m else mret ().

(** [while cond: body], at most [fuel] rounds. *)
Fixpoint while {S} (fuel : nat) (cond : M S bool) (body : M S unit) : M S unit :=
  match fuel with
  | O => raise recursion_error
  | Datatypes.S fuel =>
      b ← cond;
      if (b : bool) then body ;; while fuel cond body else mret ()
  end.

(** [a and b] *)
Definition andM {S} (a b : M S bool) : M S bool :=
  x ← a; if (x : bool) then b else mret false.

(** ** Iteration order of dicts and sets *)

(** Python 2 leaves the iteration order of a dict or a set unspecified.  The
    model takes the order as a parameter, of which it knows that every element
    comes exactly once. *)
Class DictOrder := {
  dict_items : ∀ {K V} `{Countable K}, gmap K V → list (K * V);
  dict_items_perm : ∀ {K V} `{Countable K} (m : gmap K V),
    dict_items m ≡ₚ map_to_list m;
  set_items : ∀ {K} `{Countable K}, gset K → list K;
  set_items_perm : ∀ {K} `{Countable K} (X : gset K),
    set_items X ≡ₚ elements X
}.

(** One such order, for evaluation. *)
Definition canonical_order : DictOrder := {|
  dict_items := λ K V _ _ m, map_to_list m;
  dict_items_perm := λ K V _ _ m, Permutation_refl _;
  set_items := λ K _ _ X, elements X;
  set_items_perm := λ K _ _ X, Permutation_refl _
|}.

Section dict_order.
Context `{DictOrder}.

Lemma elem_of_dict_items {K V} `{Countable K} (m : gmap K V) k v :
    (k, v) ∈ dict_items m ↔ m !! k = Some v.
  Proof. by rewrite dict_items_perm, elem_of_map_to_list. Qed.

Lemma elem_of_set_items {K} `{Countable K} (X : gset K) x :
    x ∈ set_items X ↔ x ∈ X.
  Proof. by rewrite set_items_perm, elem_of_elements. Qed.

Lemma NoDup_set_items {K} `{Countable K} (X : gset K) : NoDup (set_items X).
  Proof. rewrite set_items_perm. apply NoDup_elements. Qed.

Lemma NoDup_dict_keys {K V} `{Countable K} (m : gmap K V) :
    NoDup (dict_items m).*1.
  Proof. rewrite dict_items_perm. apply NoDup_fst_map_to_list. Qed.

Lemma length_dict_items {K V} `{Countable K} (m : gmap K V) :
    length (dict_items m) = size m.
  Proof. by rewrite dict_items_perm, length_map_to_list. Qed.
End dict_order.

(** ** Inversion of monadic code *)

Lemma outcome_bind_Ok {A B} (o : outcome A) (f : A → outcome B) b :
  (o ≫= f) = Ok b ↔ ∃ a, o = Ok a ∧ f a = Ok b.
Proof.
  destruct o; cbn; split; [eauto| |done|]; intros (a' & ? & ?); congruence.
Qed.

Lemma Ok_inj {A} (a b : A) : Ok a = Ok b → a = b.
Proof. by intros [= ->]. Qed.

Lemma outcome_fmap_Ok {A B} (f : A → B) (o : outcome A) b :
  f <$> o = Ok b ↔ ∃ a, o = Ok a ∧ f a = b.
Proof.
  destruct o; cbn; split;
    first [intros (? & ? & ?); congruence | intros [= <-]; eauto | done].
Qed.

Lemma of_option_Ok {A} e (o : option A) a : of_option e o = Ok a ↔ o = Some a.
Proof. destruct o; cbn; split; congruence. Qed.

Lemma M_bind_Ok {S A B} (m : M S A) (f : A → M S B) s b s'' :
  (m ≫= f) s = (Ok b, s'') ↔ ∃ a s', m s = (Ok a, s') ∧ f a s' = (Ok b, s'').
Proof.
  unfold mbind, M_bind. destruct (m s) as [[a|e] s'].
  - split; [eauto|]. intros (? & ? & [= -> ->] & ?). done.
  - split; [done|]. intros (? & ? & ? & ?). done.
Qed.

Lemma M_bind_run {S A B} (m : M S A) (f : A → M S B) s a s' :
  m s = (Ok a, s') → (m ≫= f) s = f a s'.
Proof. unfold mbind, M_bind. by intros ->. Qed.

Lemma M_bind_run_raise {S A B} (m : M S A) (f : A → M S B) s e s' :
  m s = (Raise e, s') → (m ≫= f) s = (Raise e, s').
Proof. unfold mbind, M_bind. by intros ->. Qed.

(** One step of a run, by its first action. *)
Lemma bind_gets {S A B} (f : S → A) (k : A → M S B) s : (gets f ≫= k) s = k (f s) s.
Proof. done. Qed.
Lemma bind_modify {S B} (f : S → S) (k : unit → M S B) s : (modify f ≫= k) s = k () (f s).
Proof. done. Qed.
Lemma bind_lift_Ok {S A B} a (k : A → M S B) s : (lift (Ok a) ≫= k) s = k a s.
Proof. done. Qed.
Lemma bind_lift_Raise {S A B} e (k : A → M S B) s : (lift (Raise e) ≫= k) s = (Raise e, s).
Proof. done. Qed.
Lemma bind_raise {S A B} e (k : A → M S B) s : (raise e ≫= k) s = (Raise e, s).
Proof. done. Qed.
Lemma bind_ret {S A B} a (k : A → M S B) s : (mret a ≫= k) s = k a s.
Proof. done. Qed.

Lemma M_bind_assoc {S A B D} (m : M S A) (f : A → M S B) (g : B → M S D) s :
  ((m ≫= f) ≫= g) s = (m ≫= λ a, f a ≫= g) s.
Proof. unfold mbind, M_bind. by destruct (m s) as [[]]. Qed.

Lemma mapM_outcome_Ok {A B} (f : A → outcome B) l k :
  mapM f l = Ok k ↔ Forall2 (λ x y, f x = Ok y) l k.
Proof.
  split.
  - revert k. induction l as [|x l IH]; intros k; cbn.
    + intros [= <-]. constructor.
    + intros (y & ? & (k' & ? & [= <-])%outcome_bind_Ok)%outcome_bind_Ok.
      constructor; auto.
  - induction 1 as [|x y l k Hxy _ IH]; cbn; [done|].
    change (foldr _ _ l) with (mapM f l). by rewrite Hxy, IH.
Qed.

Lemma mapM_outcome_cons {A B} (f : A → outcome B) x l :
  mapM f (x :: l) = y ← f x; k ← mapM f l; Ok (y :: k).
Proof. done. Qed.

Lemma mapM_outcome_app {A B} (f : A → outcome B) l1 l2 :
  mapM f (l1 ++ l2) = k1 ← mapM f l1; k2 ← mapM f l2; Ok (k1 ++ k2).
Proof.
  induction l1 as [|x l1 IH]; cbn [app].
  - cbn. by destruct (mapM f l2).
  - rewrite !mapM_outcome_cons, IH. destruct (f x); cbn; [|done].
    destruct (mapM f l1); cbn; [|done]. by destruct (mapM f l2).
Qed.

Lemma mapM_outcome_ext {A B} (f g : A → outcome B) l :
  (∀ x, x ∈ l → f x = g x) → mapM f l = mapM g l.
Proof.
  induction l as [|x l IH]; intros Hfg; [done|].
  rewrite !mapM_outcome_cons, Hfg, IH by set_solver. done.
Qed.

Lemma mfor_app {S A} (l1 l2 : list A) (f : A → M S unit) s :
  mfor (l1 ++ l2) f s = (mfor l1 f ;; mfor l2 f) s.
Proof.
  revert s. induction l1 as [|x l1 IH]; intros s; cbn; [done|].
  unfold mbind, M_bind in *. destruct (f x s) as [[[]|e] s']; [apply IH|done].
Qed.

(** Evaluate the monadic plumbing of a run. *)
Ltac mrun :=
  repeat (unfold mbind, M_bind, gets, lift, raise, modify, when in *;
          unfold mret, M_ret in *; cbn [fst snd id] in * ).

Lemma run_fst {S A} (m : M S A) s o : fst (m s) = o → m s = (o, snd (m s)).
Proof. intros <-. apply surjective_pairing. Qed.

#[export] Hint Rewrite @bind_gets @bind_modify @bind_lift_Ok @bind_lift_Raise @bind_raise
  @bind_ret : run.

(** Run to the first action that is not known, with the equations at hand. *)
Ltac run_steps :=
  repeat first [progress autorewrite with run | progress cbn [of_option fst snd]
               | match goal with E : _ = Ok _ |- _ => rewrite E end
               | match goal with E : _ = Raise _ |- _ => rewrite E end].

(** ** Relational invariants of stateful code *)

(** [respects R m]: whatever [m] returns or raises, the state it leaves is
    related by [R] to the state it started from. *)
Definition respects {S A} (R : S → S → Prop) (m : M S A) : Prop :=
  ∀ s, R s (snd (m s)).

(** [preserves I m]: the invariant [I] survives [m], exceptions included. *)
Definition preserves {S A} (I : S → Prop) (m : M S A) : Prop :=
  ∀ s, I s → I (snd (m s)).

Create HintDb respects discriminated.
Create HintDb preserves discriminated.
#[export] Hint Constants Opaque : respects preserves.

Section respects.
Context {S : Type} (R : S → S → Prop) `{!PreOrder R}.

Lemma respects_ret {A} (a : A) : respects R (mret a).
  Proof. intros s. cbn. reflexivity. Qed.

Lemma respects_raise {A} e : respects R (raise (A:=A) e).
  Proof. intros s. cbn. reflexivity. Qed.

Lemma respects_gets {A} (f : S → A) : respects R (gets f).
  Proof. intros s. cbn. reflexivity. Qed.

Lemma respects_lift {A} (o : outcome A) : respects R (lift o).
  Proof. intros s. cbn. reflexivity. Qed.

Lemma respects_bind {A B} (m : M S A) (f : A → M S B) :
    respects R m → (∀ a, respects R (f a)) → respects R (m ≫= f).
  Proof.
    intros Hm Hf s. specialize (Hm s). unfold mbind, M_bind.
    destruct (m s) as [[a|e] s']; cbn in *; [|done].
    etrans; [done|apply Hf].
  Qed.

Lemma respects_mfor {A} (l : list A) (f : A → M S unit) :
    (∀ x, x ∈ l → respects R (f x)) → respects R (mfor l f).
  Proof.
    induction l as [|x l IH]; intros Hf; cbn.
    - apply respects_ret.
    - apply respects_bind; [apply Hf; set_solver|].
      intros _. apply IH. set_solver.
  Qed.

Lemma respects_when b (m : M S unit) : respects R m → respects R (when b m).
  Proof. intros Hm. destruct b; [exact Hm|apply respects_ret]. Qed.
End respects.

Section preserves.
Context {S : Type} (I : S → Prop).

Lemma preserves_ret {A} (a : A) : preserves I (mret a).
  Proof. by intros s Hs. Qed.

Lemma preserves_raise {A} e : preserves I (raise (A:=A) e).
  Proof. by intros s Hs. Qed.

Lemma preserves_gets {A} (f : S → A) : preserves I (gets f).
  Proof. by intros s Hs. Qed.

Lemma preserves_lift {A} (o : outcome A) : preserves I (lift o).
  Proof. by intros s Hs. Qed.

Lemma preserves_bind {A B} (m : M S A) (f : A → M S B) :
    preserves I m → (∀ a, preserves I (f a)) → preserves I (m ≫= f).
  Proof.
    intros Hm Hf s Hs. specialize (Hm s Hs). unfold mbind, M_bind.
    destruct (m s) as [[a|e] s']; cbn in *; [by apply Hf|done].
  Qed.

Lemma preserves_mfor {A} (l : list A) (f : A → M S unit) :
    (∀ x, x ∈ l → preserves I (f x)) → preserves I (mfor l f).
  Proof.
    induction l as [|x l IH]; intros Hf; cbn.
    - apply preserves_ret.
    - apply preserves_bind; [apply Hf; set_solver|].
      intros _. apply IH. set_solver.
  Qed.

Lemma preserves_when b (m : M S unit) :
    preserves I m → preserves I (when b m).
  Proof. intros Hm. destruct b; [exact Hm|apply preserves_ret]. Qed.

Lemma preserves_of_respects {A} (R : S → S → Prop) (m : M S A) :
    (∀ s s', R s s' → I s → I s') → respects R m → preserves I m.
  Proof. intros HR Hm s Hs. by eapply HR. Qed.
End preserves.

#[export] Hint Resolve respects_ret respects_raise respects_gets respects_lift
  respects_when : respects.
#[export] Hint Resolve preserves_ret preserves_raise preserves_gets
  preserves_lift preserves_when : preserves.

(** Walk through a computation bind by bind, case by case, closing the leaves
    with the lemmas registered for the callees. *)
Ltac respects_step :=
  lazymatch goal with
  | |- respects _ (let _ := _ in _) => cbv zeta
  | |- respects _ (match ?x with _ => _ end) => destruct x
  | |- respects _ (mbind _ _) => apply respects_bind; [apply _| |intros ?]
  | |- respects _ (mfor _ _) => apply respects_mfor; [apply _|intros ? ?]
  | |- respects _ _ => solve [eauto with respects typeclass_instances]
  end.
Ltac solve_respects := repeat respects_step.

Ltac preserves_step :=
  lazymatch goal with
  | |- preserves _ (let _ := _ in _) => cbv zeta
  | |- preserves _ (match ?x with _ => _ end) => destruct x
  | |- preserves _ (mbind _ _) => apply preserves_bind; [|intros ?]
  | |- preserves _ (mfor _ _) => apply preserves_mfor; intros ? ?
  | |- preserves _ _ => solve [eauto with preserves]
  end.
Ltac solve_preserves := repeat preserves_step.

(** Turn a hypothesis [code = Ok a] or [code s = (Ok a, s')] into the chain of
    its intermediate results. *)
Ltac inv_outcome :=
  repeat match goal with
  | H : (_ ≫= _) = Ok _ |- _ =>
      let a := fresh "a" in let E := fresh "E" in
      apply outcome_bind_Ok in H as (a & E & H)
  | H : _ <$> _ = Ok _ |- _ =>
      let a := fresh "a" in let E := fresh "E" in
      apply outcome_fmap_Ok in H as (a & E & H)
  | H : of_option _ _ = Ok _ |- _ => apply of_option_Ok in H
  | H : mret _ = Ok _ |- _ => apply Ok_inj in H
  | H : Ok _ = Ok _ |- _ => apply Ok_inj in H
  | H : Raise _ = Ok _ |- _ => discriminate H
  | H : assert_ ?b = Ok _ |- _ =>
      let E := fresh "E" in destruct b eqn:E; [clear H|discriminate H]
  | H : (if ?b then _ else _) = Ok _ |- _ =>
      let E := fresh "E" in destruct b eqn:E
  | H : match ?x with _ => _ end = Ok _ |- _ =>
      let E := fresh "E" in destruct x eqn:E
  end; subst.

(** ** Slices, sums, hexadecimal *)

(** [buf[:n]]; a negative [n] counts from the end. *)
Definition py_prefix {A} (n : Z) (l : list A) : list A :=
  if (n <? 0)%Z then take (Z.to_nat (Z.of_nat (length l) + n)) l
  else take (Z.to_nat n) l.

Definition py_sum (l : list Z) : Z := foldr Z.add 0%Z l.

Definition py_len {A} (l : list A) : Z := Z.of_nat (length l).

(** [xrange(a, b)]. *)
Definition xrange (a b : Z) : list Z := seqZ a (b - a).

(** [o is not None] and [o is None]. *)
Definition is_not_none {A} (o : option A) : bool :=
  match o with Some _ => true | None => false end.

Lemma py_prefix_length {A} n (l : list A) :
  (0 <= n)%Z → (py_len (py_prefix n l) <= n)%Z.
Proof.
  intros Hn. unfold py_prefix, py_len.
  destruct (Z.ltb_spec n 0); [lia|]. rewrite length_take. lia.
Qed.

Lemma py_prefix_all {A} n (l : list A) :
  (py_len l <= n)%Z → py_prefix n l = l.
Proof.
  intros Hn. unfold py_prefix, py_len in *.
  destruct (Z.ltb_spec n 0); [lia|]. apply take_ge. lia.
Qed.

Lemma py_prefix_prefix {A} n (l : list A) : py_prefix n l `prefix_of` l.
Proof. unfold py_prefix. case_match; apply prefix_take. Qed.

Lemma py_len_app {A} (l k : list A) : py_len (l ++ k) = (py_len l + py_len k)%Z.
Proof. unfold py_len. rewrite length_app. lia. Qed.

Lemma py_len_nonneg {A} (l : list A) : (0 <= py_len l)%Z.
Proof. unfold py_len. lia. Qed.

Lemma py_sum_app l k : py_sum (l ++ k) = (py_sum l + py_sum k)%Z.
Proof. unfold py_sum. induction l; cbn; lia. Qed.

#[export] Hint Resolve py_prefix_length py_len_nonneg : core.

(** ** Filters *)

Lemma filter_all {A} (P : A → Prop) `{∀ x, Decision (P x)} (l : list A) :
  (∀ x, x ∈ l → P x) → base.filter P l = l.
Proof.
  induction l as [|x l IH]; intros HP; [done|].
  rewrite filter_cons_True by set_solver. f_equal. apply IH. set_solver.
Qed.

Lemma filter_none {A} (P : A → Prop) `{∀ x, Decision (P x)} (l : list A) :
  (∀ x, x ∈ l → ¬ P x) → base.filter P l = [].
Proof.
  induction l as [|x l IH]; intros HP; [done|].
  rewrite filter_cons_False by set_solver. apply IH. set_solver.
Qed.

Lemma filter_ext_elem {A} (P Q : A → Prop) `{∀ x, Decision (P x)} `{∀ x, Decision (Q x)} (l : list A) :
  (∀ x, x ∈ l → P x ↔ Q x) → base.filter P l = base.filter Q l.
Proof.
  induction l as [|x l IH]; intros HPQ; [done|]. rewrite !filter_cons.
  rewrite IH by (intros y Hy; apply HPQ; by right). pose proof (HPQ x ltac:(by left)).
  destruct (decide (P x)), (decide (Q x)); tauto.
Qed.

Lemma elem_of_concat {A} (x : A) (ls : list (list A)) :
  x ∈ concat ls ↔ ∃ l, x ∈ l ∧ l ∈ ls.
Proof.
  rewrite list_elem_of_In, in_concat. split.
  - intros (l & Hl & Hx). exists l. by rewrite !list_elem_of_In.
  - intros (l & Hx & Hl). exists l. by rewrite <- !list_elem_of_In.
Qed.
