(* ===== verification/PyStruct.v ===== *)
(** Bytes, little-endian integers, UTF-16LE text and the part of Python's
    [struct] module the source uses: format strings over the codes
    [x b B H I Q] and [<n>s], [calcsize], [pack], [unpack], [unpack_from].

    A byte string is a [list byte]; a text is a list of code points.  The
    formats of the source carry no alignment padding: they start with ['<'] or
    ['='] (little-endian on the supported hosts) or hold single-byte codes
    only, so both prefixes read as "no padding, little-endian". *)

From Stdlib Require Import Strings.Byte Strings.String Strings.Ascii.
From S2P Require Import Prelude.

#[local] Open Scope Z_scope.

Abbreviation byte := Byte.byte.
Abbreviation bytes := (list byte).
Abbreviation text := (list Z).

#[export] Instance byte_eq_dec : EqDecision byte := Byte.byte_eq_dec.

(** ** Bytes and integers *)

Definition byte_of_Z (z : Z) : byte :=
  match Byte.of_N (Z.to_N (z mod 256)) with Some b => b | None => Byte.x00 end.
Definition Z_of_byte (b : byte) : Z := Z.of_N (Byte.to_N b).

Fixpoint le_split (n : nat) (z : Z) : bytes :=
  match n with
  | O => []
  | S n => byte_of_Z z :: le_split n (z / 256)
  end.

Fixpoint le_combine (bs : bytes) : Z :=
  match bs with
  | [] => 0
  | b :: bs => Z_of_byte b + 256 * le_combine bs
  end.

Lemma Z_of_byte_range b : 0 <= Z_of_byte b < 256.
Proof. unfold Z_of_byte. pose proof (Byte.to_N_bounded b). lia. Qed.

Lemma Z_of_byte_of_Z z : Z_of_byte (byte_of_Z z) = z mod 256.
Proof.
  unfold Z_of_byte, byte_of_Z.
  pose proof (Z.mod_pos_bound z 256 ltac:(lia)).
  destruct (Byte.of_N (Z.to_N (z mod 256))) as [b|] eqn:E.
  - apply Byte.to_of_N in E. rewrite E. lia.
  - apply Byte.of_N_None_iff in E. lia.
Qed.

Lemma byte_of_Z_of_byte b : byte_of_Z (Z_of_byte b) = b.
Proof.
  unfold byte_of_Z. rewrite Z.mod_small by apply Z_of_byte_range.
  unfold Z_of_byte. by rewrite N2Z.id, Byte.of_to_N.
Qed.

Lemma length_le_split n z : length (le_split n z) = n.
Proof. revert z. induction n; cbn; auto. Qed.

Lemma le_combine_bound bs : 0 <= le_combine bs < 256 ^ Z.of_nat (length bs).
Proof.
  induction bs as [|b bs IH]; cbn [le_combine length]; [cbn; lia|].
  pose proof (Z_of_byte_range b).
  rewrite Nat2Z.inj_succ, Z.pow_succ_r by lia. lia.
Qed.

Lemma le_combine_split n z :
  0 <= z < 256 ^ Z.of_nat n → le_combine (le_split n z) = z.
Proof.
  revert z. induction n as [|n IH]; intros z Hz; cbn [le_split le_combine].
  - cbn in Hz. lia.
  - rewrite Nat2Z.inj_succ, Z.pow_succ_r in Hz by lia.
    rewrite Z_of_byte_of_Z, IH.
    + pose proof (Z.div_mod z 256). lia.
    + split; [apply Z.div_pos; lia|]. apply Z.div_lt_upper_bound; lia.
Qed.

Lemma le_combine_split_1 z : le_combine (le_split 1 z) = z mod 256.
Proof. cbn -[Z.mul]. rewrite Z_of_byte_of_Z. lia. Qed.

Lemma le_split_combine bs : le_split (length bs) (le_combine bs) = bs.
Proof.
  induction bs as [|b bs IH]; cbn [le_split le_combine length]; [done|].
  pose proof (Z_of_byte_range b). f_equal.
  - rewrite <- (byte_of_Z_of_byte b) at 2. unfold byte_of_Z.
    by rewrite (Z.mul_comm 256), Z_mod_plus_full.
  - rewrite (Z.mul_comm 256), Z.div_add, Z.div_small by lia. exact IH.
Qed.

(** ** Text *)

(** The bytes and the code points of an ASCII literal. *)
Definition bytes_of (s : string) : bytes := list_byte_of_string s.
Definition text_of (s : string) : text := Z_of_byte <$> bytes_of s.

(** [s.encode('UTF-16LE')]: a surrogate pair beyond the basic plane. *)
Definition utf16le_char (c : Z) : bytes :=
  if c <? 0x10000 then le_split 2 c
  else let v := c - 0x10000 in
       le_split 2 (0xD800 + v / 0x400) ++ le_split 2 (0xDC00 + v mod 0x400).
Definition utf16le (t : text) : bytes := concat (utf16le_char <$> t).

(** ** Format strings *)

Inductive code :=
  | C_x | C_b | C_B | C_H | C_I | C_Q | C_s (n : nat).

#[export] Instance code_eq_dec : EqDecision code.
Proof. solve_decision. Defined.

Definition parse_digit (c : ascii) : option nat :=
  let n := nat_of_ascii c in
  if (48 <=? n)%nat && (n <=? 57)%nat then Some (n - 48)%nat else None.

(** [count] is the repeat count read so far, if any. *)
Fixpoint parse_codes (count : option nat) (s : string) : option (list code) :=
  match s with
  | EmptyString => match count with None => Some [] | Some _ => None end
  | String c s =>
      match parse_digit c with
      | Some d => parse_codes (Some (10 * default 0 count + d)%nat) s
      | None =>
          let n := default 1%nat count in
          let many k := replicate n k in
          cs ← (if Ascii.eqb c "x" then Some (many C_x)
                else if Ascii.eqb c "b" then Some (many C_b)
                else if Ascii.eqb c "B" then Some (many C_B)
                else if Ascii.eqb c "H" then Some (many C_H)
                else if Ascii.eqb c "I" then Some (many C_I)
                else if Ascii.eqb c "Q" then Some (many C_Q)
                else if Ascii.eqb c "s" then Some [C_s n]
                else None);
          rest ← parse_codes None s;
          Some (cs ++ rest)
      end
  end.

Definition parse_format (s : string) : option (list code) :=
  match s with
  | String c s' =>
      if Ascii.eqb c "<" || Ascii.eqb c "=" then parse_codes None s'
      else parse_codes None s
  | EmptyString => Some []
  end.

Definition code_size (c : code) : nat :=
  match c with
  | C_x | C_b | C_B => 1 | C_H => 2 | C_I => 4 | C_Q => 8 | C_s n => n
  end.
Definition codes_size (cs : list code) : nat := sum_list_with code_size cs.

(** [struct.calcsize]. *)
Definition struct_calcsize (fmt : string) : outcome Z :=
  cs ← of_option StructError (parse_format fmt);
  Ok (Z.of_nat (codes_size cs)).

(** ** Packing *)

(** A Python value a descriptor field can hold. *)
Inductive value :=
  | VInt (z : Z)
  | VStr (b : bytes).

#[export] Instance value_eq_dec : EqDecision value.
Proof. solve_decision. Defined.

Definition pack_uint (n : nat) (z : Z) : outcome bytes :=
  if (0 <=? z) && (z <? 256 ^ Z.of_nat n) then Ok (le_split n z)
  else Raise StructError.

(** A string is cut or padded with zero bytes to the width of the field. *)
Definition pack_str (n : nat) (b : bytes) : bytes :=
  take n b ++ replicate (n - length b) Byte.x00.

Definition pack_value (c : code) (v : value) : outcome bytes :=
  match c, v with
  | C_b, VInt z =>
      if (-128 <=? z) && (z <=? 127) then Ok (le_split 1 z)
      else Raise StructError
  | C_B, VInt z => pack_uint 1 z
  | C_H, VInt z => pack_uint 2 z
  | C_I, VInt z => pack_uint 4 z
  | C_Q, VInt z => pack_uint 8 z
  | C_s n, VStr b => Ok (pack_str n b)
  | _, _ => Raise StructError
  end.

Fixpoint pack_codes (cs : list code) (vs : list value) : outcome bytes :=
  match cs with
  | [] => match vs with [] => Ok [] | _ => Raise StructError end
  | C_x :: cs => t ← pack_codes cs vs; Ok (Byte.x00 :: t)
  | c :: cs =>
      match vs with
      | [] => Raise StructError
      | v :: vs => h ← pack_value c v; t ← pack_codes cs vs; Ok (h ++ t)
      end
  end.

(** [struct.pack]. *)
Definition struct_pack (fmt : string) (vs : list value) : outcome bytes :=
  cs ← of_option StructError (parse_format fmt);
  pack_codes cs vs.

(** ** Unpacking *)

Definition unpack_value (c : code) (b : bytes) : value :=
  match c with
  | C_b => VInt (let z := le_combine b in if z <? 128 then z else z - 256)
  | C_s _ => VStr b
  | _ => VInt (le_combine b)
  end.

Fixpoint unpack_codes (cs : list code) (b : bytes) : list value :=
  match cs with
  | [] => []
  | C_x :: cs => unpack_codes cs (drop 1 b)
  | c :: cs =>
      unpack_value c (take (code_size c) b)
        :: unpack_codes cs (drop (code_size c) b)
  end.

(** [struct.unpack]: the buffer has exactly the size of the format. *)
Definition struct_unpack (fmt : string) (b : bytes) : outcome (list value) :=
  cs ← of_option StructError (parse_format fmt);
  if decide (length b = codes_size cs) then Ok (unpack_codes cs b)
  else Raise StructError.

(** [struct.unpack_from]: the buffer reaches far enough after the offset. *)
Definition struct_unpack_from (fmt : string) (b : bytes) (offset : nat) :
    outcome (list value) :=
  cs ← of_option StructError (parse_format fmt);
  if decide (codes_size cs <= length (drop offset b))%nat
  then Ok (unpack_codes cs (drop offset b)) else Raise StructError.

(** ** Laws *)

Lemma pack_uint_ok n z :
  0 <= z < 256 ^ Z.of_nat n → pack_uint n z = Ok (le_split n z).
Proof.
  intros [? ?]. unfold pack_uint.
  by rewrite (proj2 (Z.leb_le 0 _)), (proj2 (Z.ltb_lt _ _)) by done.
Qed.

Lemma length_pack_uint n z b : pack_uint n z = Ok b → length b = n.
Proof. unfold pack_uint. intros H; inv_outcome. apply length_le_split. Qed.

Lemma length_pack_str n b : length (pack_str n b) = n.
Proof. unfold pack_str. rewrite length_app, length_take, length_replicate. lia. Qed.

Lemma length_pack_value c v b :
  c ≠ C_x → pack_value c v = Ok b → length b = code_size c.
Proof.
  destruct c, v; cbn -[pack_str le_split]; intros Hc H; try done;
    inv_outcome; eauto using length_pack_uint, length_pack_str.
Qed.

Lemma pack_codes_cons c cs vs :
  c ≠ C_x →
  pack_codes (c :: cs) vs =
    match vs with
    | [] => Raise StructError
    | v :: vs => h ← pack_value c v; t ← pack_codes cs vs; Ok (h ++ t)
    end.
Proof. by destruct c. Qed.

Lemma code_x_dec (c : code) : c = C_x ∨ c ≠ C_x.
Proof. by destruct c; [left|right..]. Qed.

Lemma length_pack_codes cs vs b :
  pack_codes cs vs = Ok b → length b = codes_size cs.
Proof.
  revert vs b. induction cs as [|c cs IH]; intros vs b.
  - destruct vs; cbn; intros; inv_outcome; done.
  - destruct (code_x_dec c) as [->|Hc].
    + cbn. intros; inv_outcome. cbn. f_equal. eauto.
    + rewrite pack_codes_cons by done. destruct vs; [done|]. intros; inv_outcome.
      rewrite length_app. cbn.
      erewrite length_pack_value, IH by eauto. done.
Qed.

Lemma pack_codes_app cs1 cs2 vs1 vs2 b1 :
  pack_codes cs1 vs1 = Ok b1 →
  pack_codes (cs1 ++ cs2) (vs1 ++ vs2) =
    (λ b2, b1 ++ b2) <$> pack_codes cs2 vs2.
Proof.
  revert vs1 b1. induction cs1 as [|c cs IH]; intros vs1 b1.
  - destruct vs1; cbn; intros; inv_outcome. by destruct (pack_codes _ _).
  - destruct (code_x_dec c) as [->|Hc].
    + cbn. intros; inv_outcome. erewrite IH by eauto.
      by destruct (pack_codes cs2 vs2).
    + cbn [app]. rewrite !pack_codes_cons by done. destruct vs1; [done|].
      intros; inv_outcome. cbn [app]. rewrite E. cbn.
      erewrite IH by eauto. destruct (pack_codes cs2 vs2); cbn; [|done].
      by rewrite app_assoc.
Qed.

(** [calcsize] is the length of what [pack] produces. *)
Lemma struct_pack_calcsize fmt vs b :
  struct_pack fmt vs = Ok b → struct_calcsize fmt = Ok (py_len b).
Proof.
  unfold struct_pack, struct_calcsize. intros; inv_outcome.
  rewrite E. cbn. unfold py_len. by erewrite length_pack_codes by eauto.
Qed.

(** A value survives [pack] and [unpack] unchanged, a string when it has
    exactly the width of its field. *)
Definition fits (c : code) (v : value) : Prop :=
  match c, v with C_s n, VStr b => length b = n | _, _ => True end.

Lemma unpack_pack_value c v b :
  fits c v → pack_value c v = Ok b → unpack_value c b = v.
Proof.
  destruct c, v; cbn -[pack_str le_split le_combine]; intros Hf H; try done;
    unfold pack_uint in *; inv_outcome.
  - apply andb_true_iff in E as [?%Z.leb_le ?%Z.leb_le].
    rewrite le_combine_split_1. f_equal. destruct (decide (0 <= z)).
    + rewrite Z.mod_small by lia. destruct (Z.ltb_spec z 128); lia.
    + rewrite <- (Z_mod_plus_full z 1), Z.mod_small by lia.
      destruct (Z.ltb_spec (z + 1 * 256) 128); lia.
  - apply andb_true_iff in E as [?%Z.leb_le ?%Z.ltb_lt].
    rewrite le_combine_split; auto with lia.
  - apply andb_true_iff in E as [?%Z.leb_le ?%Z.ltb_lt].
    rewrite le_combine_split; auto with lia.
  - apply andb_true_iff in E as [?%Z.leb_le ?%Z.ltb_lt].
    rewrite le_combine_split; auto with lia.
  - apply andb_true_iff in E as [?%Z.leb_le ?%Z.ltb_lt].
    rewrite le_combine_split; auto with lia.
  - unfold pack_str. by rewrite take_ge, Nat.sub_diag, app_nil_r by lia.
Qed.

Lemma unpack_codes_cons c cs b :
  c ≠ C_x →
  unpack_codes (c :: cs) b =
    unpack_value c (take (code_size c) b) :: unpack_codes cs (drop (code_size c) b).
Proof. by destruct c. Qed.

Fixpoint all_fit (cs : list code) (vs : list value) : Prop :=
  match cs, vs with
  | C_x :: cs, vs => all_fit cs vs
  | c :: cs, v :: vs => fits c v ∧ all_fit cs vs
  | _, _ => True
  end.

Lemma unpack_pack_codes_app cs vs b rest :
  all_fit cs vs → pack_codes cs vs = Ok b → unpack_codes cs (b ++ rest) = vs.
Proof.
  revert vs b. induction cs as [|c cs IH]; intros vs b Hfit.
  - destruct vs; cbn; intros; inv_outcome; done.
  - destruct (code_x_dec c) as [->|Hc].
    + cbn in *. intros; inv_outcome. cbn. by apply IH.
    + rewrite pack_codes_cons, unpack_codes_cons by done.
      destruct vs as [|v vs]; [done|]. intros; inv_outcome.
      assert (fits c v ∧ all_fit cs vs) as [Hv Hvs] by (by destruct c).
      pose proof (length_pack_value _ _ _ Hc E). rewrite <- app_assoc.
      rewrite take_app_length', drop_app_length' by done.
      f_equal; [by eapply unpack_pack_value|by apply IH].
Qed.

Lemma unpack_pack_codes cs vs b :
  all_fit cs vs → pack_codes cs vs = Ok b → unpack_codes cs b = vs.
Proof. rewrite <- (app_nil_r b) at 2. apply unpack_pack_codes_app. Qed.

Lemma pack_codes_app_inv cs1 cs2 vs1 vs2 b :
  Forall (λ c, c ≠ C_x) cs1 → length cs1 = length vs1 →
  pack_codes (cs1 ++ cs2) (vs1 ++ vs2) = Ok b →
  ∃ b1 b2, pack_codes cs1 vs1 = Ok b1 ∧ pack_codes cs2 vs2 = Ok b2 ∧ b = b1 ++ b2.
Proof.
  intros Hx. revert vs1 b. induction Hx as [|c cs1 Hc _ IH]; intros vs1 b Hlen.
  - destruct vs1; [|done]. intros H. exists [], b. done.
  - destruct vs1 as [|v vs1]; [done|]. injection Hlen as Hlen. cbn [app].
    rewrite !pack_codes_cons by done. intros; inv_outcome.
    destruct (IH _ _ Hlen E0) as (b1 & b2 & -> & -> & ->).
    exists (a ++ b1), b2. rewrite E. by rewrite <- app_assoc.
Qed.

(** Reading back the first fields of a longer record. *)
Lemma unpack_from_pack_prefix fmt cs1 cs2 vs1 vs2 b rest :
  parse_format fmt = Some cs1 → all_fit cs1 vs1 →
  Forall (λ c, c ≠ C_x) cs1 → length cs1 = length vs1 →
  pack_codes (cs1 ++ cs2) (vs1 ++ vs2) = Ok b →
  struct_unpack_from fmt (b ++ rest) 0 = Ok vs1.
Proof.
  intros Hp Hfit Hx Hlen Hb.
  apply pack_codes_app_inv in Hb as (b1 & b2 & Hb1 & _ & ->); [|done..].
  unfold struct_unpack_from. rewrite Hp. cbn [of_option mbind outcome_bind].
  rewrite drop_0, decide_True.
  - f_equal. rewrite <- app_assoc. by apply unpack_pack_codes_app.
  - rewrite !length_app, (length_pack_codes _ _ _ Hb1). lia.
Qed.

(** A packed record read through the format of its leading fields. *)
Lemma struct_pack_read fmt fmt1 cs1 cs2 vs1 vs2 b rest :
  parse_format fmt = Some (cs1 ++ cs2) → parse_format fmt1 = Some cs1 →
  all_fit cs1 vs1 → forallb (λ c, bool_decide (c ≠ C_x)) cs1 = true →
  length cs1 = length vs1 → struct_pack fmt (vs1 ++ vs2) = Ok b →
  struct_unpack_from fmt1 (b ++ rest) 0 = Ok vs1.
Proof.
  unfold struct_pack. intros Hf Hf1 Hfit Hx Hlen Hb. rewrite Hf in Hb.
  eapply unpack_from_pack_prefix; [done..| |done|exact Hb].
  apply Forall_forall. intros c Hc%list_elem_of_In.
  rewrite forallb_forall in Hx. apply (bool_decide_eq_true_1 _ (Hx _ Hc)).
Qed.

Lemma struct_unpack_pack fmt cs vs b :
  parse_format fmt = Some cs → all_fit cs vs →
  struct_pack fmt vs = Ok b → struct_unpack fmt b = Ok vs.
Proof.
  unfold struct_pack, struct_unpack. intros Hp Hfit; rewrite Hp; cbn.
  intros Hb. pose proof (length_pack_codes _ _ _ Hb).
  rewrite decide_True by done. f_equal. by apply unpack_pack_codes.
Qed.

(** An 8-byte buffer survives a trip through ['<Q']. *)
Lemma unpack_Q_inv b vs :
  struct_unpack "<Q" b = Ok vs → vs = [VInt (le_combine b)] ∧ length b = 8%nat.
Proof.
  unfold struct_unpack.
  replace (parse_format "<Q") with (Some [C_Q]) by reflexivity.
  unfold of_option. cbn [mbind outcome_bind]. intros H.
  destruct (decide _) as [Hlen|]; [|done]. apply Ok_inj in H as <-.
  cbn -[le_combine] in *. by rewrite (take_ge b 8) by lia.
Qed.

Lemma pack_Q_combine b :
  length b = 8%nat → struct_pack "<Q" [VInt (le_combine b)] = Ok b.
Proof.
  intros Hlen. unfold struct_pack.
  replace (parse_format "<Q") with (Some [C_Q]) by reflexivity.
  unfold of_option. cbn [mbind outcome_bind pack_codes pack_value].
  rewrite pack_uint_ok by (rewrite <- Hlen; apply le_combine_bound).
  cbn -[le_split le_combine]. by rewrite app_nil_r, <- Hlen, le_split_combine.
Qed.

Lemma length_utf16le_char c :
  length (utf16le_char c) = if c <? 0x10000 then 2%nat else 4%nat.
Proof. unfold utf16le_char. by case_match. Qed.
