(* ===== verification/PyPath.v ===== *)
(** Strings and paths: the string methods the modelled code uses and the
    functions of [posixpath], with their laws.  Paths are POSIX paths. *)

From Stdlib Require Import Ascii String.
From stdpp Require Import sorting.
From S2P Require Import Prelude.

#[local] Open Scope string_scope.

(** ** Strings *)

Lemma append_cons c s t : String c s +:+ t = String c (s +:+ t).
Proof. done. Qed.
Lemma append_nil t : "" +:+ t = t.
Proof. done. Qed.

Fixpoint string_forall (f : ascii → bool) (s : string) : bool :=
  match s with EmptyString => true | String c s => f c && string_forall f s end.

Lemma string_forall_impl (f g : ascii → bool) s :
  (∀ c, f c = true → g c = true) → string_forall f s = true → string_forall g s = true.
Proof.
  intros Hfg. induction s as [|c s IH]; [done|]. cbn. intros [Hc Hs]%andb_prop.
  by rewrite (Hfg c Hc), IH.
Qed.

Lemma string_forall_app f s t :
  string_forall f (s +:+ t) = string_forall f s && string_forall f t.
Proof.
  induction s as [|c s IH]; [done|]. rewrite append_cons.
  cbn [string_forall]. by rewrite IH, andb_assoc.
Qed.

(** What follows the prefix [p]. *)
Fixpoint strip_prefix (p s : string) : option string :=
  match p, s with
  | EmptyString, _ => Some s
  | String a p, String b s => if Ascii.eqb a b then strip_prefix p s else None
  | String _ _, EmptyString => None
  end.

Lemma strip_prefix_app p s : strip_prefix p (p +:+ s) = Some s.
Proof.
  induction p as [|c p IH]; [done|]. rewrite append_cons.
  cbn [strip_prefix]. by rewrite Ascii.eqb_refl.
Qed.

Lemma strip_prefix_spec p s r : strip_prefix p s = Some r → s = p +:+ r.
Proof.
  revert s. induction p as [|c p IH]; intros s; [by intros [= ->]|].
  destruct s as [|d s]; [done|]. cbn. destruct (Ascii.eqb_spec c d) as [->|]; [|done].
  intros Hs. by rewrite (IH _ Hs).
Qed.

(** [s.startswith(p)] *)
Definition startswith (p s : string) : bool := String.prefix p s.

Lemma startswith_spec p s : startswith p s = true ↔ ∃ t, s = p +:+ t.
Proof.
  unfold startswith. revert s. induction p as [|c p IH]; intros s.
  - split; [by exists s|by destruct s].
  - destruct s as [|d s]; [split; [done|by intros [t ?]]|]. cbn.
    destruct (ascii_dec c d) as [->|Hne].
    + rewrite IH. split; intros [t Ht]; exists t; [by rewrite Ht, append_cons|].
      rewrite append_cons in Ht. by injection Ht.
    + split; [done|]. intros [t Ht]. rewrite append_cons in Ht. by injection Ht.
Qed.

Lemma append_assoc (s t u : string) : (s +:+ t) +:+ u = s +:+ (t +:+ u).
Proof. induction s as [|c s IH]; [done|]. by rewrite !append_cons, IH. Qed.

Lemma append_empty_r s : s +:+ "" = s.
Proof. induction s as [|c s IH]; [done|]. by rewrite append_cons, IH. Qed.
Lemma length_append s t : String.length (s +:+ t) = (String.length s + String.length t)%nat.
Proof. induction s as [|c s IH]; [done|]. rewrite append_cons. cbn. by rewrite IH. Qed.

(** Equations between concatenations. *)
Ltac str_simp := repeat first [rewrite append_assoc | rewrite append_cons | rewrite append_nil
                              | rewrite append_empty_r].

(** [c in s] for a character [c], and [p in s] for a string. *)
Definition has_char (c : ascii) (s : string) : bool :=
  negb (string_forall (λ d, negb (Ascii.eqb d c)) s).
Fixpoint contains (p s : string) : bool :=
  startswith p s || match s with EmptyString => false | String _ s => contains p s end.

(** The longest beginning of characters in [f], and the rest. *)
Fixpoint span (f : ascii → bool) (s : string) : string * string :=
  match s with
  | EmptyString => ("", "")
  | String c rest =>
      if f c then (String c (fst (span f rest)), snd (span f rest)) else ("", s)
  end.

(** [s.split(c)] *)
Fixpoint split_on (c : ascii) (s : string) : list string :=
  match s with
  | EmptyString => [""]
  | String d s =>
      if Ascii.eqb d c then "" :: split_on c s
      else match split_on c s with
           | [] => [String d ""]
           | w :: ws => String d w :: ws
           end
  end.

(** What precedes the last [c] and what follows it, if there is one. *)
Fixpoint rsplit_on (c : ascii) (s : string) : option (string * string) :=
  match s with
  | EmptyString => None
  | String d s =>
      match rsplit_on c s with
      | Some (h, t) => Some (String d h, t)
      | None => if Ascii.eqb d c then Some ("", s) else None
      end
  end.

(** [s.rstrip(c)] *)
Fixpoint rstrip_char (c : ascii) (s : string) : string :=
  match s with
  | EmptyString => ""
  | String d s =>
      match rstrip_char c s with
      | EmptyString => if Ascii.eqb d c then "" else String d ""
      | s => String d s
      end
  end.

Definition quote_char : ascii := ascii_of_nat 34.
Definition double_quote : string := String quote_char "".
Definition quote (s : string) : string := double_quote +:+ s +:+ double_quote.
Definition line_feed : string := String (ascii_of_nat 10) "".

(** The order of byte strings, and [sorted(l)]. *)
Definition str_le (s t : string) : Prop := String.leb s t = true.
#[export] Instance str_le_dec s t : Decision (str_le s t).
Proof. unfold str_le. apply _. Defined.
Definition sorted (l : list string) : list string := merge_sort str_le l.

Lemma ascii_compare_refl c : Ascii.compare c c = Eq.
Proof. unfold Ascii.compare. apply N.compare_refl. Qed.
Lemma str_compare_refl s : String.compare s s = Eq.
Proof. induction s as [|c s IH]; [done|]. cbn. by rewrite ascii_compare_refl. Qed.

Lemma ascii_compare_trans x c d e :
  Ascii.compare c d = x → Ascii.compare d e = x → Ascii.compare c e = x.
Proof.
  unfold Ascii.compare. destruct x.
  - rewrite !N.compare_eq_iff. congruence.
  - rewrite !N.compare_lt_iff. lia.
  - rewrite !N.compare_gt_iff. lia.
Qed.

Lemma str_lt_trans s t u :
  String.compare s t = Lt → String.compare t u = Lt → String.compare s u = Lt.
Proof.
  revert t u. induction s as [|c s IH]; intros [|d t] [|e u]; cbn; try done.
  destruct (Ascii.compare c d) eqn:Ecd; [|intros _|done].
  - apply Ascii.compare_eq_iff in Ecd as ->.
    destruct (Ascii.compare d e); eauto.
  - destruct (Ascii.compare d e) eqn:Ede; [intros _| |done].
    + apply Ascii.compare_eq_iff in Ede as ->. by rewrite Ecd.
    + intros _. by rewrite (ascii_compare_trans Lt c d e).
Qed.

Lemma str_le_spec s t : str_le s t ↔ s = t ∨ String.compare s t = Lt.
Proof.
  unfold str_le, String.leb. destruct (String.compare s t) eqn:E.
  - apply String.compare_eq_iff in E. naive_solver.
  - naive_solver.
  - split; [done|]. intros [->|]; [|done]. by rewrite str_compare_refl in E.
Qed.

#[export] Instance str_le_total : Total str_le.
Proof. intros s t. unfold str_le. destruct (String.leb_total s t); auto. Qed.
#[export] Instance str_le_partial_order : PartialOrder str_le.
Proof.
  split; [split|].
  - intros s. rewrite str_le_spec. by left.
  - intros s t u. rewrite !str_le_spec. intros [->|?] [->|?]; eauto using str_lt_trans.
  - intros s t. rewrite !str_le_spec. intros [->|Hst] [?|Hts]; try done.
    pose proof (str_lt_trans _ _ _ Hst Hts) as H.
    by rewrite str_compare_refl in H.
Qed.

(** Sorting is a function of the elements alone. *)
Lemma sorted_perm l k : l ≡ₚ k → sorted l = sorted k.
Proof.
  intros Hlk. unfold sorted. apply (Sorted_unique str_le).
  - apply Sorted_merge_sort. apply _.
  - apply Sorted_merge_sort. apply _.
  - by rewrite !merge_sort_Permutation.
Qed.

(** A prefix comes first. *)
Lemma str_le_app s t : str_le s (s +:+ t).
Proof.
  unfold str_le, String.leb. induction s as [|c s IH]; [by destruct t|].
  rewrite append_cons. cbn. by rewrite ascii_compare_refl.
Qed.

(** ** Paths *)

Definition slash : ascii := "/"%char.

(** [os.path.join] of two parts. *)
Fixpoint ends_with_slash (s : string) : bool :=
  match s with
  | EmptyString => false
  | String c EmptyString => Ascii.eqb c slash
  | String _ s => ends_with_slash s
  end.
Definition path_join (a b : string) : string :=
  match b with
  | String c _ =>
      if Ascii.eqb c slash then b
      else if String.eqb a "" || ends_with_slash a then a +:+ b else a +:+ "/" +:+ b
  | EmptyString => if String.eqb a "" || ends_with_slash a then a else a +:+ "/"
  end.

Definition isabs (s : string) : bool := startswith "/" s.

(** [os.path.split]: the directory loses its trailing slashes unless it is made
    of them. *)
Definition path_split (s : string) : string * string :=
  match rsplit_on slash s with
  | None => ("", s)
  | Some (h, t) =>
      let head := h +:+ "/" in
      (if String.eqb (rstrip_char slash head) "" then head else rstrip_char slash head, t)
  end.
Definition dirname (s : string) : string := fst (path_split s).
Definition basename (s : string) : string := snd (path_split s).

(** [os.path.splitext(s)[1]]: leading dots of the last component do not count. *)
Definition extension (s : string) : string :=
  let name := match rsplit_on slash s with None => s | Some (_, t) => t end in
  match rsplit_on "."%char name with
  | None => ""
  | Some (h, t) =>
      if string_forall (Ascii.eqb "."%char) h then "" else String "."%char t
  end.

(** [os.path.splitext(s)[0]] *)
Definition without_extension (s : string) : string :=
  String.substring 0 (String.length s - String.length (extension s)) s.

(** [posixpath.normpath] *)
Fixpoint norm_components (absolute : bool) (acc comps : list string) : list string :=
  match comps with
  | [] => rev acc
  | c :: comps =>
      if String.eqb c "" || String.eqb c "." then norm_components absolute acc comps
      else if negb (String.eqb c "..")
              || (negb absolute && bool_decide (acc = []))
              || match acc with top :: _ => String.eqb top ".." | [] => false end
      then norm_components absolute (c :: acc) comps
      else norm_components absolute (tl acc) comps
  end.
Definition normpath (s : string) : string :=
  let absolute := startswith "/" s in
  let slashes := if startswith "//" s && negb (startswith "///" s) then "//"
                 else if absolute then "/" else "" in
  let path := slashes +:+ String.concat "/" (norm_components absolute [] (split_on slash s)) in
  if String.eqb path "" then "." else path.

(** [os.path.abspath] in the working directory [cwd]. *)
Definition abspath (cwd s : string) : string :=
  normpath (if isabs s then s else path_join cwd s).

Fixpoint common_prefix (l k : list string) : nat :=
  match l, k with
  | x :: l, y :: k => if String.eqb x y then S (common_prefix l k) else 0
  | _, _ => 0
  end.

(** [os.path.relpath(path, start)] *)
Definition relpath (cwd path start : string) : outcome string :=
  if String.eqb path "" then Raise (ValueError "no path specified")
  else
    let components s :=
      base.filter (λ x, x ≠ "") (split_on slash (abspath cwd s)) in
    let start_list := components start in
    let path_list := components path in
    let i := common_prefix start_list path_list in
    let rel := (replicate (length start_list - i) ".." ++ drop i path_list)%list in
    Ok (match rel with [] => "." | _ => String.concat "/" rel end).

(** ** Substrings *)

Lemma substring_all s : String.substring 0 (String.length s) s = s.
Proof. induction s as [|c s IH]; [done|]. cbn. by rewrite IH. Qed.

Lemma substring_append pre s rest :
  String.substring (String.length pre) (String.length s) (pre +:+ s +:+ rest) = s.
Proof.
  induction pre as [|c pre IH]; [|exact IH]. rewrite append_nil. cbn [String.length].
  induction s as [|c s IH]; [by destruct rest|]. rewrite append_cons. cbn. by rewrite IH.
Qed.

(** ** String literals with escapes *)

Definition backslash : ascii := "\"%char.

(** The body of a string literal: up to the first quote that no backslash
    precedes. *)
Fixpoint string_body (s : string) : bool :=
  match s with
  | EmptyString => true
  | String c rest =>
      if Ascii.eqb c quote_char then false
      else if Ascii.eqb c backslash then
        match rest with EmptyString => false | String _ rest => string_body rest end
      else string_body rest
  end.

(** The body at the beginning of a text, and what follows; [None] if a backslash
    ends the text. *)
Fixpoint string_span (s : string) : option (string * string) :=
  match s with
  | EmptyString => Some ("", "")
  | String c rest =>
      if Ascii.eqb c quote_char then Some ("", s)
      else if Ascii.eqb c backslash then
        match rest with
        | EmptyString => None
        | String d rest =>
            '(b, r) ← string_span rest; Some (String c (String d b), r)
        end
      else '(b, r) ← string_span rest; Some (String c b, r)
  end.

(** Induction in steps of one or two characters. *)
Lemma string_ind2 (Q : string → Prop) :
  Q "" → (∀ c s, Q s → (∀ d t, s = String d t → Q t) → Q (String c s)) → ∀ s, Q s.
Proof.
  intros H0 HS s. cut (Q s ∧ ∀ d t, s = String d t → Q t); [tauto|].
  induction s as [|c s [IH1 IH2]]; [done|]. split; [auto|by intros d t [= -> ->]].
Qed.

Lemma string_span_body b rest :
  string_body b = true → string_span (b +:+ String quote_char rest) = Some (b, String quote_char rest).
Proof.
  induction b as [|c b IH IH2] using string_ind2; [done|].
  rewrite append_cons. cbn [string_body string_span].
  destruct (Ascii.eqb c quote_char); [done|]. destruct (Ascii.eqb c backslash).
  - destruct b as [|d b]; [done|]. intros Hb. rewrite append_cons. by rewrite (IH2 d b).
  - intros Hb. by rewrite IH.
Qed.

Lemma string_span_spec s b r :
  string_span s = Some (b, r) →
  s = b +:+ r ∧ string_body b = true ∧ (r = "" ∨ ∃ t, r = String quote_char t).
Proof.
  revert b. induction s as [|c s IH IH2] using string_ind2; intros b; cbn [string_span].
  { intros [= <- <-]. auto. }
  destruct (Ascii.eqb_spec c quote_char) as [->|Hq]; [intros [= <- <-]; eauto|].
  destruct (Ascii.eqb_spec c backslash) as [->|Hb].
  - destruct s as [|d s]; [done|]. specialize (IH2 d s eq_refl).
    destruct (string_span s) as [[b' r']|]; [|done]. intros [= <- <-].
    destruct (IH2 b' eq_refl) as (-> & Hbody & Hr). by rewrite !append_cons.
  - destruct (string_span s) as [[b' r']|]; [|done]. intros [= <- <-].
    destruct (IH b' eq_refl) as (-> & Hbody & Hr). rewrite append_cons.
    split_and!; [done| |done]. cbn. apply Ascii.eqb_neq in Hq as ->.
    by apply Ascii.eqb_neq in Hb as ->.
Qed.
