(* ===== verification/UsbConstants.v ===== *)
(** The constants of usb_constants.py, one Module per class ([Type] is
    a keyword here, so that class is [Type_]). *)

From Stdlib Require Import ZArith.
#[local] Open Scope Z_scope.

Module DescriptorType.
Definition DEVICE : Z := 1.
Definition CONFIGURATION : Z := 2.
Definition STRING : Z := 3.
Definition INTERFACE : Z := 4.
Definition ENDPOINT : Z := 5.
Definition QUALIFIER : Z := 6.
Definition OTHER_SPEED_CONFIGURATION : Z := 7.
Definition BOS : Z := 15.
Definition DEVICE_CAPABILITY : Z := 16.
End DescriptorType.

Module CapabilityType.
Definition WIRELESS_USB : Z := 0x01.
Definition USB_20_EXTENSION : Z := 0x02.
Definition SUPERSPEED_USB : Z := 0x03.
Definition CONTAINER_ID : Z := 0x04.
Definition PLATFORM : Z := 0x05.
Definition POWER_DELIVERY_CAPABILITY : Z := 0x06.
Definition BATTERY_INFO_CAPABILITY : Z := 0x07.
Definition PD_CONSUMER_PORT_CAPABILITY : Z := 0x08.
Definition PD_PROVIDER_PORT_CAPABILITY : Z := 0x09.
Definition SUPERSPEED_PLUS : Z := 0x0A.
Definition PRECISION_TIME_MEASUREMENT : Z := 0x0B.
Definition WIRELESS_USB_EXT : Z := 0x0C.
End CapabilityType.

Module DeviceClass.
Definition PER_INTERFACE : Z := 0.
Definition AUDIO : Z := 1.
Definition COMM : Z := 2.
Definition HID : Z := 3.
Definition PHYSICAL : Z := 5.
Definition STILL_IMAGE : Z := 6.
Definition PRINTER : Z := 7.
Definition MASS_STORAGE : Z := 8.
Definition HUB : Z := 9.
Definition CDC_DATA : Z := 10.
Definition CSCID : Z := 11.
Definition CONTENT_SEC : Z := 13.
Definition VIDEO : Z := 14.
Definition VENDOR : Z := 0xFF.
End DeviceClass.

Module DeviceSubClass.
Definition PER_INTERFACE : Z := 0.
Definition VENDOR : Z := 0xFF.
End DeviceSubClass.

Module DeviceProtocol.
Definition PER_INTERFACE : Z := 0.
Definition VENDOR : Z := 0xFF.
End DeviceProtocol.

Module InterfaceClass.
Definition VENDOR : Z := 0xFF.
End InterfaceClass.

Module InterfaceSubClass.
Definition VENDOR : Z := 0xFF.
End InterfaceSubClass.

Module InterfaceProtocol.
Definition VENDOR : Z := 0xFF.
End InterfaceProtocol.

Module TransferType.
Definition MASK : Z := 3.
Definition CONTROL : Z := 0.
Definition ISOCHRONOUS : Z := 1.
Definition BULK : Z := 2.
Definition INTERRUPT : Z := 3.
End TransferType.

Module Dir.
Definition OUT : Z := 0.
Definition IN : Z := 0x80.
End Dir.

Module Type_.
Definition MASK : Z := 0x60.
Definition STANDARD : Z := 0x00.
Definition CLASS : Z := 0x20.
Definition VENDOR : Z := 0x40.
Definition RESERVED : Z := 0x60.
End Type_.

Module Recipient.
Definition MASK : Z := 0x1f.
Definition DEVICE : Z := 0.
Definition INTERFACE : Z := 1.
Definition ENDPOINT : Z := 2.
Definition OTHER : Z := 3.
End Recipient.

Module Request.
Definition GET_STATUS : Z := 0x00.
Definition CLEAR_FEATURE : Z := 0x01.
Definition SET_FEATURE : Z := 0x03.
Definition SET_ADDRESS : Z := 0x05.
Definition GET_DESCRIPTOR : Z := 0x06.
Definition SET_DESCRIPTOR : Z := 0x07.
Definition GET_CONFIGURATION : Z := 0x08.
Definition SET_CONFIGURATION : Z := 0x09.
Definition GET_INTERFACE : Z := 0x0A.
Definition SET_INTERFACE : Z := 0x0B.
Definition SYNCH_FRAME : Z := 0x0C.
Definition SET_SEL : Z := 0x30.
Definition SET_ISOCH_DELAY : Z := 0x31.
End Request.

Module Speed.
Definition UNKNOWN : Z := 0.
Definition LOW : Z := 1.
Definition FULL : Z := 2.
Definition HIGH : Z := 3.
Definition WIRELESS : Z := 4.
Definition SUPER : Z := 5.
End Speed.

Module VendorID.
Definition GOOGLE : Z := 0x18D1.
End VendorID.

Module ProductID.
Definition GOOGLE_TEST_GADGET : Z := 0x58F0.
Definition GOOGLE_KEYBOARD_GADGET : Z := 0x58F1.
Definition GOOGLE_MOUSE_GADGET : Z := 0x58F2.
Definition GOOGLE_HID_ECHO_GADGET : Z := 0x58F3.
Definition GOOGLE_ECHO_GADGET : Z := 0x58F4.
Definition GOOGLE_COMPOSITE_ECHO_GADGET : Z := 0x58F5.
End ProductID.
