(* ===== verification/HidConstants.v ===== *)
(** The constants and the key tables of hid_constants.py.  The enumerations are
    one Module per class; [KEY_CODES] and [SHIFT_KEY_CODES] are the dicts the
    module builds at import time by zipping keys with code ranges. *)

From S2P Require Import Prelude UsbConstants.
#[local] Open Scope Z_scope.

Module DescriptorType.
Definition HID : Z := Z.lor UsbConstants.Type_.CLASS 0x01.
Definition REPORT : Z := Z.lor UsbConstants.Type_.CLASS 0x02.
Definition PHYSICAL : Z := Z.lor UsbConstants.Type_.CLASS 0x03.
End DescriptorType.

Module Scope.
Definition MAIN : Z := 0.
Definition GLOBAL : Z := 1.
Definition LOCAL : Z := 2.
End Scope.

Module CollectionType.
Definition PHYSICAL : Z := 0.
Definition APPLICATION : Z := 1.
Definition LOGICAL : Z := 2.
Definition REPORT : Z := 3.
Definition NAMED_ARRAY : Z := 4.
Definition USAGE_SWITCH : Z := 5.
Definition USAGE_MODIFIER : Z := 6.
End CollectionType.

Module Request.
Definition GET_REPORT : Z := 1.
Definition GET_IDLE : Z := 2.
Definition GET_PROTOCOL : Z := 3.
Definition SET_REPORT : Z := 9.
Definition SET_IDLE : Z := 0x0A.
Definition SET_PROTOCOL : Z := 0x0B.
End Request.

Module ReportType.
Definition INPUT : Z := 1.
Definition OUTPUT : Z := 2.
Definition FEATURE : Z := 3.
End ReportType.

Module ModifierKey.
Definition L_CTRL : Z := 0x01.
Definition L_SHIFT : Z := 0x02.
Definition L_ALT : Z := 0x04.
Definition L_GUI : Z := 0x08.
Definition R_CTRL : Z := 0x10.
Definition R_SHIFT : Z := 0x20.
Definition R_ALT : Z := 0x40.
Definition R_GUI : Z := 0x80.
End ModifierKey.

Module LED.
Definition NUM_LOCK : Z := 0x01.
Definition CAPS_LOCK : Z := 0x02.
Definition SCROLL_LOCK : Z := 0x04.
Definition COMPOSE : Z := 0x08.
Definition KANA : Z := 0x10.
End LED.

Module Mouse.
Definition BUTTON_1 : Z := 0x01.
Definition BUTTON_2 : Z := 0x02.
Definition BUTTON_3 : Z := 0x04.
End Mouse.

(** ** Key tables *)

(** A one-character string, [chr(n)]; keys of several characters are the named
    keys. *)
Definition chr (n : Z) : string :=
  String (Ascii.ascii_of_N (Z.to_N n)) EmptyString.

(** The characters of a string as one-character keys. *)
Fixpoint chars (s : string) : list string :=
  match s with
  | EmptyString => []
  | String c s => String c EmptyString :: chars s
  end.

(** [for key, code in zip(keys, codes): table[key] = code]; [zip] stops at the
    end of the shorter list and a later key overwrites an earlier one. *)
Definition add_keys (keys : list string) (codes : list Z)
    (table : gmap string Z) : gmap string Z :=
  foldl (λ t '(key, code), <[key := code]> t) table (zip keys codes).

Definition KEY_CODES : gmap string Z :=
  add_keys ["CapsLock"; "F1"; "F2"; "F3"; "F4"; "F5"; "F6"; "F7"; "F8"; "F9";
            "F10"; "F11"; "F12"; "PrintScreen"; "ScrollLock"; "Pause"; "Insert";
            "Home"; "PageUp"; "PageDown"; "Delete"; "End"; "PageDown";
            "RightArrow"; "LeftArrow"; "DownArrow"; "UpArrow"; "NumLock"]
           (xrange 57 84) $
  add_keys (chars ";'`,./") (xrange 51 57) $
  add_keys (chars "-=[]\") (xrange 45 50) $
  add_keys ["Enter"; "Esc"; "Backspace"; "Tab"; " "] (xrange 40 45) $
  add_keys (chr <$> xrange 49 (57 + 1)) (xrange 30 39) $
  add_keys (chr <$> xrange 97 (122 + 1)) (xrange 4 30) ∅.

(** The double quote among the keys is written [chr 34]. *)
Definition SHIFT_KEY_CODES : gmap string Z :=
  add_keys ([":"; chr 34] ++ chars "~<>?") (xrange 51 57) $
  add_keys (chars "_+{}|") (xrange 45 50) $
  add_keys (chars "!@#$%^&*()") (xrange 30 40) $
  add_keys (chr <$> xrange 65 (90 + 1)) (xrange 4 30) ∅.

(** ** Facts about the tables *)

(** Each table gives every key a code of the key-code page that fits a byte of
    the input report and is not 0, the value of a free slot. *)
Definition table_in_range (table : gmap string Z) : bool :=
  forallb (λ kv, (0 <? kv.2) && (kv.2 <? 256)) (map_to_list table).

Lemma table_in_range_spec table key code :
  table_in_range table = true → table !! key = Some code → 0 < code < 256.
Proof.
  unfold table_in_range. intros Hall Hk. rewrite forallb_forall in Hall.
  apply elem_of_map_to_list in Hk.
  specialize (Hall (key, code)). rewrite <- list_elem_of_In in Hall.
  apply Hall in Hk as [?%Z.ltb_lt ?%Z.ltb_lt]%andb_true_iff. cbn in *. lia.
Qed.

Lemma KEY_CODES_range key code : KEY_CODES !! key = Some code → 0 < code < 256.
Proof. apply table_in_range_spec. by vm_compute. Qed.

Lemma SHIFT_KEY_CODES_range key code :
  SHIFT_KEY_CODES !! key = Some code → 0 < code < 256.
Proof. apply table_in_range_spec. by vm_compute. Qed.

(** The codes of the navigation keys.  The names from [Delete] on are one place too
    far along the range, since the list of names holds [PageDown] twice and is one
    longer than the range: [NumLock] gets no code, and no key has the code of the
    digit 0. *)
Lemma KEY_CODES_navigation :
  (λ key, KEY_CODES !! key) <$>
    ["PageUp"; "Delete"; "End"; "PageDown"; "RightArrow"; "LeftArrow"; "DownArrow";
     "UpArrow"; "NumLock"; "0"] =
    [Some 75; Some 77; Some 78; Some 79; Some 80; Some 81; Some 82; Some 83; None; None] ∧
  SHIFT_KEY_CODES !! ")" = Some 39.
Proof. split; by vm_compute. Qed.
