(* ===== verification/UsbDescriptors.v ===== *)
(** The descriptor classes of usb_descriptors.py.

    A descriptor is an object of a shared store: containers, configurations and
    the gadget hold references to it, and it is changed in place after it has
    been added to its parent.  The store is a list, a reference a position in
    it; objects are only ever allocated.

    A class is described by its [_fields] list, which the [AddField] family
    extends, and by the base class whose methods it inherits. *)

From S2P Require Import Prelude PyStruct UsbConstants HidConstants.

#[local] Open Scope Z_scope.

(** ** Fields *)

(** The closure [AddField] and its siblings install as property getter. *)
Inductive Getter :=
  | GetPlain (default : option value)
  | GetFixed (v : value)
  | GetComputed (property_name : string).

Record Field := mkField {
  f_name : string;
  f_str_fmt : string;
  f_struct_fmt : string;
  f_required : bool;
  f_getter : Getter
}.

#[export] Instance Getter_eq_dec : EqDecision Getter.
Proof. solve_decision. Defined.
#[export] Instance Field_eq_dec : EqDecision Field.
Proof. solve_decision. Defined.

Definition AddField (name struct_fmt str_fmt : string) (default : option value)
    (fields : list Field) : list Field :=
  fields ++ [mkField name str_fmt struct_fmt (negb (is_not_none default))
               (GetPlain default)].

Definition AddFixedField (name struct_fmt : string) (v : value)
    (str_fmt : string) (fields : list Field) : list Field :=
  fields ++ [mkField name str_fmt struct_fmt false (GetFixed v)].

Definition AddComputedField (name struct_fmt property_name str_fmt : string)
    (fields : list Field) : list Field :=
  fields ++ [mkField name str_fmt struct_fmt false (GetComputed property_name)].

(** ** Classes and objects *)

(** The class whose [__init__], sizes and [Encode] a descriptor class has. *)
Inductive Base :=
  | Base_Descriptor
  | Base_DescriptorContainer
  | Base_StringDescriptor
  | Base_ConfigurationDescriptor
  | Base_InterfaceDescriptor
  | Base_HidDescriptor
  | Base_BosDescriptor
  | Base_PlatformCapabilityDescriptor.

#[export] Instance Base_eq_dec : EqDecision Base.
Proof. solve_decision. Defined.

Record ClassDef := mkClass {
  c_name : string;
  c_base : Base;
  c_fields : list Field
}.

#[export] Instance ClassDef_eq_dec : EqDecision ClassDef.
Proof. solve_decision. Defined.

(** [isinstance(self, DescriptorContainer)]. *)
Definition is_container (b : Base) : bool :=
  match b with
  | Base_DescriptorContainer | Base_ConfigurationDescriptor
  | Base_InterfaceDescriptor | Base_BosDescriptor => true
  | _ => false
  end.

Abbreviation loc := nat.

(** The instance attributes of all classes; an object uses those of its own
    class and leaves the others at their initial value. *)
Record obj := mkObj {
  o_class : ClassDef;
  o_attrs : gmap string value;
  o_bString : text;
  o_descriptors : list loc;
  o_hid_descriptors : list (Z * Z);
  o_interfaces : gmap (Z * Z) loc;
  o_endpoints : gmap Z loc;
  o_device_caps : list loc;
  o_descriptor_set : option loc
}.

Abbreviation heap := (list obj).

Definition set_attrs (v : gmap string value) (o : obj) : obj :=
  mkObj (o_class o) v (o_bString o) (o_descriptors o) (o_hid_descriptors o)
    (o_interfaces o) (o_endpoints o) (o_device_caps o) (o_descriptor_set o).
Definition set_descriptors (v : list loc) (o : obj) : obj :=
  mkObj (o_class o) (o_attrs o) (o_bString o) v (o_hid_descriptors o)
    (o_interfaces o) (o_endpoints o) (o_device_caps o) (o_descriptor_set o).
Definition set_hid_descriptors (v : list (Z * Z)) (o : obj) : obj :=
  mkObj (o_class o) (o_attrs o) (o_bString o) (o_descriptors o) v
    (o_interfaces o) (o_endpoints o) (o_device_caps o) (o_descriptor_set o).
Definition set_interfaces (v : gmap (Z * Z) loc) (o : obj) : obj :=
  mkObj (o_class o) (o_attrs o) (o_bString o) (o_descriptors o)
    (o_hid_descriptors o) v (o_endpoints o) (o_device_caps o) (o_descriptor_set o).
Definition set_endpoints (v : gmap Z loc) (o : obj) : obj :=
  mkObj (o_class o) (o_attrs o) (o_bString o) (o_descriptors o)
    (o_hid_descriptors o) (o_interfaces o) v (o_device_caps o) (o_descriptor_set o).
Definition set_device_caps (v : list loc) (o : obj) : obj :=
  mkObj (o_class o) (o_attrs o) (o_bString o) (o_descriptors o)
    (o_hid_descriptors o) (o_interfaces o) (o_endpoints o) v (o_descriptor_set o).
Definition set_descriptor_set (v : option loc) (o : obj) : obj :=
  mkObj (o_class o) (o_attrs o) (o_bString o) (o_descriptors o)
    (o_hid_descriptors o) (o_interfaces o) (o_endpoints o) (o_device_caps o) v.

(** A reference to no object: Python has none, so well-formed stores never
    meet it. *)
Definition dangling : exn := AttributeError "dangling reference".

Definition deref (h : heap) (l : loc) : outcome obj :=
  of_option dangling (h !! l).

Definition alloc (o : obj) : M heap loc := λ h, (Ok (length h), h ++ [o]).

Definition modify_obj (l : loc) (f : obj → obj) : M heap unit :=
  modify (λ h, alter f l h).

(** ** Construction *)

(** [setattr(self, arg, value)]: the property setter of the field. *)
Definition set_field (f : Field) (v : value) (attrs : gmap string value) :
    outcome (gmap string value) :=
  match f_getter f with
  | GetPlain _ => Ok (<[f_name f := v]> attrs)
  | GetFixed _ => Raise (RuntimeError (f_name f +:+ " is a fixed field."))
  | GetComputed _ => Raise (RuntimeError (f_name f +:+ " is a computed field."))
  end.

Definition find_field (name : string) (fields : list Field) : option Field :=
  List.find (λ f, String.eqb (f_name f) name) fields.

(** The keyword arguments, in the order [iteritems] visits them. *)
Abbreviation kwargs := (list (string * value)).

Fixpoint init_args (fields : list Field) (args : kwargs)
    (attrs : gmap string value) (required : list string) :
    outcome (gmap string value * list string) :=
  match args with
  | [] => Ok (attrs, required)
  | (arg, v) :: args =>
      match find_field arg fields with
      | None => Raise (TypeError ("Unexpected field: " +:+ arg))
      | Some f =>
          attrs ← set_field f v attrs;
          init_args fields args attrs
            (base.filter (λ n, n ≠ arg) required)
      end
  end.

(** [Descriptor.__init__] *)
Definition Descriptor_init (fields : list Field) (args : kwargs) :
    outcome (gmap string value) :=
  '(attrs, missing) ← init_args fields args ∅
                        (f_name <$> base.filter (λ f, f_required f = true) fields);
  match missing with
  | [] => Ok attrs
  | _ => Raise (TypeError ("Missing fields: " +:+ String.concat ", " missing))
  end.

(** Calling a class with keyword arguments. *)
Definition new (c : ClassDef) (args : kwargs) : M heap loc :=
  attrs ← lift (Descriptor_init (c_fields c) args);
  alloc (mkObj c attrs [] [] [] ∅ ∅ [] None).

(** [StringDescriptor.__init__] takes [bString] out of the arguments first. *)
Definition new_string (c : ClassDef) (bString : text) (args : kwargs) :
    M heap loc :=
  attrs ← lift (Descriptor_init (c_fields c) args);
  alloc (mkObj c attrs bString [] [] ∅ ∅ [] None).

(** ** Sizes, properties and encoding *)

(** The [fmt] property. *)
Definition fmt (c : ClassDef) : string :=
  "<" +:+ String.concat "" (f_struct_fmt <$> c_fields c).

(** The [struct_size] property, which [HidDescriptor] overrides. *)
Definition struct_size (o : obj) : outcome Z :=
  n ← struct_calcsize (fmt (o_class o));
  match c_base (o_class o) with
  | Base_HidDescriptor => Ok (n + py_len (o_hid_descriptors o) * 3)
  | _ => Ok n
  end.

(** The [total_size] property; [depth] bounds the recursion. *)
Fixpoint total_size (depth : nat) (h : heap) (l : loc) : outcome Z :=
  match depth with
  | O => Raise recursion_error
  | S depth =>
      o ← deref h l;
      n ← struct_size o;
      if is_container (c_base (o_class o)) then
        sizes ← mapM (total_size depth h) (o_descriptors o);
        Ok (n + py_sum sizes)
      else if decide (c_base (o_class o) = Base_StringDescriptor) then
        Ok (n + py_len (utf16le (o_bString o)))
      else Ok n
  end.

(** [len({key[0] for key in self._interfaces.iterkeys()})] *)
Definition num_interfaces (o : obj) : Z :=
  Z.of_nat (size (set_map fst (dom (o_interfaces o)) : gset Z)).

(** The properties computed fields read, by name. *)
Definition property (total set_size : unit → outcome Z) (o : obj)
    (name : string) : outcome Z :=
  let b := c_base (o_class o) in
  if String.eqb name "struct_size" then struct_size o
  else if String.eqb name "total_size" then total ()
  else if String.eqb name "num_interfaces"
          && bool_decide (b = Base_ConfigurationDescriptor)
  then Ok (num_interfaces o)
  else if String.eqb name "num_endpoints"
          && bool_decide (b = Base_InterfaceDescriptor)
  then Ok (Z.of_nat (size (o_endpoints o)))
  else if String.eqb name "num_descriptors"
          && bool_decide (b = Base_HidDescriptor)
  then Ok (py_len (o_hid_descriptors o))
  else if String.eqb name "num_device_caps"
          && bool_decide (b = Base_BosDescriptor)
  then Ok (py_len (o_device_caps o))
  else if String.eqb name "descriptor_set_size"
          && bool_decide (b = Base_PlatformCapabilityDescriptor)
  then set_size ()
  else Raise (AttributeError name).

(** The property getter of a field. *)
Definition field_value (total set_size : unit → outcome Z) (o : obj)
    (f : Field) : outcome value :=
  match f_getter f with
  | GetPlain default =>
      match o_attrs o !! f_name f with
      | Some v => Ok v
      | None => of_option AssertionError default
      end
  | GetFixed v => Ok v
  | GetComputed p => VInt <$> property total set_size o p
  end.

Definition getattr (total set_size : unit → outcome Z) (o : obj)
    (name : string) : outcome value :=
  f ← of_option (AttributeError name) (find_field name (c_fields (o_class o)));
  field_value total set_size o f.

(** [Descriptor.Encode]: the object's own fields. *)
Definition encode_fields (total set_size : unit → outcome Z) (o : obj) :
    outcome bytes :=
  values ← mapM (λ f, getattr total set_size o (f_name f)) (c_fields (o_class o));
  struct_pack (fmt (o_class o)) values.

(** [Encode], with the overrides of the container, string and HID classes. *)
Fixpoint Encode (depth : nat) (h : heap) (l : loc) : outcome bytes :=
  match depth with
  | O => Raise recursion_error
  | S depth' =>
      o ← deref h l;
      let set_size _ :=
        match o_descriptor_set o with
        | None => Ok 0
        | Some d => b ← Encode depth' h d; Ok (py_len b)
        end in
      head ← encode_fields (λ _, total_size depth h l) set_size o;
      if is_container (c_base (o_class o)) then
        bufs ← mapM (Encode depth' h) (o_descriptors o);
        Ok (head ++ concat bufs)
      else match c_base (o_class o) with
      | Base_StringDescriptor => Ok (head ++ utf16le (o_bString o))
      | Base_HidDescriptor =>
          bufs ← mapM (λ '(typ, length),
                         struct_pack "<BH" [VInt typ; VInt length])
                      (o_hid_descriptors o);
          Ok (head ++ concat bufs)
      | _ => Ok head
      end
  end.

(** The depth every acyclic store stays below. *)
Definition max_depth (h : heap) : nat := S (length h).

(** Reading an integer attribute of an object, [obj.name]. *)
Definition getattr_int (h : heap) (l : loc) (name : string) : outcome Z :=
  o ← deref h l;
  v ← getattr (λ _, total_size (max_depth h) h l)
        (λ _, match o_descriptor_set o with
              | None => Ok 0
              | Some d => b ← Encode (max_depth h) h d; Ok (py_len b)
              end) o name;
  match v with VInt z => Ok z | VStr _ => Raise (TypeError "an integer is required") end.

(** ** Mutators *)

(** [self.name = value] through the property of the field. *)
Definition setattr (self : loc) (name : string) (v : value) : M heap unit :=
  h ← gets id;
  o ← lift (deref h self);
  f ← lift (of_option (AttributeError name) (find_field name (c_fields (o_class o))));
  attrs ← lift (set_field f v (o_attrs o));
  modify_obj self (set_attrs attrs).

(** [DescriptorContainer.Add] *)
Definition Add (self descriptor : loc) : M heap unit :=
  modify_obj self (λ o, set_descriptors (o_descriptors o ++ [descriptor]) o).

(** [ConfigurationDescriptor.AddInterface] *)
Definition AddInterface (self interface : loc) : M heap unit :=
  h ← gets id;
  o ← lift (deref h self);
  num ← lift (getattr_int h interface "bInterfaceNumber");
  alt ← lift (getattr_int h interface "bAlternateSetting");
  match o_interfaces o !! (num, alt) with
  | Some _ => raise (RuntimeError ("Interface " +:+ pretty num +:+ " (alternate "
                                     +:+ pretty alt +:+ ") already defined."))
  | None =>
      modify_obj self (λ o, set_interfaces (<[(num, alt) := interface]> (o_interfaces o)) o);;
      Add self interface
  end.

(** An upper-case hexadecimal number padded to a width, ["{:02X}"]. *)
Fixpoint hex_digits (fuel : nat) (z : Z) (acc : string) : string :=
  match fuel with
  | O => acc
  | S fuel =>
      let d := z mod 16 in
      let c := Ascii.ascii_of_N (Z.to_N (if d <? 10 then 48 + d else 55 + d)) in
      let acc := String c acc in
      if z / 16 =? 0 then acc else hex_digits fuel (z / 16) acc
  end.
Definition hex (width : nat) (z : Z) : string :=
  let s := hex_digits (S (Z.to_nat (Z.log2 z))) z "" in
  String.concat "" (replicate (width - String.length s) "0") +:+ s.

(** [InterfaceDescriptor.AddEndpoint] *)
Definition AddEndpoint (self endpoint : loc) : M heap unit :=
  h ← gets id;
  o ← lift (deref h self);
  addr ← lift (getattr_int h endpoint "bEndpointAddress");
  match o_endpoints o !! addr with
  | Some _ => raise (RuntimeError ("Endpoint 0x" +:+ hex 2 addr
                                     +:+ " already defined on this interface."))
  | None =>
      modify_obj self (λ o, set_endpoints (<[addr := endpoint]> (o_endpoints o)) o);;
      Add self endpoint
  end.

(** [HidDescriptor.AddDescriptor] *)
Definition AddDescriptor (self : loc) (typ length : Z) : M heap unit :=
  modify_obj self (λ o, set_hid_descriptors (o_hid_descriptors o ++ [(typ, length)]) o).

(** [BosDescriptor.AddDeviceCapability] *)
Definition AddDeviceCapability (self device_capability : loc) : M heap unit :=
  modify_obj self (λ o, set_device_caps (o_device_caps o ++ [device_capability]) o);;
  Add self device_capability.

(** [GetInterfaces] and [GetEndpoints]: [dict.values()]. *)
Definition GetInterfaces `{DictOrder} (h : heap) (self : loc) : outcome (list loc) :=
  o ← deref h self; Ok (dict_items (o_interfaces o)).*2.
Definition GetEndpoints `{DictOrder} (h : heap) (self : loc) : outcome (list loc) :=
  o ← deref h self; Ok (dict_items (o_endpoints o)).*2.

(** [GetDeviceCapabilities] *)
Definition GetDeviceCapabilities (h : heap) (self : loc) : outcome (list loc) :=
  o_device_caps <$> deref h self.

(** ** The standard descriptor classes *)

Definition DeviceDescriptor : ClassDef := mkClass "DeviceDescriptor" Base_Descriptor $
  AddField "bNumConfigurations" "B" "{}" (Some (VInt 1)) $
  AddField "iSerialNumber" "B" "{}" (Some (VInt 0)) $
  AddField "iProduct" "B" "{}" (Some (VInt 0)) $
  AddField "iManufacturer" "B" "{}" (Some (VInt 0)) $
  AddField "bcdDevice" "H" "0x{:04X}" None $
  AddField "idProduct" "H" "0x{:04X}" None $
  AddField "idVendor" "H" "0x{:04X}" None $
  AddField "bMaxPacketSize0" "B" "{}" (Some (VInt 64)) $
  AddField "bDeviceProtocol" "B" "{}" (Some (VInt UsbConstants.DeviceProtocol.PER_INTERFACE)) $
  AddField "bDeviceSubClass" "B" "{}" (Some (VInt UsbConstants.DeviceSubClass.PER_INTERFACE)) $
  AddField "bDeviceClass" "B" "{}" (Some (VInt UsbConstants.DeviceClass.PER_INTERFACE)) $
  AddField "bcdUSB" "H" "0x{:04X}" (Some (VInt 0x0200)) $
  AddFixedField "bDescriptorType" "B" (VInt UsbConstants.DescriptorType.DEVICE) "{}" $
  AddComputedField "bLength" "B" "struct_size" "{}" [].

Definition StringDescriptor : ClassDef := mkClass "StringDescriptor" Base_StringDescriptor $
  AddFixedField "bDescriptorType" "B" (VInt UsbConstants.DescriptorType.STRING) "{}" $
  AddComputedField "bLength" "B" "total_size" "{}" [].

Definition ConfigurationDescriptor : ClassDef :=
  mkClass "ConfigurationDescriptor" Base_ConfigurationDescriptor $
  AddField "MaxPower" "B" "{}" None $
  AddField "bmAttributes" "B" "0x{:02X}" None $
  AddField "iConfiguration" "B" "{}" (Some (VInt 0)) $
  AddField "bConfigurationValue" "B" "{}" (Some (VInt 1)) $
  AddComputedField "bNumInterfaces" "B" "num_interfaces" "{}" $
  AddComputedField "wTotalLength" "H" "total_size" "{}" $
  AddFixedField "bDescriptorType" "B" (VInt UsbConstants.DescriptorType.CONFIGURATION) "{}" $
  AddComputedField "bLength" "B" "struct_size" "{}" [].

Definition InterfaceDescriptor : ClassDef :=
  mkClass "InterfaceDescriptor" Base_InterfaceDescriptor $
  AddField "iInterface" "B" "{}" (Some (VInt 0)) $
  AddField "bInterfaceProtocol" "B" "{}" (Some (VInt UsbConstants.InterfaceProtocol.VENDOR)) $
  AddField "bInterfaceSubClass" "B" "{}" (Some (VInt UsbConstants.InterfaceSubClass.VENDOR)) $
  AddField "bInterfaceClass" "B" "{}" (Some (VInt UsbConstants.InterfaceClass.VENDOR)) $
  AddComputedField "bNumEndpoints" "B" "num_endpoints" "{}" $
  AddField "bAlternateSetting" "B" "{}" (Some (VInt 0)) $
  AddField "bInterfaceNumber" "B" "{}" None $
  AddFixedField "bDescriptorType" "B" (VInt UsbConstants.DescriptorType.INTERFACE) "{}" $
  AddComputedField "bLength" "B" "struct_size" "{}" [].

Definition EndpointDescriptor : ClassDef := mkClass "EndpointDescriptor" Base_Descriptor $
  AddField "bInterval" "B" "{}" None $
  AddField "wMaxPacketSize" "H" "{}" None $
  AddField "bmAttributes" "B" "0x{:02X}" None $
  AddField "bEndpointAddress" "B" "0x{:02X}" None $
  AddFixedField "bDescriptorType" "B" (VInt UsbConstants.DescriptorType.ENDPOINT) "{}" $
  AddComputedField "bLength" "B" "struct_size" "{}" [].

Definition HidDescriptor : ClassDef := mkClass "HidDescriptor" Base_HidDescriptor $
  AddComputedField "bNumDescriptors" "B" "num_descriptors" "{}" $
  AddField "bCountryCode" "B" "{}" (Some (VInt 0)) $
  AddField "bcdHID" "H" "0x{:04X}" (Some (VInt 0x0111)) $
  AddFixedField "bDescriptorType" "B" (VInt HidConstants.DescriptorType.HID) "{}" $
  AddComputedField "bLength" "B" "struct_size" "{}" [].

Definition BosDescriptor : ClassDef := mkClass "BosDescriptor" Base_BosDescriptor $
  AddComputedField "bNumDeviceCaps" "B" "num_device_caps" "{}" $
  AddComputedField "wTotalLength" "H" "total_size" "{}" $
  AddFixedField "bDescriptorType" "B" (VInt UsbConstants.DescriptorType.BOS) "{}" $
  AddComputedField "bLength" "B" "struct_size" "{}" [].

Definition ContainerIdDescriptor : ClassDef :=
  mkClass "ContainerIdDescriptor" Base_Descriptor $
  AddField "ContainerID" "16s" "{}" None $
  AddFixedField "bReserved" "B" (VInt 0) "{}" $
  AddFixedField "bDevCapabilityType" "B" (VInt UsbConstants.CapabilityType.CONTAINER_ID) "{}" $
  AddFixedField "bDescriptorType" "B" (VInt UsbConstants.DescriptorType.DEVICE_CAPABILITY) "{}" $
  AddComputedField "bLength" "B" "struct_size" "{}" [].

(** ** Reference definitions *)

(** The tree below a descriptor in preorder, each descriptor by its own bytes
    (for a HID descriptor with its subordinate entries). *)
Definition own_bytes (depth : nat) (h : heap) (l : loc) (o : obj) :
    outcome bytes :=
  let set_size _ :=
    match o_descriptor_set o with
    | None => Ok 0
    | Some d => b ← Encode (pred depth) h d; Ok (py_len b)
    end in
  head ← encode_fields (λ _, total_size depth h l) set_size o;
  match c_base (o_class o) with
  | Base_StringDescriptor => Ok (head ++ utf16le (o_bString o))
  | Base_HidDescriptor =>
      bufs ← mapM (λ '(typ, length),
                     struct_pack "<BH" [VInt typ; VInt length])
                  (o_hid_descriptors o);
      Ok (head ++ concat bufs)
  | _ => Ok head
  end.

Fixpoint flatten (depth : nat) (h : heap) (l : loc) : outcome (list bytes) :=
  match depth with
  | O => Raise recursion_error
  | S depth' =>
      o ← deref h l;
      own ← own_bytes depth h l o;
      if is_container (c_base (o_class o)) then
        subs ← mapM (flatten depth' h) (o_descriptors o);
        Ok (own :: concat subs)
      else Ok [own]
  end.

(** How a host splits a buffer of descriptors: each starts with its length. *)
Fixpoint walk (fuel : nat) (b : bytes) : option (list bytes) :=
  match b with
  | [] => Some []
  | x :: _ =>
      match fuel with
      | O => None
      | S fuel =>
          let n := Z.to_nat (Z_of_byte x) in
          if (n =? 0)%nat || (length b <? n)%nat then None
          else rest ← walk fuel (drop n b); Some (take n b :: rest)
      end
  end.

(** Classes whose first field is a one-byte [bLength] computed by
    [struct_size]. *)
Definition self_delimiting (c : ClassDef) : Prop :=
  c_base c ≠ Base_StringDescriptor ∧
  ∃ f fs, c_fields c = f :: fs ∧ f_struct_fmt f = "B" ∧
    f_getter f = GetComputed "struct_size".

Definition child (h : heap) (l c : loc) : Prop :=
  ∃ o, h !! l = Some o ∧ c ∈ o_descriptors o.

(** References [Encode] follows from an object. *)
Definition refs (o : obj) : list loc :=
  o_descriptors o ++ match o_descriptor_set o with Some d => [d] | None => [] end.

(** No descriptor contains itself, directly or through others. *)
Definition acyclic (h : heap) : Prop :=
  ∃ rank : loc → nat,
    ∀ l o c, h !! l = Some o → c ∈ refs o → (rank c < rank l)%nat.

(** ** Length of the encoding *)

Lemma py_len_concat (bufs : list bytes) :
  py_len (concat bufs) = py_sum (py_len <$> bufs).
Proof.
  induction bufs as [|b bufs IH]; cbn; [done|].
  rewrite py_len_app, IH. done.
Qed.

Lemma encode_fields_length total set_size o b :
  encode_fields total set_size o = Ok b →
  struct_calcsize (fmt (o_class o)) = Ok (py_len b).
Proof.
  unfold encode_fields. intros; inv_outcome. by eapply struct_pack_calcsize.
Qed.

Lemma Encode_S depth h l :
  Encode (S depth) h l =
    o ← deref h l;
    own ← own_bytes (S depth) h l o;
    if is_container (c_base (o_class o)) then
      bufs ← mapM (Encode depth h) (o_descriptors o);
      Ok (own ++ concat bufs)
    else Ok own.
Proof.
  cbn [Encode]. destruct (deref h l) as [o|]; [|done]. cbn [mbind outcome_bind].
  unfold own_bytes. cbn [pred].
  set (hd := encode_fields _ _ o). destruct hd as [b|]; cbn [mbind outcome_bind].
  - destruct (c_base (o_class o)); cbn [is_container]; try done.
    by destruct (mapM _ (o_hid_descriptors o)).
  - done.
Qed.

Lemma hid_entries_length (l : list (Z * Z)) bufs :
  mapM (λ '(typ, length), struct_pack "<BH" [VInt typ; VInt length]) l = Ok bufs →
  py_len (concat bufs) = py_len l * 3.
Proof.
  rewrite mapM_outcome_Ok. induction 1 as [|[t n] b l bufs Hb _ IH]; [done|].
  cbn [concat]. rewrite py_len_app, IH.
  apply struct_pack_calcsize in Hb. vm_compute (struct_calcsize _) in Hb.
  apply Ok_inj in Hb as <-. unfold py_len. cbn [length]. lia.
Qed.

Lemma own_bytes_length depth h l o b :
  own_bytes depth h l o = Ok b →
  ∃ n, struct_size o = Ok n ∧
    py_len b = if decide (c_base (o_class o) = Base_StringDescriptor)
               then n + py_len (utf16le (o_bString o)) else n.
Proof.
  unfold own_bytes, struct_size. rewrite outcome_bind_Ok.
  intros (hd & E & H). apply encode_fields_length in E as ->.
  cbn [mbind outcome_bind]. destruct (c_base (o_class o)); inv_outcome;
    rewrite ?py_len_app; eexists; (split; [done|]); try done.
  by erewrite hid_entries_length by eauto.
Qed.

Lemma Encode_length depth h l b :
  Encode depth h l = Ok b → total_size depth h l = Ok (py_len b).
Proof.
  revert l b. induction depth as [|depth IH]; intros l b; [done|].
  rewrite Encode_S. cbn [total_size]. intros H. inv_outcome; rewrite E;
    cbn [mbind outcome_bind]; apply own_bytes_length in E0 as (n & -> & Hlen);
    cbn [mbind outcome_bind].
  - rewrite E1. replace (mapM (total_size depth h) (o_descriptors a))
      with (Ok (py_len <$> a1)).
    { cbn [mbind outcome_bind]. rewrite py_len_app, py_len_concat, Hlen.
      by destruct (c_base (o_class a)). }
    symmetry. apply mapM_outcome_Ok, Forall2_fmap_r. apply mapM_outcome_Ok in E2.
    eapply Forall2_impl; [done|]. intros c buf; cbn. apply IH.
  - rewrite E1, Hlen. by case_decide.
Qed.

(** ** The encoding as a flat sequence of descriptors *)

Lemma Encode_flatten depth h l : Encode depth h l = @concat byte <$> flatten depth h l.
Proof.
  revert l. induction depth as [|depth IH]; intros l; [done|].
  rewrite Encode_S. cbn [flatten].
  destruct (deref h l) as [o|]; [|done]. cbn [mbind outcome_bind].
  destruct (own_bytes _ _ _ _) as [own|]; [|done]. cbn [mbind outcome_bind].
  destruct (is_container _); cbn; [|by rewrite app_nil_r].
  rewrite (mapM_outcome_ext _ (λ c, @concat byte <$> flatten depth h c)) by auto.
  induction (o_descriptors o) as [|c cs IHcs]; cbn; [by rewrite app_nil_r|].
  change (foldr _ _ cs) with (mapM (λ c, @concat byte <$> flatten depth h c) cs) in *.
  change (foldr _ _ cs) with (mapM (flatten depth h) cs) in *.
  destruct (flatten depth h c) as [bs|]; cbn; [|done].
  destruct (mapM (λ c, @concat byte <$> flatten depth h c) cs) as [x|],
    (mapM (flatten depth h) cs) as [y|]; cbn in *; try done.
  injection IHcs as IHcs. do 2 f_equal. apply app_inv_head in IHcs.
  by rewrite concat_app, <- IHcs.
Qed.

Lemma parse_format_B s :
  parse_format ("<" +:+ "B" +:+ s) = cons C_B <$> parse_codes None s.
Proof. unfold String.append. cbn. by destruct (parse_codes None s). Qed.

Lemma struct_size_pos_byte total set_size o f fs b :
  c_fields (o_class o) = f :: fs → f_struct_fmt f = "B" →
  f_getter f = GetComputed "struct_size" →
  encode_fields total set_size o = Ok b →
  ∃ n rest, struct_size o = Ok n ∧ 0 <= n < 256 ∧ b = byte_of_Z n :: rest.
Proof.
  intros Hf Hfmt Hget. unfold encode_fields. rewrite Hf, mapM_outcome_cons.
  rewrite !outcome_bind_Ok. intros (vs & (v & Hv & H)%outcome_bind_Ok & Hp).
  apply outcome_bind_Ok in H as (vs' & _ & [= <-]).
  unfold getattr in Hv. rewrite Hf in Hv. cbn [find_field List.find] in Hv.
  rewrite String.eqb_refl in Hv. cbn [of_option mbind outcome_bind] in Hv.
  unfold field_value in Hv. rewrite Hget in Hv.
  apply outcome_fmap_Ok in Hv as (n & Hn & <-). exists n. change (struct_size o = Ok n) in Hn. rewrite Hn.
  unfold struct_pack, fmt in Hp. rewrite Hf in Hp. cbn [fmap list_fmap] in Hp.
  rewrite Hfmt in Hp. apply outcome_bind_Ok in Hp as (cs & Hcs & Hp).
  apply of_option_Ok in Hcs.
  assert (∃ cs', cs = C_B :: cs') as [cs' ->].
  { destruct fs as [|f' fs]; cbn [fmap list_fmap String.concat] in Hcs.
    - vm_compute in Hcs. injection Hcs as <-. eauto.
    - rewrite parse_format_B in Hcs. apply fmap_Some in Hcs as (? & _ & ->). eauto. }
  rewrite pack_codes_cons in Hp by done.
  apply outcome_bind_Ok in Hp as (hd & Hhd & Hp). inv_outcome.
  cbn in Hhd. unfold pack_uint in Hhd. inv_outcome.
  apply andb_true_iff in E0 as [?%Z.leb_le ?%Z.ltb_lt].
  exists a. split; [done|]. split; [lia|]. done.
Qed.

Lemma own_bytes_self_delimiting depth h l o b :
  self_delimiting (o_class o) → own_bytes depth h l o = Ok b →
  ∃ n rest, b = n :: rest ∧ Z.to_nat (Z_of_byte n) = length b.
Proof.
  intros (Hns & f & fs & Hf & Hfmt & Hget) H.
  destruct (own_bytes_length _ _ _ _ _ H) as (n & Hn & Hlen).
  rewrite decide_False in Hlen by done.
  unfold own_bytes in H. apply outcome_bind_Ok in H as (hd & E & H).
  eapply struct_size_pos_byte in E as (n' & rest & Hn' & Hr & ->); [|done..].
  rewrite Hn in Hn'. apply Ok_inj in Hn' as <-.
  assert (∃ rest', b = byte_of_Z n :: rest') as [rest' ->].
  { destruct (c_base (o_class o)); inv_outcome; cbn; eauto. }
  exists (byte_of_Z n), rest'. split; [done|].
  rewrite Z_of_byte_of_Z, Z.mod_small by done. unfold py_len in Hlen. lia.
Qed.

Definition delimited (b : bytes) : Prop :=
  ∃ n rest, b = n :: rest ∧ Z.to_nat (Z_of_byte n) = length b.

Lemma walk_concat parts fuel :
  Forall delimited parts → (length parts <= fuel)%nat →
  walk fuel (concat parts) = Some parts.
Proof.
  intros Hp. revert fuel. induction Hp as [|b parts (n & rest & -> & Hn) _ IH];
    intros fuel Hfuel; [by destruct fuel|].
  destruct fuel as [|fuel]; cbn [length] in *; [lia|].
  cbn [concat app walk]. rewrite Hn. cbn [length].
  rewrite (proj2 (Nat.eqb_neq _ _)) by lia.
  rewrite (proj2 (Nat.ltb_ge _ _)) by (rewrite length_app; lia).
  cbn [orb]. rewrite app_comm_cons.
  rewrite drop_app_length', take_app_length' by done. by rewrite IH by lia.
Qed.

Lemma flatten_delimited depth h l parts :
  (∀ l' o, rtc (child h) l l' → h !! l' = Some o → self_delimiting (o_class o)) →
  flatten depth h l = Ok parts → Forall delimited parts.
Proof.
  revert l parts. induction depth as [|depth IH]; intros l parts Hsd; [done|].
  cbn [flatten]. intros H. apply outcome_bind_Ok in H as (o & Ho & H).
  apply outcome_bind_Ok in H as (own & Hown & H).
  apply of_option_Ok in Ho.
  assert (delimited own) as Hd.
  { eapply own_bytes_self_delimiting, Hown. eapply Hsd, Ho. done. }
  destruct (is_container _); inv_outcome; constructor; auto.
  apply Forall_concat. apply mapM_outcome_Ok in E.
  eapply Forall2_Forall_r; [exact E|]. apply Forall_forall.
  intros c Hc ps Hps. eapply IH, Hps. intros l' o' Hl'. apply Hsd.
  eapply rtc_l; [|done]. by exists o.
Qed.

(** ** The recursion limit is not reached on acyclic stores *)

(** [o] does not hit the recursion limit. *)
Definition bounded {A} (o : outcome A) : Prop := o ≠ Raise recursion_error.

Lemma bounded_bind {A B} (o : outcome A) (f : A → outcome B) :
  bounded o → (∀ a, o = Ok a → bounded (f a)) → bounded (o ≫= f).
Proof.
  unfold bounded. destruct o as [a|e]; cbn; [eauto|].
  intros H _ [= ->]. by apply H.
Qed.

Lemma bounded_fmap {A B} (f : A → B) (o : outcome A) :
  bounded o → bounded (f <$> o).
Proof. unfold bounded. destruct o; cbn; congruence. Qed.

Lemma bounded_mapM {A B} (f : A → outcome B) l :
  (∀ x, x ∈ l → bounded (f x)) → bounded (mapM f l).
Proof.
  induction l as [|x l IH]; intros Hf; [done|]. rewrite mapM_outcome_cons.
  apply bounded_bind; [apply Hf; set_solver|]. intros y _.
  apply bounded_bind; [|done]. apply IH. set_solver.
Qed.

Lemma bounded_of_option {A} e (o : option A) :
  e ≠ recursion_error → bounded (of_option e o).
Proof. unfold bounded. destruct o; cbn; congruence. Qed.

Lemma bounded_if {A} (b : bool) (o1 o2 : outcome A) :
  bounded o1 → bounded o2 → bounded (if b then o1 else o2).
Proof. by destruct b. Qed.

Lemma bounded_pack cs vs : bounded (pack_codes cs vs).
Proof.
  revert vs. induction cs as [|c cs IH]; intros vs; [by destruct vs|].
  destruct (code_x_dec c) as [->|Hc].
  - cbn. apply bounded_bind; [apply IH|done].
  - rewrite pack_codes_cons by done. destruct vs as [|v vs]; [done|].
    apply bounded_bind; [|intros; apply bounded_bind; [apply IH|done]].
    destruct c, v; cbn; unfold pack_uint; try apply bounded_if; done.
Qed.

Lemma bounded_struct_pack f vs : bounded (struct_pack f vs).
Proof.
  apply bounded_bind; [by apply bounded_of_option|intros; apply bounded_pack].
Qed.

Lemma bounded_struct_size o : bounded (struct_size o).
Proof.
  apply bounded_bind; [|intros; by case_match].
  apply bounded_bind; [by apply bounded_of_option|done].
Qed.

Lemma bounded_encode_fields total set_size o :
  bounded (total ()) → bounded (set_size ()) →
  bounded (encode_fields total set_size o).
Proof.
  intros Ht Hs. apply bounded_bind; [|intros; apply bounded_struct_pack].
  apply bounded_mapM. intros f _. unfold getattr.
  apply bounded_bind; [by apply bounded_of_option|]. intros f' _.
  unfold field_value. case_match; [|done|].
  - case_match; [done|]. by apply bounded_of_option.
  - apply bounded_fmap. unfold property.
    repeat apply bounded_if; auto using bounded_struct_size; done.
Qed.

Lemma bounded_own_bytes depth h l o :
  bounded (total_size depth h l) →
  (∀ d, o_descriptor_set o = Some d → bounded (Encode (pred depth) h d)) →
  bounded (own_bytes depth h l o).
Proof.
  intros Ht Hd. apply bounded_bind.
  - apply bounded_encode_fields; [done|]. destruct (o_descriptor_set o); [|done].
    apply bounded_bind; [by apply Hd|done].
  - intros hd _. case_match; try done. apply bounded_bind; [|done].
    apply bounded_mapM. intros [] _. apply bounded_struct_pack.
Qed.

(** ** The result does not depend on the depth allowed *)

(** [o] either hits the limit or is the final answer [o']. *)
Definition approx {A} (o o' : outcome A) : Prop :=
  o = Raise recursion_error ∨ o = o'.

Lemma approx_refl {A} (o : outcome A) : approx o o.
Proof. by right. Qed.

Lemma approx_bind {A B} (o o' : outcome A) (f f' : A → outcome B) :
  approx o o' → (∀ a, approx (f a) (f' a)) → approx (o ≫= f) (o' ≫= f').
Proof. intros [->| ->] Hf; [by left|]. destruct o'; cbn; [apply Hf|by right]. Qed.

Lemma approx_fmap {A B} (f : A → B) (o o' : outcome A) :
  approx o o' → approx (f <$> o) (f <$> o').
Proof. intros [->| ->]; [by left|by right]. Qed.

Lemma approx_mapM {A B} (f f' : A → outcome B) l :
  (∀ x, approx (f x) (f' x)) → approx (mapM f l) (mapM f' l).
Proof.
  intros Hf. induction l as [|x l IH]; [by right|]. rewrite !mapM_outcome_cons.
  apply approx_bind; [done|]. intros y. apply approx_bind; [done|]. by right.
Qed.

Lemma approx_if {A} (b : bool) (o1 o1' o2 o2' : outcome A) :
  approx o1 o1' → approx o2 o2' →
  approx (if b then o1 else o2) (if b then o1' else o2').
Proof. by destruct b. Qed.

#[local] Hint Resolve approx_refl approx_fmap : core.

Lemma approx_encode_fields total total' set_size set_size' o :
  approx (total ()) (total' ()) → approx (set_size ()) (set_size' ()) →
  approx (encode_fields total set_size o) (encode_fields total' set_size' o).
Proof.
  intros Ht Hs. apply approx_bind; [|auto]. apply approx_mapM. intros f.
  apply approx_bind; [auto|]. intros f'. unfold field_value.
  case_match; [auto..|]. apply approx_fmap. unfold property.
  repeat apply approx_if; auto.
Qed.

Lemma total_size_step depth h l :
  approx (total_size depth h l) (total_size (S depth) h l).
Proof.
  revert l. induction depth as [|depth IH]; intros l; [by left|].
  change (total_size (S (S depth)) h l) with
    (o ← deref h l; n ← struct_size o;
     if is_container (c_base (o_class o)) then
       sizes ← mapM (total_size (S depth) h) (o_descriptors o);
       Ok (n + py_sum sizes)
     else if decide (c_base (o_class o) = Base_StringDescriptor) then
       Ok (n + py_len (utf16le (o_bString o)))
     else Ok n).
  cbn [total_size]. apply approx_bind; [auto|]. intros o.
  apply approx_bind; [auto|]. intros n. apply approx_if; [|auto].
  apply approx_bind; [|auto]. by apply approx_mapM.
Qed.

Lemma Encode_step depth h l : approx (Encode depth h l) (Encode (S depth) h l).
Proof.
  revert l. induction depth as [|depth IH]; intros l; [by left|].
  rewrite !Encode_S. apply approx_bind; [auto|]. intros o. apply approx_bind.
  - apply approx_bind; [|auto]. apply approx_encode_fields; [apply total_size_step|].
    destruct (o_descriptor_set o); [|auto]. apply approx_bind; [apply IH|auto].
  - intros own. apply approx_if; [|auto]. apply approx_bind; [|auto].
    by apply approx_mapM.
Qed.

Lemma Encode_more_depth depth n h l :
  bounded (Encode depth h l) → Encode (depth + n) h l = Encode depth h l.
Proof.
  intros Hb. induction n as [|n IH]; [by rewrite Nat.add_0_r|].
  rewrite Nat.add_succ_r. destruct (Encode_step (depth + n) h l) as [Hr|Hr].
  - rewrite IH in Hr. by destruct Hb.
  - by rewrite <- Hr.
Qed.

(** A strictly descending path of references stays below the store's size. *)
Lemma path_bound (h : heap) (vs : list loc) :
  NoDup vs → Forall (λ v, v < length h)%nat vs → (length vs <= length h)%nat.
Proof.
  intros Hnd Hlt. trans (length (seq 0 (length h))); [|by rewrite length_seq].
  apply submseteq_length, NoDup_submseteq; [done|].
  intros v Hv. rewrite Forall_forall in Hlt. apply elem_of_seq.
  specialize (Hlt v Hv). lia.
Qed.

Section acyclic.
Context (h : heap) (rank : loc → nat).
Context (Hrank : ∀ l o c, h !! l = Some o → c ∈ refs o → (rank c < rank l)%nat).

  (** [above vs l]: the path [vs] of objects the recursion came through. *)
Definition above (vs : list loc) (l : loc) : Prop :=
    NoDup vs ∧ Forall (λ v, (v < length h)%nat ∧ (rank l < rank v)%nat) vs.

Lemma above_step vs l o c :
    above vs l → h !! l = Some o → c ∈ refs o → above (l :: vs) c.
  Proof.
    intros [Hnd Hall] Hl Hc. pose proof (Hrank _ _ _ Hl Hc). split.
    - apply NoDup_cons; split; [|done]. intros Hin.
      rewrite Forall_forall in Hall. specialize (Hall _ Hin). lia.
    - constructor; [by apply lookup_lt_Some in Hl|].
      eapply Forall_impl; [done|]. cbn. lia.
  Qed.

Lemma above_depth vs l : above vs l → (length vs <= length h)%nat.
  Proof.
    intros [Hnd Hall]. apply path_bound; [done|].
    eapply Forall_impl; [done|]. cbn. tauto.
  Qed.

Lemma total_size_bounded depth l vs :
    above vs l → (length h < length vs + depth)%nat →
    bounded (total_size depth h l).
  Proof.
    revert l vs. induction depth as [|depth IH]; intros l vs Hvs Hd.
    { apply above_depth in Hvs. lia. }
    cbn [total_size]. apply bounded_bind; [by apply bounded_of_option|].
    intros o Ho%of_option_Ok. apply bounded_bind; [apply bounded_struct_size|].
    intros n _. apply bounded_if; [|by case_decide].
    apply bounded_bind; [|done]. apply bounded_mapM. intros c Hc.
    apply (IH c (l :: vs)); [|cbn; lia].
    eapply above_step; [done..|]. set_solver.
  Qed.

Lemma Encode_bounded depth l vs :
    above vs l → (length h < length vs + depth)%nat →
    bounded (Encode depth h l).
  Proof.
    revert l vs. induction depth as [|depth IH]; intros l vs Hvs Hd.
    { apply above_depth in Hvs. lia. }
    rewrite Encode_S. apply bounded_bind; [by apply bounded_of_option|].
    intros o Ho%of_option_Ok.
    assert (∀ c, c ∈ refs o → bounded (Encode depth h c)) as Hrefs.
    { intros c Hc. apply (IH c (l :: vs)); [|cbn; lia].
      by eapply above_step. }
    apply bounded_bind.
    - apply bounded_own_bytes; [by eapply total_size_bounded|].
      intros d Hs. apply Hrefs. unfold refs. rewrite Hs. set_solver.
    - intros own _. apply bounded_if; [|done]. apply bounded_bind; [|done].
      apply bounded_mapM. intros c Hc. apply Hrefs. unfold refs. set_solver.
  Qed.
End acyclic.

(** [Encode] and [total_size] return (or raise an error of the data), rather
    than exceed the depth the model gives them, on every acyclic store. *)
Lemma acyclic_bounded h l :
  acyclic h →
  bounded (Encode (max_depth h) h l) ∧ bounded (total_size (max_depth h) h l).
Proof.
  intros [rank Hrank].
  assert (above h rank [] l) by (split; [apply NoDup_nil|constructor]; done).
  split; [eapply Encode_bounded|eapply total_size_bounded];
    unfold max_depth; cbn; eauto; lia.
Qed.

(** ** The wire format of the standard classes *)

(** A class with distinct field names reads each field through its own
    getter. *)
Lemma find_field_nodup fields f :
  NoDup (f_name <$> fields) → f ∈ fields → find_field (f_name f) fields = Some f.
Proof.
  induction fields as [|g fields IH]; intros Hnd Hin; [set_solver|].
  cbn in *. apply NoDup_cons in Hnd as [Hg Hnd].
  destruct (String.eqb_spec (f_name g) (f_name f)) as [Heq|Hne].
  - apply elem_of_cons in Hin as [->|Hin]; [done|].
    destruct Hg. rewrite Heq. by apply list_elem_of_fmap_2.
  - apply elem_of_cons in Hin as [->|Hin]; [done|]. by apply IH.
Qed.

Lemma encode_fields_nodup total set_size o :
  NoDup (f_name <$> c_fields (o_class o)) →
  encode_fields total set_size o =
    values ← mapM (field_value total set_size o) (c_fields (o_class o));
    struct_pack (fmt (o_class o)) values.
Proof.
  intros Hnd. unfold encode_fields.
  rewrite (mapM_outcome_ext _ (field_value total set_size o)); [done|].
  intros f Hf. unfold getattr. by rewrite find_field_nodup.
Qed.

(** The leading fields of an encoded descriptor read back as their values. *)
Lemma encode_fields_read total set_size o b rest fs1 fs2 vs1 fmt1 cs1 cs2 :
  encode_fields total set_size o = Ok b →
  NoDup (f_name <$> c_fields (o_class o)) →
  c_fields (o_class o) = fs1 ++ fs2 →
  mapM (field_value total set_size o) fs1 = Ok vs1 →
  parse_format fmt1 = Some cs1 →
  parse_format (fmt (o_class o)) = Some (cs1 ++ cs2) →
  Forall (λ c, c ≠ C_x) cs1 → length cs1 = length vs1 → all_fit cs1 vs1 →
  struct_unpack_from fmt1 (b ++ rest) 0 = Ok vs1.
Proof.
  intros H Hnd Hfs Hvs Hp1 Hp Hx Hlen Hfit.
  rewrite encode_fields_nodup, Hfs, mapM_outcome_app, Hvs in H by done.
  cbn [mbind outcome_bind] in H.
  apply outcome_bind_Ok in H as (vs & H & Hb).
  apply outcome_bind_Ok in H as (vs2 & _ & [= <-]).
  unfold struct_pack in Hb. rewrite Hp in Hb.
  by eapply (unpack_from_pack_prefix _ _ cs2 _ vs2).
Qed.

(** Discharge the side conditions of [encode_fields_read] for the first [n]
    fields of the class given by [Hc]; what remains are the values of the
    computed fields. *)
Ltac read_fields H Hc n :=
  eapply (encode_fields_read _ _ _ _ _ (take n (c_fields (o_class _)))
            (drop n (c_fields (o_class _))) _ _ _ _ H);
  [ rewrite Hc; apply (bool_decide_unpack _); by vm_compute
  | by rewrite take_drop
  | rewrite Hc; cbn -[num_interfaces py_len]; unfold struct_size; rewrite ?Hc;
    try match goal with
    | |- context [struct_calcsize (fmt ?c)] =>
        let r := eval vm_compute in (struct_calcsize (fmt c)) in
        change (struct_calcsize (fmt c)) with r
    end; cbn -[num_interfaces py_len]
  | vm_compute; reflexivity
  | rewrite Hc; vm_compute; reflexivity
  | by repeat constructor
  | reflexivity
  | done ].

Lemma configuration_head total set_size o t b rest :
  o_class o = ConfigurationDescriptor → total () = Ok t →
  encode_fields total set_size o = Ok b →
  struct_unpack_from "<BBHB" (b ++ rest) 0 =
    Ok [VInt 9; VInt UsbConstants.DescriptorType.CONFIGURATION; VInt t;
        VInt (num_interfaces o)].
Proof. intros Hc Ht H. read_fields H Hc 4%nat. by rewrite Ht. Qed.

Lemma interface_head total set_size o num alt b rest :
  o_class o = InterfaceDescriptor →
  getattr total set_size o "bInterfaceNumber" = Ok (VInt num) →
  getattr total set_size o "bAlternateSetting" = Ok (VInt alt) →
  encode_fields total set_size o = Ok b →
  struct_unpack_from "<BBBBB" (b ++ rest) 0 =
    Ok [VInt 9; VInt UsbConstants.DescriptorType.INTERFACE; VInt num; VInt alt;
        VInt (Z.of_nat (size (o_endpoints o)))].
Proof.
  intros Hc Hnum Halt H. unfold getattr in Hnum, Halt. rewrite Hc in Hnum, Halt.
  cbn in Hnum, Halt. read_fields H Hc 5%nat. by rewrite Hnum, Halt.
Qed.

Lemma string_head total set_size o t b rest :
  o_class o = StringDescriptor → total () = Ok t →
  encode_fields total set_size o = Ok b →
  struct_unpack_from "<BB" (b ++ rest) 0 =
    Ok [VInt t; VInt UsbConstants.DescriptorType.STRING].
Proof. intros Hc Ht H. read_fields H Hc 2%nat. by rewrite Ht. Qed.

Lemma bos_head total set_size o t b rest :
  o_class o = BosDescriptor → total () = Ok t →
  encode_fields total set_size o = Ok b →
  struct_unpack_from "<BBHB" (b ++ rest) 0 =
    Ok [VInt 5; VInt UsbConstants.DescriptorType.BOS; VInt t;
        VInt (py_len (o_device_caps o))].
Proof. intros Hc Ht H. read_fields H Hc 4%nat. by rewrite Ht. Qed.

Lemma hid_head total set_size o b rest :
  o_class o = HidDescriptor → encode_fields total set_size o = Ok b →
  struct_unpack_from "<BB" (b ++ rest) 0 =
    Ok [VInt (6 + py_len (o_hid_descriptors o) * 3); VInt HidConstants.DescriptorType.HID].
Proof.
  intros Hc H. by read_fields H Hc 2%nat.
Qed.

(** ** Construction *)

(** The argument a constructor keeps for a field, the last one given. *)
Definition last_arg (name : string) (args : kwargs) : option value :=
  foldl (λ acc '(n, v), if String.eqb n name then Some v else acc) None args.

Definition plain_field (fields : list Field) (name : string) : Prop :=
  ∃ f d, find_field name fields = Some f ∧ f_getter f = GetPlain d.

Lemma find_field_name name fields f :
  find_field name fields = Some f → f_name f = name.
Proof. intros H. apply find_some in H as [_ ?%String.eqb_eq]. done. Qed.

Lemma init_args_Ok fields args attrs required attrs' missing :
  init_args fields args attrs required = Ok (attrs', missing) ↔
  (∀ n, n ∈ args.*1 → plain_field fields n) ∧
  attrs' = foldl (λ m '(n, v), <[n := v]> m) attrs args ∧
  missing = base.filter (λ n, n ∉ args.*1) required.
Proof.
  revert attrs required. induction args as [|[n v] args IH]; intros attrs required.
  - cbn. split.
    + intros [= -> ->]. split; [set_solver|]. split; [done|].
      rewrite filter_all; [done|]. set_solver.
    + intros (_ & -> & ->). rewrite filter_all; [done|]. set_solver.
  - cbn [init_args]. destruct (find_field n fields) as [f|] eqn:Hf.
    + rewrite outcome_bind_Ok. unfold set_field.
      pose proof (find_field_name _ _ _ Hf) as <-. split.
      * intros (m & Hm & Hrest). destruct (f_getter f) eqn:Hg; inv_outcome.
        apply IH in Hrest as (Hp & -> & ->). split.
        { cbn. intros x [->|Hx]%elem_of_cons; [by exists f, default|auto]. }
        split; [done|]. rewrite list_filter_filter. apply list_filter_iff.
        intros x. cbn. rewrite not_elem_of_cons. tauto.
      * cbn. intros (Hp & -> & ->).
        destruct (Hp (f_name f)) as (f' & d & Hf' & Hg); [by left|].
        rewrite Hf in Hf'. injection Hf' as <-. rewrite Hg.
        eexists. split; [done|]. apply IH. split; [intros; apply Hp; by right|].
        split; [done|]. rewrite list_filter_filter. apply list_filter_iff.
        intros x. rewrite not_elem_of_cons. tauto.
    + split; [done|]. intros (Hp & _). destruct (Hp n) as (f & d & ? & _);
        [by left|congruence].
Qed.

Lemma foldl_insert_lookup (args : kwargs) (attrs : gmap string value) name :
  foldl (λ m '(n, v), <[n := v]> m) attrs args !! name =
    match last_arg name args with Some v => Some v | None => attrs !! name end.
Proof.
  unfold last_arg. induction args as [|[n v] args IH] using rev_ind; [done|].
  rewrite !foldl_app. cbn. rewrite lookup_insert. destruct (String.eqb_spec n name) as [->|];
    case_decide; try congruence; done.
Qed.

(** Which keyword arguments a constructor accepts, and what it then stores. *)
Lemma Descriptor_init_Ok fields args attrs :
  Descriptor_init fields args = Ok attrs ↔
  (∀ n, n ∈ args.*1 → plain_field fields n) ∧
  (∀ f, f ∈ fields → f_required f = true → f_name f ∈ args.*1) ∧
  attrs = foldl (λ m '(n, v), <[n := v]> m) ∅ args.
Proof.
  unfold Descriptor_init. rewrite outcome_bind_Ok. split.
  - intros ([attrs' missing] & Hinit & H). apply init_args_Ok in Hinit as (Hp & -> & ->).
    destruct (base.filter _ _) eqn:Hm in H; [|done]. apply Ok_inj in H as <-.
    split; [done|]. split; [|done]. intros f Hf Hreq.
    destruct (decide (f_name f ∈ args.*1)); [done|]. exfalso.
    eapply (not_elem_of_nil (f_name f)). rewrite <- Hm.
    apply list_elem_of_filter. split; [done|]. apply list_elem_of_fmap_2.
    by apply list_elem_of_filter.
  - intros (Hp & Hreq & ->). eexists (_, []). split; [|done].
    apply init_args_Ok. split; [done|]. split; [done|]. symmetry.
    apply filter_none. intros n Hn Habs. apply Habs.
    apply list_elem_of_fmap in Hn as (f & -> & Hf).
    apply list_elem_of_filter in Hf as [Hr Hf]. by apply Hreq.
Qed.

(** ** Mutators *)

(** The dicts of a configuration and of an interface only index objects that
    are part of the encoding, and the capability list of a BOS descriptor is
    part of it too. *)
Definition indexed (o : obj) : Prop :=
  (∀ k i, o_interfaces o !! k = Some i → i ∈ o_descriptors o) ∧
  (∀ a e, o_endpoints o !! a = Some e → e ∈ o_descriptors o) ∧
  (∀ c, c ∈ o_device_caps o → c ∈ o_descriptors o).

Definition heap_indexed (h : heap) : Prop :=
  ∀ l o, h !! l = Some o → indexed o.

(** [h'] extends [h]: no object disappears or changes its class. *)
Definition extends (h h' : heap) : Prop :=
  ∀ l o, h !! l = Some o → ∃ o', h' !! l = Some o' ∧ o_class o' = o_class o.

#[export] Instance extends_preorder : PreOrder extends.
Proof.
  split.
  - intros h l o Hl. eauto.
  - intros h1 h2 h3 H12 H23 l o Hl.
    destruct (H12 l o Hl) as (o2 & Hl2 & <-). eauto.
Qed.

Lemma alloc_preserves P o :
  P o → preserves (λ h, ∀ l o, h !! l = Some o → P o) (alloc o).
Proof.
  intros Ho h Hh l o' [Hl|[_ Hl]]%lookup_app_Some; [by eapply Hh|].
  by apply list_lookup_singleton_Some in Hl as [_ <-].
Qed.

Lemma modify_obj_preserves (P : obj → Prop) l f :
  (∀ o, P o → P (f o)) →
  preserves (λ h, ∀ l o, h !! l = Some o → P o) (modify_obj l f).
Proof.
  intros Hf h Hh l' o'. cbn. rewrite list_lookup_alter.
  case_decide as Heq; [|apply Hh]. subst l'.
  intros (o & Hl & ->)%fmap_Some. eauto.
Qed.

Lemma alloc_extends o : respects extends (alloc o).
Proof.
  intros h l o' Hl. exists o'. split; [|done]. cbn. by apply lookup_app_l_Some.
Qed.

Lemma modify_obj_extends l f :
  (∀ o, o_class (f o) = o_class o) → respects extends (modify_obj l f).
Proof.
  intros Hf h l' o Hl. cbn. rewrite list_lookup_alter.
  case_decide; [subst|]; rewrite Hl; cbn; eauto.
Qed.

#[export] Hint Resolve alloc_extends modify_obj_extends : respects.

Section indexed.
Implicit Types (o : obj) (l : loc).

Lemma Add_indexed self l : preserves heap_indexed (Add self l).
  Proof.
    apply modify_obj_preserves. intros o (Hi & He & Hc).
    repeat split; cbn; intros; apply elem_of_app; left; eauto.
  Qed.

Lemma new_indexed c args : preserves heap_indexed (new c args).
  Proof.
    apply preserves_bind; [apply preserves_lift|]. intros attrs.
    apply alloc_preserves. repeat split; cbn; intros *; [..|set_solver];
      by rewrite lookup_empty.
  Qed.

Lemma new_string_indexed c t args : preserves heap_indexed (new_string c t args).
  Proof.
    apply preserves_bind; [apply preserves_lift|]. intros attrs.
    apply alloc_preserves. repeat split; cbn; intros *; [..|set_solver];
      by rewrite lookup_empty.
  Qed.

  (** Indexing an object and adding it to the children are one transaction:
      the invariant is broken between the two steps only. *)
Lemma index_then_add self l f h :
    (∀ o, indexed o → indexed (set_descriptors (o_descriptors o ++ [l]) (f o))) →
    (∀ o, o_descriptors (f o) = o_descriptors o) →
    heap_indexed h → heap_indexed (snd ((modify_obj self f ;; Add self l) h)).
  Proof.
    intros Hf Hd Hh l' o'.
    unfold Add, modify_obj, modify, mbind, M_bind; cbn [fst snd].
    rewrite list_lookup_alter, list_lookup_alter_eq, list_lookup_alter.
    case_decide as Heq; [|apply Hh]. subst l'.
    intros (o1 & Ho1 & ->)%fmap_Some.
    apply fmap_Some in Ho1 as (o & Ho & ->). rewrite Hd. apply Hf. by eapply Hh.
  Qed.

Lemma AddInterface_indexed self l : preserves heap_indexed (AddInterface self l).
  Proof.
    intros h Hh. unfold AddInterface. unfold mbind, M_bind, gets, lift. cbn.
    destruct (deref h self) as [o|]; [|done]; cbn.
    destruct (getattr_int h l "bInterfaceNumber") as [num|]; [|done]; cbn.
    destruct (getattr_int h l "bAlternateSetting") as [alt|]; [|done]; cbn.
    destruct (o_interfaces o !! (num, alt)); [done|].
    apply (index_then_add self l
             (λ o, set_interfaces (<[(num, alt):=l]> (o_interfaces o)) o)); [|done..].
    intros o' (Hi & He & Hc). repeat split; cbn; intros *; rewrite elem_of_app.
    - rewrite lookup_insert. case_decide; [intros [= ->]; right; set_solver|eauto].
    - eauto.
    - eauto.
  Qed.

Lemma AddEndpoint_indexed self l : preserves heap_indexed (AddEndpoint self l).
  Proof.
    intros h Hh. unfold AddEndpoint. unfold mbind, M_bind, gets, lift. cbn.
    destruct (deref h self) as [o|]; [|done]; cbn.
    destruct (getattr_int h l "bEndpointAddress") as [addr|]; [|done]; cbn.
    destruct (o_endpoints o !! addr); [done|].
    apply (index_then_add self l
             (λ o, set_endpoints (<[addr:=l]> (o_endpoints o)) o)); [|done..].
    intros o' (Hi & He & Hc). repeat split; cbn; intros *; rewrite elem_of_app.
    - eauto.
    - rewrite lookup_insert. case_decide; [intros [= ->]; right; set_solver|eauto].
    - eauto.
  Qed.

Lemma AddDeviceCapability_indexed self l :
    preserves heap_indexed (AddDeviceCapability self l).
  Proof.
    intros h Hh. apply (index_then_add self l
             (λ o, set_device_caps (o_device_caps o ++ [l]) o)); [|done..].
    intros o' (Hi & He & Hc). repeat split; cbn; intros *; rewrite ?elem_of_app; eauto.
    intros [?| ->%list_elem_of_singleton]; [eauto|right; set_solver].
  Qed.

Lemma AddDescriptor_indexed self t n : preserves heap_indexed (AddDescriptor self t n).
  Proof. by apply modify_obj_preserves. Qed.

Lemma setattr_indexed self name v : preserves heap_indexed (setattr self name v).
  Proof.
    unfold setattr. solve_preserves. by apply modify_obj_preserves.
  Qed.
End indexed.

#[export] Hint Resolve Add_indexed new_indexed new_string_indexed
  AddInterface_indexed AddEndpoint_indexed AddDeviceCapability_indexed
  AddDescriptor_indexed setattr_indexed : preserves.

(** [AddEndpoint] on every branch: a new address is indexed and appended, a
    used one raises and leaves the store as it was. *)
Lemma AddEndpoint_run h self e o addr :
  h !! self = Some o → getattr_int h e "bEndpointAddress" = Ok addr →
  AddEndpoint self e h =
    match o_endpoints o !! addr with
    | Some _ => (Raise (RuntimeError ("Endpoint 0x" +:+ hex 2 addr
                          +:+ " already defined on this interface.")), h)
    | None => (Ok (), <[self := set_descriptors (o_descriptors o ++ [e])
                          (set_endpoints (<[addr := e]> (o_endpoints o)) o)]> h)
    end.
Proof.
  intros Ho Ha. unfold AddEndpoint, Add, modify_obj, modify, mbind, M_bind, gets, lift.
  cbn [fst snd id]. unfold deref. rewrite Ho. cbn [of_option]. rewrite Ha.
  destruct (o_endpoints o !! addr); [done|]. f_equal.
  apply list_eq. intros i. rewrite list_lookup_alter, list_lookup_alter_eq, list_lookup_alter.
  destruct (decide (self = i)) as [<-|Hne].
  - rewrite list_lookup_insert_eq by (by eapply lookup_lt_Some). by rewrite Ho.
  - by rewrite list_lookup_insert_ne.
Qed.

Lemma AddInterface_run h self i o num alt :
  h !! self = Some o → getattr_int h i "bInterfaceNumber" = Ok num →
  getattr_int h i "bAlternateSetting" = Ok alt →
  AddInterface self i h =
    match o_interfaces o !! (num, alt) with
    | Some _ => (Raise (RuntimeError ("Interface " +:+ pretty num +:+ " (alternate "
                          +:+ pretty alt +:+ ") already defined.")), h)
    | None => (Ok (), <[self := set_descriptors (o_descriptors o ++ [i])
                          (set_interfaces (<[(num, alt) := i]> (o_interfaces o)) o)]> h)
    end.
Proof.
  intros Ho Hn Ha. unfold AddInterface, Add, modify_obj, modify, mbind, M_bind, gets, lift.
  cbn [fst snd id]. unfold deref. rewrite Ho. cbn [of_option]. rewrite Hn, Ha.
  destruct (o_interfaces o !! (num, alt)); [done|]. f_equal.
  apply list_eq. intros j. rewrite list_lookup_alter, list_lookup_alter_eq, list_lookup_alter.
  destruct (decide (self = j)) as [<-|Hne].
  - rewrite list_lookup_insert_eq by (by eapply lookup_lt_Some). by rewrite Ho.
  - by rewrite list_lookup_insert_ne.
Qed.

(** ** String descriptors *)

Definition utf16_unit (lo hi : byte) : Z := Z_of_byte lo + 256 * Z_of_byte hi.

(** The reader's side of UTF-16LE. *)
Fixpoint utf16le_decode (b : bytes) : option text :=
  match b with
  | [] => Some []
  | lo :: hi :: b =>
      let u := utf16_unit lo hi in
      if (0xD800 <=? u) && (u <? 0xDC00) then
        match b with
        | lo2 :: hi2 :: b =>
            let v := utf16_unit lo2 hi2 in
            if (0xDC00 <=? v) && (v <? 0xE000) then
              t ← utf16le_decode b;
              Some (0x10000 + (u - 0xD800) * 0x400 + (v - 0xDC00) :: t)
            else None
        | _ => None
        end
      else t ← utf16le_decode b; Some (u :: t)
  | _ => None
  end.

(** A Unicode scalar value. *)
Definition scalar (c : Z) : Prop :=
  (0 <= c < 0xD800 ∨ 0xE000 <= c < 0x110000).

Lemma le_split_2 z : 0 <= z < 65536 →
  ∃ lo hi, le_split 2 z = [lo; hi] ∧ utf16_unit lo hi = z.
Proof.
  intros Hz. exists (byte_of_Z z), (byte_of_Z (z / 256)). split; [done|].
  unfold utf16_unit. rewrite !Z_of_byte_of_Z.
  rewrite (Z.mod_small (z / 256)).
  - pose proof (Z.div_mod z 256). lia.
  - split; [apply Z.div_pos; lia|]. apply Z.div_lt_upper_bound; lia.
Qed.

Lemma utf16le_decode_char c b t :
  scalar c → utf16le_decode b = Some t →
  utf16le_decode (utf16le_char c ++ b) = Some (c :: t).
Proof.
  intros Hc Hb. unfold utf16le_char, scalar in *. destruct (Z.ltb_spec c 0x10000).
  - destruct (le_split_2 c) as (lo & hi & -> & Hu); [lia|].
    cbn [app utf16le_decode]. rewrite Hu, Hb.
    destruct (Z.leb_spec 0xD800 c), (Z.ltb_spec c 0xDC00); cbn; try done; lia.
  - set (v := c - 0x10000). assert (0 <= v < 0x100000) by (unfold v; lia).
    pose proof (Z.div_mod v 0x400 ltac:(lia)).
    pose proof (Z.mod_pos_bound v 0x400 ltac:(lia)).
    assert (0 <= v / 0x400 < 0x400) by
      (split; [apply Z.div_pos|apply Z.div_lt_upper_bound]; lia).
    destruct (le_split_2 (0xD800 + v / 0x400)) as (lo & hi & -> & Hu); [lia|].
    destruct (le_split_2 (0xDC00 + v mod 0x400)) as (lo2 & hi2 & -> & Hu2); [lia|].
    cbn [app utf16le_decode]. rewrite Hu, Hu2, Hb.
    rewrite (proj2 (Z.leb_le 0xD800 _)), (proj2 (Z.ltb_lt _ 0xDC00)) by lia.
    rewrite (proj2 (Z.leb_le 0xDC00 _)), (proj2 (Z.ltb_lt _ 0xE000)) by lia.
    cbn [andb mbind option_bind]. do 2 f_equal. unfold v in *. lia.
Qed.

Lemma utf16le_roundtrip t : Forall scalar t → utf16le_decode (utf16le t) = Some t.
Proof.
  induction 1 as [|c t Hc _ IH]; [done|].
  unfold utf16le in *. cbn [fmap list_fmap concat]. by apply utf16le_decode_char.
Qed.

(** The encoding of a string descriptor, computed. *)
Lemma Encode_string depth h l o :
  h !! l = Some o → o_class o = StringDescriptor →
  let n := 2 + py_len (utf16le (o_bString o)) in
  Encode (S depth) h l =
    if n <? 256
    then Ok (byte_of_Z n :: byte_of_Z UsbConstants.DescriptorType.STRING
               :: utf16le (o_bString o))
    else Raise StructError.
Proof.
  intros Hl Hc n. rewrite Encode_S. unfold deref. rewrite Hl. cbn [of_option].
  assert (total_size (S depth) h l = Ok n) as Ht.
  { cbn [total_size]. unfold deref, struct_size. rewrite Hl.
    cbn [of_option mbind outcome_bind]. rewrite Hc. done. }
  unfold own_bytes. cbn [mbind outcome_bind]. rewrite Hc. cbn [c_base StringDescriptor].
  rewrite encode_fields_nodup
    by (rewrite Hc; apply (bool_decide_unpack _); by vm_compute).
  rewrite Hc. cbn [c_fields StringDescriptor AddFixedField AddComputedField app].
  rewrite !mapM_outcome_cons. cbn [field_value f_getter property].
  cbn -[total_size pack_uint struct_pack fmt utf16le py_len]. rewrite Ht.
  cbn -[total_size pack_uint struct_pack fmt utf16le py_len].
  unfold struct_pack.
  replace (parse_format (fmt StringDescriptor)) with (Some [C_B; C_B]) by reflexivity.
  cbn -[pack_uint utf16le py_len].
  pose proof (py_len_nonneg (utf16le (o_bString o))). unfold pack_uint.
  rewrite (proj2 (Z.leb_le 0 n)) by lia. change (256 ^ Z.of_nat 1) with 256.
  cbn [andb]. by destruct (n <? 256).
Qed.

(** ** Properties *)

(** A class the [AddField] family produces: distinct names, and a plain field is
    required exactly when it has no default. *)
Definition well_formed_class (c : ClassDef) : Prop :=
  NoDup (f_name <$> c_fields c) ∧
  ∀ f d, f ∈ c_fields c → f_getter f = GetPlain d →
    f_required f = negb (is_not_none d).

(** The arguments a constructor accepts. *)
Definition accepts (c : ClassDef) (args : kwargs) : Prop :=
  (∀ n, n ∈ args.*1 → plain_field (c_fields c) n) ∧
  (∀ f, f ∈ c_fields c → f_required f = true → f_name f ∈ args.*1).

(** Every way the module changes the store. *)
Inductive mutator :=
  | M_new (c : ClassDef) (args : kwargs)
  | M_new_string (c : ClassDef) (bString : text) (args : kwargs)
  | M_setattr (self : loc) (name : string) (v : value)
  | M_Add (self descriptor : loc)
  | M_AddInterface (self interface : loc)
  | M_AddEndpoint (self endpoint : loc)
  | M_AddDescriptor (self : loc) (typ length : Z)
  | M_AddDeviceCapability (self device_capability : loc).

Definition run_mutator (m : mutator) : M heap unit :=
  match m with
  | M_new c args => new c args;; mret ()
  | M_new_string c t args => new_string c t args;; mret ()
  | M_setattr self name v => setattr self name v
  | M_Add self d => Add self d
  | M_AddInterface self i => AddInterface self i
  | M_AddEndpoint self e => AddEndpoint self e
  | M_AddDescriptor self t n => AddDescriptor self t n
  | M_AddDeviceCapability self c => AddDeviceCapability self c
  end.

(** A configuration with one interface, its alternate setting, and two
    endpoints, built in the order of the repository's own tests. *)
Definition sample_build : M heap loc :=
  c ← new ConfigurationDescriptor [("bmAttributes", VInt 0xC0); ("MaxPower", VInt 50)];
  i ← new InterfaceDescriptor [("bInterfaceNumber", VInt 0)];
  AddInterface c i;;
  e ← new EndpointDescriptor
        [("bEndpointAddress", VInt 0x01); ("bmAttributes", VInt 2);
         ("wMaxPacketSize", VInt 64); ("bInterval", VInt 0)];
  AddEndpoint i e;;
  e ← new EndpointDescriptor
        [("bEndpointAddress", VInt 0x81); ("bmAttributes", VInt 2);
         ("wMaxPacketSize", VInt 64); ("bInterval", VInt 0)];
  AddEndpoint i e;;
  a ← new InterfaceDescriptor
        [("bAlternateSetting", VInt 1); ("bInterfaceNumber", VInt 0)];
  AddInterface c a;;
  mret c.

Definition sample : heap := snd (sample_build []).
Definition sample_bytes : bytes :=
  byte_of_Z <$> [9; 2; 41; 0; 1; 1; 0; 0xC0; 50;
                 9; 4; 0; 0; 2; 255; 255; 255; 0;
                 7; 5; 0x01; 2; 64; 0; 0; 7; 5; 0x81; 2; 64; 0; 0;
                 9; 4; 0; 1; 0; 255; 255; 255; 0].

(** whenever [Encode] succeeds, [total_size] is the number of bytes it
    produced: for every descriptor class, every nesting of containers and every
    state of the store, so the lengths descriptors announce are the lengths
    they have. *)
Theorem Encode_total_size depth h l b :
  Encode depth h l = Ok b → total_size depth h l = Ok (py_len b).
Proof. apply Encode_length. Qed.

Lemma Encode_total_size_witness : total_size 3 sample 0%nat = Ok 41.
Proof. exact (Encode_total_size 3 sample 0%nat sample_bytes ltac:(by vm_compute)). Defined.

(** C2: the encoding of a descriptor tree of self-delimiting classes, walked the
    way a USB host does (read a length byte, take that many bytes, repeat),
    yields exactly the descriptors of the tree in preorder, each by its own
    bytes: no descriptor overlaps, is skipped or is cut. *)
Theorem Encode_walk depth h l b :
  (∀ l' o, rtc (child h) l l' → h !! l' = Some o → self_delimiting (o_class o)) →
  Encode depth h l = Ok b →
  ∃ parts, flatten depth h l = Ok parts ∧ walk (length b) b = Some parts.
Proof.
  intros Hsd. rewrite Encode_flatten. intros (parts & Hparts & <-)%outcome_fmap_Ok.
  exists parts. split; [done|].
  pose proof (flatten_delimited _ _ _ _ Hsd Hparts) as Hd.
  apply walk_concat; [done|]. clear Hparts.
  induction Hd as [|b parts (n & rest & -> & _) _ IH]; cbn; [lia|].
  rewrite length_app. lia.
Qed.

Lemma Encode_walk_witness :
  walk 41 sample_bytes =
    Some [take 9 sample_bytes; take 9 (drop 9 sample_bytes);
          take 7 (drop 18 sample_bytes); take 7 (drop 25 sample_bytes);
          drop 32 sample_bytes].
Proof.
  destruct (Encode_walk 3 sample 0%nat sample_bytes) as (parts & Hp & Hw).
  - intros l' o _ Hl. assert (In o sample) as Hin.
    { apply list_elem_of_In. by eapply list_elem_of_lookup_2. }
    vm_compute in Hin. repeat destruct Hin as [<-|Hin]; [..|done];
      (split; [done|]); eexists _, _; (split; [reflexivity|]); by split.
  - by vm_compute.
  - vm_compute in Hp. apply Ok_inj in Hp as <-. exact Hw.
Defined.

(** C32: on a store in which no descriptor contains itself, [Encode] never fails
    for lack of depth, and giving it any larger depth changes nothing: the
    recursion terminates and [max_depth] is enough. *)
Theorem Encode_terminates h l :
  acyclic h →
  Encode (max_depth h) h l ≠ Raise recursion_error ∧
  ∀ n, Encode (max_depth h + n) h l = Encode (max_depth h) h l.
Proof.
  intros Ha. destruct (acyclic_bounded h l Ha) as [Hb _].
  split; [done|]. intros n. by apply Encode_more_depth.
Qed.

Lemma Encode_terminates_witness : Encode (max_depth sample + 10) sample 0%nat = Ok sample_bytes.
Proof.
  destruct (Encode_terminates sample 0%nat) as [_ H].
  - exists (λ l, match l with 0 => 2 | 1 => 1 | _ => 0 end)%nat.
    intros l o c Hl Hc.
    apply list_elem_of_In in Hc.
    do 5 (destruct l as [|l]; [vm_compute in Hl; injection Hl as <-;
      vm_compute in Hc; repeat destruct Hc as [<-|Hc]; cbn; (lia || done)|]).
    vm_compute in Hl. done.
  - rewrite H. by vm_compute.
Defined.

Lemma last_arg_None name args : last_arg name args = None → name ∉ args.*1.
Proof.
  unfold last_arg. induction args as [|[n v] args IH] using rev_ind; [set_solver|].
  rewrite foldl_app. cbn. destruct (String.eqb_spec n name) as [|Hne]; [done|].
  intros H. rewrite fmap_app, elem_of_app. cbn. rewrite list_elem_of_singleton.
  intros [Hin|Heq]; [by apply IH|congruence].
Qed.

(** a constructor call succeeds exactly when every keyword names a plain
    field and every required field is given; the new object then reads back,
    for each plain field, the argument given or else the default (never the
    assertion of a missing default), and otherwise the store is untouched. *)
Theorem constructor_spec total set_size c args h :
  well_formed_class c →
  (accepts c args ∧ ∃ o, new c args h = (Ok (length h), h ++ [o]) ∧
     o_class o = c ∧
     ∀ f d, f ∈ c_fields c → f_getter f = GetPlain d →
       ∃ v, getattr total set_size o (f_name f) = Ok v ∧
            (last_arg (f_name f) args = Some v ∨
             last_arg (f_name f) args = None ∧ d = Some v)) ∨
  (¬ accepts c args ∧ ∃ e, new c args h = (Raise e, h)).
Proof.
  intros [Hnd Hreq]. unfold new, mbind, M_bind, lift.
  destruct (Descriptor_init (c_fields c) args) as [attrs|e] eqn:Hi.
  - left. apply Descriptor_init_Ok in Hi as (Hp & Hr & ->). split; [done|].
    eexists. split; [done|]. split; [done|]. intros f d Hf Hg.
    unfold getattr. cbn [o_class]. rewrite find_field_nodup by done.
    cbn [of_option mbind outcome_bind]. unfold field_value. rewrite Hg.
    cbn [o_attrs]. rewrite foldl_insert_lookup, lookup_empty.
    destruct (last_arg (f_name f) args) as [v|] eqn:Hl; [by exists v; auto|].
    destruct d as [v|]; [exists v; auto|]. exfalso.
    apply (last_arg_None _ _ Hl), Hr; [done|]. by rewrite (Hreq f None).
  - right. split; [|eauto]. intros [Hp Hr].
    assert (Descriptor_init (c_fields c) args = Ok (foldl (λ m '(n, v), <[n := v]> m) ∅ args))
      as Hok by (by apply Descriptor_init_Ok).
    congruence.
Qed.

Lemma EndpointDescriptor_well_formed : well_formed_class EndpointDescriptor.
Proof.
  split; [apply (bool_decide_unpack _); by vm_compute|].
  intros f d Hf Hg. apply list_elem_of_In in Hf. cbn in Hf.
  repeat destruct Hf as [<-|Hf]; cbn in *;
    first [discriminate|contradiction|injection Hg as <-; reflexivity].
Qed.

Lemma constructor_spec_witness :
  ∃ e, new EndpointDescriptor [("bLength", VInt 7)] [] = (Raise e, []).
Proof.
  destruct (constructor_spec (λ _, Ok 0) (λ _, Ok 0) EndpointDescriptor
              [("bLength", VInt 7)] [] EndpointDescriptor_well_formed)
    as [(_ & o & H & _)|(_ & H)]; [|exact H].
  exfalso. vm_compute in H. discriminate H.
Defined.

(** an encoded configuration descriptor announces its own length, its type,
    the length of the whole encoding (so that a host asking for [wTotalLength]
    bytes gets everything) and the number of distinct interface numbers, however
    many alternate settings they have; a configuration longer than 65535 bytes
    does not encode. *)
Theorem configuration_header depth h l o b :
  h !! l = Some o → o_class o = ConfigurationDescriptor →
  Encode depth h l = Ok b →
  struct_unpack_from "<BBHB" b 0 =
    Ok [VInt 9; VInt UsbConstants.DescriptorType.CONFIGURATION; VInt (py_len b);
        VInt (num_interfaces o)] ∧ py_len b < 65536.
Proof.
  intros Hl Hc Hb. assert (struct_unpack_from "<BBHB" b 0 =
    Ok [VInt 9; VInt UsbConstants.DescriptorType.CONFIGURATION; VInt (py_len b);
        VInt (num_interfaces o)]) as Hu.
  { pose proof (Encode_length _ _ _ _ Hb) as Ht.
    destruct depth as [|depth]; [done|]. rewrite Encode_S in Hb.
    unfold deref in Hb. rewrite Hl in Hb. cbn [of_option mbind outcome_bind] in Hb.
    apply outcome_bind_Ok in Hb as (own & Hown & Hb). rewrite Hc in Hb.
    cbn [c_base ConfigurationDescriptor is_container] in Hb.
    apply outcome_bind_Ok in Hb as (bufs & _ & [= Hb]).
    unfold own_bytes in Hown. rewrite Hc in Hown.
    apply outcome_bind_Ok in Hown as (hd & Hhd & [= ->]).
    rewrite <- Hb at 1.
    exact (configuration_head (λ _, total_size (S depth) h l) _ o _ own _ Hc Ht Hhd). }
  split; [done|]. unfold struct_unpack_from in Hu.
  apply outcome_bind_Ok in Hu as (cs & Hcs & Hu).
  vm_compute in Hcs. apply Ok_inj in Hcs as <-. case_decide; [|done].
  apply Ok_inj in Hu. rewrite drop_0 in Hu. cbn [unpack_codes] in Hu.
  injection Hu as _ _ Hn _.
  pose proof (le_combine_bound (take 2 (drop 1 (drop 1 b)))) as [_ Hlt].
  rewrite length_take in Hlt. cbn [code_size] in Hn. rewrite Hn in Hlt.
  eapply Z.lt_le_trans; [exact Hlt|]. change 65536 with (256 ^ 2).
  apply Z.pow_le_mono_r; lia.
Qed.

Lemma configuration_header_witness :
  struct_unpack_from "<BBHB" sample_bytes 0 = Ok [VInt 9; VInt 2; VInt 41; VInt 1].
Proof.
  refine (proj1 (configuration_header 3 sample 0%nat
            (default (mkObj DeviceDescriptor ∅ [] [] [] ∅ ∅ [] None) (sample !! 0%nat))
            sample_bytes _ _ _)); by vm_compute.
Defined.

(** C40: whatever sequence of constructor calls, field assignments and [Add*]
    calls runs on an empty store (some of which may raise), every interface a
    configuration indexes, every endpoint an interface indexes and every
    capability of a BOS descriptor is among the children it encodes. *)
Theorem mutators_keep_index ops :
  heap_indexed (snd (mfor ops run_mutator [])).
Proof.
  assert (preserves heap_indexed (mfor ops run_mutator)) as H.
  { solve_preserves. match goal with |- preserves _ (run_mutator ?m) => destruct m end;
      cbn; eauto with preserves; solve_preserves. }
  apply H. intros l o Hl. by rewrite lookup_nil in Hl.
Qed.

(** a string descriptor encodes its length, its type and a UTF-16LE body
    that decodes to exactly the string (surrogate pairs included); when the
    total does not fit the length byte it raises struct.error and is not
    truncated. *)
Theorem string_descriptor_roundtrip h l o :
  h !! l = Some o → o_class o = StringDescriptor → Forall scalar (o_bString o) →
  let n := 2 + py_len (utf16le (o_bString o)) in
  if n <? 256 then
    ∃ body, Encode (max_depth h) h l = Ok ([byte_of_Z n; byte_of_Z 3] ++ body) ∧
            utf16le_decode body = Some (o_bString o)
  else Encode (max_depth h) h l = Raise StructError.
Proof.
  intros Hl Hc Hs n. unfold max_depth. rewrite (Encode_string _ _ _ _ Hl Hc).
  fold n. destruct (n <? 256); [|done].
  eexists. split; [done|]. by apply utf16le_roundtrip.
Qed.

Lemma string_descriptor_roundtrip_witness :
  let h := snd (new_string StringDescriptor [0x41; 0x1F600] [] []) in
  ∃ body, Encode (max_depth h) h 0%nat = Ok ([byte_of_Z 8; byte_of_Z 3] ++ body) ∧
          utf16le_decode body = Some [0x41; 0x1F600].
Proof.
  refine (string_descriptor_roundtrip _ 0%nat
            (mkObj StringDescriptor ∅ [0x41; 0x1F600] [] [] ∅ ∅ [] None) _ _ _);
    [reflexivity|reflexivity|].
  repeat constructor; unfold scalar; lia.
Defined.
