(* ===== verification/MsOs20Descriptors.v ===== *)
(** The Microsoft OS 2.0 descriptor classes of msos20_descriptors.py.  They are
    further instances of the descriptor classes of UsbDescriptors; a platform
    capability refers to a descriptor set, whose encoded length it announces. *)

From S2P Require Import Prelude PyStruct UsbConstants HidConstants UsbDescriptors.

#[local] Open Scope Z_scope.

(** [uuid.UUID(...).bytes_le]: the first three groups little-endian, the rest in
    order. *)
Definition uuid_bytes_le (time_low time_mid time_hi : Z) (rest : list Z) : bytes :=
  le_split 4 time_low ++ le_split 2 time_mid ++ le_split 2 time_hi
    ++ (byte_of_Z <$> rest).

Definition MS_OS_20_Platform_Capability_ID : bytes :=
  uuid_bytes_le 0xD8DD60DF 0x4589 0x4CC7
    [0x9C; 0xD2; 0x65; 0x9D; 0x9E; 0x64; 0x8A; 0x9F].

Definition PlatformCapabilityDescriptor : ClassDef :=
  mkClass "PlatformCapabilityDescriptor" Base_PlatformCapabilityDescriptor $
  AddField "bAltEnumCode" "B" "{}" (Some (VInt 0)) $
  AddField "bMS_VendorCode" "B" "{}" None $
  AddComputedField "wMSOSDescriptorSetTotalLength" "H" "descriptor_set_size" "{}" $
  AddField "dwWindowsVersion" "I" "{}" None $
  AddFixedField "MS_OS_20_Platform_Capability_ID" "16s"
    (VStr MS_OS_20_Platform_Capability_ID) "{}" $
  AddFixedField "bReserved" "B" (VInt 0) "{}" $
  AddFixedField "bDevCapabilityType" "B" (VInt UsbConstants.CapabilityType.PLATFORM) "{}" $
  AddFixedField "bDescriptorType" "B" (VInt UsbConstants.DescriptorType.DEVICE_CAPABILITY) "{}" $
  AddComputedField "bLength" "B" "struct_size" "{}" [].

(** [PlatformCapabilityDescriptor.SetDescriptorSet] *)
Definition SetDescriptorSet (self descriptor_set : loc) : M heap unit :=
  modify_obj self (set_descriptor_set (Some descriptor_set)).

Definition DescriptorSetHeader : ClassDef :=
  mkClass "DescriptorSetHeader" Base_DescriptorContainer $
  AddComputedField "wTotalLength" "H" "total_size" "{}" $
  AddField "dwWindowsVersion" "I" "{}" None $
  AddFixedField "wDescriptorType" "H" (VInt 0x00) "{}" $
  AddComputedField "wLength" "H" "struct_size" "{}" [].

Definition ConfigurationSubsetHeader : ClassDef :=
  mkClass "ConfigurationSubsetHeader" Base_DescriptorContainer $
  AddComputedField "wTotalLength" "H" "total_size" "{}" $
  AddFixedField "bReserved" "B" (VInt 0) "{}" $
  AddField "bConfigurationValue" "B" "{}" None $
  AddFixedField "wDescriptorType" "H" (VInt 0x01) "{}" $
  AddComputedField "wLength" "H" "struct_size" "{}" [].

Definition FunctionSubsetHeader : ClassDef :=
  mkClass "FunctionSubsetHeader" Base_DescriptorContainer $
  AddComputedField "wSubsetLength" "H" "total_size" "{}" $
  AddFixedField "bReserved" "B" (VInt 0) "{}" $
  AddField "bFirstInterface" "B" "{}" None $
  AddFixedField "wDescriptorType" "H" (VInt 0x02) "{}" $
  AddComputedField "wLength" "H" "struct_size" "{}" [].

Definition CompatibleId : ClassDef :=
  mkClass "CompatibleId" Base_Descriptor $
  AddField "SubCompatibleID" "8s" "{}" (Some (VStr [])) $
  AddField "CompatibleID" "8s" "{}" None $
  AddFixedField "wDescriptorType" "H" (VInt 0x03) "{}" $
  AddComputedField "wLength" "H" "struct_size" "{}" [].

(** ** Laws *)

Lemma SetDescriptorSet_extends self d : respects extends (SetDescriptorSet self d).
Proof. by apply modify_obj_extends. Qed.

Lemma SetDescriptorSet_indexed self d : preserves heap_indexed (SetDescriptorSet self d).
Proof. by apply modify_obj_preserves. Qed.

#[export] Hint Resolve SetDescriptorSet_extends : respects.
#[export] Hint Resolve SetDescriptorSet_indexed : preserves.

Lemma descriptor_set_head total set_size o t version b rest :
  o_class o = DescriptorSetHeader → total () = Ok t →
  o_attrs o !! "dwWindowsVersion" = Some (VInt version) →
  encode_fields total set_size o = Ok b →
  struct_unpack_from "<HHIH" (b ++ rest) 0 =
    Ok [VInt 10; VInt 0; VInt version; VInt t].
Proof. intros Hc Ht Hv H. read_fields H Hc 4%nat. by rewrite Hv, Ht. Qed.

(** The platform capability announces the vendor code and the length of the
    descriptor set as it is when the capability is encoded. *)
Lemma platform_head total set_size o n version code b rest :
  o_class o = PlatformCapabilityDescriptor → set_size () = Ok n →
  o_attrs o !! "dwWindowsVersion" = Some (VInt version) →
  o_attrs o !! "bMS_VendorCode" = Some (VInt code) →
  encode_fields total set_size o = Ok b →
  struct_unpack_from "<BBBB16sIHB" (b ++ rest) 0 =
    Ok [VInt 28; VInt UsbConstants.DescriptorType.DEVICE_CAPABILITY;
        VInt UsbConstants.CapabilityType.PLATFORM; VInt 0;
        VStr MS_OS_20_Platform_Capability_ID; VInt version; VInt n; VInt code].
Proof.
  intros Hc Hn Hv Hcode H. read_fields H Hc 8%nat. by rewrite Hv, Hn, Hcode.
Qed.
