(* ===== verification/HidDescriptors.v ===== *)
(** HID report descriptors, hid_descriptors.py: the encoders of short items and
    collections, with a reader of the item format of HID 1.11 section 6.2.2.2 as
    their specification. *)

From S2P Require Import Prelude PyStruct UsbConstants HidConstants.

#[local] Open Scope Z_scope.

(** ** Encoders *)

(** [tag << 4 | typ << 2 | size]. *)
Definition item_header (tag typ size : Z) : Z :=
  Z.lor (Z.lor (Z.shiftl tag 4) (Z.shiftl typ 2)) size.

(** [_PackItem] *)
Definition PackItem (tag typ value force_length : Z) : outcome bytes :=
  if (value =? 0) && (force_length <=? 0) then
    struct_pack "<B" [VInt (item_header tag typ 0)]
  else if (value <=? 0xff) && (force_length <=? 1) then
    struct_pack "<BB" [VInt (item_header tag typ 1); VInt value]
  else if (value <=? 0xffff) && (force_length <=? 2) then
    struct_pack "<BH" [VInt (item_header tag typ 2); VInt value]
  else if (value <=? 0xffffffff) && (force_length <=? 4) then
    struct_pack "<BI" [VInt (item_header tag typ 3); VInt value]
  else Raise (NotImplementedError "Long items are not implemented.").

(** [_DefineItem]: the returned encoder. *)
Definition DefineItem (tag typ : Z) : outcome (Z → Z → outcome bytes) :=
  assert_ ((tag >=? 0) && (tag <=? 0xF));;
  assert_ ((typ >=? 0) && (typ <=? 3));;
  Ok (λ value force_length, PackItem tag typ value force_length).

(** A property of a main item: its bit and whether it is set. *)
Abbreviation item_property := (Z * bool)%type.

Definition main_value (properties : list item_property) : Z :=
  foldl (λ value '(bit, is_set),
           if (is_set : bool) then Z.lor value (Z.shiftl 1 bit) else value) 0 properties.

(** [_DefineMainItem] *)
Definition DefineMainItem (tag : Z) : outcome (list item_property → outcome bytes) :=
  assert_ ((tag >=? 0) && (tag <=? 0xF));;
  Ok (λ properties, PackItem tag HidConstants.Scope.MAIN (main_value properties) 1).

Definition item (tag typ value force_length : Z) : outcome bytes :=
  f ← DefineItem tag typ; f value force_length.
Definition main_item (tag : Z) (properties : list item_property) : outcome bytes :=
  f ← DefineMainItem tag; f properties.

Definition Input := main_item 8.
Definition Output := main_item 9.
Definition Feature := main_item 11.

Definition Data : item_property := (0, false).
Definition Constant : item_property := (0, true).
Definition Array : item_property := (1, false).
Definition Variable_ : item_property := (1, true).
Definition Absolute : item_property := (2, false).
Definition Relative : item_property := (2, true).
Definition NoWrap : item_property := (3, false).
Definition Wrap : item_property := (3, true).
Definition Linear : item_property := (4, false).
Definition NonLinear : item_property := (4, true).
Definition PreferredState : item_property := (5, false).
Definition NoPreferred : item_property := (5, true).
Definition NoNullPosition : item_property := (6, false).
Definition NullState : item_property := (6, true).
Definition NonVolatile : item_property := (7, false).
Definition Volatile : item_property := (7, true).
Definition BitField : item_property := (8, false).
Definition BufferedBytes : item_property := (8, true).

(** The items of a call are evaluated in order; the first exception escapes. *)
Definition ReportDescriptor (items : list (outcome bytes)) : outcome bytes :=
  items ← mapM id items; Ok (concat items).

Definition Collection (typ : Z) (items : list (outcome bytes)) : outcome bytes :=
  items ← mapM id items;
  start ← struct_pack "<BB" [VInt 0xA1; VInt typ];
  end_ ← struct_pack "<B" [VInt 0xC0];
  Ok (start ++ concat items ++ end_).

Definition UsagePage := item 0 HidConstants.Scope.GLOBAL.
Definition LogicalMinimum := item 1 HidConstants.Scope.GLOBAL.
Definition LogicalMaximum := item 2 HidConstants.Scope.GLOBAL.
Definition PhysicalMinimum := item 3 HidConstants.Scope.GLOBAL.
Definition PhysicalMaximum := item 4 HidConstants.Scope.GLOBAL.
Definition UnitExponent := item 5 HidConstants.Scope.GLOBAL.
Definition Unit := item 6 HidConstants.Scope.GLOBAL.
Definition ReportSize := item 7 HidConstants.Scope.GLOBAL.
Definition ReportID := item 8 HidConstants.Scope.GLOBAL.
Definition ReportCount := item 9 HidConstants.Scope.GLOBAL.
Definition Push := item 10 HidConstants.Scope.GLOBAL.
Definition Pop := item 11 HidConstants.Scope.GLOBAL.

Definition Usage := item 0 HidConstants.Scope.LOCAL.
Definition UsageMinimum := item 1 HidConstants.Scope.LOCAL.
Definition UsageMaximum := item 2 HidConstants.Scope.LOCAL.
Definition DesignatorIndex := item 3 HidConstants.Scope.LOCAL.
Definition DesignatorMinimum := item 4 HidConstants.Scope.LOCAL.
Definition DesignatorMaximum := item 5 HidConstants.Scope.LOCAL.
Definition StringIndex := item 7 HidConstants.Scope.LOCAL.
Definition StringMinimum := item 8 HidConstants.Scope.LOCAL.
Definition StringMaximum := item 9 HidConstants.Scope.LOCAL.
Definition Delimiter := item 10 HidConstants.Scope.LOCAL.

(** ** The reader *)

(** A short item: tag, type and data. *)
Record short_item := mkShortItem { i_tag : Z; i_type : Z; i_data : Z }.

#[export] Instance short_item_eq_dec : EqDecision short_item.
Proof. solve_decision. Defined.

(** Bytes of data announced by the two low bits of the header. *)
Definition data_size (header : Z) : nat :=
  let k := Z.land header 3 in if k =? 3 then 4%nat else Z.to_nat k.

Definition read_item (b : bytes) : option (short_item * bytes) :=
  match b with
  | [] => None
  | h :: rest =>
      let z := Z_of_byte h in
      let n := data_size z in
      if (length rest <? n)%nat then None
      else Some (mkShortItem (Z.shiftr z 4) (Z.land (Z.shiftr z 2) 3)
                   (le_combine (take n rest)), drop n rest)
  end.

Fixpoint read_items (fuel : nat) (b : bytes) : option (list short_item) :=
  match b with
  | [] => Some []
  | _ =>
      match fuel with
      | O => None
      | S fuel =>
          '(i, rest) ← read_item b;
          more ← read_items fuel rest;
          Some (i :: more)
      end
  end.

(** The items of a whole report descriptor. *)
Definition report_items (b : bytes) : option (list short_item) :=
  read_items (length b) b.

(** A source tree of a report descriptor, its encoding by the functions above
    and the items it stands for. *)
Inductive report_tree :=
  | Item (tag typ value force_length : Z)
  | MainItem (tag : Z) (properties : list item_property)
  | Group (typ : Z) (items : list report_tree).

Fixpoint encode_tree (t : report_tree) : outcome bytes :=
  match t with
  | Item tag typ value force_length => item tag typ value force_length
  | MainItem tag properties => main_item tag properties
  | Group typ items => Collection typ (encode_tree <$> items)
  end.

Fixpoint tree_items (t : report_tree) : list short_item :=
  match t with
  | Item tag typ value _ => [mkShortItem tag typ value]
  | MainItem tag properties =>
      [mkShortItem tag HidConstants.Scope.MAIN (main_value properties)]
  | Group typ items =>
      mkShortItem 10 HidConstants.Scope.MAIN typ
        :: concat (tree_items <$> items) ++ [mkShortItem 12 HidConstants.Scope.MAIN 0]
  end.

(** ** One item *)

Lemma header_fields tag typ k :
  0 <= tag <= 15 → 0 <= typ <= 3 → 0 <= k <= 3 →
  let z := item_header tag typ k in
  (0 <= z < 256) ∧ Z.shiftr z 4 = tag ∧ Z.land (Z.shiftr z 2) 3 = typ ∧ Z.land z 3 = k.
Proof.
  intros Ht Hy Hk.
  assert (Forall (λ t, Forall (λ y, Forall (λ k,
    bool_decide ((0 <= item_header t y k < 256) ∧ Z.shiftr (item_header t y k) 4 = t ∧
      Z.land (Z.shiftr (item_header t y k) 2) 3 = y ∧ Z.land (item_header t y k) 3 = k)
      = true)
    (xrange 0 4)) (xrange 0 4)) (xrange 0 16)) as Hall.
  { apply (bool_decide_unpack _). by vm_compute. }
  rewrite Forall_forall in Hall.
  specialize (Hall tag ltac:(apply elem_of_seqZ; lia)). rewrite Forall_forall in Hall.
  specialize (Hall typ ltac:(apply elem_of_seqZ; lia)). rewrite Forall_forall in Hall.
  specialize (Hall k ltac:(apply elem_of_seqZ; lia)).
  by apply bool_decide_eq_true in Hall.
Qed.

(** A header byte followed by the announced data reads as the item. *)
Lemma read_item_bytes tag typ k v n rest :
  0 <= tag <= 15 → 0 <= typ <= 3 → 0 <= k <= 3 →
  n = (if k =? 3 then 4%nat else Z.to_nat k) → 0 <= v < 256 ^ Z.of_nat n →
  read_item (byte_of_Z (item_header tag typ k) :: le_split n v ++ rest) =
    Some (mkShortItem tag typ v, rest).
Proof.
  intros Ht Hy Hk Hn Hv. destruct (header_fields tag typ k Ht Hy Hk) as (Hz & H1 & H2 & H3).
  cbn [read_item]. rewrite Z_of_byte_of_Z, Z.mod_small by done. cbv zeta.
  unfold data_size. rewrite H3, <- Hn, H1, H2.
  rewrite length_app, length_le_split. rewrite (proj2 (Nat.ltb_ge _ _)) by lia.
  rewrite take_app_length', drop_app_length' by (by rewrite length_le_split).
  by rewrite le_combine_split.
Qed.

(** [fits n v force]: [n] bytes of data hold [v] and are at least as many as the
    caller forces. *)
Definition holds (n v force_length : Z) : bool :=
  (v <? 256 ^ n) && (force_length <=? n).

Lemma pack_B_run v : struct_pack "<B" [VInt v] = pack_uint 1 v.
Proof.
  unfold struct_pack. replace (parse_format "<B") with (Some [C_B]) by reflexivity.
  cbn [of_option mbind outcome_bind pack_codes pack_value].
  destruct (pack_uint 1 v) as [b|]; cbn; [by rewrite app_nil_r|done].
Qed.

Lemma pack_header_run fmt c n h v :
  parse_format fmt = Some [C_B; c] → c ≠ C_x →
  (pack_value c (VInt v) = pack_uint n v) → 0 <= h < 256 →
  struct_pack fmt [VInt h; VInt v] =
    if (0 <=? v) && (v <? 256 ^ Z.of_nat n) then Ok (byte_of_Z h :: le_split n v)
    else Raise StructError.
Proof.
  intros Hf Hc Hp Hh. unfold struct_pack. rewrite Hf.
  cbn [of_option mbind outcome_bind]. rewrite !pack_codes_cons by done.
  cbn [pack_value]. rewrite pack_uint_ok by (cbn; lia). rewrite Hp.
  cbn [mbind outcome_bind pack_codes]. unfold pack_uint.
  case_match; [|done]. cbn. by rewrite app_nil_r.
Qed.

Lemma PackItem_run tag typ v force :
  0 <= tag <= 15 → 0 <= typ <= 3 →
  PackItem tag typ v force =
    if (v =? 0) && (force <=? 0) then Ok [byte_of_Z (item_header tag typ 0)]
    else if (0xffffffff <? v) || (4 <? force)
    then Raise (NotImplementedError "Long items are not implemented.")
    else if v <? 0 then Raise StructError
    else if holds 1 v force then Ok (byte_of_Z (item_header tag typ 1) :: le_split 1 v)
    else if holds 2 v force then Ok (byte_of_Z (item_header tag typ 2) :: le_split 2 v)
    else Ok (byte_of_Z (item_header tag typ 3) :: le_split 4 v).
Proof.
  intros Ht Hy. unfold PackItem, holds.
  destruct ((v =? 0) && (force <=? 0)).
  { rewrite pack_B_run, pack_uint_ok by (apply header_fields; lia). done. }
  change (256 ^ 1) with 256. change (256 ^ 2) with 65536.
  rewrite (pack_header_run "<BB" C_B 1), (pack_header_run "<BH" C_H 2),
    (pack_header_run "<BI" C_I 4) by (done || apply header_fields; lia).
  change (256 ^ Z.of_nat 1) with 256. change (256 ^ Z.of_nat 2) with 65536.
  change (256 ^ Z.of_nat 4) with 4294967296.
  repeat first [case_match; rewrite ?andb_true_iff, ?andb_false_iff, ?orb_true_iff,
    ?orb_false_iff, ?Z.leb_le, ?Z.leb_gt, ?Z.ltb_lt, ?Z.ltb_ge in * ];
    try done; exfalso; lia.
Qed.

Lemma PackItem_read tag typ v force b rest :
  0 <= tag <= 15 → 0 <= typ <= 3 → PackItem tag typ v force = Ok b →
  read_item (b ++ rest) = Some (mkShortItem tag typ v, rest).
Proof.
  intros Ht Hy. rewrite PackItem_run by done. unfold holds.
  change (256 ^ 1) with 256. change (256 ^ 2) with 65536.
  destruct ((v =? 0) && _) eqn:E0.
  - apply andb_true_iff in E0 as [->%Z.eqb_eq _]. intros [= <-].
    by apply (read_item_bytes tag typ 0 0 0).
  - destruct (_ || _) eqn:E1; [done|]. apply orb_false_iff in E1 as [E1%Z.ltb_ge _].
    destruct (Z.ltb_spec v 0); [done|].
    destruct ((v <? 256) && _) eqn:E2; [|destruct ((v <? 65536) && _) eqn:E3]; intros [= <-].
    + apply andb_true_iff in E2 as [E2%Z.ltb_lt _].
      apply (read_item_bytes tag typ 1 v 1); (done || lia).
    + apply andb_true_iff in E3 as [E3%Z.ltb_lt _].
      apply (read_item_bytes tag typ 2 v 2); (done || lia).
    + apply (read_item_bytes tag typ 3 v 4); (done || lia).
Qed.

(** ** Whole descriptors *)

(** [b] reads as the items [l], in front of anything. *)
Definition consumes (b : bytes) (l : list short_item) : Prop :=
  ∀ fuel rest k, read_items fuel rest = Some k →
    read_items (length l + fuel) (b ++ rest) = Some (l ++ k).

Lemma consumes_nil : consumes [] [].
Proof. by intros fuel rest k. Qed.

Lemma consumes_app b1 b2 l1 l2 :
  consumes b1 l1 → consumes b2 l2 → consumes (b1 ++ b2) (l1 ++ l2).
Proof.
  intros H1 H2 fuel rest k Hk. rewrite <- !app_assoc, length_app.
  rewrite <- Nat.add_assoc. by apply H1, H2.
Qed.

Lemma consumes_item b i :
  (∀ rest, read_item (b ++ rest) = Some (i, rest)) → consumes b [i].
Proof.
  intros Hb fuel rest k Hk. cbn [length Nat.add].
  pose proof (Hb rest) as Hr. destruct (b ++ rest) as [|x l] eqn:E; [done|].
  cbn [read_items]. rewrite Hr. cbn [mbind option_bind]. by rewrite Hk.
Qed.

Lemma consumes_concat (bs : list bytes) (ls : list (list short_item)) :
  Forall2 consumes bs ls → consumes (concat bs) (concat ls).
Proof.
  induction 1 as [|b l bs ls Hb _ IH]; [apply consumes_nil|].
  cbn [concat]. by apply consumes_app.
Qed.

Lemma read_items_more fuel fuel' b l :
  read_items fuel b = Some l → (fuel <= fuel')%nat → read_items fuel' b = Some l.
Proof.
  revert fuel' b l. induction fuel as [|fuel IH]; intros fuel' b l Hl Hle.
  - destruct b; [|done]. by destruct fuel'.
  - destruct fuel' as [|fuel']; [lia|]. destruct b as [|x b]; [done|].
    cbn [read_items] in *. destruct (read_item (x :: b)) as [[i rest]|]; [|done].
    cbn [mbind option_bind] in *. destruct (read_items fuel rest) as [l'|] eqn:E; [|done].
    by rewrite (IH fuel' rest l') by (done || lia).
Qed.

Lemma read_item_shorter b i rest :
  read_item b = Some (i, rest) → (length rest < length b)%nat.
Proof.
  destruct b as [|h b]; [done|]. cbn. case_match; [done|]. intros [= _ <-].
  rewrite length_drop. lia.
Qed.

(** The items never outnumber the bytes. *)
Lemma read_items_enough fuel b l :
  read_items fuel b = Some l → read_items (length b) b = Some l.
Proof.
  revert b l. induction fuel as [|fuel IH]; intros b l Hl.
  - destruct b; [done|]. done.
  - destruct b as [|x b]; [done|]. cbn [read_items] in Hl.
    destruct (read_item (x :: b)) as [[i rest]|] eqn:E; [|done].
    cbn [mbind option_bind] in Hl. destruct (read_items fuel rest) as [l'|] eqn:E'; [|done].
    injection Hl as <-. apply IH in E'. pose proof (read_item_shorter _ _ _ E) as Hlt.
    cbn [length] in *. cbn [read_items]. rewrite E. cbn [mbind option_bind].
    by rewrite (read_items_more _ (length b) _ _ E') by lia.
Qed.

Lemma consumes_report b l : consumes b l → report_items b = Some l.
Proof.
  intros Hb. unfold report_items. eapply read_items_enough.
  specialize (Hb 0%nat [] [] eq_refl). rewrite !app_nil_r in Hb. exact Hb.
Qed.

Lemma item_consumes tag typ v force b :
  item tag typ v force = Ok b → consumes b [mkShortItem tag typ v].
Proof.
  unfold item, DefineItem.
  destruct ((tag >=? 0) && _) eqn:Et; [|done]. destruct ((typ >=? 0) && _) eqn:Ey; [|done].
  rewrite andb_true_iff, Z.geb_leb, !Z.leb_le in Et, Ey. cbn [assert_ mbind outcome_bind].
  intros Hb. apply consumes_item. intros rest. by eapply PackItem_read.
Qed.

Lemma main_item_consumes tag properties b :
  main_item tag properties = Ok b →
  consumes b [mkShortItem tag HidConstants.Scope.MAIN (main_value properties)].
Proof.
  unfold main_item, DefineMainItem. destruct ((tag >=? 0) && _) eqn:Et; [|done].
  rewrite andb_true_iff, Z.geb_leb, !Z.leb_le in Et. cbn [assert_ mbind outcome_bind].
  intros Hb. apply consumes_item. intros rest.
  eapply PackItem_read; [exact Et| |exact Hb]. unfold HidConstants.Scope.MAIN. lia.
Qed.

Lemma Collection_consumes typ items bs ls b :
  mapM id items = Ok bs → Forall2 consumes bs ls → Collection typ items = Ok b →
  consumes b (mkShortItem 10 HidConstants.Scope.MAIN typ
    :: concat ls ++ [mkShortItem 12 HidConstants.Scope.MAIN 0]).
Proof.
  unfold Collection. intros Hbs Hls. rewrite Hbs. cbn [mbind outcome_bind].
  change (struct_pack "<B" [VInt 0xC0]) with (@Ok bytes [byte_of_Z 0xC0]).
  rewrite (pack_header_run "<BB" C_B 1) by (done || lia).
  case_match eqn:Ht; [|done]. rewrite andb_true_iff, Z.leb_le, Z.ltb_lt in Ht.
  cbn [mbind outcome_bind]. intros [= <-].
  apply (consumes_app (byte_of_Z 0xA1 :: le_split 1 typ) _ [_]).
  - apply consumes_item. intros rest.
    by apply (read_item_bytes 10 0 1 typ 1).
  - apply consumes_app; [by apply consumes_concat|]. apply consumes_item. intros rest.
    by apply (read_item_bytes 12 0 0 0 0).
Qed.

(** Induction over the tree. *)
Lemma report_tree_ind' (P : report_tree → Prop) :
  (∀ tag typ v force, P (Item tag typ v force)) →
  (∀ tag props, P (MainItem tag props)) →
  (∀ typ items, Forall P items → P (Group typ items)) → ∀ t, P t.
Proof.
  intros Hi Hm Hg. fix IH 1. intros [| |typ items]; [apply Hi|apply Hm|].
  apply Hg. induction items; constructor; [apply IH|done].
Qed.

Lemma encode_tree_consumes t b : encode_tree t = Ok b → consumes b (tree_items t).
Proof.
  revert b. induction t as [tag typ v force|tag props|typ items IH] using report_tree_ind';
    intros b; cbn [encode_tree tree_items].
  - apply item_consumes.
  - apply main_item_consumes.
  - intros Hb. assert (∃ bs, mapM id (encode_tree <$> items) = Ok bs) as [bs Hbs].
    { unfold Collection in Hb. apply outcome_bind_Ok in Hb as (bs & Hbs & _). by exists bs. }
    eapply Collection_consumes; [done| |done].
    apply mapM_outcome_Ok in Hbs. rewrite Forall2_fmap_l in Hbs. rewrite Forall2_fmap_r.
    clear Hb. induction Hbs as [|t b' items bs Ht _ IHbs]; [constructor|].
    apply Forall_cons in IH as [Ht' IH]. constructor; [by apply Ht'|by apply IHbs].
Qed.

(** A short item packs into a header byte and the fewest data bytes, of 0,
    1, 2 or 4, that hold the value and are as many as the caller forces, and
    reads back as the same tag, type and value whatever follows it; a negative
    value raises struct.error, one beyond 32 bits (or a forced length beyond 4)
    NotImplementedError. *)
Theorem PackItem_roundtrip tag typ v force rest :
  0 <= tag <= 15 → 0 <= typ <= 3 →
  match PackItem tag typ v force with
  | Ok b =>
      read_item (b ++ rest) = Some (mkShortItem tag typ v, rest) ∧
      ∃ n, n ∈ [0; 1; 2; 4] ∧ py_len b = 1 + n ∧ holds n v force = true ∧
           ∀ n', n' ∈ [0; 1; 2; 4] → holds n' v force = true → n <= n'
  | Raise e =>
      (e = StructError ∧ v < 0) ∨
      (e = NotImplementedError "Long items are not implemented." ∧
       (0xffffffff < v ∨ 4 < force))
  end.
Proof.
  intros Ht Hy. destruct (PackItem tag typ v force) as [b|e] eqn:Hp.
  - split; [by eapply PackItem_read|]. rewrite PackItem_run in Hp by done. revert Hp.
    assert (∀ n, n ∈ [0; 1; 2; 4] → n = 0 ∨ n = 1 ∨ n = 2 ∨ n = 4) as Hn.
    { intros n. rewrite !elem_of_cons, elem_of_nil. tauto. }
    unfold holds. destruct ((v =? 0) && _) eqn:E0;
      [|destruct (_ || _) eqn:E1; [done|];
        destruct (Z.ltb_spec v 0); [done|];
        destruct ((v <? 256 ^ 1) && _) eqn:E2; [|destruct ((v <? 256 ^ 2) && _) eqn:E3]];
      intros [= <-];
      rewrite ?andb_true_iff, ?andb_false_iff, ?orb_false_iff, ?Z.eqb_eq, ?Z.eqb_neq,
        ?Z.leb_le, ?Z.leb_gt, ?Z.ltb_lt, ?Z.ltb_ge in *;
      [exists 0|exists 1|exists 2|exists 4];
      (split; [set_solver|split; [done|split]]);
      rewrite ?andb_true_iff, ?Z.leb_le, ?Z.ltb_lt; cbn in *; try lia;
      intros n' [->|[->|[->| ->]]]%Hn; rewrite ?andb_true_iff, ?Z.leb_le, ?Z.ltb_lt; cbn; lia.
  - rewrite PackItem_run in Hp by done. revert Hp.
    destruct (_ && _); [done|]. destruct (_ || _) eqn:E1.
    + intros [= <-]. right. rewrite orb_true_iff, !Z.ltb_lt in E1. done.
    + destruct (Z.ltb_spec v 0); [intros [= <-]; by left|]. by repeat case_match.
Qed.

Lemma PackItem_roundtrip_witness :
  read_item ((byte_of_Z <$> [0x26; 0xFF; 0x00]) ++ [byte_of_Z 0xC0]) =
    Some (mkShortItem 2 1 255, [byte_of_Z 0xC0]).
Proof.
  exact (proj1 (PackItem_roundtrip 2 1 255 2 [byte_of_Z 0xC0] ltac:(lia) ltac:(lia))).
Defined.

(** C33: A report descriptor built from items, main items and nested collections
    reads back as exactly the items it was built from, each collection bracketed
    by its begin and end items. *)
Theorem ReportDescriptor_roundtrip (trees : list report_tree) b :
  ReportDescriptor (encode_tree <$> trees) = Ok b →
  report_items b = Some (concat (tree_items <$> trees)).
Proof.
  unfold ReportDescriptor. intros (bs & Hbs & [= <-])%outcome_bind_Ok.
  apply consumes_report, consumes_concat. apply mapM_outcome_Ok in Hbs.
  rewrite Forall2_fmap_l in Hbs. rewrite Forall2_fmap_r.
  induction Hbs; constructor; [by apply encode_tree_consumes|done].
Qed.

Lemma ReportDescriptor_roundtrip_witness :
  report_items (byte_of_Z <$> [0x05; 1; 0x09; 2; 0xA1; 1; 0x15; 0x81; 0x81; 2; 0xC0]) =
    Some [mkShortItem 0 1 1; mkShortItem 0 2 2; mkShortItem 10 0 1;
          mkShortItem 1 1 0x81; mkShortItem 8 0 2; mkShortItem 12 0 0].
Proof.
  apply (ReportDescriptor_roundtrip
    [Item 0 1 1 0; Item 0 2 2 0;
     Group 1 [Item 1 1 0x81 0; MainItem 8 [Data; Variable_; Absolute]]]).
  by vm_compute.
Defined.
