(* ===== verification/World.v ===== *)
(** The objects of a running gadget: one record per class, its fields the
    instance attributes its [__init__] assigns, and the world that holds them.

    One USB controller drives one gadget at a time, so the world has one gadget
    and one chip; the descriptors live in the store of UsbDescriptors, the
    composite features and the HID features in stores of their own, because a
    feature is referred to both by the gadget and by the code that drives it.
    The chip is a parameter [C]: linux_gadgetfs.py is one chip. *)

From S2P Require Import Prelude PyStruct UsbConstants HidConstants UsbDescriptors.

#[local] Open Scope Z_scope.

(** ** gadget.Gadget *)

Record Gadget := mkGadget {
  g_speed : Z;
  g_chip : bool;                       (* self._chip is not None *)
  g_device_desc : loc;
  g_fs_config_desc : loc;
  g_hs_config_desc : loc;
  g_strings : gmap Z (gmap Z text);
  g_bos_descriptor : option loc;
  g_active_endpoints : gmap Z (gset Z);
  g_endpoint_interface_map : gmap Z Z;
  g_ms_vendor_code_v1 : option Z;
  g_ms_vendor_code_v2 : option Z;
  g_ms_compat_ids : gmap Z (bytes * bytes);
  g_ms_os20_config_subset : option loc;
  g_ms_os20_descriptor_set : option loc;      (* absent until V2 is enabled *)
  g_ms_os20_platform_descriptor : option loc  (* absent until V2 is enabled *)
}.

Definition set_link (speed : Z) (chip : bool) (g : Gadget) : Gadget :=
  mkGadget speed chip (g_device_desc g) (g_fs_config_desc g) (g_hs_config_desc g)
    (g_strings g) (g_bos_descriptor g) (g_active_endpoints g)
    (g_endpoint_interface_map g) (g_ms_vendor_code_v1 g) (g_ms_vendor_code_v2 g)
    (g_ms_compat_ids g) (g_ms_os20_config_subset g) (g_ms_os20_descriptor_set g)
    (g_ms_os20_platform_descriptor g).
Definition set_strings (v : gmap Z (gmap Z text)) (g : Gadget) : Gadget :=
  mkGadget (g_speed g) (g_chip g) (g_device_desc g) (g_fs_config_desc g)
    (g_hs_config_desc g) v (g_bos_descriptor g) (g_active_endpoints g)
    (g_endpoint_interface_map g) (g_ms_vendor_code_v1 g) (g_ms_vendor_code_v2 g)
    (g_ms_compat_ids g) (g_ms_os20_config_subset g) (g_ms_os20_descriptor_set g)
    (g_ms_os20_platform_descriptor g).
Definition set_bos_descriptor (v : option loc) (g : Gadget) : Gadget :=
  mkGadget (g_speed g) (g_chip g) (g_device_desc g) (g_fs_config_desc g)
    (g_hs_config_desc g) (g_strings g) v (g_active_endpoints g)
    (g_endpoint_interface_map g) (g_ms_vendor_code_v1 g) (g_ms_vendor_code_v2 g)
    (g_ms_compat_ids g) (g_ms_os20_config_subset g) (g_ms_os20_descriptor_set g)
    (g_ms_os20_platform_descriptor g).
Definition set_active_endpoints (v : gmap Z (gset Z)) (g : Gadget) : Gadget :=
  mkGadget (g_speed g) (g_chip g) (g_device_desc g) (g_fs_config_desc g)
    (g_hs_config_desc g) (g_strings g) (g_bos_descriptor g) v
    (g_endpoint_interface_map g) (g_ms_vendor_code_v1 g) (g_ms_vendor_code_v2 g)
    (g_ms_compat_ids g) (g_ms_os20_config_subset g) (g_ms_os20_descriptor_set g)
    (g_ms_os20_platform_descriptor g).
Definition set_endpoint_interface_map (v : gmap Z Z) (g : Gadget) : Gadget :=
  mkGadget (g_speed g) (g_chip g) (g_device_desc g) (g_fs_config_desc g)
    (g_hs_config_desc g) (g_strings g) (g_bos_descriptor g) (g_active_endpoints g)
    v (g_ms_vendor_code_v1 g) (g_ms_vendor_code_v2 g)
    (g_ms_compat_ids g) (g_ms_os20_config_subset g) (g_ms_os20_descriptor_set g)
    (g_ms_os20_platform_descriptor g).
Definition set_ms_vendor_code_v1 (v : option Z) (g : Gadget) : Gadget :=
  mkGadget (g_speed g) (g_chip g) (g_device_desc g) (g_fs_config_desc g)
    (g_hs_config_desc g) (g_strings g) (g_bos_descriptor g) (g_active_endpoints g)
    (g_endpoint_interface_map g) v (g_ms_vendor_code_v2 g)
    (g_ms_compat_ids g) (g_ms_os20_config_subset g) (g_ms_os20_descriptor_set g)
    (g_ms_os20_platform_descriptor g).
Definition set_ms_vendor_code_v2 (v : option Z) (g : Gadget) : Gadget :=
  mkGadget (g_speed g) (g_chip g) (g_device_desc g) (g_fs_config_desc g)
    (g_hs_config_desc g) (g_strings g) (g_bos_descriptor g) (g_active_endpoints g)
    (g_endpoint_interface_map g) (g_ms_vendor_code_v1 g) v
    (g_ms_compat_ids g) (g_ms_os20_config_subset g) (g_ms_os20_descriptor_set g)
    (g_ms_os20_platform_descriptor g).
Definition set_ms_compat_ids (v : gmap Z (bytes * bytes)) (g : Gadget) : Gadget :=
  mkGadget (g_speed g) (g_chip g) (g_device_desc g) (g_fs_config_desc g)
    (g_hs_config_desc g) (g_strings g) (g_bos_descriptor g) (g_active_endpoints g)
    (g_endpoint_interface_map g) (g_ms_vendor_code_v1 g) (g_ms_vendor_code_v2 g)
    v (g_ms_os20_config_subset g) (g_ms_os20_descriptor_set g)
    (g_ms_os20_platform_descriptor g).
Definition set_ms_os20_config_subset (v : option loc) (g : Gadget) : Gadget :=
  mkGadget (g_speed g) (g_chip g) (g_device_desc g) (g_fs_config_desc g)
    (g_hs_config_desc g) (g_strings g) (g_bos_descriptor g) (g_active_endpoints g)
    (g_endpoint_interface_map g) (g_ms_vendor_code_v1 g) (g_ms_vendor_code_v2 g)
    (g_ms_compat_ids g) v (g_ms_os20_descriptor_set g)
    (g_ms_os20_platform_descriptor g).
Definition set_ms_os20_descriptor_set (v : option loc) (g : Gadget) : Gadget :=
  mkGadget (g_speed g) (g_chip g) (g_device_desc g) (g_fs_config_desc g)
    (g_hs_config_desc g) (g_strings g) (g_bos_descriptor g) (g_active_endpoints g)
    (g_endpoint_interface_map g) (g_ms_vendor_code_v1 g) (g_ms_vendor_code_v2 g)
    (g_ms_compat_ids g) (g_ms_os20_config_subset g) v
    (g_ms_os20_platform_descriptor g).
Definition set_ms_os20_platform_descriptor (v : option loc) (g : Gadget) : Gadget :=
  mkGadget (g_speed g) (g_chip g) (g_device_desc g) (g_fs_config_desc g)
    (g_hs_config_desc g) (g_strings g) (g_bos_descriptor g) (g_active_endpoints g)
    (g_endpoint_interface_map g) (g_ms_vendor_code_v1 g) (g_ms_vendor_code_v2 g)
    (g_ms_compat_ids g) (g_ms_os20_config_subset g) (g_ms_os20_descriptor_set g) v.

(** ** composite_gadget.CompositeGadget and its features *)

(** References to a composite feature and to a HID feature. *)
Abbreviation fid := nat.
Abbreviation hfid := nat.

(** The attributes [CompositeGadget] adds to a gadget. *)
Record Composite := mkComposite {
  c_fs_interface_feature_map : gmap Z fid;
  c_hs_interface_feature_map : gmap Z fid;
  c_features : list fid
}.

(** The class of a composite feature, with the attributes it adds. *)
Inductive FeatureClass :=
  | EchoCompositeFeature
  | HidCompositeFeature (report_desc : bytes) (features : gmap Z hfid)
      (interface_number : Z) (in_endpoint : Z) (out_endpoint : option Z).

Record CompositeFeature := mkCompositeFeature {
  cf_gadget : bool;                    (* self._gadget is not None *)
  cf_fs_interface_descs : list loc;
  cf_hs_interface_descs : list loc;
  cf_class : FeatureClass
}.

(** ** hid_gadget.HidFeature *)

Inductive HidFeatureClass :=
  | KeyboardFeature (modifiers : Z) (keys : list Z) (leds : Z)
  | MouseFeature (buttons : Z)
  | EchoFeature (input_output_report feature_report : Z).

Record HidFeature := mkHidFeature {
  hf_gadget : option fid;
  hf_report_id : option Z;
  hf_class : HidFeatureClass
}.

(** ** The world *)

Record world (C : Type) := mkWorld {
  w_heap : heap;
  w_gadget : Gadget;
  w_composite : Composite;
  w_features : list CompositeFeature;
  w_hid_features : list HidFeature;
  w_chip : C
}.
Arguments mkWorld {_} _ _ _ _ _ _.
Arguments w_heap {_} _.
Arguments w_gadget {_} _.
Arguments w_composite {_} _.
Arguments w_features {_} _.
Arguments w_hid_features {_} _.
Arguments w_chip {_} _.

Section setters.
Context {C : Type}.
Implicit Types w : world C.

Definition set_heap (v : heap) w : world C :=
  mkWorld v (w_gadget w) (w_composite w) (w_features w) (w_hid_features w) (w_chip w).
Definition set_gadget (v : Gadget) w : world C :=
  mkWorld (w_heap w) v (w_composite w) (w_features w) (w_hid_features w) (w_chip w).
Definition set_composite (v : Composite) w : world C :=
  mkWorld (w_heap w) (w_gadget w) v (w_features w) (w_hid_features w) (w_chip w).
Definition set_features (v : list CompositeFeature) w : world C :=
  mkWorld (w_heap w) (w_gadget w) (w_composite w) v (w_hid_features w) (w_chip w).
Definition set_hid_features (v : list HidFeature) w : world C :=
  mkWorld (w_heap w) (w_gadget w) (w_composite w) (w_features w) v (w_chip w).
Definition set_chip (v : C) w : world C :=
  mkWorld (w_heap w) (w_gadget w) (w_composite w) (w_features w) (w_hid_features w) v.

(** Run a descriptor operation on the store. *)
Definition in_heap {A} : M heap A → M (world C) A := zoom w_heap set_heap.

(** [self._x], and [self._x = ...], of the gadget. *)
Definition self {A} (f : Gadget → A) : M (world C) A := gets (λ w, f (w_gadget w)).
Definition modify_self (f : Gadget → Gadget) : M (world C) unit :=
  modify (λ w, set_gadget (f (w_gadget w)) w).

Lemma self_respects (R : relation (world C)) `{!PreOrder R} {A} (f : Gadget → A) :
  respects R (self f).
Proof. apply respects_gets, _. Qed.

Lemma self_preserves (I : world C → Prop) {A} (f : Gadget → A) :
  preserves I (self f).
Proof. apply preserves_gets. Qed.
End setters.

#[export] Hint Resolve self_respects : respects.
#[export] Hint Resolve self_preserves : preserves.

(** ** The interface of a USB controller *)

(** What the gadget calls on its chip. *)
Class Chip (C : Type) := {
  chip_StartEndpoint : loc → M (world C) unit;
  chip_StopEndpoint : Z → M (world C) unit;
  chip_SendPacket : Z → bytes → M (world C) unit;
  chip_HaltEndpoint : Z → M (world C) unit
}.

(** Only the chip differs. *)
Definition chip_only {C} (w w' : world C) : Prop := set_chip (w_chip w') w = w'.

(** What a chip promises: none of these calls reaches back into the gadget, its
    features or its descriptors. *)
Class ChipLaws (C : Type) `{!Chip C} := {
  StartEndpoint_chip_only d : respects chip_only (chip_StartEndpoint d);
  StopEndpoint_chip_only a : respects chip_only (chip_StopEndpoint a);
  SendPacket_chip_only a b : respects chip_only (chip_SendPacket a b);
  HaltEndpoint_chip_only a : respects chip_only (chip_HaltEndpoint a)
}.

#[export] Instance chip_only_preorder {C} : PreOrder (@chip_only C).
Proof.
  split.
  - intros []. done.
  - intros [] [] []. unfold chip_only, set_chip. cbn. intros. congruence.
Qed.

#[export] Hint Resolve StartEndpoint_chip_only StopEndpoint_chip_only
  SendPacket_chip_only HaltEndpoint_chip_only : respects.

Lemma in_heap_run {C A} (m : M heap A) (w : world C) o h :
  m (w_heap w) = (o, h) → in_heap m w = (o, set_heap h w).
Proof. unfold in_heap, zoom. by intros ->. Qed.

(** ** A chip that records its calls *)

(** The mock controller of the repository's tests. *)
Inductive chip_call :=
  | StartCall (endpoint_desc : loc)
  | StopCall (endpoint_addr : Z)
  | SendCall (endpoint_addr : Z) (data : bytes)
  | HaltCall (endpoint_addr : Z).

#[export] Instance chip_call_eq_dec : EqDecision chip_call.
Proof. solve_decision. Defined.

Abbreviation call_log := (list chip_call).

Definition record_call (c : chip_call) : M (world call_log) unit :=
  modify (λ w, set_chip (w_chip w ++ [c]) w).

#[export] Instance recording_chip : Chip call_log := {|
  chip_StartEndpoint d := record_call (StartCall d);
  chip_StopEndpoint a := record_call (StopCall a);
  chip_SendPacket a b := record_call (SendCall a b);
  chip_HaltEndpoint a := record_call (HaltCall a)
|}.

#[export] Instance recording_chip_laws : ChipLaws call_log.
Proof. split; intros; intros []; done. Qed.
