(* ===== verification/Gadget.v ===== *)
(** The generic gadget of gadget.py: connection state, string and BOS
    descriptors, the Microsoft OS descriptors, control transfers and endpoint
    configuration.

    Methods a subclass may override are called through a method table; the base
    class's own implementations are the definitions named after them.  The
    [print] statements are left out: they only write to the console. *)

From S2P Require Import Prelude PyStruct UsbConstants HidConstants UsbDescriptors.
From S2P Require Import MsOs20Descriptors World.

#[local] Open Scope Z_scope.

(** ** Methods a subclass may override *)

(** A control read answers a buffer or stalls ([None]); a control write answers
    [True] or stalls. *)
Abbreviation read_handler C :=
  (Z → Z → Z → Z → Z → M (world C) (option bytes)).
Abbreviation write_handler C :=
  (Z → Z → Z → Z → bytes → M (world C) (option bool)).

Record Methods (C : Type) := mkMethods {
  m_StandardControlRead : read_handler C;
  m_ClassControlRead : read_handler C;
  m_VendorControlRead : read_handler C;
  m_StandardControlWrite : write_handler C;
  m_ClassControlWrite : write_handler C;
  m_VendorControlWrite : write_handler C
}.
Arguments mkMethods {_} _ _ _ _ _ _.
Arguments m_StandardControlRead {_} _.
Arguments m_ClassControlRead {_} _.
Arguments m_VendorControlRead {_} _.
Arguments m_StandardControlWrite {_} _.
Arguments m_ClassControlWrite {_} _.
Arguments m_VendorControlWrite {_} _.

Section Gadget.
Context {C : Type} `{!Chip C} `{!DictOrder}.
Implicit Types w : world C.

(** ** Construction and configuration *)

(** [Gadget.__init__] *)
Definition Gadget_init (device_desc fs_config_desc hs_config_desc : loc) :
    M (world C) unit :=
  modify_self (λ _, mkGadget UsbConstants.Speed.UNKNOWN false
    device_desc fs_config_desc hs_config_desc ∅ None ∅ ∅ None None ∅ None None None).

Definition GetSpeed : M (world C) Z := self g_speed.
Definition GetDeviceDescriptor : M (world C) loc := self g_device_desc.
Definition GetFullSpeedConfigurationDescriptor : M (world C) loc := self g_fs_config_desc.
Definition GetHighSpeedConfigurationDescriptor : M (world C) loc := self g_hs_config_desc.

Definition GetConfigurationDescriptor : M (world C) loc :=
  speed ← GetSpeed;
  if speed =? UsbConstants.Speed.FULL then self g_fs_config_desc
  else if speed =? UsbConstants.Speed.HIGH then self g_hs_config_desc
  else raise (RuntimeError "Device is not connected.").

Definition AddStringDescriptor (index : Z) (value : text) (lang : Z) :
    M (world C) unit :=
  if (index <? 1) || (index >? 255) then
    raise (ValueError "String descriptor index out of range.")
  else if (lang <? 0) || (lang >? 0xffff) then
    raise (ValueError "String descriptor language code out of range.")
  else
    strings ← self g_strings;
    let lang_strings := default ∅ (strings !! lang) in
    modify_self (set_strings (<[lang := <[index := value]> lang_strings]> strings)).

Definition EnableMicrosoftOSDescriptorsV1 (vendor_code : Z) : M (world C) unit :=
  v1 ← self g_ms_vendor_code_v1;
  if (vendor_code <? 0) || (vendor_code >? 255) then
    raise (ValueError "Vendor code out of range.")
  else if decide (Some vendor_code = v1) then
    raise (ValueError "OS Descriptor v1 vendor code conflicts with v2.")
  else modify_self (set_ms_vendor_code_v1 (Some vendor_code)).

Definition AddDeviceCapabilityDescriptor (device_capability : loc) :
    M (world C) unit :=
  bos ← self g_bos_descriptor;
  bos ← match bos with
        | Some bos => mret bos
        | None =>
            bos ← in_heap (new BosDescriptor []);
            modify_self (set_bos_descriptor (Some bos));;
            mret bos
        end;
  in_heap (AddDeviceCapability bos device_capability).

Definition EnableMicrosoftOSDescriptorsV2 (vendor_code : Z) : M (world C) unit :=
  v1 ← self g_ms_vendor_code_v1;
  if (vendor_code <? 0) || (vendor_code >? 255) then
    raise (ValueError "Vendor code out of range.")
  else if decide (Some vendor_code = v1) then
    raise (ValueError "OS Descriptor v2 vendor code conflicts with v1.")
  else
    modify_self (set_ms_vendor_code_v2 (Some vendor_code));;
    set ← in_heap (new DescriptorSetHeader [("dwWindowsVersion", VInt 0x06030000)]);
    modify_self (set_ms_os20_descriptor_set (Some set));;
    subset ← in_heap (new ConfigurationSubsetHeader [("bConfigurationValue", VInt 0)]);
    modify_self (set_ms_os20_config_subset (Some subset));;
    in_heap (Add set subset);;
    platform ← in_heap (new PlatformCapabilityDescriptor
                 [("dwWindowsVersion", VInt 0x06030000);
                  ("bMS_VendorCode", VInt vendor_code)]);
    modify_self (set_ms_os20_platform_descriptor (Some platform));;
    in_heap (SetDescriptorSet platform set);;
    AddDeviceCapabilityDescriptor platform.

Definition SetMicrosoftCompatId (interface_number : Z)
    (compat_id sub_compat_id : bytes) : M (world C) unit :=
  ids ← self g_ms_compat_ids;
  modify_self (set_ms_compat_ids (<[interface_number := (compat_id, sub_compat_id)]> ids));;
  subset ← self g_ms_os20_config_subset;
  match subset with
  | None => mret ()
  | Some subset =>
      function_header ← in_heap (new FunctionSubsetHeader
                          [("bFirstInterface", VInt interface_number)]);
      id ← in_heap (new CompatibleId
             [("CompatibleID", VStr compat_id); ("SubCompatibleID", VStr sub_compat_id)]);
      in_heap (Add function_header id);;
      in_heap (Add subset function_header)
  end.

(** ** Connection *)

Definition Connected (speed : Z) : M (world C) unit :=
  modify_self (set_link speed true).

Definition Disconnected : M (world C) unit :=
  modify_self (set_link UsbConstants.Speed.UNKNOWN false);;
  modify_self (set_active_endpoints ∅);;
  modify_self (set_endpoint_interface_map ∅).

Definition IsConnected : M (world C) bool := self g_chip.

(** ** Packets *)

Definition SendPacket (endpoint : Z) (data : bytes) : M (world C) unit :=
  connected ← self g_chip;
  if negb connected then raise (RuntimeError "Device is not connected.")
  else if Z.land endpoint UsbConstants.Dir.IN =? 0 then
    raise (ValueError "Cannot write to non-input endpoint.")
  else chip_SendPacket endpoint data.

(** A call on [self._chip] when it may be [None]. *)
Definition on_chip (method : string) (m : M (world C) unit) : M (world C) unit :=
  connected ← self g_chip;
  if (connected : bool) then m else raise (AttributeError method).

Definition HaltEndpoint (endpoint : Z) : M (world C) unit :=
  on_chip "HaltEndpoint" (chip_HaltEndpoint endpoint).

(** The base class ignores packets. *)
Definition ReceivePacket (endpoint : Z) (data : bytes) : M (world C) unit :=
  mret ().

(** ** Descriptors the host reads *)

(** The encoding of a descriptor object made for this one answer. *)
Definition encode_temporary (make : M heap loc) (h : heap) : outcome bytes :=
  let '(l, h') := make h in
  l ← l; Encode (max_depth h') h' l.

Definition GetStringDescriptor (index lang length : Z) :
    M (world C) (option bytes) :=
  strings ← self g_strings;
  v1 ← self g_ms_vendor_code_v1;
  if index =? 0 then
    let length := 2 + Z.of_nat (size strings) * 2 in
    header ← lift (struct_pack "<BB"
               [VInt length; VInt UsbConstants.DescriptorType.STRING]);
    lang_codes ← lift (mapM (λ lang, struct_pack "<H" [VInt lang])
                         (dict_items strings).*1);
    let buf := header ++ concat lang_codes in
    lift (assert_ (py_len buf =? length));;
    mret (Some (py_prefix length buf))
  else match (if (index =? 0xEE) && (lang =? 0) then v1 else None) with
  | Some code =>
      header ← lift (struct_pack "<BB" [VInt 18; VInt UsbConstants.DescriptorType.STRING]);
      trailer ← lift (struct_pack "<BB" [VInt code; VInt 0]);
      let buf := header ++ utf16le (text_of "MSFT100") ++ trailer in
      lift (assert_ (py_len buf =? 18));;
      mret (Some (py_prefix length buf))
  | None =>
      match strings !! lang with
      | None => mret None
      | Some lang_strings =>
          match lang_strings !! index with
          | None => mret None
          | Some s =>
              h ← gets w_heap;
              buf ← lift (encode_temporary (new_string StringDescriptor s []) h);
              mret (Some (py_prefix length buf))
          end
      end
  end.

Definition GetBosDescriptor (length : Z) : M (world C) (option bytes) :=
  bos ← self g_bos_descriptor;
  match bos with
  | None => mret None
  | Some bos =>
      h ← gets w_heap;
      buf ← lift (Encode (max_depth h) h bos);
      mret (Some (py_prefix length buf))
  end.

Definition GetDescriptor (recipient typ index lang length : Z) :
    M (world C) (option bytes) :=
  if typ =? UsbConstants.DescriptorType.STRING then
    GetStringDescriptor index lang length
  else if typ =? UsbConstants.DescriptorType.BOS then GetBosDescriptor length
  else mret None.

(** [max(...)] of a list; an empty one raises. *)
Definition py_max (l : list Z) : outcome Z :=
  match l with
  | [] => Raise (ValueError "max() arg is an empty sequence")
  | x :: l => Ok (foldl Z.max x l)
  end.

Definition compat_id_entry (ids : gmap Z (bytes * bytes)) (interface : Z) :
    outcome bytes :=
  let '(compat_id, sub_compat_id) := default ([], []) (ids !! interface) in
  struct_pack "<BB8s8sxxxxxx"
    [VInt interface; VInt 0x01; VStr compat_id; VStr sub_compat_id].

Definition GetMicrosoftCompatIds (length : Z) : M (world C) (option bytes) :=
  config_desc ← GetConfigurationDescriptor;
  h ← gets w_heap;
  interfaces ← lift (GetInterfaces h config_desc);
  numbers ← lift (mapM (λ i, getattr_int h i "bInterfaceNumber") interfaces);
  max_interface ← lift (py_max numbers);
  header ← lift (struct_pack "<IHHBxxxxxxx"
             [VInt (16 + 24 * (max_interface + 1)); VInt 0x0100; VInt 0x0004;
              VInt (max_interface + 1)]);
  if length <=? py_len header then mret (Some (py_prefix length header))
  else
    ids ← self g_ms_compat_ids;
    entries ← lift (mapM (compat_id_entry ids) (xrange 0 (max_interface + 1)));
    mret (Some (py_prefix length (header ++ concat entries))).

Definition GetMicrosoftOSDescriptorV1 (recipient value index length : Z) :
    M (world C) (option bytes) :=
  if index =? 0x0004 then GetMicrosoftCompatIds length else mret None.

Definition GetMicrosoftOSDescriptorV2 (length : Z) : M (world C) (option bytes) :=
  set ← self g_ms_os20_descriptor_set;
  set ← lift (of_option (AttributeError "_ms_os20_descriptor_set") set);
  h ← gets w_heap;
  buf ← lift (Encode (max_depth h) h set);
  mret (Some (py_prefix length buf)).

(** ** Endpoint configuration *)

(** [endpoint_addrs] of an interface; [setdefault] puts it in the dict. *)
Definition active_of (interface : Z) (g : Gadget) : gset Z :=
  default ∅ (g_active_endpoints g !! interface).

Definition set_active_of (interface : Z) (addrs : gset Z) : M (world C) unit :=
  modify_self (λ g, set_active_endpoints
                      (<[interface := addrs]> (g_active_endpoints g)) g).

(** The body both configuration requests run for an endpoint they activate. *)
Definition start_endpoint (interface : Z) (endpoint_desc : loc) :
    M (world C) unit :=
  on_chip "StartEndpoint" (chip_StartEndpoint endpoint_desc);;
  h ← gets w_heap;
  addr ← lift (getattr_int h endpoint_desc "bEndpointAddress");
  addrs ← self (active_of interface);
  set_active_of interface ({[addr]} ∪ addrs);;
  modify_self (λ g, set_endpoint_interface_map
                      (<[addr := interface]> (g_endpoint_interface_map g)) g).

Definition SetConfiguration (index : Z) : M (world C) (option bool) :=
  active ← self g_active_endpoints;
  mfor (dict_items active) (λ '(interface, _),
    addrs ← self (active_of interface);
    mfor (set_items addrs) (λ endpoint_addr,
      on_chip "StopEndpoint" (chip_StopEndpoint endpoint_addr));;
    set_active_of interface ∅);;
  modify_self (set_endpoint_interface_map ∅);;
  if index =? 0 then mret (Some true)
  else if negb (index =? 1) then mret None
  else
    config_desc ← GetConfigurationDescriptor;
    h ← gets w_heap;
    interfaces ← lift (GetInterfaces h config_desc);
    mfor interfaces (λ interface_desc,
      h ← gets w_heap;
      alt ← lift (getattr_int h interface_desc "bAlternateSetting");
      if negb (alt =? 0) then mret ()
      else
        num ← lift (getattr_int h interface_desc "bInterfaceNumber");
        addrs ← self (active_of num);
        set_active_of num addrs;;
        endpoints ← lift (GetEndpoints h interface_desc);
        mfor endpoints (start_endpoint num));;
    mret (Some true).

(** The loop over the interface options keeps the last match. *)
Fixpoint find_interface (h : heap) (interface alt_setting : Z)
    (options : list loc) (found : option loc) : outcome (option loc) :=
  match options with
  | [] => Ok found
  | o :: options =>
      num ← getattr_int h o "bInterfaceNumber";
      alt ← getattr_int h o "bAlternateSetting";
      find_interface h interface alt_setting options
        (if (num =? interface) && (alt =? alt_setting) then Some o else found)
  end.

Definition SetInterface (interface alt_setting : Z) : M (world C) (option bool) :=
  config_desc ← GetConfigurationDescriptor;
  h ← gets w_heap;
  options ← lift (GetInterfaces h config_desc);
  interface_desc ← lift (find_interface h interface alt_setting options None);
  match interface_desc with
  | None => mret None
  | Some interface_desc =>
      addrs ← self (active_of interface);
      set_active_of interface addrs;;
      mfor (set_items addrs) (λ endpoint_addr,
        on_chip "StopEndpoint" (chip_StopEndpoint endpoint_addr);;
        map ← self g_endpoint_interface_map;
        match map !! endpoint_addr with
        | None => raise KeyError
        | Some _ => modify_self (set_endpoint_interface_map (delete endpoint_addr map))
        end);;
      endpoints ← lift (GetEndpoints h interface_desc);
      mfor endpoints (start_endpoint interface);;
      mret (Some true)
  end.

Definition GetInterfaceForEndpoint (endpoint_addr : Z) : M (world C) (option Z) :=
  map ← self g_endpoint_interface_map; mret (map !! endpoint_addr).

(** ** Control transfers *)

Definition StandardControlRead : read_handler C :=
  λ recipient request value index length,
  if (recipient =? UsbConstants.Recipient.DEVICE)
     && (request =? UsbConstants.Request.GET_DESCRIPTOR) then
    let desc_type := Z.shiftr value 8 in
    let desc_index := Z.land value 0xff in
    GetDescriptor recipient desc_type desc_index index length
  else mret None.

Definition ClassControlRead : read_handler C :=
  λ recipient request value index length, mret None.

Definition VendorControlRead : read_handler C :=
  λ recipient request value index length,
  v1 ← self g_ms_vendor_code_v1;
  v2 ← self g_ms_vendor_code_v2;
  if bool_decide (v1 = Some request)
     && ((recipient =? UsbConstants.Recipient.DEVICE)
         || (recipient =? UsbConstants.Recipient.INTERFACE)) then
    GetMicrosoftOSDescriptorV1 recipient value index length
  else if bool_decide (v2 = Some request)
          && (recipient =? UsbConstants.Recipient.DEVICE)
          && (value =? 0x0000) && (index =? 0x0007) then
    GetMicrosoftOSDescriptorV2 length
  else mret None.

Definition StandardControlWrite : write_handler C :=
  λ recipient request value index data,
  if request =? UsbConstants.Request.SET_CONFIGURATION then
    if recipient =? UsbConstants.Recipient.DEVICE then SetConfiguration value
    else mret None
  else if request =? UsbConstants.Request.SET_INTERFACE then
    if recipient =? UsbConstants.Recipient.INTERFACE then SetInterface index value
    else mret None
  else mret None.

Definition ClassControlWrite : write_handler C :=
  λ recipient request value index data, mret None.

Definition VendorControlWrite : write_handler C :=
  λ recipient request value index data, mret None.

(** The base class's method table. *)
Definition Gadget_methods : Methods C :=
  mkMethods StandardControlRead ClassControlRead VendorControlRead
    StandardControlWrite ClassControlWrite VendorControlWrite.

Definition ControlRead (cls : Methods C)
    (request_type request value index length : Z) : M (world C) (option bytes) :=
  lift (assert_ (negb (Z.land request_type UsbConstants.Dir.IN =? 0)));;
  let typ := Z.land request_type UsbConstants.Type_.MASK in
  let recipient := Z.land request_type UsbConstants.Recipient.MASK in
  if typ =? UsbConstants.Type_.STANDARD then
    m_StandardControlRead cls recipient request value index length
  else if typ =? UsbConstants.Type_.CLASS then
    m_ClassControlRead cls recipient request value index length
  else if typ =? UsbConstants.Type_.VENDOR then
    m_VendorControlRead cls recipient request value index length
  else mret None.

Definition ControlWrite (cls : Methods C)
    (request_type request value index : Z) (data : bytes) :
    M (world C) (option bool) :=
  lift (assert_ (Z.land request_type UsbConstants.Dir.IN =? 0));;
  let typ := Z.land request_type UsbConstants.Type_.MASK in
  let recipient := Z.land request_type UsbConstants.Recipient.MASK in
  if typ =? UsbConstants.Type_.STANDARD then
    m_StandardControlWrite cls recipient request value index data
  else if typ =? UsbConstants.Type_.CLASS then
    m_ClassControlWrite cls recipient request value index data
  else if typ =? UsbConstants.Type_.VENDOR then
    m_VendorControlWrite cls recipient request value index data
  else mret None.
End Gadget.
