(* ===== verification/Composite.v ===== *)
(** Composite devices, composite_gadget.py: a gadget made of features, each of
    which owns interfaces and answers the requests addressed to them.

    The gadget calls its features through the interface [Features]; the base
    class's own methods are the definitions named [CompositeFeature_*], which the
    feature classes inherit. *)

From S2P Require Import Prelude PyStruct UsbConstants HidConstants UsbDescriptors.
From S2P Require Import MsOs20Descriptors World Gadget.

#[local] Open Scope Z_scope.

(** ** What a composite gadget calls on a feature *)

Class Features (C : Type) := {
  feature_Connected : fid → M (world C) unit;
  feature_Disconnected : fid → M (world C) unit;
  feature_ReceivePacket : fid → Z → bytes → M (world C) unit;
  feature_StandardControlRead : fid → read_handler C;
  feature_ClassControlRead : fid → read_handler C;
  feature_VendorControlRead : fid → read_handler C;
  feature_StandardControlWrite : fid → write_handler C;
  feature_ClassControlWrite : fid → write_handler C;
  feature_VendorControlWrite : fid → write_handler C
}.

(** ** CompositeFeature *)

Section CompositeFeature.
Context {C : Type} `{!Chip C}.

Definition set_cf_gadget (v : bool) (f : CompositeFeature) : CompositeFeature :=
  mkCompositeFeature v (cf_fs_interface_descs f) (cf_hs_interface_descs f) (cf_class f).
Definition set_cf_class (v : FeatureClass) (f : CompositeFeature) : CompositeFeature :=
  mkCompositeFeature (cf_gadget f) (cf_fs_interface_descs f) (cf_hs_interface_descs f) v.

(** The attributes of a feature, and an assignment to one. *)
Definition feature (i : fid) : M (world C) CompositeFeature :=
  fs ← gets w_features; lift (of_option dangling (fs !! i)).
Definition modify_feature (i : fid) (f : CompositeFeature → CompositeFeature) :
    M (world C) unit :=
  modify (λ w, set_features (alter f i (w_features w)) w).

(** [CompositeFeature.__init__], run for a new object of the given class. *)
Definition CompositeFeature_init (cls : FeatureClass) (fs_descs hs_descs : list loc) :
    M (world C) fid :=
  i ← gets (λ w, length (w_features w));
  modify (λ w, set_features
                 (w_features w ++ [mkCompositeFeature false fs_descs hs_descs cls]) w);;
  mret i.

Definition GetFullSpeedInterfaces (i : fid) : M (world C) (list loc) :=
  f ← feature i; mret (cf_fs_interface_descs f).
Definition GetHighSpeedInterfaces (i : fid) : M (world C) (list loc) :=
  f ← feature i; mret (cf_hs_interface_descs f).

Definition CompositeFeature_Connected (i : fid) : M (world C) unit :=
  modify_feature i (set_cf_gadget true).
Definition CompositeFeature_Disconnected (i : fid) : M (world C) unit :=
  modify_feature i (set_cf_gadget false).
Definition CompositeFeature_IsConnected (i : fid) : M (world C) bool :=
  f ← feature i; mret (cf_gadget f).

Definition CompositeFeature_SendPacket (i : fid) (endpoint : Z) (data : bytes) :
    M (world C) unit :=
  f ← feature i;
  if negb (cf_gadget f) then raise (RuntimeError "Device is not connected.")
  else SendPacket endpoint data.

Definition CompositeFeature_HaltEndpoint (i : fid) (endpoint : Z) : M (world C) unit :=
  f ← feature i;
  if negb (cf_gadget f) then raise (RuntimeError "Device is not connected.")
  else HaltEndpoint endpoint.

Definition CompositeFeature_GetDescriptor (i : fid)
    (recipient typ index lang length : Z) : M (world C) (option bytes) := mret None.

(** The base class's six control handlers all stall. *)
Definition CompositeFeature_StandardControlRead (i : fid) : read_handler C :=
  λ recipient request value index length, mret None.
Definition CompositeFeature_ClassControlRead (i : fid) : read_handler C :=
  λ recipient request value index length, mret None.
Definition CompositeFeature_VendorControlRead (i : fid) : read_handler C :=
  λ recipient request value index length, mret None.
Definition CompositeFeature_StandardControlWrite (i : fid) : write_handler C :=
  λ recipient request value index data, mret None.
Definition CompositeFeature_ClassControlWrite (i : fid) : write_handler C :=
  λ recipient request value index data, mret None.
Definition CompositeFeature_VendorControlWrite (i : fid) : write_handler C :=
  λ recipient request value index data, mret None.
End CompositeFeature.

(** ** CompositeGadget *)

Section CompositeGadget.
Context {C : Type} `{!Chip C} `{!DictOrder} `{!Features C}.

Definition set_fs_map (v : gmap Z fid) (c : Composite) : Composite :=
  mkComposite v (c_hs_interface_feature_map c) (c_features c).
Definition set_hs_map (v : gmap Z fid) (c : Composite) : Composite :=
  mkComposite (c_fs_interface_feature_map c) v (c_features c).
Definition set_c_features (v : list fid) (c : Composite) : Composite :=
  mkComposite (c_fs_interface_feature_map c) (c_hs_interface_feature_map c) v.

Definition modify_composite (f : Composite → Composite) : M (world C) unit :=
  modify (λ w, set_composite (f (w_composite w)) w).

(** [config_desc.AddInterface(interface)], and the feature entered in the map. *)
Definition add_feature_interface (config_desc : loc)
    (get_map : Composite → gmap Z fid) (set_map : gmap Z fid → Composite → Composite)
    (feature : fid) (interface : loc) : M (world C) unit :=
  in_heap (AddInterface config_desc interface);;
  h ← gets w_heap;
  num ← lift (getattr_int h interface "bInterfaceNumber");
  modify_composite (λ c, set_map (<[num := feature]> (get_map c)) c).

(** [CompositeGadget.__init__] *)
Definition CompositeGadget_init (device_desc : loc) (features : list fid) :
    M (world C) unit :=
  modify_composite (set_fs_map ∅);;
  modify_composite (set_hs_map ∅);;
  fs_config_desc ← in_heap (new ConfigurationDescriptor
    [("bmAttributes", VInt 0x80); ("MaxPower", VInt 50)]);
  hs_config_desc ← in_heap (new ConfigurationDescriptor
    [("bmAttributes", VInt 0x80); ("MaxPower", VInt 50)]);
  mfor features (λ feature,
    fs_interfaces ← GetFullSpeedInterfaces feature;
    mfor fs_interfaces (add_feature_interface fs_config_desc
      c_fs_interface_feature_map set_fs_map feature);;
    hs_interfaces ← GetHighSpeedInterfaces feature;
    mfor hs_interfaces (add_feature_interface hs_config_desc
      c_hs_interface_feature_map set_hs_map feature));;
  Gadget_init device_desc fs_config_desc hs_config_desc;;
  modify_composite (set_c_features features).

Definition CompositeGadget_Connected (speed : Z) : M (world C) unit :=
  Connected speed;;
  c ← gets w_composite;
  mfor (c_features c) feature_Connected.

Definition CompositeGadget_Disconnected : M (world C) unit :=
  Disconnected;;
  c ← gets w_composite;
  mfor (c_features c) feature_Disconnected.

(** [_GetInterfaceFeatureMap] *)
Definition GetInterfaceFeatureMap : M (world C) (gmap Z fid) :=
  speed ← GetSpeed;
  c ← gets w_composite;
  if speed =? UsbConstants.Speed.FULL then mret (c_fs_interface_feature_map c)
  else if speed =? UsbConstants.Speed.HIGH then mret (c_hs_interface_feature_map c)
  else raise (RuntimeError "Device is not connected.").

Definition CompositeGadget_ReceivePacket (endpoint : Z) (data : bytes) :
    M (world C) unit :=
  interface ← GetInterfaceForEndpoint endpoint;
  map ← GetInterfaceFeatureMap;
  feature ← lift (of_option KeyError (interface ≫= λ interface, map !! interface));
  feature_ReceivePacket feature endpoint data.

(** [_GetFeatureForIndex] *)
Definition GetFeatureForIndex (recipient index : Z) : M (world C) (option fid) :=
  interface ← (if recipient =? UsbConstants.Recipient.INTERFACE then mret (Some index)
               else if recipient =? UsbConstants.Recipient.ENDPOINT
                    then GetInterfaceForEndpoint index
               else mret None);
  match interface with
  | None => mret None
  | Some interface => map ← GetInterfaceFeatureMap; mret (map !! interface)
  end.

(** The shape all six overrides share: the base class answers first, then the
    feature the request is addressed to. *)
Definition base_then_feature {A} (base : M (world C) (option A)) (recipient index : Z)
    (on_feature : fid → M (world C) (option A)) : M (world C) (option A) :=
  response ← base;
  match response with
  | Some response => mret (Some response)
  | None =>
      feature ← GetFeatureForIndex recipient index;
      match feature with
      | Some feature => on_feature feature
      | None => mret None
      end
  end.

Definition CompositeGadget_StandardControlRead : read_handler C :=
  λ recipient request value index length,
  base_then_feature (StandardControlRead recipient request value index length)
    recipient index
    (λ f, feature_StandardControlRead f recipient request value index length).
Definition CompositeGadget_StandardControlWrite : write_handler C :=
  λ recipient request value index data,
  base_then_feature (StandardControlWrite recipient request value index data)
    recipient index
    (λ f, feature_StandardControlWrite f recipient request value index data).
Definition CompositeGadget_ClassControlRead : read_handler C :=
  λ recipient request value index length,
  base_then_feature (ClassControlRead recipient request value index length)
    recipient index
    (λ f, feature_ClassControlRead f recipient request value index length).
Definition CompositeGadget_ClassControlWrite : write_handler C :=
  λ recipient request value index data,
  base_then_feature (ClassControlWrite recipient request value index data)
    recipient index
    (λ f, feature_ClassControlWrite f recipient request value index data).
Definition CompositeGadget_VendorControlRead : read_handler C :=
  λ recipient request value index length,
  base_then_feature (VendorControlRead recipient request value index length)
    recipient index
    (λ f, feature_VendorControlRead f recipient request value index length).
Definition CompositeGadget_VendorControlWrite : write_handler C :=
  λ recipient request value index data,
  base_then_feature (VendorControlWrite recipient request value index data)
    recipient index
    (λ f, feature_VendorControlWrite f recipient request value index data).

Definition CompositeGadget_methods : Methods C :=
  mkMethods CompositeGadget_StandardControlRead CompositeGadget_ClassControlRead
    CompositeGadget_VendorControlRead CompositeGadget_StandardControlWrite
    CompositeGadget_ClassControlWrite CompositeGadget_VendorControlWrite.
End CompositeGadget.
