(* ===== verification/HidGadget.v ===== *)
(** HID devices, hid_gadget.py: the composite feature that implements the HID
    protocol, the HID features it dispatches reports to, and the HID gadget.

    The composite feature calls its HID features through the interface
    [HidFeatures]; the base class's own methods are the definitions named
    [HidFeature_*]. *)

From S2P Require Import Prelude PyStruct UsbConstants HidConstants UsbDescriptors.
From S2P Require Import MsOs20Descriptors World Gadget Composite.

#[local] Open Scope Z_scope.

(** ** What the HID protocol calls on a HID feature *)

(** A set-report handler answers [True] or stalls, a get-report handler answers
    a report or stalls. *)
Class HidFeatures (C : Type) := {
  hid_SetInputReport : hfid → bytes → M (world C) (option bool);
  hid_SetOutputReport : hfid → bytes → M (world C) (option bool);
  hid_SetFeatureReport : hfid → bytes → M (world C) (option bool);
  hid_GetInputReport : hfid → M (world C) (option bytes);
  hid_GetOutputReport : hfid → M (world C) (option bytes);
  hid_GetFeatureReport : hfid → M (world C) (option bytes)
}.

(** ** HidFeature, the part every feature inherits *)

Section HidFeature.
Context {C : Type} `{!Chip C}.

Definition set_hf_link (gadget : option fid) (report_id : option Z) (f : HidFeature) :
    HidFeature := mkHidFeature gadget report_id (hf_class f).
Definition set_hf_class (v : HidFeatureClass) (f : HidFeature) : HidFeature :=
  mkHidFeature (hf_gadget f) (hf_report_id f) v.

Definition hid_feature (i : hfid) : M (world C) HidFeature :=
  fs ← gets w_hid_features; lift (of_option dangling (fs !! i)).
Definition modify_hid_feature (i : hfid) (f : HidFeature → HidFeature) :
    M (world C) unit :=
  modify (λ w, set_hid_features (alter f i (w_hid_features w)) w).

(** [HidFeature.__init__], run for a new object of the given class. *)
Definition HidFeature_init (cls : HidFeatureClass) : M (world C) hfid :=
  i ← gets (λ w, length (w_hid_features w));
  modify (λ w, set_hid_features (w_hid_features w ++ [mkHidFeature None None cls]) w);;
  mret i.

Definition HidFeature_Connected (i : hfid) (my_gadget : fid) (report_id : Z) :
    M (world C) unit :=
  modify_hid_feature i (set_hf_link (Some my_gadget) (Some report_id)).
Definition HidFeature_Disconnected (i : hfid) : M (world C) unit :=
  modify_hid_feature i (set_hf_link None None).
Definition HidFeature_IsConnected (i : hfid) : M (world C) bool :=
  f ← hid_feature i; mret (is_not_none (hf_gadget f)).

(** The base class's report handlers do nothing and return [None]. *)
Definition HidFeature_SetInputReport (i : hfid) (data : bytes) :
    M (world C) (option bool) := mret None.
Definition HidFeature_SetOutputReport (i : hfid) (data : bytes) :
    M (world C) (option bool) := mret None.
Definition HidFeature_SetFeatureReport (i : hfid) (data : bytes) :
    M (world C) (option bool) := mret None.
Definition HidFeature_GetInputReport (i : hfid) : M (world C) (option bytes) := mret None.
Definition HidFeature_GetOutputReport (i : hfid) : M (world C) (option bytes) := mret None.
Definition HidFeature_GetFeatureReport (i : hfid) : M (world C) (option bytes) := mret None.

(** ** Sending reports *)

(** The attributes [HidCompositeFeature] adds. *)
Record HidAttrs := mkHidAttrs {
  ha_report_desc : bytes;
  ha_features : gmap Z hfid;
  ha_interface_number : Z;
  ha_in_endpoint : Z;
  ha_out_endpoint : option Z
}.

Definition hid_attrs (i : fid) : M (world C) HidAttrs :=
  f ← feature i;
  match cf_class f with
  | HidCompositeFeature rd fs n ie oe => mret (mkHidAttrs rd fs n ie oe)
  | EchoCompositeFeature => raise (AttributeError "_report_desc")
  end.

(** [HidCompositeFeature.SendReport] *)
Definition HidCompositeFeature_SendReport (i : fid) (report_id : Z) (data : bytes) :
    M (world C) unit :=
  a ← hid_attrs i;
  if report_id =? 0 then CompositeFeature_SendPacket i (ha_in_endpoint a) data
  else
    header ← lift (struct_pack "B" [VInt report_id]);
    CompositeFeature_SendPacket i (ha_in_endpoint a) (header ++ data).

(** [HidFeature.SendReport] *)
Definition HidFeature_SendReport (i : hfid) (data : bytes) : M (world C) unit :=
  f ← hid_feature i;
  match hf_gadget f, hf_report_id f with
  | Some my_gadget, Some report_id =>
      HidCompositeFeature_SendReport my_gadget report_id data
  | Some my_gadget, None => raise StructError
  | None, _ => raise (RuntimeError "Device is not connected.")
  end.
End HidFeature.

(** ** HidCompositeFeature *)

Section HidCompositeFeature.
Context {C : Type} `{!Chip C} `{!DictOrder} `{!HidFeatures C}.

(** [math.ceil(math.log(interval_ms, 2))] of an integer.  The float result is an
    integer, and exact wherever the checks that follow accept it (up to 2^15). *)
Definition interval_exponent (interval_ms : Z) : outcome Z :=
  if interval_ms <=? 0 then Raise (ValueError "math domain error")
  else Ok (Z.log2_up interval_ms).

(** An interrupt endpoint of the HID interface. *)
Definition hid_endpoint (interface_desc : loc) (address packet_size interval : Z) :
    M (world C) unit :=
  endpoint ← in_heap (new EndpointDescriptor
    [("bEndpointAddress", VInt address);
     ("bmAttributes", VInt UsbConstants.TransferType.INTERRUPT);
     ("wMaxPacketSize", VInt packet_size); ("bInterval", VInt interval)]);
  in_heap (AddEndpoint interface_desc endpoint).

Definition hid_interface (interface_number interface_string : Z) : M (world C) loc :=
  in_heap (new InterfaceDescriptor
    [("bInterfaceNumber", VInt interface_number);
     ("bInterfaceClass", VInt UsbConstants.DeviceClass.HID);
     ("bInterfaceSubClass", VInt 0); ("bInterfaceProtocol", VInt 0);
     ("iInterface", VInt interface_string)]).

(** [HidCompositeFeature.__init__].  The messages of the two range errors also
    give the numbers, which are left out here. *)
Definition HidCompositeFeature_init (report_desc : bytes) (features : gmap Z hfid)
    (packet_size interval_ms interface_number interface_string in_endpoint : Z)
    (out_endpoint : option Z) : M (world C) fid :=
  fs_interface_desc ← hid_interface interface_number interface_string;
  hs_interface_desc ← hid_interface interface_number interface_string;
  hid_desc ← in_heap (new HidDescriptor []);
  in_heap (AddDescriptor hid_desc HidConstants.DescriptorType.REPORT (py_len report_desc));;
  in_heap (Add fs_interface_desc hid_desc);;
  in_heap (Add hs_interface_desc hid_desc);;
  e ← lift (interval_exponent interval_ms);
  let fs_interval := e + 1 in
  if (fs_interval <? 1) || (fs_interval >? 16) then
    raise (ValueError "Full speed interval out of range")
  else
    hid_endpoint fs_interface_desc in_endpoint packet_size fs_interval;;
    let hs_interval := e + 4 in
    if (hs_interval <? 1) || (hs_interval >? 16) then
      raise (ValueError "High speed interval out of range")
    else
      hid_endpoint hs_interface_desc in_endpoint packet_size hs_interval;;
      match out_endpoint with
      | None => mret ()
      | Some out_endpoint =>
          hid_endpoint fs_interface_desc out_endpoint packet_size fs_interval;;
          hid_endpoint hs_interface_desc out_endpoint packet_size hs_interval
      end;;
      CompositeFeature_init
        (HidCompositeFeature report_desc features interface_number in_endpoint out_endpoint)
        [fs_interface_desc] [hs_interface_desc].

Definition HidCompositeFeature_Connected (i : fid) : M (world C) unit :=
  CompositeFeature_Connected i;;
  a ← hid_attrs i;
  mfor (dict_items (ha_features a)) (λ '(report_id, f), HidFeature_Connected f i report_id).

Definition HidCompositeFeature_Disconnected (i : fid) : M (world C) unit :=
  CompositeFeature_Disconnected i;;
  a ← hid_attrs i;
  mfor (dict_items (ha_features a)) (λ '(_, f), HidFeature_Disconnected f).

Definition HidCompositeFeature_StandardControlRead (i : fid) : read_handler C :=
  λ recipient request value index length,
  a ← hid_attrs i;
  let desc_type := Z.shiftr value 8 in
  let desc_index := Z.land value 0xff in
  if (recipient =? UsbConstants.Recipient.INTERFACE)
     && (index =? ha_interface_number a)
     && (desc_type =? HidConstants.DescriptorType.REPORT) && (desc_index =? 0)
  then mret (Some (py_prefix length (ha_report_desc a)))
  else CompositeFeature_StandardControlRead i recipient request value index length.

(** [feature.GetReport()[:length]]; [None] cannot be sliced. *)
Definition sliced (length : Z) (report : option bytes) : M (world C) (option bytes) :=
  match report with
  | Some b => mret (Some (py_prefix length b))
  | None => raise (TypeError "'NoneType' object has no attribute '__getitem__'")
  end.

Definition GetReport (i : fid) (report_type report_id length : Z) :
    M (world C) (option bytes) :=
  a ← hid_attrs i;
  match ha_features a !! report_id with
  | None => mret None
  | Some f =>
      if report_type =? HidConstants.ReportType.INPUT then
        r ← hid_GetInputReport f; sliced length r
      else if report_type =? HidConstants.ReportType.OUTPUT then
        r ← hid_GetOutputReport f; sliced length r
      else if report_type =? HidConstants.ReportType.FEATURE then
        r ← hid_GetFeatureReport f; sliced length r
      else mret None
  end.

Definition SetReport (i : fid) (report_type report_id : Z) (data : bytes) :
    M (world C) (option bool) :=
  a ← hid_attrs i;
  match ha_features a !! report_id with
  | None => mret None
  | Some f =>
      if report_type =? HidConstants.ReportType.INPUT then hid_SetInputReport f data
      else if report_type =? HidConstants.ReportType.OUTPUT then hid_SetOutputReport f data
      else if report_type =? HidConstants.ReportType.FEATURE then hid_SetFeatureReport f data
      else mret None
  end.

Definition HidCompositeFeature_ClassControlRead (i : fid) : read_handler C :=
  λ recipient request value index length,
  a ← hid_attrs i;
  if negb (recipient =? UsbConstants.Recipient.INTERFACE) then mret None
  else if negb (index =? ha_interface_number a) then mret None
  else if request =? HidConstants.Request.GET_REPORT then
    GetReport i (Z.shiftr value 8) (Z.land value 0xFF) length
  else mret None.

Definition HidCompositeFeature_ClassControlWrite (i : fid) : write_handler C :=
  λ recipient request value index data,
  a ← hid_attrs i;
  if negb (recipient =? UsbConstants.Recipient.INTERFACE) then mret None
  else if negb (index =? ha_interface_number a) then mret None
  else if request =? HidConstants.Request.SET_REPORT then
    SetReport i (Z.shiftr value 8) (Z.land value 0xFF) data
  else if request =? HidConstants.Request.SET_IDLE then mret (Some true)
  else mret None.

Definition HidCompositeFeature_ReceivePacket (i : fid) (endpoint : Z) (data : bytes) :
    M (world C) unit :=
  a ← hid_attrs i;
  lift (assert_ (bool_decide (ha_out_endpoint a = Some endpoint)));;
  match ha_features a !! 0 with
  | Some f => hid_SetOutputReport f data;; mret ()
  | None =>
      match data with
      | [] => mret ()
      | b :: rest =>
          match ha_features a !! Z_of_byte b with
          | None => CompositeFeature_HaltEndpoint i endpoint
          | Some f =>
              r ← hid_SetOutputReport f rest;
              match r with
              | None => CompositeFeature_HaltEndpoint i endpoint
              | Some _ => mret ()
              end
          end
      end
  end.
End HidCompositeFeature.

(** ** HidGadget *)

Section HidGadget.
Context {C : Type} `{!Chip C} `{!DictOrder} `{!Features C} `{!HidFeatures C}.

(** [HidGadget.__init__]; [node] is the host's [uuid.getnode()].  It returns the
    feature kept in [self._hid_feature]. *)
Definition HidGadget_init (node : Z) (report_desc : bytes) (features : gmap Z hfid)
    (vendor_id product_id packet_size interval_ms : Z) (out_endpoint : bool)
    (device_version : Z) : M (world C) fid :=
  device_desc ← in_heap (new DeviceDescriptor
    [("idVendor", VInt vendor_id); ("idProduct", VInt product_id);
     ("bcdUSB", VInt 0x0200); ("iManufacturer", VInt 1); ("iProduct", VInt 2);
     ("iSerialNumber", VInt 3); ("bcdDevice", VInt device_version)]);
  hid_feature ← HidCompositeFeature_init report_desc features packet_size interval_ms
    0 0 0x81 (if out_endpoint then Some 0x01 else None);
  CompositeGadget_init device_desc [hid_feature];;
  AddStringDescriptor 3 (text_of (hex 6 node)) 0x0409;;
  mret hid_feature.

Definition HidGadget_SendReport (hid_feature : fid) (report_id : Z) (data : bytes) :
    M (world C) unit :=
  HidCompositeFeature_SendReport hid_feature report_id data.
End HidGadget.
