(* ===== verification/HidFeatures.v ===== *)
(** The HID features of keyboard_gadget.py, mouse_gadget.py and
    hid_echo_gadget.py, with their report descriptors and their web handlers'
    input routines, and the dispatch of report requests to them. *)

From S2P Require Import Prelude PyStruct UsbConstants HidConstants UsbDescriptors.
From S2P Require Import MsOs20Descriptors World Gadget Composite HidDescriptors.
From S2P Require Import HidGadget.

#[local] Open Scope Z_scope.

(** ** Report descriptors *)

(** [KeyboardFeature.REPORT_DESC] *)
Definition KEYBOARD_REPORT_DESC : outcome bytes := ReportDescriptor
  [UsagePage 0x01 0; Usage 0x06 0;
   Collection HidConstants.CollectionType.APPLICATION
     [UsagePage 0x07 0; UsageMinimum 224 0; UsageMaximum 231 0;
      LogicalMinimum 0 1; LogicalMaximum 1 0; ReportSize 1 0; ReportCount 8 0;
      Input [Data; Variable_; Absolute];
      ReportCount 1 0; ReportSize 8 0; Input [Constant];
      ReportCount 5 0; ReportSize 1 0; UsagePage 0x08 0; UsageMinimum 1 0;
      UsageMaximum 5 0; Output [Data; Variable_; Absolute];
      ReportCount 1 0; ReportSize 3 0; Output [Constant];
      ReportCount 6 0; ReportSize 8 0; LogicalMinimum 0 1; LogicalMaximum 101 0;
      UsagePage 0x07 0; UsageMinimum 0 1; UsageMaximum 101 0; Input [Data; Array]]].

(** [MouseFeature.REPORT_DESC] *)
Definition MOUSE_REPORT_DESC : outcome bytes := ReportDescriptor
  [UsagePage 0x01 0; Usage 0x02 0;
   Collection HidConstants.CollectionType.APPLICATION
     [Usage 0x01 0;
      Collection HidConstants.CollectionType.PHYSICAL
        [UsagePage 0x09 0; UsageMinimum 1 0; UsageMaximum 3 0;
         LogicalMinimum 0 1; LogicalMaximum 1 0; ReportCount 3 0; ReportSize 1 0;
         Input [Data; Variable_; Absolute];
         ReportCount 1 0; ReportSize 5 0; Input [Constant];
         UsagePage 0x01 0; Usage 0x30 0; Usage 0x31 0;
         LogicalMinimum 0x81 0; LogicalMaximum 127 0; ReportSize 8 0; ReportCount 2 0;
         Input [Data; Variable_; Relative]]]].

(** [EchoFeature.REPORT_DESC] *)
Definition HID_ECHO_REPORT_DESC : outcome bytes := ReportDescriptor
  [UsagePage 0xFF00 0; Usage 0 0;
   Collection HidConstants.CollectionType.APPLICATION
     [LogicalMinimum 0 1; LogicalMaximum 255 2; ReportSize 8 0; ReportCount 8 0;
      Usage 0 0; Input [Data; Variable_; Absolute];
      Usage 0 0; Output [Data; Variable_; Absolute];
      Usage 0 0; Feature [Data; Variable_; Absolute]]].

(** [list.index] *)
Definition py_index (z : Z) (l : list Z) : outcome nat :=
  of_option (ValueError (pretty z +:+ " is not in list")) (fst <$> list_find (z =.) l).

Section features.
Context {C : Type} `{!Chip C}.

(** [self] of a keyboard, a mouse and an echo feature. *)
Definition keyboard (i : hfid) : M (world C) (Z * list Z * Z) :=
  f ← hid_feature i;
  match hf_class f with
  | KeyboardFeature modifiers keys leds => mret (modifiers, keys, leds)
  | _ => raise (AttributeError "_keys")
  end.
Definition mouse (i : hfid) : M (world C) Z :=
  f ← hid_feature i;
  match hf_class f with
  | MouseFeature buttons => mret buttons
  | _ => raise (AttributeError "_buttons")
  end.
Definition echo (i : hfid) : M (world C) (Z * Z) :=
  f ← hid_feature i;
  match hf_class f with
  | EchoFeature io feature => mret (io, feature)
  | _ => raise (AttributeError "_feature_report")
  end.
Definition set_class (i : hfid) (c : HidFeatureClass) : M (world C) unit :=
  modify_hid_feature i (set_hf_class c).

(** ** KeyboardFeature *)

Definition KeyboardFeature_init : M (world C) hfid :=
  HidFeature_init (KeyboardFeature 0 [0; 0; 0; 0; 0; 0] 0).

Definition KeyboardFeature_GetInputReport (i : hfid) : M (world C) bytes :=
  '(modifiers, keys, _) ← keyboard i;
  lift (struct_pack "BBBBBBBB" (VInt modifiers :: VInt 0 :: (VInt <$> keys))).

(** [if self.IsConnected(): self.SendReport(self.GetInputReport())] *)
Definition send_if_connected (i : hfid) (report : M (world C) bytes) : M (world C) unit :=
  connected ← HidFeature_IsConnected i;
  if (connected : bool) then data ← report; HidFeature_SendReport i data else mret ().

Definition ModifierDown (i : hfid) (modifier : Z) : M (world C) unit :=
  '(modifiers, keys, leds) ← keyboard i;
  set_class i (KeyboardFeature (Z.lor modifiers modifier) keys leds);;
  send_if_connected i (KeyboardFeature_GetInputReport i).

Definition ModifierUp (i : hfid) (modifier : Z) : M (world C) unit :=
  '(modifiers, keys, leds) ← keyboard i;
  set_class i (KeyboardFeature (Z.land modifiers (Z.lnot modifier)) keys leds);;
  send_if_connected i (KeyboardFeature_GetInputReport i).

Definition KeyDown (i : hfid) (keycode : Z) : M (world C) unit :=
  '(modifiers, keys, leds) ← keyboard i;
  free ← lift (py_index 0 keys);
  set_class i (KeyboardFeature modifiers (<[free := keycode]> keys) leds);;
  send_if_connected i (KeyboardFeature_GetInputReport i).

Definition KeyUp (i : hfid) (keycode : Z) : M (world C) unit :=
  '(modifiers, keys, leds) ← keyboard i;
  free ← lift (py_index keycode keys);
  set_class i (KeyboardFeature modifiers (<[free := 0]> keys) leds);;
  send_if_connected i (KeyboardFeature_GetInputReport i).

Definition KeyboardFeature_GetOutputReport (i : hfid) : M (world C) bytes :=
  '(_, _, leds) ← keyboard i; lift (struct_pack "B" [VInt leds]).

Definition KeyboardFeature_SetOutputReport (i : hfid) (data : bytes) :
    M (world C) (option bool) :=
  '(modifiers, keys, _) ← keyboard i;
  (if py_len data >=? 1 then
     leds ← lift (struct_unpack "B" data);
     match leds with
     | [VInt leds] => set_class i (KeyboardFeature modifiers keys leds)
     | _ => raise StructError
     end
   else mret ());;
  mret (Some true).

(** The loop of [WebTypeHandler.post], on the characters of the string. *)
Definition type_char (i : hfid) (char : string) : M (world C) unit :=
  match KEY_CODES !! char with
  | Some code => KeyDown i code;; KeyUp i code
  | None =>
      match SHIFT_KEY_CODES !! char with
      | Some code =>
          ModifierDown i HidConstants.ModifierKey.L_SHIFT;;
          KeyDown i code;;
          KeyUp i code;;
          ModifierUp i HidConstants.ModifierKey.L_SHIFT
      | None => mret ()
      end
  end.
Definition WebTypeHandler (i : hfid) (chars : list string) : M (world C) unit :=
  mfor chars (type_char i).

(** [WebPressHandler.post] *)
Definition WebPressHandler (i : hfid) (key : string) : M (world C) unit :=
  code ← lift (of_option KeyError (KEY_CODES !! key));
  KeyDown i code;; KeyUp i code.

(** ** MouseFeature *)

Definition MouseFeature_init : M (world C) hfid := HidFeature_init (MouseFeature 0).

Definition EncodeInputReport (i : hfid) (x_displacement y_displacement : Z) :
    M (world C) bytes :=
  buttons ← mouse i;
  lift (struct_pack "Bbb" [VInt buttons; VInt x_displacement; VInt y_displacement]).

Definition MouseFeature_GetInputReport (i : hfid) : M (world C) bytes :=
  EncodeInputReport i 0 0.

Definition ButtonDown (i : hfid) (button : Z) : M (world C) unit :=
  buttons ← mouse i;
  set_class i (MouseFeature (Z.lor buttons button));;
  send_if_connected i (EncodeInputReport i 0 0).

Definition ButtonUp (i : hfid) (button : Z) : M (world C) unit :=
  buttons ← mouse i;
  set_class i (MouseFeature (Z.land buttons (Z.lnot button)));;
  send_if_connected i (EncodeInputReport i 0 0).

Definition Move (i : hfid) (x_displacement y_displacement : Z) : M (world C) unit :=
  send_if_connected i (EncodeInputReport i x_displacement y_displacement).

(** [WebClickHandler.post] *)
Definition BUTTONS : gmap string Z :=
  list_to_map [("1", HidConstants.Mouse.BUTTON_1); ("2", HidConstants.Mouse.BUTTON_2);
               ("3", HidConstants.Mouse.BUTTON_3)].
Definition WebClickHandler (i : hfid) (button : string) : M (world C) unit :=
  button ← lift (of_option KeyError (BUTTONS !! button));
  ButtonDown i button;; ButtonUp i button.

(** ** EchoFeature *)

Definition EchoFeature_init : M (world C) hfid := HidFeature_init (EchoFeature 0 0).

(** [value, = struct.unpack('<Q', data)] *)
Definition unpack_report (data : bytes) : outcome Z :=
  vs ← struct_unpack "<Q" data;
  match vs with [VInt v] => Ok v | _ => Raise StructError end.

Definition EchoFeature_SetInputReport (i : hfid) (data : bytes) :
    M (world C) (option bool) :=
  '(_, feature_report) ← echo i;
  v ← lift (unpack_report data);
  set_class i (EchoFeature v feature_report);;
  report ← lift (struct_pack "<Q" [VInt v]);
  HidFeature_SendReport i report;;
  mret (Some true).

Definition EchoFeature_SetOutputReport (i : hfid) (data : bytes) :
    M (world C) (option bool) :=
  '(_, feature_report) ← echo i;
  v ← lift (unpack_report data);
  set_class i (EchoFeature v feature_report);;
  report ← lift (struct_pack "<Q" [VInt v]);
  HidFeature_SendReport i report;;
  mret (Some true).

Definition EchoFeature_SetFeatureReport (i : hfid) (data : bytes) :
    M (world C) (option bool) :=
  '(io_report, _) ← echo i;
  v ← lift (unpack_report data);
  set_class i (EchoFeature io_report v);;
  mret (Some true).

Definition EchoFeature_GetInputReport (i : hfid) : M (world C) bytes :=
  '(io_report, _) ← echo i; lift (struct_pack "<Q" [VInt io_report]).
Definition EchoFeature_GetOutputReport (i : hfid) : M (world C) bytes :=
  '(io_report, _) ← echo i; lift (struct_pack "<Q" [VInt io_report]).
Definition EchoFeature_GetFeatureReport (i : hfid) : M (world C) bytes :=
  '(_, feature_report) ← echo i; lift (struct_pack "<Q" [VInt feature_report]).

(** ** Dispatch *)

Definition some_report (m : M (world C) bytes) : M (world C) (option bytes) :=
  b ← m; mret (Some b).

#[export] Instance hid_features : HidFeatures C := {|
  hid_SetInputReport i data :=
    f ← hid_feature i;
    match hf_class f with
    | EchoFeature _ _ => EchoFeature_SetInputReport i data
    | _ => HidFeature_SetInputReport i data
    end;
  hid_SetOutputReport i data :=
    f ← hid_feature i;
    match hf_class f with
    | KeyboardFeature _ _ _ => KeyboardFeature_SetOutputReport i data
    | EchoFeature _ _ => EchoFeature_SetOutputReport i data
    | MouseFeature _ => HidFeature_SetOutputReport i data
    end;
  hid_SetFeatureReport i data :=
    f ← hid_feature i;
    match hf_class f with
    | EchoFeature _ _ => EchoFeature_SetFeatureReport i data
    | _ => HidFeature_SetFeatureReport i data
    end;
  hid_GetInputReport i :=
    f ← hid_feature i;
    match hf_class f with
    | KeyboardFeature _ _ _ => some_report (KeyboardFeature_GetInputReport i)
    | MouseFeature _ => some_report (MouseFeature_GetInputReport i)
    | EchoFeature _ _ => some_report (EchoFeature_GetInputReport i)
    end;
  hid_GetOutputReport i :=
    f ← hid_feature i;
    match hf_class f with
    | KeyboardFeature _ _ _ => some_report (KeyboardFeature_GetOutputReport i)
    | EchoFeature _ _ => some_report (EchoFeature_GetOutputReport i)
    | MouseFeature _ => HidFeature_GetOutputReport i
    end;
  hid_GetFeatureReport i :=
    f ← hid_feature i;
    match hf_class f with
    | EchoFeature _ _ => some_report (EchoFeature_GetFeatureReport i)
    | _ => HidFeature_GetFeatureReport i
    end
|}.
End features.
