(* ===== verification/Devices.v ===== *)
(** The devices of the repository: the bulk, interrupt and isochronous echo
    feature of echo_gadget.py, the dispatch of a composite gadget to its
    features, and the gadgets of default_gadget.py, echo_gadget.py,
    hid_echo_gadget.py, composite_echo_gadget.py, keyboard_gadget.py and
    mouse_gadget.py.

    [uuid.getnode()] and [uuid.uuid4()] are arguments. *)

From S2P Require Import Prelude PyStruct UsbConstants HidConstants UsbDescriptors.
From S2P Require Import MsOs20Descriptors World Gadget Composite HidDescriptors.
From S2P Require Import HidGadget HidFeatures.

#[local] Open Scope Z_scope.

Section EchoCompositeFeature.
Context {C : Type} `{!Chip C}.

(** A vendor-class interface descriptor; [bAlternateSetting] is given only for
    the alternate setting 1. *)
Definition vendor_interface (num string : Z) (alt : option Z) : M (world C) loc :=
  in_heap (new InterfaceDescriptor
    ([("bInterfaceNumber", VInt num)]
     ++ match alt with Some alt => [("bAlternateSetting", VInt alt)] | None => [] end
     ++ [("bInterfaceClass", VInt UsbConstants.DeviceClass.VENDOR);
         ("bInterfaceSubClass", VInt 0); ("bInterfaceProtocol", VInt 0);
         ("iInterface", VInt string)])).

Definition echo_endpoint (interface : loc) (address attributes size interval : Z) :
    M (world C) unit :=
  endpoint ← in_heap (new EndpointDescriptor
    [("bEndpointAddress", VInt address); ("bmAttributes", VInt attributes);
     ("wMaxPacketSize", VInt size); ("bInterval", VInt interval)]);
  in_heap (AddEndpoint interface endpoint).

(** An interface with an OUT and an IN endpoint of one kind. *)
Definition echo_pair (num string : Z) (alt : option Z)
    (in_endpoint out_endpoint attributes size interval : Z) : M (world C) loc :=
  interface ← vendor_interface num string alt;
  echo_endpoint interface out_endpoint attributes size interval;;
  echo_endpoint interface in_endpoint attributes size interval;;
  mret interface.

(** Interface number, interface string, IN and OUT endpoint address. *)
Abbreviation echo_function := (Z * Z * Z * Z)%type.

(** [EchoCompositeFeature.__init__] *)
Definition EchoCompositeFeature_init (endpoints : list echo_function) :
    M (world C) fid :=
  '(fs1, hs1) ← match endpoints !! 0%nat with
    | None => mret ([], [])
    | Some (num, string, in_endpoint, out_endpoint) =>
        let intr := echo_pair num string None in_endpoint out_endpoint
                      UsbConstants.TransferType.INTERRUPT in
        fs ← intr 64 1; hs ← intr 64 4;
        mret ([fs], [hs])
    end;
  '(fs2, hs2) ← match endpoints !! 1%nat with
    | None => mret ([], [])
    | Some (num, string, in_endpoint, out_endpoint) =>
        let bulk := echo_pair num string None in_endpoint out_endpoint
                      UsbConstants.TransferType.BULK in
        fs ← bulk 64 0; hs ← bulk 512 0;
        mret ([fs], [hs])
    end;
  '(fs3, hs3) ← match endpoints !! 2%nat with
    | None => mret ([], [])
    | Some (num, string, in_endpoint, out_endpoint) =>
        let isoc := echo_pair num string (Some 1) in_endpoint out_endpoint
                      UsbConstants.TransferType.ISOCHRONOUS in
        fs0 ← vendor_interface num string None; fs ← isoc 1023 1;
        hs0 ← vendor_interface num string None; hs ← isoc 512 4;
        mret ([fs0; fs], [hs0; hs])
    end;
  CompositeFeature_init EchoCompositeFeature (fs1 ++ fs2 ++ fs3) (hs1 ++ hs2 ++ hs3).

Definition EchoCompositeFeature_ReceivePacket (i : fid) (endpoint : Z) (data : bytes) :
    M (world C) unit :=
  lift (assert_ (Z.land endpoint UsbConstants.Dir.IN =? 0));;
  CompositeFeature_SendPacket i (Z.lor endpoint UsbConstants.Dir.IN) data.
End EchoCompositeFeature.

(** ** Dispatch to the class of a feature *)

Section devices.
Context {C : Type} `{!Chip C} `{!DictOrder}.

Definition is_hid (f : CompositeFeature) : bool :=
  match cf_class f with HidCompositeFeature _ _ _ _ _ => true | _ => false end.

#[export] Instance features : Features C := {|
  feature_Connected i :=
    f ← feature i;
    if is_hid f then HidCompositeFeature_Connected i else CompositeFeature_Connected i;
  feature_Disconnected i :=
    f ← feature i;
    if is_hid f then HidCompositeFeature_Disconnected i
    else CompositeFeature_Disconnected i;
  feature_ReceivePacket i endpoint data :=
    f ← feature i;
    if is_hid f then HidCompositeFeature_ReceivePacket i endpoint data
    else EchoCompositeFeature_ReceivePacket i endpoint data;
  feature_StandardControlRead i := λ recipient request value index length,
    f ← feature i;
    if is_hid f
    then HidCompositeFeature_StandardControlRead i recipient request value index length
    else CompositeFeature_StandardControlRead i recipient request value index length;
  feature_ClassControlRead i := λ recipient request value index length,
    f ← feature i;
    if is_hid f
    then HidCompositeFeature_ClassControlRead i recipient request value index length
    else CompositeFeature_ClassControlRead i recipient request value index length;
  feature_VendorControlRead i := CompositeFeature_VendorControlRead i;
  feature_StandardControlWrite i := CompositeFeature_StandardControlWrite i;
  feature_ClassControlWrite i := λ recipient request value index data,
    f ← feature i;
    if is_hid f
    then HidCompositeFeature_ClassControlWrite i recipient request value index data
    else CompositeFeature_ClassControlWrite i recipient request value index data;
  feature_VendorControlWrite i := CompositeFeature_VendorControlWrite i
|}.

(** ** The gadgets *)

Definition google_device (product bcdUSB : Z) : M (world C) loc :=
  in_heap (new DeviceDescriptor
    [("idVendor", VInt UsbConstants.VendorID.GOOGLE); ("idProduct", VInt product);
     ("bcdUSB", VInt bcdUSB); ("iManufacturer", VInt 1); ("iProduct", VInt 2);
     ("iSerialNumber", VInt 3); ("bcdDevice", VInt 0x0100)]).

Definition add_string (index : Z) (s : string) : M (world C) unit :=
  AddStringDescriptor index (text_of s) 0x0409.

(** [DefaultGadget.__init__]: both configurations share the one interface. *)
Definition DefaultGadget_init : M (world C) unit :=
  device_desc ← google_device UsbConstants.ProductID.GOOGLE_TEST_GADGET 0x0200;
  fs_config_desc ← in_heap (new ConfigurationDescriptor
    [("bmAttributes", VInt 0x80); ("MaxPower", VInt 50)]);
  hs_config_desc ← in_heap (new ConfigurationDescriptor
    [("bmAttributes", VInt 0x80); ("MaxPower", VInt 50)]);
  interface_desc ← in_heap (new InterfaceDescriptor [("bInterfaceNumber", VInt 0)]);
  in_heap (AddInterface fs_config_desc interface_desc);;
  in_heap (AddInterface hs_config_desc interface_desc);;
  Gadget_init device_desc fs_config_desc hs_config_desc;;
  add_string 1 "Google Inc.";;
  add_string 2 "Test Gadget (default state)".

Definition winusb (interface : Z) : M (world C) unit :=
  SetMicrosoftCompatId interface (bytes_of "WINUSB") [].

(** [EchoGadget.__init__] of echo_gadget.py *)
Definition EchoGadget_init (node : Z) (container_id : bytes) : M (world C) unit :=
  device_desc ← google_device UsbConstants.ProductID.GOOGLE_ECHO_GADGET 0x0200;
  feature ← EchoCompositeFeature_init
    [(0, 4, 0x81, 0x01); (1, 5, 0x82, 0x02); (2, 6, 0x83, 0x03)];
  CompositeGadget_init device_desc [feature];;
  add_string 1 "Google Inc.";;
  add_string 2 "Echo Gadget";;
  AddStringDescriptor 3 (text_of (hex 6 node)) 0x0409;;
  add_string 4 "Interrupt Echo";;
  add_string 5 "Bulk Echo";;
  add_string 6 "Isochronous Echo";;
  EnableMicrosoftOSDescriptorsV1 0x01;;
  winusb 0;; winusb 1;; winusb 2;;
  container ← in_heap (new ContainerIdDescriptor [("ContainerID", VStr container_id)]);
  AddDeviceCapabilityDescriptor container.

(** [CompositeEchoGadget.__init__] *)
Definition CompositeEchoGadget_init (node : Z) : M (world C) unit :=
  device_desc ← google_device UsbConstants.ProductID.GOOGLE_COMPOSITE_ECHO_GADGET 0x0210;
  echo_feature ← EchoCompositeFeature_init
    [(0, 5, 0x81, 0x01); (1, 6, 0x82, 0x02); (2, 7, 0x83, 0x03)];
  hid_echo_feature ← EchoFeature_init;
  report_desc ← lift HID_ECHO_REPORT_DESC;
  hid_feature ← HidCompositeFeature_init report_desc {[0 := hid_echo_feature]}
    64 10 3 4 0x84 (Some 0x04);
  CompositeGadget_init device_desc [echo_feature; hid_feature];;
  add_string 1 "Google Inc.";;
  add_string 2 "Echo Gadget";;
  AddStringDescriptor 3 (text_of (hex 6 node)) 0x0409;;
  add_string 4 "HID Echo";;
  add_string 5 "Interrupt Echo";;
  add_string 6 "Bulk Echo";;
  add_string 7 "Isochronous Echo";;
  EnableMicrosoftOSDescriptorsV2 0x02;;
  winusb 0;; winusb 1;; winusb 2.

(** The constructors of the three HID gadgets return the feature each keeps in
    [self._feature]. *)
Definition google_hid_gadget (node : Z) (feature : hfid) (report_desc : outcome bytes)
    (out_endpoint : bool) (product : Z) (name : string) : M (world C) hfid :=
  report_desc ← lift report_desc;
  _ ← HidGadget_init node report_desc {[0 := feature]} UsbConstants.VendorID.GOOGLE
    product 8 1 out_endpoint 0x0100;
  add_string 1 "Google Inc.";;
  add_string 2 name;;
  mret feature.

(** [EchoGadget.__init__] of hid_echo_gadget.py *)
Definition HidEchoGadget_init (node : Z) : M (world C) hfid :=
  feature ← EchoFeature_init;
  google_hid_gadget node feature HID_ECHO_REPORT_DESC true
    UsbConstants.ProductID.GOOGLE_HID_ECHO_GADGET "HID Echo Gadget".

(** [KeyboardGadget.__init__] *)
Definition KeyboardGadget_init (node : Z) : M (world C) hfid :=
  feature ← KeyboardFeature_init;
  google_hid_gadget node feature KEYBOARD_REPORT_DESC true
    UsbConstants.ProductID.GOOGLE_KEYBOARD_GADGET "Keyboard Gadget".

(** [MouseGadget.__init__] *)
Definition MouseGadget_init (node : Z) : M (world C) hfid :=
  feature ← MouseFeature_init;
  google_hid_gadget node feature MOUSE_REPORT_DESC false
    UsbConstants.ProductID.GOOGLE_MOUSE_GADGET "Mouse Gadget".
End devices.
