(* ===== verification/TestDevice.v ===== *)
(** The device of gadget_test.py, built by running the modelled constructors, and
    the expectations of its tests evaluated on the model.  The witnesses of the
    gadget theorems use it. *)

From S2P Require Import Prelude PyStruct UsbConstants HidConstants UsbDescriptors.
From S2P Require Import MsOs20Descriptors World Gadget.

#[local] Open Scope Z_scope.

(** ** Construction *)

#[export] Existing Instance canonical_order.

(** A gadget before [__init__] runs. *)
Definition blank_gadget : Gadget :=
  mkGadget 0 false 0%nat 0%nat 0%nat ∅ None ∅ ∅ None None ∅ None None None.

Definition blank_world : world call_log :=
  mkWorld [] blank_gadget (mkComposite ∅ ∅ []) [] [] [].

Definition test_endpoint (address attributes size interval : Z) : M heap loc :=
  new EndpointDescriptor
    [("bEndpointAddress", VInt address); ("bmAttributes", VInt attributes);
     ("wMaxPacketSize", VInt size); ("bInterval", VInt interval)].

(** One configuration: interface 0 with bulk endpoints 0x01 and 0x81, and its
    alternate setting 1 with interrupt endpoints. *)
Definition test_configuration (bulk interrupt : Z) : M heap loc :=
  cd ← new ConfigurationDescriptor [("bmAttributes", VInt 0xC0); ("MaxPower", VInt 50)];
  i ← new InterfaceDescriptor [("bInterfaceNumber", VInt 0)];
  AddInterface cd i;;
  e ← test_endpoint 0x01 UsbConstants.TransferType.BULK bulk 0;
  AddEndpoint i e;;
  e ← test_endpoint 0x81 UsbConstants.TransferType.BULK bulk 0;
  AddEndpoint i e;;
  i ← new InterfaceDescriptor [("bInterfaceNumber", VInt 0); ("bAlternateSetting", VInt 1)];
  AddInterface cd i;;
  e ← test_endpoint 0x01 UsbConstants.TransferType.INTERRUPT interrupt 1;
  AddEndpoint i e;;
  e ← test_endpoint 0x81 UsbConstants.TransferType.INTERRUPT interrupt 1;
  AddEndpoint i e;;
  mret cd.

Definition test_device_desc : M heap loc :=
  new DeviceDescriptor
    [("idVendor", VInt 0x18D1); ("idProduct", VInt 0xFF00); ("bcdUSB", VInt 0x0200);
     ("iManufacturer", VInt 1); ("iProduct", VInt 2); ("iSerialNumber", VInt 3);
     ("bNumConfigurations", VInt 1); ("bcdDevice", VInt 0x0100)].

Definition test_init : M (world call_log) unit :=
  dev ← in_heap test_device_desc;
  fs ← in_heap (test_configuration 64 64);
  hs ← in_heap (test_configuration 512 256);
  Gadget_init dev fs hs.

(** The gadget after [__init__]. *)
Definition test_world : world call_log := snd (test_init blank_world).

(** The gadget connected at high speed. *)
Definition connected_world : world call_log :=
  snd (Connected UsbConstants.Speed.HIGH test_world).

(** The high-speed configuration and its endpoints, in the canonical dict
    order, which lists 0x81 before 0x01. *)
Abbreviation hs_config := 8%nat.
Abbreviation hs_bulk := [11%nat; 10%nat].
Abbreviation hs_interrupt := [14%nat; 13%nat].

(** ** The tests *)

Definition answer_of (m : M (world call_log) unit)
    (read : M (world call_log) (option bytes)) : outcome (option bytes) :=
  fst ((m ;; read) test_world).

Definition read := ControlRead (C:=call_log) Gadget_methods.
Definition write := ControlWrite (C:=call_log) Gadget_methods.

Definition hello : text := text_of "Hello world!".

Lemma test_get_languages :
  answer_of (AddStringDescriptor 1 hello 0x0409) (read 0x80 6 0x0300 0 255) =
    Ok (Some (byte_of_Z <$> [0x04; 0x03; 0x09; 0x04])).
Proof. by vm_compute. Qed.

Lemma test_get_string_descriptor :
  answer_of (AddStringDescriptor 1 hello 0x0409) (read 0x80 6 0x0301 0x0409 255) =
    Ok (Some ([byte_of_Z 0x1A; byte_of_Z 3] ++ utf16le hello)).
Proof. by vm_compute. Qed.

Lemma test_get_missing_string_descriptor :
  answer_of (AddStringDescriptor 1 hello 0x0409) (read 0x80 6 0x0302 0x0409 255) = Ok None.
Proof. by vm_compute. Qed.

Lemma test_get_microsoft_os_string_descriptor :
  answer_of (EnableMicrosoftOSDescriptorsV1 0x42) (read 0x80 6 0x03EE 0 0x12) =
    Ok (Some (byte_of_Z <$> [0x12; 3; 0x4D; 0; 0x53; 0; 0x46; 0; 0x54; 0;
                             0x31; 0; 0x30; 0; 0x30; 0; 0x42; 0])).
Proof. by vm_compute. Qed.

Lemma test_get_microsoft_os_compat_id_descriptor :
  answer_of (EnableMicrosoftOSDescriptorsV1 0x42;;
             SetMicrosoftCompatId 0 (bytes_of "WINUSB") [];;
             Connected UsbConstants.Speed.HIGH) (read 0xC0 0x42 0 4 0x28) =
    Ok (Some ((byte_of_Z <$> [0x28; 0; 0; 0; 0; 1; 4; 0; 1; 0; 0; 0; 0; 0; 0; 0])
              ++ (byte_of_Z <$> [0; 1]) ++ bytes_of "WINUSB"
              ++ replicate 16 (byte_of_Z 0))).
Proof. by vm_compute. Qed.

Lemma test_get_microsoft_os_20_descriptor_set :
  answer_of (EnableMicrosoftOSDescriptorsV2 0x42;;
             SetMicrosoftCompatId 0 (bytes_of "WINUSB") []) (read 0xC0 0x42 0 7 0x2E) =
    Ok (Some ((byte_of_Z <$>
                [0x0A; 0; 0; 0; 0; 0; 3; 6; 0x2E; 0;
                 0x08; 0; 1; 0; 0; 0; 0x24; 0;
                 0x08; 0; 2; 0; 0; 0; 0x1C; 0;
                 0x14; 0; 3; 0]) ++ bytes_of "WINUSB" ++ replicate 10 (byte_of_Z 0))).
Proof. by vm_compute. Qed.

Lemma test_class_and_vendor_transfers :
  read 0xA0 0 0 0 0 test_world = (Ok None, test_world) ∧
  write 0x20 0 0 0 [] test_world = (Ok None, test_world).
Proof. by vm_compute. Qed.

Definition calls (m : M (world call_log) unit) : outcome unit * call_log :=
  let '(o, w) := m connected_world in (o, w_chip w).

(** The calls a test makes on the mock chip, in the canonical dict order. *)
Lemma test_set_configuration :
  calls (r ← write 0 9 1 0 []; mret ()) = (Ok (), StartCall <$> hs_bulk).
Proof. by vm_compute. Qed.

Lemma test_set_configuration_zero :
  calls (_ ← write 0 9 1 0 []; _ ← write 0 9 0 0 []; mret ()) =
    (Ok (), (StartCall <$> hs_bulk) ++ [StopCall 0x81; StopCall 0x01]).
Proof. by vm_compute. Qed.

Lemma test_set_interface :
  calls (_ ← write 0 9 1 0 []; _ ← write 1 11 1 0 []; _ ← write 1 11 0 0 []; mret ()) =
    (Ok (), (StartCall <$> hs_bulk) ++ [StopCall 0x81; StopCall 0x01]
              ++ (StartCall <$> hs_interrupt) ++ [StopCall 0x81; StopCall 0x01]
              ++ (StartCall <$> hs_bulk)).
Proof. by vm_compute. Qed.
