(* ===== verification/GadgetReads.v ===== *)
(** What the host reads from a gadget: the length and stability of the answers,
    the language table and the string descriptors, the Microsoft OS descriptors
    of both versions and the BOS descriptor. *)

From S2P Require Import Prelude PyStruct UsbConstants HidConstants UsbDescriptors.
From S2P Require Import MsOs20Descriptors World Gadget TestDevice.

#[local] Open Scope Z_scope.

(** ** Reference definitions *)

(** The setup packet of a read of string descriptor zero, the language table. *)
Definition language_request (request_type request value : Z) : Prop :=
  Z.land request_type UsbConstants.Type_.MASK = UsbConstants.Type_.STANDARD ∧
  Z.land request_type UsbConstants.Recipient.MASK = UsbConstants.Recipient.DEVICE ∧
  request = UsbConstants.Request.GET_DESCRIPTOR ∧ value = 0x0300.

(** Whatever [m] answers, it is no longer than [n]. *)
Definition answers_within {C} (n : Z) (m : M (world C) (option bytes)) : Prop :=
  ∀ w b w', m w = (Ok (Some b), w') → py_len b <= n.

(** Two reads of the same data, of which [m1] may cut it shorter. *)
Definition shorter_answer {C} (m1 m2 : M (world C) (option bytes)) : Prop :=
  ∀ w, match fst (m1 w), fst (m2 w) with
       | Ok (Some b1), Ok (Some b2) => b1 `prefix_of` b2
       | Ok None, Ok None => True
       | Ok _, Ok _ => False
       | _, _ => True
       end.

(** Read a sequence of little-endian 16-bit words. *)
Fixpoint words (b : bytes) : option (list Z) :=
  match b with
  | [] => Some []
  | [_] => None
  | lo :: hi :: b => ws ← words b; Some (le_combine [lo; hi] :: ws)
  end.

Create HintDb answers discriminated.
#[export] Hint Constants Opaque : answers.

Section answers.
Context {C : Type}.

Lemma answers_stall n : answers_within (C:=C) n (mret None).
Proof. intros w b w'. by intros [= ]. Qed.

Lemma answers_prefix n b :
  0 <= n → answers_within (C:=C) n (mret (Some (py_prefix n b))).
Proof. intros Hn w b' w' [= <- <-]. auto. Qed.

Lemma answers_raise n e : answers_within (C:=C) n (raise e).
Proof. intros w b w'. by intros [= ]. Qed.

Lemma answers_bind {A} n (m : M (world C) A) f :
  (∀ a, answers_within n (f a)) → answers_within n (m ≫= f).
Proof. intros Hf w b w' (a & w1 & _ & H)%M_bind_Ok. by eapply Hf. Qed.
End answers.

#[export] Hint Resolve answers_stall answers_prefix answers_raise : answers.

Ltac answers_step :=
  lazymatch goal with
  | |- answers_within _ (let _ := _ in _) => cbv zeta
  | |- answers_within _ (match ?x with _ => _ end) => destruct x
  | |- answers_within _ (mbind _ _) => apply answers_bind; intros ?
  | |- answers_within _ _ => solve [eauto with answers]
  end.
Ltac solve_answers := repeat answers_step.

Section reads.
Context {C : Type} `{!Chip C} `{!DictOrder}.
Implicit Types w : world C.

(** ** Reads leave the gadget as it is *)

Lemma GetConfigurationDescriptor_pure :
  respects eq (GetConfigurationDescriptor (C:=C)).
Proof. unfold GetConfigurationDescriptor, GetSpeed. solve_respects. Qed.

Lemma GetStringDescriptor_pure i l n : respects eq (GetStringDescriptor (C:=C) i l n).
Proof. unfold GetStringDescriptor. solve_respects. Qed.

Lemma GetBosDescriptor_pure n : respects eq (GetBosDescriptor (C:=C) n).
Proof. unfold GetBosDescriptor. solve_respects. Qed.

Hint Resolve GetConfigurationDescriptor_pure GetStringDescriptor_pure
  GetBosDescriptor_pure : respects.

Lemma GetMicrosoftCompatIds_pure n : respects eq (GetMicrosoftCompatIds (C:=C) n).
Proof. unfold GetMicrosoftCompatIds. solve_respects. Qed.

Lemma GetMicrosoftOSDescriptorV2_pure n :
  respects eq (GetMicrosoftOSDescriptorV2 (C:=C) n).
Proof. unfold GetMicrosoftOSDescriptorV2. solve_respects. Qed.

Hint Resolve GetMicrosoftCompatIds_pure GetMicrosoftOSDescriptorV2_pure : respects.

Lemma StandardControlRead_pure r q v i n :
  respects eq (StandardControlRead (C:=C) r q v i n).
Proof. unfold StandardControlRead, GetDescriptor. solve_respects. Qed.

Lemma VendorControlRead_pure r q v i n :
  respects eq (VendorControlRead (C:=C) r q v i n).
Proof. unfold VendorControlRead, GetMicrosoftOSDescriptorV1. solve_respects. Qed.

Hint Resolve StandardControlRead_pure VendorControlRead_pure : respects.

(** A read through any method table changes the world no more than the table's
    three read methods do. *)
Lemma ControlRead_respects (R : relation (world C)) `{!PreOrder R} cls rt q v i n :
  (∀ r, respects R (m_StandardControlRead cls r q v i n)) →
  (∀ r, respects R (m_ClassControlRead cls r q v i n)) →
  (∀ r, respects R (m_VendorControlRead cls r q v i n)) →
  respects R (ControlRead cls rt q v i n).
Proof.
  intros Hs Hc Hv. unfold ControlRead. solve_respects; auto.
Qed.

(** ** Reads stay within the requested length *)

Lemma GetStringDescriptor_within i l n :
  0 <= n → i ≠ 0 → answers_within n (GetStringDescriptor (C:=C) i l n).
Proof.
  intros Hn Hi. unfold GetStringDescriptor.
  rewrite (proj2 (Z.eqb_neq i 0)) by done. solve_answers.
Qed.

Lemma GetBosDescriptor_within n :
  0 <= n → answers_within n (GetBosDescriptor (C:=C) n).
Proof. intros Hn. unfold GetBosDescriptor. solve_answers. Qed.

Lemma VendorControlRead_within r q v i n :
  0 <= n → answers_within n (VendorControlRead (C:=C) r q v i n).
Proof.
  intros Hn. unfold VendorControlRead, GetMicrosoftOSDescriptorV1,
    GetMicrosoftCompatIds, GetMicrosoftOSDescriptorV2. solve_answers.
Qed.

Lemma StandardControlRead_within r q v i n :
  0 <= n →
  ¬ (r = UsbConstants.Recipient.DEVICE ∧
     q = UsbConstants.Request.GET_DESCRIPTOR ∧ v = 0x0300) →
  answers_within n (StandardControlRead (C:=C) r q v i n).
Proof.
  intros Hn Hv. unfold StandardControlRead.
  destruct (Z.eqb_spec r UsbConstants.Recipient.DEVICE); [|apply answers_stall].
  destruct (Z.eqb_spec q UsbConstants.Request.GET_DESCRIPTOR); [|apply answers_stall].
  cbn [andb]. unfold GetDescriptor.
  destruct (Z.eqb_spec (Z.shiftr v 8) UsbConstants.DescriptorType.STRING) as [Ht|_].
  - apply GetStringDescriptor_within; [done|]. intros Hi. apply Hv.
    repeat split; [done..|]. rewrite Z.shiftr_div_pow2 in Ht by lia.
    change 255 with (Z.ones 8) in Hi. rewrite Z.land_ones in Hi by lia.
    change UsbConstants.DescriptorType.STRING with 3 in Ht.
    rewrite (Z.div_mod v (2 ^ 8)), Ht, Hi by lia. done.
  - case_match; [by apply GetBosDescriptor_within|apply answers_stall].
Qed.

(** ** A shorter read is the beginning of a longer one *)

Lemma py_prefix_mono {A} n1 n2 (l : list A) :
  0 <= n1 <= n2 → py_prefix n1 l `prefix_of` py_prefix n2 l.
Proof.
  intros Hn. unfold py_prefix.
  rewrite (proj2 (Z.ltb_ge n1 0)), (proj2 (Z.ltb_ge n2 0)) by lia.
  exists (drop (Z.to_nat n1) (take (Z.to_nat n2) l)).
  rewrite <- (take_drop (Z.to_nat n1) (take (Z.to_nat n2) l)) at 1.
  rewrite take_take. do 2 f_equal. lia.
Qed.

Lemma shorter_ret b1 b2 :
  b1 `prefix_of` b2 → shorter_answer (C:=C) (mret (Some b1)) (mret (Some b2)).
Proof. by intros Hb w. Qed.

Lemma shorter_stall : shorter_answer (C:=C) (mret None) (mret None).
Proof. by intros w. Qed.

Lemma shorter_bind {A} (m : M (world C) A) f1 f2 :
  (∀ a, shorter_answer (f1 a) (f2 a)) → shorter_answer (m ≫= f1) (m ≫= f2).
Proof.
  intros Hf w. unfold mbind, M_bind. destruct (m w) as [[a|e] w']; [|done].
  apply Hf.
Qed.

Lemma shorter_bind_r {A} (m : M (world C) A) m1 f2 :
  respects eq m → (∀ a, shorter_answer m1 (f2 a)) → shorter_answer m1 (m ≫= f2).
Proof.
  intros Hm Hf w. specialize (Hm w). unfold mbind, M_bind.
  destruct (m w) as [[a|e] w']; cbn in Hm; subst.
  - apply Hf.
  - cbn. by destruct (fst (m1 w')) as [[]|].
Qed.

Ltac shorter_step :=
  lazymatch goal with
  | |- shorter_answer (mret None) _ => apply shorter_stall
  | |- shorter_answer (mret (Some _)) (mret (Some _)) =>
      apply shorter_ret; first [by apply py_prefix_mono | done]
  | |- shorter_answer (mbind _ _) (mbind _ _) => apply shorter_bind; intros ?
  | |- shorter_answer (match ?x with _ => _ end) (match ?x with _ => _ end) =>
      destruct x
  end.

Lemma GetMicrosoftCompatIds_shorter n1 n2 :
  0 <= n1 <= n2 →
  shorter_answer (C:=C) (GetMicrosoftCompatIds n1) (GetMicrosoftCompatIds n2).
Proof.
  intros Hn. unfold GetMicrosoftCompatIds.
  do 5 (apply shorter_bind; intros ?).
  apply shorter_bind; intros header.
  destruct (Z.leb_spec n1 (py_len header)), (Z.leb_spec n2 (py_len header)).
  - by repeat shorter_step.
  - apply shorter_bind_r; [solve_respects|]. intros ids.
    apply shorter_bind_r; [solve_respects|]. intros entries.
    apply shorter_ret. etrans; [by apply (py_prefix_mono n1 n2)|].
    unfold py_prefix, py_len in *. rewrite (proj2 (Z.ltb_ge n2 0)) by lia.
    rewrite (take_ge header) by lia. rewrite take_app_ge by lia. by apply prefix_app_r.
  - lia.
  - by repeat shorter_step.
Qed.

Lemma StandardControlRead_shorter r q v i n1 n2 :
  0 <= n1 <= n2 →
  shorter_answer (C:=C) (StandardControlRead r q v i n1) (StandardControlRead r q v i n2).
Proof.
  intros Hn. unfold StandardControlRead, GetDescriptor, GetStringDescriptor,
    GetBosDescriptor. by repeat shorter_step.
Qed.

Lemma VendorControlRead_shorter r q v i n1 n2 :
  0 <= n1 <= n2 →
  shorter_answer (C:=C) (VendorControlRead r q v i n1) (VendorControlRead r q v i n2).
Proof.
  intros Hn. unfold VendorControlRead, GetMicrosoftOSDescriptorV1,
    GetMicrosoftOSDescriptorV2. repeat shorter_step.
  all: by apply GetMicrosoftCompatIds_shorter.
Qed.

(** C35: A control read of the base gadget leaves the whole world unchanged and
    returns, as its documentation promises, no more than the requested length;
    the language table (string descriptor zero) is the one answer for which the
    bound does not hold. *)
Theorem ControlRead_length rt q v i n w b w' :
  0 <= n →
  ControlRead Gadget_methods rt q v i n w = (Ok (Some b), w') →
  w' = w ∧ (¬ language_request rt q v → py_len b <= n).
Proof.
  intros Hn Hr. split.
  { change w' with (snd (@Ok (option bytes) (Some b), w')). rewrite <- Hr. symmetry.
    apply (ControlRead_respects eq); intros; cbn; eauto with respects;
      apply respects_ret, _. }
  intros Hl. revert Hr. revert w b w'. fold (answers_within (C:=C) n
    (ControlRead Gadget_methods rt q v i n)).
  unfold ControlRead. apply answers_bind. intros _. cbv zeta.
  destruct (Z.eqb_spec (Z.land rt UsbConstants.Type_.MASK) UsbConstants.Type_.STANDARD).
  - cbn [m_StandardControlRead Gadget_methods].
    apply StandardControlRead_within; [done|]. intros (? & ? & ?). by apply Hl.
  - cbn [m_ClassControlRead m_VendorControlRead Gadget_methods].
    unfold ClassControlRead. solve_answers. by apply VendorControlRead_within.
Qed.

(** Reading in two steps, first a short prefix to learn the length and then
    the whole, is consistent: the short answer is the beginning of the long one,
    and the one stalls exactly when the other does. *)
Theorem ControlRead_short_then_long rt q v i n1 n2 w :
  0 <= n1 <= n2 →
  match fst (ControlRead Gadget_methods rt q v i n1 w),
        fst (ControlRead Gadget_methods rt q v i n2 w) with
  | Ok (Some b1), Ok (Some b2) => b1 `prefix_of` b2
  | Ok None, Ok None => True
  | Ok _, Ok _ => False
  | _, _ => True
  end.
Proof.
  intros Hn. revert w. fold (shorter_answer (C:=C)
    (ControlRead Gadget_methods rt q v i n1) (ControlRead Gadget_methods rt q v i n2)).
  unfold ControlRead. apply shorter_bind. intros _. cbv zeta.
  repeat shorter_step.
  - by apply StandardControlRead_shorter.
  - apply shorter_stall.
  - by apply VendorControlRead_shorter.
Qed.

(** ** Strings *)

Lemma pack_BB a b :
  0 <= a < 256 → 0 <= b < 256 →
  struct_pack "<BB" [VInt a; VInt b] = Ok [byte_of_Z a; byte_of_Z b].
Proof.
  intros Ha Hb. unfold struct_pack.
  replace (parse_format "<BB") with (Some [C_B; C_B]) by reflexivity.
  cbn [of_option mbind outcome_bind pack_codes pack_value].
  by rewrite !pack_uint_ok by (cbn; lia).
Qed.

Lemma pack_BB_overflow a v :
  256 <= a → struct_pack "<BB" [VInt a; v] = Raise StructError.
Proof.
  intros Ha. unfold struct_pack.
  replace (parse_format "<BB") with (Some [C_B; C_B]) by reflexivity.
  cbn [of_option mbind outcome_bind pack_codes pack_value]. unfold pack_uint.
  by rewrite (proj2 (Z.ltb_ge a (256 ^ Z.of_nat 1))), andb_false_r by (cbn; lia).
Qed.

Lemma pack_H a :
  0 <= a < 65536 → struct_pack "<H" [VInt a] = Ok (le_split 2 a).
Proof.
  intros Ha. unfold struct_pack.
  replace (parse_format "<H") with (Some [C_H]) by reflexivity.
  cbn [of_option mbind outcome_bind pack_codes pack_value].
  rewrite pack_uint_ok by (cbn; lia). cbn [mbind outcome_bind]. by rewrite app_nil_r.
Qed.

(** The language codes a gadget can hold. *)
Definition strings_ok w : Prop :=
  ∀ lang, is_Some (g_strings (w_gadget w) !! lang) → 0 <= lang <= 0xffff.

Lemma pack_languages (langs : list Z) :
  Forall (λ l, 0 <= l <= 0xffff) langs →
  mapM (λ lang, struct_pack "<H" [VInt lang]) langs = Ok (le_split 2 <$> langs).
Proof.
  intros Hl. apply mapM_outcome_Ok. induction Hl as [|l ls Hl _ IH]; [constructor|].
  cbn [fmap list_fmap]. constructor; [apply pack_H; lia|done].
Qed.

Lemma words_languages (langs : list Z) :
  Forall (λ l, 0 <= l <= 0xffff) langs →
  words (concat (le_split 2 <$> langs)) = Some langs.
Proof.
  induction 1 as [|l ls Hl _ IH]; [done|].
  rewrite fmap_cons. change (le_split 2 l) with [byte_of_Z l; byte_of_Z (l / 256)].
  cbn [concat app words]. rewrite IH.
  change [byte_of_Z l; byte_of_Z (l / 256)] with (le_split 2 l).
  by rewrite le_combine_split by (cbn; lia).
Qed.

Lemma length_languages (langs : list Z) :
  py_len (concat (le_split 2 <$> langs)) = 2 * py_len langs.
Proof.
  induction langs as [|l ls IH]; [done|].
  rewrite fmap_cons. cbn [concat]. rewrite py_len_app, IH.
  unfold py_len. rewrite length_le_split. cbn [length]. lia.
Qed.

Lemma languages_perm (strings : gmap Z (gmap Z text)) :
  (dict_items strings).*1 ≡ₚ elements (dom strings).
Proof.
  rewrite dict_items_perm. symmetry. apply NoDup_Permutation.
  - apply NoDup_elements.
  - apply NoDup_fst_map_to_list.
  - intros l. rewrite elem_of_elements, elem_of_dom, list_elem_of_fmap. split.
    + intros [v Hv]. exists (l, v). by rewrite elem_of_map_to_list.
    + intros ([l' v] & -> & Hv%elem_of_map_to_list). by exists v.
Qed.

Lemma language_table_run w lang n :
  strings_ok w →
  let strings := g_strings (w_gadget w) in
  let langs := (dict_items strings).*1 in
  GetStringDescriptor 0 lang n w =
    (if 2 + 2 * py_len langs <? 256
     then Ok (Some ([byte_of_Z (2 + 2 * py_len langs); byte_of_Z 3]
                      ++ concat (le_split 2 <$> langs)))
     else Raise StructError, w).
Proof.
  intros Hok strings langs. unfold GetStringDescriptor. cbn [Z.eqb].
  assert (Z.of_nat (size strings) = py_len langs) as Hsize.
  { unfold py_len, langs. by rewrite length_fmap, length_dict_items. }
  assert (Forall (λ l, 0 <= l <= 0xffff) langs) as Hlangs.
  { apply Forall_forall. intros l Hl. apply Hok, elem_of_dom, elem_of_elements.
    by rewrite <- languages_perm. }
  unfold self, strings in *. mrun. rewrite Hsize.
  replace (2 + py_len langs * 2) with (2 + 2 * py_len langs) by lia.
  pose proof (py_len_nonneg langs). destruct (Z.ltb_spec (2 + 2 * py_len langs) 256).
  - rewrite pack_BB by (change UsbConstants.DescriptorType.STRING with 3; lia).
    fold langs. rewrite pack_languages by done.
    rewrite py_len_app, length_languages. cbn [py_len length].
    change (py_len [_; _]) with 2. rewrite Z.eqb_refl. cbn [assert_].
    rewrite py_prefix_all; [done|].
    by rewrite py_len_app, length_languages.
  - by rewrite pack_BB_overflow by lia.
Qed.

(** GET_DESCRIPTOR(String) as the host sends it. *)
Definition read_string (index lang length : Z) : M (world C) (option bytes) :=
  ControlRead Gadget_methods UsbConstants.Dir.IN UsbConstants.Request.GET_DESCRIPTOR
    (0x0300 + index) lang length.

Lemma read_string_run i l n w :
  0 <= i < 256 → read_string i l n w = GetStringDescriptor i l n w.
Proof.
  intros Hi. unfold read_string, ControlRead. mrun.
  change (m_StandardControlRead Gadget_methods 0 6 (0x0300 + i) l n w =
            GetStringDescriptor i l n w).
  cbn [m_StandardControlRead Gadget_methods]. unfold StandardControlRead.
  change (_ && _) with true. cbv iota zeta.
  assert (Z.shiftr (0x0300 + i) 8 = 3) as ->.
  { rewrite Z.shiftr_div_pow2 by lia. change (0x0300 + i) with (3 * 2 ^ 8 + i).
    rewrite Z.div_add_l, Z.div_small by lia. lia. }
  assert (Z.land (0x0300 + i) 0xff = i) as ->.
  { change 0xff with (Z.ones 8). rewrite Z.land_ones by lia.
    change (0x0300 + i) with (3 * 2 ^ 8 + i).
    by rewrite (Z.add_comm _ i), Z.mod_add, Z.mod_small by lia. }
  done.
Qed.

(** The language table lists every language that has a string exactly once,
    behind its own length and type, whatever length the host asked for; with
    more than 126 languages the length byte overflows and the read raises. *)
Theorem language_table lang n w :
  strings_ok w →
  let total := 2 + 2 * Z.of_nat (size (g_strings (w_gadget w))) in
  if total <? 256 then
    ∃ body langs,
      read_string 0 lang n w = (Ok (Some ([byte_of_Z total; byte_of_Z 3] ++ body)), w) ∧
      words body = Some langs ∧ langs ≡ₚ elements (dom (g_strings (w_gadget w)))
  else read_string 0 lang n w = (Raise StructError, w).
Proof.
  intros Hok. rewrite read_string_run, language_table_run by (done || lia).
  set (langs := (dict_items (g_strings (w_gadget w))).*1).
  assert (py_len langs = Z.of_nat (size (g_strings (w_gadget w)))) as ->.
  { unfold py_len, langs. by rewrite length_fmap, length_dict_items. }
  cbv zeta. case_match; [|done]. eexists _, langs. split; [done|].
  split; [|apply languages_perm]. apply words_languages, Forall_forall.
  intros l Hl. apply Hok, elem_of_dom, elem_of_elements. by rewrite <- languages_perm.
Qed.

(** What a GET_DESCRIPTOR(String) other than the language table answers. *)
Definition string_answer (i l n : Z) w : outcome (option bytes) :=
  let g := w_gadget w in
  match (if (i =? 0xEE) && (l =? 0) then g_ms_vendor_code_v1 g else None) with
  | Some code =>
      if (0 <=? code) && (code <? 256) then
        Ok (Some (py_prefix n ([byte_of_Z 18; byte_of_Z 3]
              ++ utf16le (text_of "MSFT100") ++ [byte_of_Z code; byte_of_Z 0])))
      else Raise StructError
  | None =>
      match g_strings g !! l ≫= (!!) i with
      | None => Ok None
      | Some s =>
          let t := 2 + py_len (utf16le s) in
          if t <? 256
          then Ok (Some (py_prefix n (byte_of_Z t :: byte_of_Z 3 :: utf16le s)))
          else Raise StructError
      end
  end.

Lemma encode_temporary_string s h :
  encode_temporary (new_string StringDescriptor s []) h =
    let t := 2 + py_len (utf16le s) in
    if t <? 256 then Ok (byte_of_Z t :: byte_of_Z 3 :: utf16le s) else Raise StructError.
Proof.
  unfold encode_temporary, new_string, alloc. mrun.
  change (Descriptor_init (c_fields StringDescriptor) []) with
    (@Ok (gmap string value) ∅). cbv iota beta.
  set (o := mkObj StringDescriptor ∅ s [] [] ∅ ∅ [] None).
  unfold max_depth. cbn [outcome_bind]. by rewrite (Encode_string _ _ _ o) by
    (by rewrite ?lookup_app_r, ?Nat.sub_diag by lia).
Qed.

Lemma pack_BB_code code :
  struct_pack "<BB" [VInt code; VInt 0] =
    if (0 <=? code) && (code <? 256) then Ok [byte_of_Z code; byte_of_Z 0]
    else Raise StructError.
Proof.
  unfold struct_pack. replace (parse_format "<BB") with (Some [C_B; C_B]) by reflexivity.
  cbn [of_option mbind outcome_bind pack_codes pack_value]. unfold pack_uint.
  change (256 ^ Z.of_nat 1) with 256.
  by destruct ((0 <=? code) && (code <? 256)).
Qed.

Lemma GetStringDescriptor_run i l n w :
  i ≠ 0 → GetStringDescriptor i l n w = (string_answer i l n w, w).
Proof.
  intros Hi. unfold GetStringDescriptor, string_answer, self.
  rewrite (proj2 (Z.eqb_neq i 0)) by done. mrun.
  set (special := if (i =? 0xEE) && (l =? 0) then _ else _).
  destruct special as [code|].
  - rewrite pack_BB_code.
    change (struct_pack "<BB" [VInt 18; VInt UsbConstants.DescriptorType.STRING])
      with (@Ok bytes [byte_of_Z 18; byte_of_Z 3]). cbv iota beta.
    by destruct ((0 <=? code) && (code <? 256)).
  - destruct (g_strings (w_gadget w) !! l) as [ss|]; [|done]. cbn [mbind option_bind].
    destruct (ss !! i) as [s|]; [|done]. rewrite encode_temporary_string. cbv zeta.
    by destruct (2 + py_len (utf16le s) <? 256).
Qed.

(** A string set with [AddStringDescriptor] reads back: the answer is the
    prefix of a descriptor whose body decodes to the string; every other string
    descriptor reads as before.  Out-of-range indices and language codes raise
    and change nothing. *)
Theorem string_read_back index value lang w :
  Forall scalar value →
  let '(r, w') := AddStringDescriptor index value lang w in
  if (index <? 1) || (index >? 255) then
    r = Raise (ValueError "String descriptor index out of range.") ∧ w' = w
  else if (lang <? 0) || (lang >? 0xffff) then
    r = Raise (ValueError "String descriptor language code out of range.") ∧ w' = w
  else
    r = Ok () ∧
    (∀ n, 2 + py_len (utf16le value) < 256 →
       ¬ (index = 0xEE ∧ lang = 0 ∧ is_Some (g_ms_vendor_code_v1 (w_gadget w))) →
       ∃ body, read_string index lang n w' =
           (Ok (Some (py_prefix n ([byte_of_Z (2 + py_len body); byte_of_Z 3] ++ body))), w')
         ∧ utf16le_decode body = Some value) ∧
    (∀ i l n, 1 <= i < 256 → (i, l) ≠ (index, lang) →
       fst (read_string i l n w') = fst (read_string i l n w)) ∧
    (strings_ok w → strings_ok w').
Proof.
  intros Hs. unfold AddStringDescriptor, self, modify_self.
  destruct ((index <? 1) || (index >? 255)) eqn:Hi; [done|].
  destruct ((lang <? 0) || (lang >? 0xffff)) eqn:Hl; [done|].
  mrun. apply orb_false_iff in Hi as [Hi1%Z.ltb_ge Hi2], Hl as [Hl1%Z.ltb_ge Hl2].
  rewrite Z.gtb_ltb, Z.ltb_ge in Hi2, Hl2.
  set (strings := g_strings (w_gadget w)). set (w' := World.set_gadget _ _).
  assert (g_strings (w_gadget w') =
    <[lang := <[index := value]> (default ∅ (strings !! lang))]> strings) as Hnew by done.
  assert (g_ms_vendor_code_v1 (w_gadget w') = g_ms_vendor_code_v1 (w_gadget w))
    as Hv1 by done. clearbody w'.
  split; [done|]. split; [|split].
  - intros n Hn Hms. exists (utf16le value). split; [|by apply utf16le_roundtrip].
    rewrite read_string_run, GetStringDescriptor_run by lia. f_equal.
    unfold string_answer. rewrite Hnew, Hv1.
    replace (if _ && _ then _ else None) with (@None Z).
    + rewrite lookup_insert_eq. cbn [mbind option_bind]. rewrite lookup_insert_eq.
      by rewrite (proj2 (Z.ltb_lt _ _)).
    + destruct (Z.eqb_spec index 0xEE), (Z.eqb_spec lang 0); try done. cbn [andb].
      destruct (g_ms_vendor_code_v1 _) eqn:Hv; [|done]. exfalso. apply Hms. eauto.
  - intros i l n Hi Hne. rewrite !read_string_run, !GetStringDescriptor_run by lia.
    cbn [fst]. unfold string_answer. rewrite Hnew, Hv1. fold strings.
    case_match; [done|]. destruct (decide (l = lang)) as [->|].
    + rewrite lookup_insert_eq. cbn [mbind option_bind].
      rewrite lookup_insert_ne by congruence. by destruct (strings !! lang).
    + by rewrite lookup_insert_ne.
  - intros Hok l. rewrite Hnew, lookup_insert_is_Some. intros [<-|[_ H']]; [lia|by apply Hok].
Qed.
End reads.

(** ** Witnesses *)

(** The test device with two strings in different languages. *)
Definition greeting_world : world call_log :=
  snd ((AddStringDescriptor 1 hello 0x0409;;
        AddStringDescriptor 2 hello 0x040C) test_world).

Lemma ControlRead_length_witness :
  py_len (byte_of_Z <$> [0x1A; 3; 0x48; 0]) <= 4.
Proof.
  refine (proj2 (ControlRead_length 0x80 6 0x0301 0x0409 4 greeting_world _
                   greeting_world _ _) _); [done|by vm_compute|].
  intros (_ & _ & _ & H). discriminate H.
Defined.

Lemma ControlRead_short_then_long_witness :
  match fst (ControlRead Gadget_methods 0x80 6 0x0301 0x0409 2 greeting_world),
        fst (ControlRead Gadget_methods 0x80 6 0x0301 0x0409 255 greeting_world) with
  | Ok (Some b1), Ok (Some b2) => b1 `prefix_of` b2
  | Ok None, Ok None => True
  | Ok _, Ok _ => False
  | _, _ => True
  end.
Proof. apply ControlRead_short_then_long. lia. Defined.

Lemma greeting_world_strings : strings_ok greeting_world.
Proof.
  intros l Hl. apply elem_of_dom in Hl.
  assert (l ∈ elements (dom (g_strings (w_gadget greeting_world)))) as Hin
    by (by apply elem_of_elements).
  vm_compute in Hin. apply list_elem_of_In in Hin.
  cbn in Hin. destruct Hin as [<-|[<-|[]]]; lia.
Qed.

Lemma language_table_witness :
  ∃ body langs,
    read_string 0 0 255 greeting_world =
      (Ok (Some ([byte_of_Z 6; byte_of_Z 3] ++ body)), greeting_world) ∧
    words body = Some langs ∧
    langs ≡ₚ elements (dom (g_strings (w_gadget greeting_world))).
Proof. exact (language_table 0 255 greeting_world greeting_world_strings). Defined.

Lemma string_read_back_witness :
  let '(r, w') := AddStringDescriptor 3 hello 0x0409 greeting_world in
  ∃ body, read_string 3 0x0409 255 w' =
      (Ok (Some (py_prefix 255 ([byte_of_Z (2 + py_len body); byte_of_Z 3] ++ body))), w')
    ∧ utf16le_decode body = Some hello.
Proof.
  refine (proj1 (proj2 (string_read_back 3 hello 0x0409 greeting_world _)) 255 _ _).
  - apply Forall_forall. intros x Hx%list_elem_of_In. unfold scalar.
    vm_compute in Hx. repeat destruct Hx as [<-|Hx]; [lia..|done].
  - by vm_compute.
  - intros (H & _). discriminate H.
Defined.
