(* ===== verification/GadgetMsOs.v ===== *)
(** The Microsoft OS descriptors of a gadget: the version 1 compatible-ID table,
    the version 2 descriptor set and the platform capability that announces it,
    and how the two vendor codes interact. *)

From S2P Require Import Prelude PyStruct UsbConstants HidConstants UsbDescriptors.
From S2P Require Import MsOs20Descriptors World Gadget TestDevice GadgetReads.

#[local] Open Scope Z_scope.

(** ** Reference definitions *)

(** One entry of the compatible-ID table. *)
Definition compat_entry (ids : gmap Z (bytes * bytes)) (i : Z) : bytes :=
  let '(id, sub) := default ([], []) (ids !! i) in
  [byte_of_Z i; byte_of_Z 1] ++ pack_str 8 id ++ pack_str 8 sub
    ++ replicate 6 Byte.x00.

Definition compat_header (m : Z) : bytes :=
  le_split 4 (16 + 24 * (m + 1)) ++ le_split 2 0x0100 ++ le_split 2 4
    ++ [byte_of_Z (m + 1)] ++ replicate 7 Byte.x00.

Definition compat_table (ids : gmap Z (bytes * bytes)) (m : Z) : bytes :=
  compat_header m ++ concat (compat_entry ids <$> xrange 0 (m + 1)).

(** The largest interface number of the current configuration. *)
Definition last_interface {C} `{!DictOrder} (w : world C) : outcome Z :=
  cd ← fst (GetConfigurationDescriptor w);
  ifs ← GetInterfaces (w_heap w) cd;
  nums ← mapM (λ i, getattr_int (w_heap w) i "bInterfaceNumber") ifs;
  py_max nums.

(** A vendor request to the device. *)
Definition vendor_read {C} `{!Chip C} `{!DictOrder} (code value index length : Z) :
    M (world C) (option bytes) :=
  ControlRead Gadget_methods
    (Z.lor UsbConstants.Dir.IN (Z.lor UsbConstants.Type_.VENDOR UsbConstants.Recipient.DEVICE))
    code value index length.

(** ** The compatible-ID table *)

Lemma pack_compat_header m :
  0 <= m < 255 →
  struct_pack "<IHHBxxxxxxx" [VInt (16 + 24 * (m + 1)); VInt 0x0100; VInt 0x0004;
                              VInt (m + 1)] = Ok (compat_header m).
Proof.
  intros Hm. unfold struct_pack.
  replace (parse_format "<IHHBxxxxxxx") with
    (Some ([C_I; C_H; C_H; C_B] ++ replicate 7 C_x)) by reflexivity.
  cbn [of_option mbind outcome_bind app replicate pack_codes pack_value].
  rewrite !pack_uint_ok; [reflexivity|..].
  all: match goal with |- _ <= _ < 256 ^ Z.of_nat ?n =>
    let k := eval vm_compute in (256 ^ Z.of_nat n) in change (256 ^ Z.of_nat n) with k end; lia.
Qed.

Lemma pack_str_idemp n b : pack_str n (pack_str n b) = pack_str n b.
Proof.
  unfold pack_str at 1. rewrite length_pack_str, Nat.sub_diag, app_nil_r.
  apply take_ge. by rewrite length_pack_str.
Qed.

Lemma pack_entry i id sub :
  0 <= i < 256 →
  struct_pack "<BB8s8sxxxxxx" [VInt i; VInt 0x01; VStr id; VStr sub] =
    Ok ([byte_of_Z i; byte_of_Z 1] ++ pack_str 8 id ++ pack_str 8 sub
          ++ replicate 6 Byte.x00).
Proof.
  intros Hi. unfold struct_pack.
  replace (parse_format "<BB8s8sxxxxxx") with
    (Some ([C_B; C_B; C_s 8; C_s 8] ++ replicate 6 C_x)) by reflexivity.
  cbn [of_option mbind outcome_bind app replicate pack_codes pack_value].
  rewrite !pack_uint_ok by (cbn; lia).
  cbn [mbind outcome_bind app]. reflexivity.
Qed.

Lemma pack_compat_entry ids i :
  0 <= i < 256 → compat_id_entry ids i = Ok (compat_entry ids i).
Proof.
  intros Hi. unfold compat_id_entry, compat_entry.
  destruct (default ([], []) (ids !! i)) as [id sub]. by apply pack_entry.
Qed.

(** An entry unpacks to the interface number and the padded IDs. *)
Lemma unpack_compat_entry ids i rest :
  0 <= i < 256 →
  struct_unpack_from "<BB8s8s" (compat_entry ids i ++ rest) 0 =
    let '(id, sub) := default ([], []) (ids !! i) in
    Ok [VInt i; VInt 1; VStr (pack_str 8 id); VStr (pack_str 8 sub)].
Proof.
  intros Hi. unfold compat_entry.
  destruct (default ([], []) (ids !! i)) as [id sub].
  pose proof (pack_entry i (pack_str 8 id) (pack_str 8 sub) Hi) as Hp.
  rewrite !pack_str_idemp in Hp.
  apply (struct_pack_read "<BB8s8sxxxxxx" "<BB8s8s" [C_B; C_B; C_s 8; C_s 8] (replicate 6 C_x) _ [] _ _
           eq_refl eq_refl); [|done..|exact Hp].
  repeat split; apply length_pack_str.
Qed.

Lemma length_compat_entry ids i : length (compat_entry ids i) = 24%nat.
Proof.
  unfold compat_entry. destruct (default _ _). cbn -[pack_str replicate].
  rewrite !length_app, !length_pack_str. done.
Qed.

Lemma compat_entries ids m :
  m < 256 →
  mapM (compat_id_entry ids) (xrange 0 m) = Ok (compat_entry ids <$> xrange 0 m).
Proof.
  intros Hm. apply mapM_outcome_Ok, Forall2_fmap_r, Forall_Forall2_diag, Forall_forall.
  intros i Hi. unfold xrange in Hi. apply elem_of_seqZ in Hi.
  apply pack_compat_entry. lia.
Qed.

Lemma drop_concat_fixed {A} (k : nat) (ls : list (list A)) i x :
  Forall (λ l, length l = k) ls → ls !! i = Some x →
  ∃ rest, drop (k * i) (concat ls) = x ++ rest.
Proof.
  intros Hk. revert i. induction Hk as [|l ls Hl _ IH]; intros i Hi; [done|].
  destruct i as [|i]; cbn in *.
  - injection Hi as ->. rewrite Nat.mul_0_r. by exists (concat ls).
  - destruct (IH i Hi) as [rest Hrest]. exists rest.
    rewrite <- Hrest, Nat.mul_succ_r, Nat.add_comm. by apply drop_app_add'.
Qed.

Lemma unpack_from_drop fmt b off :
  struct_unpack_from fmt b off = struct_unpack_from fmt (drop off b) 0.
Proof. unfold struct_unpack_from. by rewrite drop_0. Qed.

Lemma length_compat_table ids m :
  0 <= m → py_len (compat_table ids m) = 16 + 24 * (m + 1).
Proof.
  intros Hm. unfold compat_table. rewrite py_len_app.
  change (py_len (compat_header m)) with 16. rewrite py_len_concat. f_equal.
  unfold xrange. rewrite Z.sub_0_r.
  assert (∀ l : list Z, py_sum (py_len <$> (compat_entry ids <$> l)) = 24 * py_len l) as ->.
  { induction l as [|i l IH]; [done|]. rewrite !fmap_cons. cbn [py_sum foldr].
    unfold py_sum in IH. rewrite IH. unfold py_len at 1. rewrite length_compat_entry.
    unfold py_len. cbn [length]. lia. }
  unfold py_len. rewrite length_seqZ. lia.
Qed.

Section ms_os.
Context {C : Type} `{!Chip C} `{!DictOrder}.
Implicit Types w : world C.

Lemma GetMicrosoftCompatIds_run w m n :
  last_interface w = Ok m → 0 <= m < 255 → 0 <= n →
  GetMicrosoftCompatIds n w =
    (Ok (Some (py_prefix n (compat_table (g_ms_compat_ids (w_gadget w)) m))), w).
Proof.
  unfold last_interface, GetMicrosoftCompatIds, self. intros Hm Hr Hn.
  pose proof (GetConfigurationDescriptor_pure w) as Hp. mrun.
  destruct (GetConfigurationDescriptor w) as [[cd|] w1]; cbn in Hm, Hp; subst w1; [|done].
  destruct (GetInterfaces (w_heap w) cd) as [ifs|]; cbn in Hm; [|done].
  destruct (mapM _ ifs) as [nums|]; cbn in Hm; [|done]. rewrite Hm.
  rewrite pack_compat_header by done. cbv iota beta.
  assert (py_len (compat_header m) = 16) as -> by done.
  destruct (Z.leb_spec n 16).
  - do 3 f_equal. unfold compat_table, py_prefix. rewrite (proj2 (Z.ltb_ge n 0)) by lia.
    rewrite take_app_le; [done|]. change (length (compat_header m)) with 16%nat. lia.
  - by rewrite compat_entries by lia.
Qed.

Lemma vendor_read_run code v i n w :
  vendor_read code v i n w =
    VendorControlRead UsbConstants.Recipient.DEVICE code v i n w.
Proof. reflexivity. Qed.

(** The version 1 compatible-ID table: once the vendor code is set, the
    vendor request with index 4 answers a prefix of a table that announces its
    own length and its number of entries and holds, for every interface number
    up to the configuration's largest, an entry with the IDs registered for it
    (eight bytes each, cut or zero-padded), empty ones for the others. *)
Theorem compat_id_table w code m :
  g_ms_vendor_code_v1 (w_gadget w) = Some code →
  last_interface w = Ok m → 0 <= m < 255 →
  ∃ table,
    (∀ n, 0 <= n →
       vendor_read code 0 0x0004 n w = (Ok (Some (py_prefix n table)), w)) ∧
    struct_unpack_from "<IHHB" table 0 =
      Ok [VInt (py_len table); VInt 0x0100; VInt 0x0004; VInt (m + 1)] ∧
    ∀ i, 0 <= i <= m →
      let '(id, sub) := default ([], []) (g_ms_compat_ids (w_gadget w) !! i) in
      struct_unpack_from "<BB8s8s" table (Z.to_nat (16 + 24 * i)) =
        Ok [VInt i; VInt 1; VStr (pack_str 8 id); VStr (pack_str 8 sub)].
Proof.
  intros Hv Hm Hr. set (ids := g_ms_compat_ids (w_gadget w)).
  exists (compat_table ids m). split; [|split].
  - intros n Hn. rewrite vendor_read_run. unfold VendorControlRead, self. mrun.
    rewrite Hv, bool_decide_true by done. cbn [andb orb Z.eqb].
    unfold GetMicrosoftOSDescriptorV1. cbn [orb Z.eqb Pos.eqb].
    by apply GetMicrosoftCompatIds_run.
  - rewrite length_compat_table by lia. unfold compat_table.
    apply (struct_pack_read "<IHHBxxxxxxx" "<IHHB" [C_I; C_H; C_H; C_B] (replicate 7 C_x)
             _ [] _ _ eq_refl eq_refl); [by repeat split|done..|].
    by apply pack_compat_header.
  - intros i Hi. fold ids. rewrite unpack_from_drop.
    unfold compat_table. rewrite Z2Nat.inj_add, Z2Nat.inj_mul by lia.
    change (Z.to_nat 16) with (length (compat_header m)).
    rewrite drop_app_add. change (Z.to_nat 24) with 24%nat.
    destruct (drop_concat_fixed 24 (compat_entry ids <$> xrange 0 (m + 1))
                (Z.to_nat i) (compat_entry ids i)) as [rest ->].
    + apply Forall_fmap, Forall_forall. intros j _. apply length_compat_entry.
    + rewrite list_lookup_fmap. unfold xrange.
      rewrite lookup_seqZ_lt by lia. cbn. do 2 f_equal. lia.
    + rewrite unpack_compat_entry by lia. by destruct (default _ _).
Qed.

Lemma GetMicrosoftOSDescriptorV2_run w set b n :
  g_ms_os20_descriptor_set (w_gadget w) = Some set →
  Encode (max_depth (w_heap w)) (w_heap w) set = Ok b →
  GetMicrosoftOSDescriptorV2 n w = (Ok (Some (py_prefix n b)), w).
Proof.
  intros Hset Hb. unfold GetMicrosoftOSDescriptorV2, self. mrun.
  rewrite Hset. cbn [of_option]. by rewrite Hb.
Qed.

(** [EnableMicrosoftOSDescriptorsV1] accepts the vendor code version 2
    already uses; from then on the version 1 request shadows the version 2 one,
    and the descriptor set the host could read before only stalls. *)
Theorem v1_code_shadows_v2 w code set b :
  g_ms_vendor_code_v1 (w_gadget w) = None →
  g_ms_vendor_code_v2 (w_gadget w) = Some code → 0 <= code <= 255 →
  g_ms_os20_descriptor_set (w_gadget w) = Some set →
  Encode (max_depth (w_heap w)) (w_heap w) set = Ok b →
  (∀ n, vendor_read code 0 7 n w = (Ok (Some (py_prefix n b)), w)) ∧
  ∃ w', EnableMicrosoftOSDescriptorsV1 code w = (Ok (), w') ∧
        g_ms_vendor_code_v2 (w_gadget w') = Some code ∧
        ∀ n, vendor_read code 0 7 n w' = (Ok None, w').
Proof.
  intros H1 H2 Hcode Hset Hb. split.
  - intros n. rewrite vendor_read_run. unfold VendorControlRead, self. mrun.
    rewrite H1, H2, (bool_decide_true (Some code = Some code)) by done.
    by apply (GetMicrosoftOSDescriptorV2_run _ set).
  - unfold EnableMicrosoftOSDescriptorsV1, self, modify_self. mrun. rewrite H1.
    rewrite (proj2 (Z.ltb_ge code 0)), Z.gtb_ltb, (proj2 (Z.ltb_ge 255 code)) by lia.
    cbn [orb]. rewrite decide_False by done. eexists. split; [done|].
    split; [done|]. intros n. rewrite vendor_read_run.
    unfold VendorControlRead, self. mrun.
    by rewrite bool_decide_true by done.
Qed.

(** ** The version 2 descriptor set and its announcement *)

(** Objects only gain children. *)
Definition grows (h h' : heap) : Prop :=
  ∀ l o, h !! l = Some o → ∃ o', h' !! l = Some o' ∧ o_class o' = o_class o ∧
    o_attrs o' = o_attrs o ∧ o_descriptor_set o' = o_descriptor_set o ∧
    o_descriptors o ⊆ o_descriptors o'.

#[export] Instance grows_preorder : PreOrder grows.
Proof.
  split.
  - intros h l o Ho. exists o. done.
  - intros h1 h2 h3 H12 H23 l o Ho.
    destruct (H12 l o Ho) as (o2 & Ho2 & ? & ? & ? & ?).
    destruct (H23 l o2 Ho2) as (o3 & Ho3 & ? & ? & ? & ?).
    exists o3. repeat split; [congruence..|set_solver].
Qed.

Lemma alloc_grows o : respects grows (alloc o).
Proof.
  intros h l o' Ho. exists o'. split; [|done]. cbn. by apply lookup_app_l_Some.
Qed.

Lemma new_grows c args : respects grows (new c args).
Proof. unfold new. solve_respects. apply alloc_grows. Qed.

Lemma modify_obj_grows l f :
  (∀ o, o_class (f o) = o_class o ∧ o_attrs (f o) = o_attrs o ∧
        o_descriptor_set (f o) = o_descriptor_set o ∧
        o_descriptors o ⊆ o_descriptors (f o)) →
  respects grows (modify_obj l f).
Proof.
  intros Hf h l' o Ho. cbn. rewrite list_lookup_alter.
  case_decide; [subst l|by exists o]. rewrite Ho. exists (f o). split; [done|]. apply Hf.
Qed.

Lemma Add_grows self l : respects grows (Add self l).
Proof. apply modify_obj_grows. intros o. repeat split; cbn. set_solver. Qed.

Hint Resolve new_grows Add_grows : respects.

Lemma AddDeviceCapability_grows self l : respects grows (AddDeviceCapability self l).
Proof.
  unfold AddDeviceCapability. solve_respects. apply modify_obj_grows.
  intros o. by repeat split.
Qed.

(** The platform capability in the BOS descriptor carries the version 2 vendor
    code and refers to the gadget's descriptor set. *)
Definition linked (code : Z) w : Prop :=
  ∃ b s p ob op, g_bos_descriptor (w_gadget w) = Some b ∧
    g_ms_os20_descriptor_set (w_gadget w) = Some s ∧
    w_heap w !! b = Some ob ∧ o_class ob = BosDescriptor ∧
    p ∈ o_descriptors ob ∧
    w_heap w !! p = Some op ∧ o_class op = PlatformCapabilityDescriptor ∧
    o_descriptor_set op = Some s ∧
    o_attrs op !! "dwWindowsVersion" = Some (VInt 0x06030000) ∧
    o_attrs op !! "bMS_VendorCode" = Some (VInt code).

Definition bos_ok w : Prop :=
  ∀ b, g_bos_descriptor (w_gadget w) = Some b →
    ∃ ob, w_heap w !! b = Some ob ∧ o_class ob = BosDescriptor.

Definition ms20_inv w : Prop :=
  bos_ok w ∧ ∀ code, g_ms_vendor_code_v2 (w_gadget w) = Some code → linked code w.

(** Steps that touch neither the BOS reference nor the version 2 fields. *)
Definition keeps_ms20 w w' : Prop :=
  grows (w_heap w) (w_heap w') ∧
  g_bos_descriptor (w_gadget w') = g_bos_descriptor (w_gadget w) ∧
  g_ms_vendor_code_v2 (w_gadget w') = g_ms_vendor_code_v2 (w_gadget w) ∧
  g_ms_os20_descriptor_set (w_gadget w') = g_ms_os20_descriptor_set (w_gadget w).

#[export] Instance keeps_ms20_preorder : PreOrder keeps_ms20.
Proof.
  split.
  - by intros w.
  - intros w1 w2 w3 (? & ? & ? & ?) (? & ? & ? & ?).
    repeat split; [by etrans|congruence..].
Qed.

Lemma bos_ok_grows w w' :
  grows (w_heap w) (w_heap w') →
  g_bos_descriptor (w_gadget w') = g_bos_descriptor (w_gadget w) →
  bos_ok w → bos_ok w'.
Proof.
  intros Hg Hb Hok b. rewrite Hb. intros (ob & Ho & Hc)%Hok.
  destruct (Hg _ _ Ho) as (ob' & Ho' & ? & _). exists ob'. split; [done|congruence].
Qed.

Lemma linked_grows w w' code :
  grows (w_heap w) (w_heap w') →
  g_bos_descriptor (w_gadget w') = g_bos_descriptor (w_gadget w) →
  g_ms_os20_descriptor_set (w_gadget w') = g_ms_os20_descriptor_set (w_gadget w) →
  linked code w → linked code w'.
Proof.
  intros Hg Hb Hs (b & s & p & ob & op & ? & ? & Hob & ? & ? & Hop & ? & ? & ? & ?).
  destruct (Hg _ _ Hob) as (ob' & ? & ? & ? & ? & ?).
  destruct (Hg _ _ Hop) as (op' & ? & ? & ? & ? & ?).
  exists b, s, p, ob', op'. repeat split; first [congruence|set_solver].
Qed.

Lemma keeps_ms20_inv w w' : keeps_ms20 w w' → ms20_inv w → ms20_inv w'.
Proof.
  intros (Hg & Hb & Hv & Hs) [Hok Hl]. split; [by eapply bos_ok_grows|].
  intros code. rewrite Hv. intros Hcode. by eapply linked_grows, Hl.
Qed.

(** ** Histories of a gadget *)

Context `{!ChipLaws C}.

Lemma chip_only_keeps_ms20 w w' : chip_only w w' → keeps_ms20 w w'.
Proof. intros <-. by repeat split. Qed.

Lemma respects_chip_only {A} (m : M (world C) A) :
  respects chip_only m → respects keeps_ms20 m.
Proof. intros Hm w. apply chip_only_keeps_ms20, Hm. Qed.

Lemma modify_self_keeps_ms20 f :
  (∀ g, g_bos_descriptor (f g) = g_bos_descriptor g ∧
        g_ms_vendor_code_v2 (f g) = g_ms_vendor_code_v2 g ∧
        g_ms_os20_descriptor_set (f g) = g_ms_os20_descriptor_set g) →
  respects keeps_ms20 (modify_self (C:=C) f).
Proof. intros Hf w. destruct (Hf (w_gadget w)) as (? & ? & ?). by repeat split. Qed.

Lemma in_heap_keeps_ms20 {A} (m : M heap A) :
  respects grows m → respects keeps_ms20 (in_heap (C:=C) m).
Proof.
  intros Hm w. specialize (Hm (w_heap w)). unfold in_heap, zoom.
  destruct (m (w_heap w)). by repeat split.
Qed.

Hint Extern 1 (respects keeps_ms20 (modify_self _)) =>
  apply modify_self_keeps_ms20; by repeat split : respects.
Hint Resolve in_heap_keeps_ms20 : respects.

Lemma on_chip_keeps_ms20 name (m : M (world C) unit) :
  respects chip_only m → respects keeps_ms20 (on_chip name m).
Proof. intros Hm. unfold on_chip. solve_respects. by apply respects_chip_only. Qed.

Hint Resolve on_chip_keeps_ms20 : respects.

Lemma start_endpoint_keeps_ms20 i e : respects keeps_ms20 (start_endpoint (C:=C) i e).
Proof. unfold start_endpoint, set_active_of. solve_respects. Qed.

Hint Resolve start_endpoint_keeps_ms20 : respects.

Lemma GetConfigurationDescriptor_keeps_ms20 :
  respects keeps_ms20 (GetConfigurationDescriptor (C:=C)).
Proof. intros w. by rewrite <- GetConfigurationDescriptor_pure. Qed.

Hint Resolve GetConfigurationDescriptor_keeps_ms20 : respects.

Lemma SetConfiguration_keeps_ms20 i : respects keeps_ms20 (SetConfiguration (C:=C) i).
Proof. unfold SetConfiguration, set_active_of. solve_respects. Qed.

Lemma SetInterface_keeps_ms20 i a : respects keeps_ms20 (SetInterface (C:=C) i a).
Proof. unfold SetInterface, set_active_of. solve_respects. Qed.

Hint Resolve SetConfiguration_keeps_ms20 SetInterface_keeps_ms20 : respects.

Lemma SetMicrosoftCompatId_keeps_ms20 i id sub :
  respects keeps_ms20 (SetMicrosoftCompatId (C:=C) i id sub).
Proof. unfold SetMicrosoftCompatId. solve_respects. Qed.

Lemma modify_obj_alter l f h o :
  h !! l = Some o → modify_obj l f h = (Ok (), <[l := f o]> h).
Proof.
  intros Ho. unfold modify_obj, modify. f_equal. apply list_eq. intros i.
  rewrite list_lookup_alter, list_lookup_insert.
  apply lookup_lt_Some in Ho as Hlt. case_decide as Hi; [subst|].
  - rewrite Ho. by rewrite decide_True.
  - rewrite decide_False by tauto. done.
Qed.

Lemma AddDeviceCapability_run h b ob p :
  h !! b = Some ob →
  ∃ ob', AddDeviceCapability b p h = (Ok (), <[b := ob']> h) ∧
    o_class ob' = o_class ob ∧ p ∈ o_descriptors ob'.
Proof.
  intros Ho. unfold AddDeviceCapability, Add. mrun.
  rewrite (modify_obj_alter _ _ _ _ Ho).
  erewrite modify_obj_alter by (apply list_lookup_insert_eq; by eapply lookup_lt_Some).
  rewrite list_insert_insert_eq. eexists. split; [done|].
  split; [done|]. cbn. set_solver.
Qed.

(** [AddDeviceCapabilityDescriptor] leaves the capability among the children of
    the gadget's BOS descriptor, which it makes if there was none. *)
Lemma AddDeviceCapabilityDescriptor_run w p :
  bos_ok w →
  ∃ h b ob, AddDeviceCapabilityDescriptor p w =
      (Ok (), set_heap h (World.set_gadget (set_bos_descriptor (Some b) (w_gadget w)) w)) ∧
    grows (w_heap w) h ∧ h !! b = Some ob ∧ o_class ob = BosDescriptor ∧
    p ∈ o_descriptors ob ∧
    (g_bos_descriptor (w_gadget w) = None ∨ g_bos_descriptor (w_gadget w) = Some b).
Proof.
  intros Hok. unfold AddDeviceCapabilityDescriptor, self, modify_self, in_heap, zoom. mrun.
  destruct (g_bos_descriptor (w_gadget w)) as [b|] eqn:Hb.
  - destruct (Hok b Hb) as (ob & Ho & Hc).
    pose proof (AddDeviceCapability_grows b p (w_heap w)) as Hg.
    destruct (AddDeviceCapability_run _ b ob p Ho) as (ob' & Hrun & Hc' & Hp).
    rewrite Hrun in *. exists (<[b := ob']> (w_heap w)), b, ob'. split.
    { destruct w as [? [] ? ? ? ?]. cbn in *. by rewrite Hb. }
    split; [done|]. rewrite list_lookup_insert_eq by (by eapply lookup_lt_Some).
    repeat split; [congruence|done|by right].
  - set (bos := mkObj BosDescriptor ∅ [] [] [] ∅ ∅ [] None).
    change (new BosDescriptor [] (w_heap w)) with
      (@Ok loc (length (w_heap w)), w_heap w ++ [bos]). cbv iota beta.
    set (h := w_heap w ++ [bos]). set (b := length (w_heap w)).
    assert (h !! b = Some bos) as Ho.
    { unfold h, b. by rewrite lookup_app_r, Nat.sub_diag by lia. }
    destruct (AddDeviceCapability_run h b bos p Ho) as (ob' & Hrun & Hc' & Hp).
    pose proof (AddDeviceCapability_grows b p h) as Hg. cbn [w_heap set_heap World.set_gadget].
    rewrite Hrun in *. exists (<[b := ob']> h), b, ob'. split; [done|].
    split; [etrans; [apply (alloc_grows bos)|exact Hg]|].
    rewrite list_lookup_insert_eq by (by eapply lookup_lt_Some).
    repeat split; [done..|by left].
Qed.

Lemma AddDeviceCapabilityDescriptor_inv p :
  preserves ms20_inv (AddDeviceCapabilityDescriptor (C:=C) p).
Proof.
  intros w [Hok Hl].
  destruct (AddDeviceCapabilityDescriptor_run w p Hok)
    as (h & b & ob & -> & Hg & Hob & Hc & Hp & Hb). cbn [snd]. split.
  - intros b' [= <-]. by exists ob.
  - intros code Hcode. destruct (Hl code Hcode) as
      (b' & s & q & ob' & oq & Hb' & Hs & Hob' & Hc' & Hq & Hoq & Hcq & Hsq & Hv & Hvc).
    destruct Hb as [Hb|Hb]; [congruence|].
    assert (b' = b) as -> by congruence.
    destruct (Hg _ _ Hob') as (ob2 & Hob2 & _ & _ & _ & Hsub).
    destruct (Hg _ _ Hoq) as (oq' & ? & ? & ? & ? & _).
    assert (ob2 = ob) as -> by congruence.
    exists b, s, q, ob, oq'. cbn. repeat split; first [congruence|set_solver].
Qed.

Lemma new_run c args attrs h :
  Descriptor_init (c_fields c) args = Ok attrs →
  new c args h = (Ok (length h), h ++ [mkObj c attrs [] [] [] ∅ ∅ [] None]).
Proof. intros Hi. unfold new, lift, mbind, M_bind. by rewrite Hi. Qed.

Lemma grows_fresh h h' o f :
  grows h h' → grows h (alter f (length h') (h' ++ [o])).
Proof.
  intros Hg l ol Hl. destruct (Hg l ol Hl) as (ol' & Hl' & Hrest).
  exists ol'. split; [|done]. apply lookup_lt_Some in Hl' as Hlt.
  rewrite list_lookup_alter_ne by lia. by apply lookup_app_l_Some.
Qed.

(** Version 2 up to its last call: the platform capability refers to the new
    descriptor set and carries the vendor code. *)
Lemma EnableMicrosoftOSDescriptorsV2_run w code :
  0 <= code <= 255 → g_ms_vendor_code_v1 (w_gadget w) ≠ Some code →
  ∃ w1 p s op,
    EnableMicrosoftOSDescriptorsV2 code w = AddDeviceCapabilityDescriptor p w1 ∧
    grows (w_heap w) (w_heap w1) ∧
    g_bos_descriptor (w_gadget w1) = g_bos_descriptor (w_gadget w) ∧
    g_ms_vendor_code_v2 (w_gadget w1) = Some code ∧
    g_ms_os20_descriptor_set (w_gadget w1) = Some s ∧
    w_heap w1 !! p = Some op ∧ o_class op = PlatformCapabilityDescriptor ∧
    o_descriptor_set op = Some s ∧
    o_attrs op !! "dwWindowsVersion" = Some (VInt 0x06030000) ∧
    o_attrs op !! "bMS_VendorCode" = Some (VInt code).
Proof.
  intros Hcode Hv1. unfold EnableMicrosoftOSDescriptorsV2, self. mrun.
  rewrite (proj2 (Z.ltb_ge code 0)), Z.gtb_ltb, (proj2 (Z.ltb_ge 255 code)) by lia.
  cbn [orb]. rewrite decide_False by congruence.
  unfold modify_self, in_heap, zoom. mrun. cbn [w_heap set_heap World.set_gadget].
  rewrite (new_run DescriptorSetHeader _ {["dwWindowsVersion" := VInt 0x06030000]})
    by reflexivity.
  set (h1 := w_heap w ++ [_]). cbn [w_heap set_heap World.set_gadget].
  rewrite (new_run ConfigurationSubsetHeader _ {["bConfigurationValue" := VInt 0]})
    by reflexivity.
  set (h2 := h1 ++ [_]). cbn [w_heap set_heap World.set_gadget].
  unfold Add at 1, modify_obj at 1. mrun. cbn [w_heap set_heap World.set_gadget].
  set (h3 := alter _ _ h2).
  rewrite (new_run PlatformCapabilityDescriptor _
    (<["bMS_VendorCode" := VInt code]> {["dwWindowsVersion" := VInt 0x06030000]}))
    by reflexivity.
  unfold SetDescriptorSet, modify_obj. mrun. cbn [w_heap set_heap World.set_gadget].
  set (op := mkObj PlatformCapabilityDescriptor _ _ _ _ _ _ _ _).
  assert (grows (w_heap w) h3) as Hg.
  { trans h1; [apply (alloc_grows _ (w_heap w))|].
    trans h2; [apply (alloc_grows _ h1)|]. apply (Add_grows _ _ h2). }
  eexists _, (length h3), (length (w_heap w)), (set_descriptor_set (Some _) op).
  split; [reflexivity|]. split; [by apply grows_fresh|].
  cbn [w_heap set_heap World.set_gadget w_gadget]. repeat split.
  by rewrite list_lookup_alter_eq, lookup_app_r, Nat.sub_diag by lia.
Qed.

Lemma EnableMicrosoftOSDescriptorsV2_inv code :
  preserves ms20_inv (EnableMicrosoftOSDescriptorsV2 (C:=C) code).
Proof.
  intros w [Hok Hl].
  destruct (decide (0 <= code <= 255 ∧ g_ms_vendor_code_v1 (w_gadget w) ≠ Some code))
    as [[Hcode Hv1]|Hne].
  - destruct (EnableMicrosoftOSDescriptorsV2_run w code Hcode Hv1)
      as (w1 & p & s & op & -> & Hg & Hb & Hv2 & Hs & Hop & Hc & Hset & Hver & Hvc).
    assert (bos_ok w1) as Hok1 by (by eapply bos_ok_grows).
    destruct (AddDeviceCapabilityDescriptor_run w1 p Hok1)
      as (h & b & ob & -> & Hg1 & Hob & Hcb & Hp & _).
    split; [intros b' [= <-]; by exists ob|]. cbn. intros code' Hcode'.
    assert (code' = code) as -> by congruence.
    destruct (Hg1 _ _ Hop) as (op' & ? & ? & ? & ? & _).
    exists b, s, p, ob, op'. cbn. repeat split; congruence.
  - unfold EnableMicrosoftOSDescriptorsV2, self. mrun.
    destruct ((code <? 0) || (code >? 255)) eqn:Hr; [done|].
    apply orb_false_iff in Hr as [?%Z.ltb_ge Hr]. rewrite Z.gtb_ltb, Z.ltb_ge in Hr.
    destruct (decide _) as [|Hv1]; [done|]. exfalso. apply Hne. split; [lia|congruence].
Qed.

(** What a driver of the gadget may do to it: registrations, connection changes
    and host requests, in any order. *)
Inductive gadget_op :=
  | OpAddString (index : Z) (value : text) (lang : Z)
  | OpEnableV1 (code : Z)
  | OpEnableV2 (code : Z)
  | OpCompatId (interface : Z) (id sub : bytes)
  | OpDeviceCapability (capability : loc)
  | OpConnected (speed : Z)
  | OpDisconnected
  | OpControlRead (request_type request value index length : Z)
  | OpControlWrite (request_type request value index : Z) (data : bytes)
  | OpSendPacket (endpoint : Z) (data : bytes)
  | OpHaltEndpoint (endpoint : Z).

(** An exception ends the operation, not the history. *)
Definition protect {A} (m : M (world C) A) : M (world C) unit :=
  λ w, (Ok (), snd (m w)).

Definition run_op (op : gadget_op) : M (world C) unit :=
  match op with
  | OpAddString i v l => protect (AddStringDescriptor i v l)
  | OpEnableV1 c => protect (EnableMicrosoftOSDescriptorsV1 c)
  | OpEnableV2 c => protect (EnableMicrosoftOSDescriptorsV2 c)
  | OpCompatId i id sub => protect (SetMicrosoftCompatId i id sub)
  | OpDeviceCapability c => protect (AddDeviceCapabilityDescriptor c)
  | OpConnected s => protect (Connected s)
  | OpDisconnected => protect Disconnected
  | OpControlRead rt q v i n => protect (ControlRead Gadget_methods rt q v i n)
  | OpControlWrite rt q v i d => protect (ControlWrite Gadget_methods rt q v i d)
  | OpSendPacket e d => protect (SendPacket e d)
  | OpHaltEndpoint e => protect (HaltEndpoint e)
  end.

Lemma protect_preserves {A} (I : world C → Prop) (m : M (world C) A) :
  preserves I m → preserves I (protect m).
Proof. done. Qed.

Lemma protect_keeps_ms20 {A} (m : M (world C) A) :
  respects keeps_ms20 m → preserves ms20_inv (protect m).
Proof.
  intros Hm. apply protect_preserves.
  by eapply (preserves_of_respects _ keeps_ms20), Hm; apply keeps_ms20_inv.
Qed.

Lemma run_op_inv op : preserves ms20_inv (run_op op).
Proof.
  destruct op; cbn [run_op].
  - apply protect_keeps_ms20. unfold AddStringDescriptor. solve_respects.
  - apply protect_keeps_ms20. unfold EnableMicrosoftOSDescriptorsV1. solve_respects.
  - apply protect_preserves, EnableMicrosoftOSDescriptorsV2_inv.
  - apply protect_keeps_ms20, SetMicrosoftCompatId_keeps_ms20.
  - apply protect_preserves, AddDeviceCapabilityDescriptor_inv.
  - apply protect_keeps_ms20. unfold Connected. solve_respects.
  - apply protect_keeps_ms20. unfold Disconnected. solve_respects.
  - apply protect_keeps_ms20. intros w.
    by rewrite <- (ControlRead_respects eq) by
      (intros; cbn; first [apply StandardControlRead_pure|apply VendorControlRead_pure
                          |apply respects_ret, _]).
  - apply protect_keeps_ms20. unfold ControlWrite, Gadget_methods. cbn.
    unfold StandardControlWrite, ClassControlWrite, VendorControlWrite. solve_respects.
  - apply protect_keeps_ms20. unfold SendPacket. solve_respects.
    apply respects_chip_only. eauto with respects.
  - apply protect_keeps_ms20. unfold HaltEndpoint. solve_respects.
Qed.

Lemma Encode_unique d1 d2 h l b1 b2 :
  Encode d1 h l = Ok b1 → Encode d2 h l = Ok b2 → b1 = b2.
Proof.
  intros H1 H2. enough (@Ok bytes b1 = Ok b2) by congruence.
  rewrite <- H1, <- H2. destruct (Nat.le_ge_cases d1 d2).
  - replace d2 with (d1 + (d2 - d1))%nat by lia. rewrite Encode_more_depth; [done|].
    unfold bounded. congruence.
  - replace d1 with (d2 + (d1 - d2))%nat by lia. rewrite Encode_more_depth; [done|].
    unfold bounded. congruence.
Qed.

Lemma encode_fields_getattr total set_size o b f :
  encode_fields total set_size o = Ok b → f ∈ c_fields (o_class o) →
  ∃ v, getattr total set_size o (f_name f) = Ok v.
Proof.
  unfold encode_fields. intros (vs & Hvs & _)%outcome_bind_Ok Hf.
  apply mapM_outcome_Ok in Hvs. apply list_elem_of_lookup in Hf as [i Hi].
  destruct (Forall2_lookup_l _ _ _ _ _ Hvs Hi) as (v & _ & Hv). by exists v.
Qed.

(** A capability of a BOS descriptor sits somewhere in its encoding. *)
Lemma bos_capability d h b ob p buf :
  h !! b = Some ob → o_class ob = BosDescriptor → p ∈ o_descriptors ob →
  Encode d h b = Ok buf →
  ∃ pre bp post, buf = pre ++ bp ++ post ∧ Encode (pred d) h p = Ok bp.
Proof.
  intros Ho Hc Hp. destruct d as [|d]; [done|]. rewrite Encode_S.
  unfold deref. rewrite Ho. cbn [of_option mbind outcome_bind]. rewrite Hc.
  cbn [is_container c_base BosDescriptor]. intros H'. inv_outcome.
  apply mapM_outcome_Ok in E0. apply list_elem_of_split in Hp as (l1 & l2 & Hl).
  rewrite Hl in E0. apply Forall2_app_inv_l in E0 as (k1 & k2 & _ & H2 & ->).
  apply Forall2_cons_inv_l in H2 as (bp & k2' & Hbp & _ & ->).
  exists (a ++ concat k1), bp, (concat k2'). split; [|done].
  by rewrite concat_app, <- app_assoc.
Qed.

Lemma platform_encoding d h p op s code bp sb d' rest :
  h !! p = Some op → o_class op = PlatformCapabilityDescriptor →
  o_descriptor_set op = Some s →
  o_attrs op !! "dwWindowsVersion" = Some (VInt 0x06030000) →
  o_attrs op !! "bMS_VendorCode" = Some (VInt code) →
  Encode d h p = Ok bp → Encode d' h s = Ok sb →
  struct_unpack_from "<BBBB16sIHB" (bp ++ rest) 0 =
    Ok [VInt 28; VInt UsbConstants.DescriptorType.DEVICE_CAPABILITY;
        VInt UsbConstants.CapabilityType.PLATFORM; VInt 0;
        VStr MS_OS_20_Platform_Capability_ID; VInt 0x06030000;
        VInt (py_len sb); VInt code].
Proof.
  intros Ho Hc Hs Hver Hcode Hbp Hsb. destruct d as [|d]; [done|].
  rewrite Encode_S in Hbp. unfold deref in Hbp. rewrite Ho in Hbp.
  cbn [of_option mbind outcome_bind] in Hbp. rewrite Hc in Hbp.
  cbn [is_container c_base PlatformCapabilityDescriptor] in Hbp. inv_outcome.
  unfold own_bytes in E. rewrite Hc, Hs in E.
  cbn [c_base PlatformCapabilityDescriptor pred] in E. inv_outcome.
  destruct (Encode d h s) as [sb'|e] eqn:Hsb'.
  - rewrite (Encode_unique _ _ _ _ _ _ Hsb Hsb').
    by eapply (platform_head _ _ op (py_len sb')) in E0.
  - exfalso. eapply (encode_fields_getattr _ _ _ _
      (mkField "wMSOSDescriptorSetTotalLength" "{}" "H" false
         (GetComputed "descriptor_set_size"))) in E0 as [v Hv]; [|rewrite Hc; set_solver].
    unfold getattr in Hv. rewrite Hc in Hv. cbn in Hv.
    unfold property in Hv. rewrite Hc in Hv. done.
Qed.

(** C18: Through any history of registrations, connection changes and host
    requests, once version 2 is enabled the BOS descriptor the host reads holds
    a platform capability with the vendor code and exactly the length of the
    descriptor set the version 2 request would return, whatever compatible IDs
    were added since. *)
Theorem bos_announces_descriptor_set d fs hs w0 ops code d1 d2 bos set buf table :
  let w := snd ((Gadget_init d fs hs ;; mfor ops run_op) w0) in
  g_ms_vendor_code_v2 (w_gadget w) = Some code →
  g_bos_descriptor (w_gadget w) = Some bos →
  g_ms_os20_descriptor_set (w_gadget w) = Some set →
  Encode d1 (w_heap w) bos = Ok buf → Encode d2 (w_heap w) set = Ok table →
  ∃ offset,
    struct_unpack_from "<BBBB16sIHB" buf offset =
      Ok [VInt 28; VInt UsbConstants.DescriptorType.DEVICE_CAPABILITY;
          VInt UsbConstants.CapabilityType.PLATFORM; VInt 0;
          VStr MS_OS_20_Platform_Capability_ID; VInt 0x06030000;
          VInt (py_len table); VInt code].
Proof.
  intros w Hv2 Hbos Hset Hbuf Htable.
  assert (ms20_inv w) as [_ Hl].
  { unfold w, mbind, M_bind. cbn [Gadget_init modify_self modify].
    apply preserves_mfor; [intros op _; apply run_op_inv|]. by split. }
  destruct (Hl code Hv2) as
    (b & s & p & ob & op & Hb & Hs & Hob & Hcb & Hp & Hop & Hc & Hsp & Hver & Hcode).
  assert (b = bos) as -> by congruence. assert (s = set) as -> by congruence.
  destruct (bos_capability _ _ _ _ _ _ Hob Hcb Hp Hbuf)
    as (pre & bp & post & -> & Hbp).
  exists (length pre). rewrite unpack_from_drop, drop_app_length.
  by eapply platform_encoding.
Qed.
End ms_os.

(** ** Witnesses *)

(** The test device with both versions enabled. *)
Definition ms_ops : list gadget_op :=
  [OpEnableV1 0x41; OpEnableV2 0x42; OpCompatId 0 (bytes_of "WINUSB") [];
   OpConnected UsbConstants.Speed.HIGH].

Definition ms_world : world call_log :=
  snd ((Gadget_init 0%nat 1%nat hs_config ;; mfor ms_ops run_op) test_world).

Definition ms_table : bytes :=
  Eval vm_compute in
    match fst (vendor_read 0x42 0 7 1000 ms_world) with Ok (Some b) => b | _ => [] end.

Definition ms_bos : bytes :=
  Eval vm_compute in
    match fst (GetBosDescriptor 1000 ms_world) with Ok (Some b) => b | _ => [] end.

Lemma compat_id_table_witness :
  ∃ table,
    vendor_read 0x41 0 0x0004 16 ms_world = (Ok (Some (py_prefix 16 table)), ms_world) ∧
    struct_unpack_from "<BB8s8s" table 16 =
      Ok [VInt 0; VInt 1; VStr (pack_str 8 (bytes_of "WINUSB")); VStr (pack_str 8 [])].
Proof.
  destruct (compat_id_table ms_world 0x41 0) as (table & H1 & _ & H2);
    [by vm_compute|by vm_compute|lia|].
  exists table. split; [apply H1; lia|]. apply (H2 0). lia.
Defined.

(** Version 2 alone. *)
Definition v2_world : world call_log := snd (EnableMicrosoftOSDescriptorsV2 0x42 test_world).

Definition v2_set : bytes :=
  Eval vm_compute in
    match fst (vendor_read 0x42 0 7 1000 v2_world) with Ok (Some b) => b | _ => [] end.

Lemma v1_code_shadows_v2_witness :
  ∃ w', EnableMicrosoftOSDescriptorsV1 0x42 v2_world = (Ok (), w') ∧
        g_ms_vendor_code_v2 (w_gadget w') = Some 0x42 ∧
        ∀ n, vendor_read 0x42 0 7 n w' = (Ok None, w').
Proof.
  refine (proj2 (v1_code_shadows_v2 v2_world 0x42 15%nat v2_set _ _ _ _ _));
    [by vm_compute|by vm_compute|lia|by vm_compute|by vm_compute].
Defined.

Lemma bos_announces_descriptor_set_witness :
  ∃ offset,
    struct_unpack_from "<BBBB16sIHB" ms_bos offset =
      Ok [VInt 28; VInt 16; VInt 5; VInt 0; VStr MS_OS_20_Platform_Capability_ID;
          VInt 0x06030000; VInt 46; VInt 0x42].
Proof.
  refine (bos_announces_descriptor_set 0%nat 1%nat hs_config test_world ms_ops 0x42
            20 20 18%nat 15%nat ms_bos ms_table _ _ _ _ _); by vm_compute.
Defined.
