(* ===== verification/GadgetEndpoints.v ===== *)
(** Endpoint configuration: what SET_CONFIGURATION and SET_INTERFACE do to the
    chip and to the gadget's two endpoint tables. *)

From S2P Require Import Prelude PyStruct UsbConstants HidConstants UsbDescriptors.
From S2P Require Import MsOs20Descriptors World Gadget TestDevice GadgetReads.
From S2P Require Import GadgetMsOs.

#[local] Open Scope Z_scope.

(** ** Chips that do what they are told *)

(** A chip whose calls always succeed and depend on nothing but its own state,
    for instance the recording one. *)
Class ChipTotal (C : Type) `{!Chip C} := {
  chip_step : chip_call → C → C;
  StartEndpoint_total d w : chip_StartEndpoint d w =
    (Ok (), set_chip (chip_step (StartCall d) (w_chip w)) w);
  StopEndpoint_total a w : chip_StopEndpoint a w =
    (Ok (), set_chip (chip_step (StopCall a) (w_chip w)) w);
  SendPacket_total a b w : chip_SendPacket a b w =
    (Ok (), set_chip (chip_step (SendCall a b) (w_chip w)) w);
  HaltEndpoint_total a w : chip_HaltEndpoint a w =
    (Ok (), set_chip (chip_step (HaltCall a) (w_chip w)) w)
}.

#[export] Instance recording_chip_total : ChipTotal call_log := {|
  chip_step c log := log ++ [c];
  StartEndpoint_total d w := eq_refl;
  StopEndpoint_total a w := eq_refl;
  SendPacket_total a b w := eq_refl;
  HaltEndpoint_total a w := eq_refl
|}.

#[export] Instance total_chip_laws {C} `{ChipTotal C} : ChipLaws C.
Proof.
  split; intros; intros w; rewrite ?StartEndpoint_total, ?StopEndpoint_total,
    ?SendPacket_total, ?HaltEndpoint_total; done.
Qed.

(** ** Reference definitions *)

(** What the descriptors say of a configuration: number, alternate setting and
    endpoint addresses of each interface descriptor. *)
Abbreviation setting := (Z * Z * list Z)%type.

Definition endpoint_addresses (h : heap) (es : list loc) : outcome (list Z) :=
  mapM (λ e, getattr_int h e "bEndpointAddress") es.

Definition setting_of `{!DictOrder} (h : heap) (i : loc) : outcome setting :=
  num ← getattr_int h i "bInterfaceNumber";
  alt ← getattr_int h i "bAlternateSetting";
  es ← GetEndpoints h i;
  addrs ← endpoint_addresses h es;
  Ok (num, alt, addrs).

(** The tables after one endpoint is started, after a list of them, and after
    the alternate settings 0 of a whole configuration are. *)
Definition activate (i a : Z) (g : Gadget) : Gadget :=
  set_endpoint_interface_map (<[a := i]> (g_endpoint_interface_map g))
    (set_active_endpoints
       (<[i := {[a]} ∪ active_of i g]> (g_active_endpoints g)) g).

Definition activate_all (i : Z) (addrs : list Z) (g : Gadget) : Gadget :=
  foldl (λ g a, activate i a g) g addrs.

Definition activate_setting (g : Gadget) (d : setting) : Gadget :=
  let '(num, alt, addrs) := d in
  if alt =? 0 then
    activate_all num addrs
      (set_active_endpoints (<[num := active_of num g]> (g_active_endpoints g)) g)
  else g.

Definition configure (ds : list setting) (g : Gadget) : Gadget :=
  foldl activate_setting g ds.

(** All sets emptied, the map cleared. *)
Definition deactivate (g : Gadget) : Gadget :=
  set_endpoint_interface_map ∅
    (set_active_endpoints ((λ _, ∅) <$> g_active_endpoints g) g).

(** A run that returns [r], leaves the gadget as [g] and has made [cs] on the
    chip, in this order; nothing else changes. *)
Definition runs {C} `{ChipTotal C} {A} (m : M (world C) A) (w : world C)
    (cs : list chip_call) (r : A) (g : Gadget) : Prop :=
  m w = (Ok r, set_chip (foldl (λ c x, chip_step x c) (w_chip w) cs)
                 (World.set_gadget g w)).

(** The calls a stop of all active endpoints makes. *)
Definition stop_calls `{!DictOrder} (g : Gadget) : list chip_call :=
  StopCall <$> concat ((λ '(i, _), set_items (active_of i g))
                         <$> dict_items (g_active_endpoints g)).

Section endpoints.
Context {C : Type} `{!Chip C} `{!ChipTotal C} `{!DictOrder}.
Implicit Types w : world C.

(** ** A calculus of runs *)

Lemma runs_ret {A} (r : A) w : runs (mret r) w [] r (w_gadget w).
Proof. by destruct w. Qed.

Lemma runs_bind {A B} (m : M (world C) A) (f : A → M (world C) B) w cs1 cs2 a b g1 g2 :
  runs m w cs1 a g1 →
  (∀ c, runs (f a) (set_chip c (World.set_gadget g1 w)) cs2 b g2) →
  runs (m ≫= f) w (cs1 ++ cs2) b g2.
Proof.
  unfold runs. intros Hm Hf. rewrite (M_bind_run _ _ _ _ _ Hm), Hf.
  rewrite foldl_app. done.
Qed.

Lemma runs_pure {A B} (o : outcome A) (f : A → M (world C) B) w cs a b g :
  o = Ok a → runs (f a) w cs b g → runs (lift o ≫= f) w cs b g.
Proof. intros -> Hf. exact Hf. Qed.

Lemma runs_stop a w :
  g_chip (w_gadget w) = true →
  runs (on_chip "StopEndpoint" (chip_StopEndpoint a)) w [StopCall a] () (w_gadget w).
Proof.
  intros Hc. unfold runs, on_chip, self. mrun. rewrite Hc, StopEndpoint_total.
  by destruct w.
Qed.

Lemma runs_start i e addr w :
  g_chip (w_gadget w) = true →
  getattr_int (w_heap w) e "bEndpointAddress" = Ok addr →
  runs (start_endpoint i e) w [StartCall e] () (activate i addr (w_gadget w)).
Proof.
  intros Hc Ha. unfold runs, start_endpoint, on_chip, self, set_active_of, modify_self.
  mrun. rewrite Hc, StartEndpoint_total. cbn [w_heap set_chip]. rewrite Ha.
  by destruct w.
Qed.

(** Starting endpoints keeps the link state. *)
Lemma activate_all_link i addrs g :
  g_chip (activate_all i addrs g) = g_chip g ∧ g_speed (activate_all i addrs g) = g_speed g.
Proof.
  unfold activate_all. revert g. induction addrs as [|a addrs IH]; intros g; [done|].
  cbn. destruct (IH (activate i a g)) as [-> ->]. done.
Qed.

Lemma runs_start_all i es addrs w :
  g_chip (w_gadget w) = true → endpoint_addresses (w_heap w) es = Ok addrs →
  runs (mfor es (start_endpoint i)) w (StartCall <$> es) ()
    (activate_all i addrs (w_gadget w)).
Proof.
  intros Hc Ha%mapM_outcome_Ok. revert w Hc Ha. revert addrs.
  induction es as [|e es IH]; intros addrs w Hc Ha; inversion_clear Ha.
  - apply runs_ret.
  - cbn [mfor]. change (StartCall <$> e :: es) with ([StartCall e] ++ (StartCall <$> es)).
    eapply runs_bind; [by apply runs_start|]. intros c.
    change (activate_all i (y :: l') (w_gadget w)) with
      (activate_all i l' (activate i y (w_gadget w))).
    by apply (IH l' (set_chip c (World.set_gadget (activate i y (w_gadget w)) w))).
Qed.

Lemma runs_stop_all addrs w :
  g_chip (w_gadget w) = true →
  runs (mfor addrs (λ a, on_chip "StopEndpoint" (chip_StopEndpoint a))) w
    (StopCall <$> addrs) () (w_gadget w).
Proof.
  revert w. induction addrs as [|a addrs IH]; intros w Hc; [apply runs_ret|].
  cbn [mfor]. change (StopCall <$> a :: addrs) with ([StopCall a] ++ (StopCall <$> addrs)).
  eapply runs_bind; [by apply runs_stop|]. intros c.
  by apply (IH (set_chip c (World.set_gadget (w_gadget w) w))).
Qed.

(** Nothing is left to stop, or the chip is there to stop it. *)
Definition can_stop (g : Gadget) : Prop :=
  g_chip g = true ∨ ∀ n, active_of n g = ∅.

Lemma set_items_empty : set_items (K:=Z) ∅ = [].
Proof. apply Permutation_nil_r. by rewrite set_items_perm, elements_empty. Qed.

Definition stop_body : Z * gset Z → M (world C) unit := λ '(interface, _),
  addrs ← self (active_of interface);
  mfor (set_items addrs) (λ endpoint_addr,
    on_chip "StopEndpoint" (chip_StopEndpoint endpoint_addr));;
  set_active_of interface ∅.

Definition empty_at (i : Z) (g : Gadget) : Gadget :=
  set_active_endpoints (<[i := ∅]> (g_active_endpoints g)) g.

Lemma runs_stop_body i (x : gset Z) w :
  can_stop (w_gadget w) →
  runs (stop_body (i, x)) w (StopCall <$> set_items (active_of i (w_gadget w))) ()
    (empty_at i (w_gadget w)).
Proof.
  intros Hc. rewrite <- (app_nil_l (StopCall <$> _)).
  unfold stop_body. eapply runs_bind; [by apply (runs_ret _ w)|]. intros c.
  rewrite <- (app_nil_r (StopCall <$> _)). apply (runs_bind _ _ _ _ _ () _ (w_gadget w)); [|done].
  destruct Hc as [Hc|Hempty].
  - by apply (runs_stop_all _ (set_chip c (World.set_gadget (w_gadget w) w))).
  - rewrite Hempty, set_items_empty. apply (runs_ret () (set_chip c (World.set_gadget (w_gadget w) w))).
Qed.

Lemma active_of_empty_at i n g :
  active_of n (empty_at i g) = if decide (n = i) then ∅ else active_of n g.
Proof.
  unfold active_of, empty_at. cbn. case_decide as Hn.
  - by rewrite Hn, lookup_insert_eq.
  - by rewrite lookup_insert_ne by congruence.
Qed.

Lemma runs_stop_loop (items : list (Z * gset Z)) w :
  can_stop (w_gadget w) → NoDup items.*1 →
  runs (mfor items stop_body) w
    (StopCall <$> concat ((λ '(i, _), set_items (active_of i (w_gadget w))) <$> items)) ()
    (foldl (λ g i, empty_at i g) (w_gadget w) items.*1).
Proof.
  revert w. induction items as [|[i x] items IH]; intros w Hc Hnd; [apply runs_ret|].
  apply NoDup_cons in Hnd as [Hi Hnd]. rewrite !fmap_cons. cbn [mfor concat foldl].
  rewrite fmap_app. eapply runs_bind; [by apply runs_stop_body|]. intros c.
  set (w1 := set_chip c (World.set_gadget (empty_at i (w_gadget w)) w)).
  replace ((λ '(i, _), set_items (active_of i (w_gadget w))) <$> items) with
    ((λ '(i, _), set_items (active_of i (w_gadget w1))) <$> items).
  - apply (IH w1); [|done]. destruct Hc as [Hc|He]; [by left|right]. intros n.
    cbn [w1 w_gadget set_chip World.set_gadget]. rewrite active_of_empty_at.
    case_decide; [done|apply He].
  - apply list_fmap_ext. intros k [j y] Hk. f_equal.
    change (active_of j (empty_at i (w_gadget w)) = active_of j (w_gadget w)).
    rewrite active_of_empty_at, decide_False; [done|]. intros ->. apply Hi.
    apply list_elem_of_fmap. exists (i, y). split; [done|]. by eapply list_elem_of_lookup_2.
Qed.

Lemma foldl_empty_at keys g :
  foldl (λ g i, empty_at i g) g keys =
    set_active_endpoints
      (foldl (λ m i, <[i := ∅]> m) (g_active_endpoints g) keys) g.
Proof.
  revert g. induction keys as [|i keys IH]; intros g; [by destruct g|].
  cbn [foldl]. rewrite IH. done.
Qed.

Lemma foldl_empty_lookup keys (m : gmap Z (gset Z)) n :
  foldl (λ m i, <[i := ∅]> m) m keys !! n = if decide (n ∈ keys) then Some ∅ else m !! n.
Proof.
  revert m. induction keys as [|i keys IH]; intros m; [done|]. cbn [foldl]. rewrite IH.
  destruct (decide (n = i)) as [->|Hne].
  - rewrite lookup_insert_eq. by repeat case_decide; set_solver.
  - rewrite lookup_insert_ne by done. repeat case_decide; set_solver.
Qed.

Lemma runs_deactivate w :
  can_stop (w_gadget w) →
  runs (active ← self g_active_endpoints;
        mfor (dict_items active) stop_body;;
        modify_self (set_endpoint_interface_map ∅)) w
    (stop_calls (w_gadget w)) () (deactivate (w_gadget w)).
Proof.
  intros Hc. rewrite <- (app_nil_l (stop_calls _)).
  eapply runs_bind; [by apply (runs_ret _ w)|]. intros c.
  rewrite <- (app_nil_r (stop_calls _)).
  eapply runs_bind; [apply (runs_stop_loop _ (set_chip c (World.set_gadget (w_gadget w) w)));
                     [done|apply NoDup_dict_keys]|].
  intros c'. cbn [w_gadget set_chip World.set_gadget]. rewrite foldl_empty_at.
  replace (foldl _ _ _) with ((λ _ : gset Z, (∅ : gset Z)) <$> g_active_endpoints (w_gadget w)).
  { done. }
  apply map_eq. intros n. rewrite foldl_empty_lookup, lookup_fmap.
  destruct (g_active_endpoints (w_gadget w) !! n) as [x|] eqn:Hn; cbn.
  - rewrite decide_True; [done|]. apply list_elem_of_fmap. exists (n, x).
    by rewrite elem_of_dict_items.
  - rewrite decide_False; [done|].
    intros ([n' x] & -> & Hx%elem_of_dict_items)%list_elem_of_fmap. cbn in Hn. congruence.
Qed.

(** ** SET_CONFIGURATION *)

Definition interface_body (interface_desc : loc) : M (world C) unit :=
  h ← gets w_heap;
  alt ← lift (getattr_int h interface_desc "bAlternateSetting");
  if negb (alt =? 0) then mret ()
  else
    num ← lift (getattr_int h interface_desc "bInterfaceNumber");
    addrs ← self (active_of num);
    set_active_of num addrs;;
    endpoints ← lift (GetEndpoints h interface_desc);
    mfor endpoints (start_endpoint num).

Lemma SetConfiguration_split index w :
  SetConfiguration index w =
    ((active ← self g_active_endpoints;
      mfor (dict_items active) stop_body;;
      modify_self (set_endpoint_interface_map ∅)) ;;
     if index =? 0 then mret (Some true)
     else if negb (index =? 1) then mret None
     else
       config_desc ← GetConfigurationDescriptor;
       h ← gets w_heap;
       interfaces ← lift (GetInterfaces h config_desc);
       mfor interfaces interface_body;;
       mret (Some true)) w.
Proof.
  rewrite M_bind_assoc.
  exact (eq_sym (M_bind_assoc
           (mfor (dict_items (g_active_endpoints (w_gadget w))) stop_body) _ _ w)).
Qed.

(** What the configuration phase starts of an interface descriptor. *)
Definition starts_of (h : heap) (i : loc) : outcome (list loc) :=
  alt ← getattr_int h i "bAlternateSetting";
  es ← GetEndpoints h i;
  Ok (if alt =? 0 then es else []).

Lemma runs_interface_body i d es w :
  g_chip (w_gadget w) = true →
  setting_of (w_heap w) i = Ok d → starts_of (w_heap w) i = Ok es →
  runs (interface_body i) w (StartCall <$> es) () (activate_setting (w_gadget w) d).
Proof.
  intros Hc Hd He. unfold setting_of in Hd.
  apply outcome_bind_Ok in Hd as (num & Hnum & Hd).
  apply outcome_bind_Ok in Hd as (alt & Halt & Hd).
  apply outcome_bind_Ok in Hd as (es' & Hes & Hd).
  apply outcome_bind_Ok in Hd as (addrs & Haddrs & [= <-]).
  unfold starts_of in He. rewrite Halt, Hes in He. injection He as <-.
  unfold runs, interface_body, self. mrun. rewrite Halt. cbn [activate_setting].
  destruct (alt =? 0); cbn [negb]; [|by destruct w].
  rewrite Hnum. unfold set_active_of, modify_self. mrun. rewrite Hes.
  apply (runs_start_all num es' addrs (World.set_gadget _ w)); done.
Qed.

Lemma activate_setting_chip g d : g_chip (activate_setting g d) = g_chip g.
Proof.
  destruct d as [[num alt] addrs]. cbn. destruct (alt =? 0); [|done].
  by rewrite (proj1 (activate_all_link _ _ _)).
Qed.

Lemma runs_interface_loop ifs ds starts w :
  g_chip (w_gadget w) = true →
  mapM (setting_of (w_heap w)) ifs = Ok ds →
  mapM (starts_of (w_heap w)) ifs = Ok starts →
  runs (mfor ifs interface_body) w (StartCall <$> concat starts) ()
    (configure ds (w_gadget w)).
Proof.
  rewrite !mapM_outcome_Ok. intros Hc Hds. revert w Hc Hds. revert ds starts.
  induction ifs as [|i ifs IH]; intros ds starts w Hc Hds Hss.
  - inversion_clear Hds. inversion_clear Hss. apply runs_ret.
  - apply Forall2_cons_inv_l in Hds as (d & ds' & Hd & Hds & ->).
    apply Forall2_cons_inv_l in Hss as (es & ss' & Hes & Hss & ->).
    cbn [mfor concat]. rewrite fmap_app. eapply runs_bind; [by apply runs_interface_body|].
    intros c. apply (IH ds' ss' (set_chip c (World.set_gadget _ w))); [|done..].
    cbn. by rewrite activate_setting_chip.
Qed.

Lemma GetConfigurationDescriptor_gadget w w' :
  g_speed (w_gadget w') = g_speed (w_gadget w) →
  g_fs_config_desc (w_gadget w') = g_fs_config_desc (w_gadget w) →
  g_hs_config_desc (w_gadget w') = g_hs_config_desc (w_gadget w) →
  fst (GetConfigurationDescriptor w') = fst (GetConfigurationDescriptor w).
Proof.
  intros Hs Hf Hh. unfold GetConfigurationDescriptor, GetSpeed, self. mrun. rewrite Hs.
  destruct (_ =? _); [by rewrite <- Hf|]. destruct (_ =? _); [by rewrite <- Hh|done].
Qed.

(** ** The tables *)

Lemma elem_of_activate a i a' n g :
  a ∈ active_of n (activate i a' g) ↔ a ∈ active_of n g ∨ (a = a' ∧ n = i).
Proof.
  unfold active_of at 1, activate. cbn. destruct (decide (n = i)) as [->|Hne].
  - rewrite lookup_insert_eq. cbn. fold (active_of i g). set_solver.
  - rewrite lookup_insert_ne by done. fold (active_of n g). set_solver.
Qed.

Lemma elem_of_activate_all a i addrs n g :
  a ∈ active_of n (activate_all i addrs g) ↔ a ∈ active_of n g ∨ (a ∈ addrs ∧ n = i).
Proof.
  unfold activate_all. revert g. induction addrs as [|a' addrs IH]; intros g; cbn [foldl].
  - set_solver.
  - rewrite IH, elem_of_activate. set_solver.
Qed.

Lemma map_activate_all a i addrs g :
  g_endpoint_interface_map (activate_all i addrs g) !! a =
    if decide (a ∈ addrs) then Some i else g_endpoint_interface_map g !! a.
Proof.
  unfold activate_all. revert g. induction addrs as [|a' addrs IH]; intros g; [done|].
  cbn [foldl]. rewrite IH. unfold activate. cbn. destruct (decide (a = a')) as [->|Hne].
  - rewrite lookup_insert_eq. repeat case_decide; set_solver.
  - rewrite lookup_insert_ne by done. repeat case_decide; set_solver.
Qed.

Lemma active_of_touch i n g :
  active_of n (set_active_endpoints (<[i := active_of i g]> (g_active_endpoints g)) g)
    = active_of n g.
Proof.
  unfold active_of at 1. cbn. destruct (decide (n = i)) as [->|].
  - by rewrite lookup_insert_eq.
  - by rewrite lookup_insert_ne.
Qed.

Lemma elem_of_configure a n ds g :
  a ∈ active_of n (configure ds g) ↔
    a ∈ active_of n g ∨ ∃ addrs, (n, 0, addrs) ∈ ds ∧ a ∈ addrs.
Proof.
  unfold configure. revert g. induction ds as [|[[num alt] addrs] ds IH]; intros g.
  { set_solver. }
  cbn [foldl]. rewrite IH. cbn [activate_setting].
  destruct (Z.eqb_spec alt 0) as [->|Hne].
  - rewrite elem_of_activate_all, active_of_touch. split.
    + intros [[?|[? ->]]|(l & ? & ?)]; [by left|right; exists addrs|right; exists l]; set_solver.
    + intros [?|(l & [[= -> ->]|?]%elem_of_cons & ?)]; [by left; left|left; by right|right; by exists l].
  - split.
    + intros [?|(l & ? & ?)]; [by left|right; exists l; set_solver].
    + intros [?|(l & [[= -> ? ->]|?]%elem_of_cons & ?)]; [by left|done|right; by exists l].
Qed.

(** The map and the sets agree: an address routed to an interface is active
    there. *)
Definition mapped_active (g : Gadget) : Prop :=
  ∀ a n, g_endpoint_interface_map g !! a = Some n → a ∈ active_of n g.

(** Every active endpoint is routed to some interface. *)
Definition active_mapped (g : Gadget) : Prop :=
  ∀ a n, a ∈ active_of n g → is_Some (g_endpoint_interface_map g !! a).

Lemma activate_all_mapped i addrs g :
  mapped_active g → mapped_active (activate_all i addrs g).
Proof.
  intros Hm a n. rewrite map_activate_all, elem_of_activate_all.
  case_decide; [intros [= <-]; by right|]. left. by apply Hm.
Qed.

Lemma activate_all_active_mapped i addrs g :
  active_mapped g → active_mapped (activate_all i addrs g).
Proof.
  intros Hm a n. rewrite map_activate_all, elem_of_activate_all.
  case_decide; [by eexists|]. intros [?|[? _]]; [by eapply Hm|done].
Qed.

Lemma configure_tables ds g :
  mapped_active g → active_mapped g →
  mapped_active (configure ds g) ∧ active_mapped (configure ds g).
Proof.
  unfold configure. revert g. induction ds as [|[[num alt] addrs] ds IH]; intros g H1 H2; [done|].
  cbn [foldl activate_setting]. destruct (alt =? 0); [|by apply IH]. apply IH.
  - apply activate_all_mapped. intros a n Ha. rewrite active_of_touch. by apply H1.
  - apply activate_all_active_mapped. intros a n. rewrite active_of_touch. by apply H2.
Qed.

Lemma active_of_deactivate n g : active_of n (deactivate g) = ∅.
Proof.
  unfold active_of, deactivate. cbn. rewrite lookup_fmap.
  by destruct (g_active_endpoints g !! n).
Qed.

(** Only the two endpoint tables differ. *)
Definition tables_only (g g' : Gadget) : Prop :=
  g' = set_active_endpoints (g_active_endpoints g')
         (set_endpoint_interface_map (g_endpoint_interface_map g') g).

#[local] Instance tables_only_preorder : PreOrder tables_only.
Proof.
  split; [by intros []|]. intros [] [] []. unfold tables_only. cbn.
  intros H1 H2. injection H1. injection H2. intros. by subst.
Qed.

Lemma tables_only_activate_all i addrs g : tables_only g (activate_all i addrs g).
Proof.
  unfold activate_all. revert g. induction addrs as [|a addrs IH]; intros g; [done|].
  cbn [foldl]. etrans; [|apply IH]. done.
Qed.

Lemma tables_only_configure ds g : tables_only g (configure ds g).
Proof.
  unfold configure. revert g. induction ds as [|[[num alt] addrs] ds IH]; intros g; [done|].
  cbn [foldl activate_setting]. etrans; [|apply IH]. destruct (alt =? 0); [|done].
  etrans; [|apply tables_only_activate_all]. by destruct g.
Qed.

Lemma tables_only_deactivate g : tables_only g (deactivate g).
Proof. done. Qed.

Lemma tables_only_selected ds g : tables_only g (configure ds (deactivate g)).
Proof. etrans; [apply tables_only_deactivate|apply tables_only_configure]. Qed.

(** The layout of the current configuration: its settings, and the endpoint
    descriptors each contributes when the configuration is selected. *)
Definition layout w : outcome (list setting * list (list loc)) :=
  cd ← fst (GetConfigurationDescriptor w);
  ifs ← GetInterfaces (w_heap w) cd;
  ds ← mapM (setting_of (w_heap w)) ifs;
  ss ← mapM (starts_of (w_heap w)) ifs;
  Ok (ds, ss).

Lemma runs_SetConfiguration_1 w ds ss :
  g_chip (w_gadget w) = true → layout w = Ok (ds, ss) →
  runs (SetConfiguration 1) w
    (stop_calls (w_gadget w) ++ (StartCall <$> concat ss)) (Some true)
    (configure ds (deactivate (w_gadget w))).
Proof.
  intros Hc Hl. unfold layout in Hl.
  apply outcome_bind_Ok in Hl as (cd & Hcd & Hl).
  apply outcome_bind_Ok in Hl as (ifs & Hifs & Hl).
  apply outcome_bind_Ok in Hl as (ds' & Hds & Hl).
  apply outcome_bind_Ok in Hl as (ss' & Hss & [= -> ->]).
  unfold runs. rewrite SetConfiguration_split.
  eapply runs_bind; [apply runs_deactivate; by left|]. intros c.
  set (w1 := set_chip c (World.set_gadget (deactivate (w_gadget w)) w)).
  change (1 =? 0) with false. change (negb (1 =? 1)) with false. cbv iota.
  rewrite <- (app_nil_l (StartCall <$> _)). eapply (runs_bind _ _ w1 _ _ cd _ (w_gadget w1)).
  { unfold runs. pose proof (GetConfigurationDescriptor_pure w1) as Hp.
    pose proof (GetConfigurationDescriptor_gadget w w1 eq_refl eq_refl eq_refl) as Hg.
    destruct (GetConfigurationDescriptor w1) as [o w2]. cbn in Hp, Hg. subst w2.
    rewrite Hg, Hcd. by destruct w1. }
  intros c2. rewrite <- (app_nil_l (StartCall <$> _)).
  eapply runs_bind; [by apply (runs_ret (w_heap w))|]. intros c3.
  eapply runs_pure; [done|]. rewrite <- (app_nil_r (StartCall <$> _)).
  eapply runs_bind.
  { apply (runs_interface_loop ifs ds ss
      (set_chip c3 (World.set_gadget (deactivate (w_gadget w)) w))); done. }
  intros c4. apply (runs_ret (Some true)
    (set_chip c4 (World.set_gadget (configure ds (deactivate (w_gadget w))) w))).
Qed.

(** SET_CONFIGURATION(1) on a connected gadget stops every active endpoint
    and then starts exactly the endpoints of the alternate settings 0 of the
    current configuration; afterwards an address is active on an interface
    exactly when that setting lists it, the endpoint map agrees with the sets,
    and nothing else of the gadget changed. *)
Theorem SetConfiguration_selects w ds ss :
  g_chip (w_gadget w) = true → layout w = Ok (ds, ss) →
  ∃ g, runs (SetConfiguration 1) w
         (stop_calls (w_gadget w) ++ (StartCall <$> concat ss)) (Some true) g ∧
    (∀ a n, a ∈ active_of n g ↔ ∃ addrs, (n, 0, addrs) ∈ ds ∧ a ∈ addrs) ∧
    mapped_active g ∧ active_mapped g ∧
    tables_only (w_gadget w) g.
Proof.
  intros Hc Hl. exists (configure ds (deactivate (w_gadget w))).
  split; [by apply runs_SetConfiguration_1|]. split.
  { intros a n. rewrite elem_of_configure, active_of_deactivate. set_solver. }
  destruct (configure_tables ds (deactivate (w_gadget w))) as [H1 H2].
  { by intros a n. }
  { intros a n. by rewrite active_of_deactivate. }
  split; [done|]. split; [done|].
  etrans; [apply tables_only_deactivate|apply tables_only_configure].
Qed.

(** Any other SET_CONFIGURATION stops every active endpoint and clears both
    tables; 0 succeeds (it is the address state), every other index stalls. *)
Theorem SetConfiguration_deselects w index :
  can_stop (w_gadget w) → index ≠ 1 →
  ∃ g, runs (SetConfiguration index) w (stop_calls (w_gadget w))
         (if index =? 0 then Some true else None) g ∧
    (∀ n, active_of n g = ∅) ∧ g_endpoint_interface_map g = ∅ ∧
    tables_only (w_gadget w) g ∧
    ∀ a, StopCall a ∈ stop_calls (w_gadget w) ↔ ∃ n, a ∈ active_of n (w_gadget w).
Proof.
  intros Hc Hi. exists (deactivate (w_gadget w)). split; [|split; [|split; [|split]]].
  - unfold runs. rewrite SetConfiguration_split, <- (app_nil_r (stop_calls _)).
    eapply runs_bind; [by apply runs_deactivate|]. intros c.
    rewrite (proj2 (Z.eqb_neq index 1)) by done. by destruct (index =? 0).
  - intros n. apply active_of_deactivate.
  - done.
  - apply tables_only_deactivate.
  - intros a. unfold stop_calls. rewrite list_elem_of_fmap. split.
    + intros (a' & [= <-] & (l & Ha & ([n x] & -> & Hn)%list_elem_of_fmap)%elem_of_concat).
      exists n. by apply elem_of_set_items.
    + intros [n Hn]. exists a. split; [done|]. apply elem_of_concat.
      exists (set_items (active_of n (w_gadget w))). split; [by apply elem_of_set_items|].
      apply list_elem_of_fmap.
      destruct (g_active_endpoints (w_gadget w) !! n) as [x|] eqn:Hx.
      * exists (n, x). by rewrite elem_of_dict_items.
      * unfold active_of in Hn. rewrite Hx in Hn. set_solver.
Qed.

(** ** SET_INTERFACE *)

(** The endpoints of the setting a SET_INTERFACE selects. *)
Definition setting_endpoints w (n alt : Z) : outcome (option (list loc * list Z)) :=
  cd ← fst (GetConfigurationDescriptor w);
  options ← GetInterfaces (w_heap w) cd;
  found ← find_interface (w_heap w) n alt options None;
  match found with
  | None => Ok None
  | Some i =>
      es ← GetEndpoints (w_heap w) i;
      addrs ← endpoint_addresses (w_heap w) es;
      Ok (Some (es, addrs))
  end.

Definition release_body (endpoint_addr : Z) : M (world C) unit :=
  on_chip "StopEndpoint" (chip_StopEndpoint endpoint_addr);;
  map ← self g_endpoint_interface_map;
  match map !! endpoint_addr with
  | None => raise KeyError
  | Some _ => modify_self (set_endpoint_interface_map (delete endpoint_addr map))
  end.

Lemma release_body_run a w :
  g_chip (w_gadget w) = true →
  release_body a w =
    let w1 := set_chip (chip_step (StopCall a) (w_chip w)) w in
    let map := g_endpoint_interface_map (w_gadget w) in
    match map !! a with
    | None => (Raise KeyError, w1)
    | Some _ =>
        (Ok (), World.set_gadget (set_endpoint_interface_map (delete a map) (w_gadget w)) w1)
    end.
Proof.
  intros Hc. unfold release_body, on_chip, self, modify_self. mrun.
  rewrite Hc, StopEndpoint_total. cbn [w_gadget set_chip].
  by destruct (g_endpoint_interface_map (w_gadget w) !! a).
Qed.

Definition release_all (addrs : list Z) (g : Gadget) : Gadget :=
  set_endpoint_interface_map
    (foldl (λ m a, delete a m) (g_endpoint_interface_map g) addrs) g.

Lemma runs_release_loop addrs w :
  g_chip (w_gadget w) = true → NoDup addrs →
  (∀ a, a ∈ addrs → is_Some (g_endpoint_interface_map (w_gadget w) !! a)) →
  runs (mfor addrs release_body) w (StopCall <$> addrs) ()
    (release_all addrs (w_gadget w)).
Proof.
  revert w. induction addrs as [|a addrs IH]; intros w Hc Hnd Hm.
  { unfold runs, release_all. cbn. by destruct w as [? [] ? ? ? ?]. }
  apply NoDup_cons in Hnd as [Ha Hnd].
  destruct (Hm a) as [n Hn]; [set_solver|]. cbn [mfor].
  change (StopCall <$> a :: addrs) with ([StopCall a] ++ (StopCall <$> addrs)).
  eapply (runs_bind _ _ w [StopCall a] _ () _ (release_all [a] (w_gadget w))).
  { unfold runs. rewrite release_body_run by done. cbv zeta. by rewrite Hn. }
  intros c. apply (IH (set_chip c (World.set_gadget (release_all [a] (w_gadget w)) w)));
    [done..|]. intros b Hb. cbn. rewrite lookup_delete_ne by set_solver.
  apply Hm. set_solver.
Qed.

(** An active endpoint missing from the map aborts the loop. *)
Lemma release_loop_raises addrs a w :
  g_chip (w_gadget w) = true → a ∈ addrs →
  g_endpoint_interface_map (w_gadget w) !! a = None →
  fst (mfor addrs release_body w) = Raise KeyError.
Proof.
  revert w. induction addrs as [|b addrs IH]; intros w Hc Ha Hm; [set_solver|].
  cbn [mfor]. unfold mbind, M_bind. rewrite release_body_run by done. cbv zeta.
  destruct (g_endpoint_interface_map (w_gadget w) !! b) as [n|] eqn:Hb; [|done].
  apply IH; [done|set_solver|]. cbn.
  destruct (decide (a = b)) as [->|]; [apply lookup_delete_eq|by rewrite lookup_delete_ne].
Qed.

Lemma foldl_delete_lookup (addrs : list Z) (m : gmap Z Z) a :
  foldl (λ m a, delete a m) m addrs !! a = if decide (a ∈ addrs) then None else m !! a.
Proof.
  revert m. induction addrs as [|b addrs IH]; intros m; [done|]. cbn [foldl]. rewrite IH.
  destruct (decide (a = b)) as [->|].
  - rewrite lookup_delete_eq. repeat case_decide; set_solver.
  - rewrite lookup_delete_ne by done. repeat case_decide; set_solver.
Qed.

(** The set [endpoint_addrs] after [setdefault]. *)
Definition touch (n : Z) (g : Gadget) : Gadget :=
  set_active_endpoints (<[n := active_of n g]> (g_active_endpoints g)) g.

Lemma SetInterface_found w n alt es addrs :
  setting_endpoints w n alt = Ok (Some (es, addrs)) →
  endpoint_addresses (w_heap w) es = Ok addrs ∧
  SetInterface n alt w =
    (mfor (set_items (active_of n (w_gadget w))) release_body;;
     mfor es (start_endpoint n);; mret (Some true))
      (World.set_gadget (touch n (w_gadget w)) w).
Proof.
  unfold setting_endpoints. intros Hs.
  apply outcome_bind_Ok in Hs as (cd & Hcd & Hs).
  apply outcome_bind_Ok in Hs as (opts & Hopts & Hs).
  apply outcome_bind_Ok in Hs as ([i|] & Hi & Hs); [|done].
  apply outcome_bind_Ok in Hs as (es' & Hes & Hs).
  apply outcome_bind_Ok in Hs as (addrs' & Haddrs & [= -> ->]).
  split; [done|]. unfold SetInterface, self, set_active_of, modify_self.
  pose proof (GetConfigurationDescriptor_pure w) as Hp.
  unfold mbind at 1, M_bind at 1.
  destruct (GetConfigurationDescriptor w) as [o w1]. cbn in Hp, Hcd. subst w1 o.
  unfold mbind at 1, M_bind at 1, gets at 1. cbn [fst].
  unfold mbind at 1, M_bind at 1, lift at 1. rewrite Hopts.
  unfold mbind at 1, M_bind at 1, lift at 1. rewrite Hi.
  unfold mbind at 1, M_bind at 1, gets at 1.
  unfold mbind at 1, M_bind at 1, modify at 1.
  cbn [w_gadget World.set_gadget]. fold (touch n (w_gadget w)).
  set (w1 := World.set_gadget _ w).
  change (mfor (set_items (active_of n (w_gadget w))) _) with
    (mfor (set_items (active_of n (w_gadget w))) release_body).
  unfold mbind at 1 4, M_bind at 1 4.
  destruct (mfor _ release_body w1) as [[[]|e] w2]; [|done].
  unfold mbind at 1, M_bind at 1, lift at 1. by rewrite Hes.
Qed.

(** The tables after a switch: the old endpoints leave the map but stay in the
    set, the new ones enter both. *)
Definition switch (n : Z) `{!DictOrder} (addrs : list Z) (g : Gadget) : Gadget :=
  activate_all n addrs (release_all (set_items (active_of n g)) (touch n g)).

Lemma active_of_switch a n addrs g :
  a ∈ active_of n (switch n addrs g) ↔ a ∈ active_of n g ∨ a ∈ addrs.
Proof.
  unfold switch. rewrite elem_of_activate_all.
  change (active_of n (release_all _ (touch n g))) with (active_of n (touch n g)).
  unfold touch. rewrite active_of_touch. tauto.
Qed.

Lemma map_switch a n addrs g :
  g_endpoint_interface_map (switch n addrs g) !! a =
    if decide (a ∈ addrs) then Some n
    else if decide (a ∈ active_of n g) then None
    else g_endpoint_interface_map g !! a.
Proof.
  unfold switch. rewrite map_activate_all. case_decide; [done|].
  unfold release_all. cbn. rewrite foldl_delete_lookup.
  repeat case_decide; rewrite ?elem_of_set_items in *; done.
Qed.

Lemma runs_SetInterface w n alt es addrs :
  g_chip (w_gadget w) = true →
  setting_endpoints w n alt = Ok (Some (es, addrs)) →
  (∀ a, a ∈ active_of n (w_gadget w) →
     is_Some (g_endpoint_interface_map (w_gadget w) !! a)) →
  runs (SetInterface n alt) w
    ((StopCall <$> set_items (active_of n (w_gadget w))) ++ (StartCall <$> es))
    (Some true) (switch n addrs (w_gadget w)).
Proof.
  intros Hc Hs Hm. destruct (SetInterface_found _ _ _ _ _ Hs) as [Haddrs Hrun].
  unfold runs. rewrite Hrun. set (w1 := World.set_gadget _ w).
  assert (runs (mfor (set_items (active_of n (w_gadget w))) release_body;;
     mfor es (start_endpoint n);; mret (Some true)) w1
     ((StopCall <$> set_items (active_of n (w_gadget w))) ++ (StartCall <$> es))
    (Some true) (switch n addrs (w_gadget w))) as Hw1; [|exact Hw1].
  eapply runs_bind.
  { apply runs_release_loop; [done|apply NoDup_set_items|].
    intros a Ha%elem_of_set_items. by apply Hm. }
  intros c. rewrite <- (app_nil_r (StartCall <$> _)).
  apply (runs_bind _ _ _ _ _ () _ (switch n addrs (w_gadget w))); [|done].
  by apply (runs_start_all n es addrs (set_chip c (World.set_gadget
    (release_all (set_items (active_of n (w_gadget w))) (w_gadget w1)) w1))).
Qed.

(** An active endpoint without an entry in the map makes the request fail. *)
Lemma SetInterface_stuck w n alt a x :
  g_chip (w_gadget w) = true → setting_endpoints w n alt = Ok (Some x) →
  a ∈ active_of n (w_gadget w) → g_endpoint_interface_map (w_gadget w) !! a = None →
  fst (SetInterface n alt w) = Raise KeyError.
Proof.
  destruct x as [es addrs]. intros Hc Hs Ha Hm.
  destruct (SetInterface_found _ _ _ _ _ Hs) as [_ Hrun]. rewrite Hrun.
  unfold mbind, M_bind. set (w1 := World.set_gadget _ w).
  enough (fst (mfor (set_items (active_of n (w_gadget w))) release_body w1)
            = Raise KeyError) as He.
  { by destruct (mfor _ release_body w1) as [[]]; cbn in He; [|injection He as ->]. }
  eapply (release_loop_raises _ a); [exact Hc|by apply elem_of_set_items|exact Hm].
Qed.

Lemma tables_only_switch n addrs g : tables_only g (switch n addrs g).
Proof.
  unfold switch. etrans; [|apply tables_only_activate_all]. by destruct g.
Qed.

(** SET_INTERFACE stops the interface's active endpoints, starts those of
    the selected setting and routes them to the interface; but the set of active
    endpoints is never cleared, so an endpoint the new setting lacks stays in it
    without an entry in the map, and every later SET_INTERFACE on the interface
    aborts with KeyError. *)
Theorem SetInterface_strands w n alt es addrs :
  g_chip (w_gadget w) = true →
  setting_endpoints w n alt = Ok (Some (es, addrs)) →
  (∀ a, a ∈ active_of n (w_gadget w) →
     is_Some (g_endpoint_interface_map (w_gadget w) !! a)) →
  ∃ g, runs (SetInterface n alt) w
         ((StopCall <$> set_items (active_of n (w_gadget w))) ++ (StartCall <$> es))
         (Some true) g ∧
    (∀ a, a ∈ active_of n g ↔ a ∈ active_of n (w_gadget w) ∨ a ∈ addrs) ∧
    (∀ a, g_endpoint_interface_map g !! a =
       if decide (a ∈ addrs) then Some n
       else if decide (a ∈ active_of n (w_gadget w)) then None
       else g_endpoint_interface_map (w_gadget w) !! a) ∧
    ∀ a alt' x, a ∈ active_of n (w_gadget w) → a ∉ addrs →
      setting_endpoints (snd (SetInterface n alt w)) n alt' = Ok (Some x) →
      fst (SetInterface n alt' (snd (SetInterface n alt w))) = Raise KeyError.
Proof.
  intros Hc Hs Hm. exists (switch n addrs (w_gadget w)).
  pose proof (runs_SetInterface _ _ _ _ _ Hc Hs Hm) as Hrun.
  split; [done|]. split; [intros a; apply active_of_switch|].
  split; [intros a; apply map_switch|]. intros a alt' [es' addrs'] Ha Hna.
  unfold runs in Hrun. rewrite Hrun. cbn [snd]. set (w1 := set_chip _ _). intros Hs'. eapply (SetInterface_stuck w1 n alt' a).
  - cbn. unfold switch. by rewrite (proj1 (activate_all_link _ _ _)).
  - exact Hs'.
  - apply active_of_switch. by left.
  - change (g_endpoint_interface_map (switch n addrs (w_gadget w)) !! a = None).
    by rewrite map_switch, decide_False, decide_True.
Qed.

End endpoints.

(** ** Histories *)

(** From here on any controller: its calls may raise. *)
Section histories.
Context {C : Type} `{!Chip C} `{!ChipLaws C} `{!DictOrder}.
Implicit Types w : world C.

(** Connected, and the map inside the sets. *)
Definition live w : Prop :=
  g_chip (w_gadget w) = true ∧ mapped_active (w_gadget w).

(** A disconnected gadget: no speed, no endpoint, no route. *)
Definition quiet w : Prop :=
  g_speed (w_gadget w) = UsbConstants.Speed.UNKNOWN ∧
  (∀ n, active_of n (w_gadget w) = ∅) ∧ g_endpoint_interface_map (w_gadget w) = ∅.

(** The invariant; the map is inside the sets while [intact]. *)
Definition tables_ok (intact : bool) w : Prop :=
  (intact = true → mapped_active (w_gadget w)) ∧
  (g_chip (w_gadget w) = false → quiet w).

(** Steps that touch neither the tables nor the link. *)
Definition keeps_tables w w' : Prop :=
  g_active_endpoints (w_gadget w') = g_active_endpoints (w_gadget w) ∧
  g_endpoint_interface_map (w_gadget w') = g_endpoint_interface_map (w_gadget w) ∧
  g_chip (w_gadget w') = g_chip (w_gadget w) ∧
  g_speed (w_gadget w') = g_speed (w_gadget w).

#[local] Instance keeps_tables_preorder : PreOrder keeps_tables.
Proof.
  split; [by intros w|]. intros w1 w2 w3 (? & ? & ? & ?) (? & ? & ? & ?).
  repeat split; congruence.
Qed.

Lemma keeps_tables_ok b w w' : keeps_tables w w' → tables_ok b w → tables_ok b w'.
Proof.
  unfold tables_ok, quiet, mapped_active, active_of. by intros (-> & -> & -> & ->).
Qed.

Lemma keeps_tables_live w w' : keeps_tables w w' → live w → live w'.
Proof.
  unfold live, mapped_active, active_of. by intros (-> & -> & -> & _).
Qed.

Lemma chip_only_keeps_tables {A} (m : M (world C) A) :
  respects chip_only m → respects keeps_tables m.
Proof. intros Hm w. specialize (Hm w). rewrite <- Hm. by repeat split. Qed.

Lemma modify_self_keeps_tables f :
  (∀ g, g_active_endpoints (f g) = g_active_endpoints g ∧
        g_endpoint_interface_map (f g) = g_endpoint_interface_map g ∧
        g_chip (f g) = g_chip g ∧ g_speed (f g) = g_speed g) →
  respects keeps_tables (modify_self (C:=C) f).
Proof. intros Hf w. by destruct (Hf (w_gadget w)) as (? & ? & ? & ?). Qed.

Lemma in_heap_keeps_tables {A} (m : M heap A) : respects keeps_tables (in_heap (C:=C) m).
Proof. intros w. unfold in_heap, zoom. by destruct (m (w_heap w)). Qed.

Lemma pure_keeps_tables {A} (m : M (world C) A) :
  respects eq m → respects keeps_tables m.
Proof. intros Hm w. by rewrite <- Hm. Qed.

Hint Extern 1 (respects keeps_tables (modify_self _)) =>
  apply modify_self_keeps_tables; by repeat split : respects.
Hint Resolve in_heap_keeps_tables : respects.

Lemma protect_keeps_tables {A} b (m : M (world C) A) :
  respects keeps_tables m → preserves (tables_ok b) (protect m).
Proof.
  intros Hm. apply protect_preserves.
  eapply (preserves_of_respects _ keeps_tables), Hm. apply keeps_tables_ok.
Qed.

Lemma live_tables_ok b w : live w → tables_ok b w.
Proof. intros [Hc Hm]. split; [done|]. congruence. Qed.

Lemma quiet_tables_ok b w : quiet w → tables_ok b w.
Proof. intros Hq. split; [|done]. intros _ a n. by rewrite (proj2 (proj2 Hq)). Qed.

Lemma connected_tables_ok w : g_chip (w_gadget w) = true → tables_ok false w.
Proof. intros Hc. split; congruence. Qed.

Lemma live_modify_self f :
  (∀ g, g_chip (f g) = g_chip g) →
  (∀ g, mapped_active g → mapped_active (f g)) →
  preserves live (modify_self (C:=C) f).
Proof. intros Hc Hm w [H1 H2]. split; cbn; [by rewrite Hc|by apply Hm]. Qed.

Lemma live_on_chip name m : respects chip_only m → preserves live (on_chip (C:=C) name m).
Proof.
  intros Hm. apply (preserves_of_respects _ keeps_tables); [by apply keeps_tables_live|].
  apply chip_only_keeps_tables. unfold on_chip. solve_respects.
Qed.

Lemma live_start_endpoint i e : preserves live (start_endpoint (C:=C) i e).
Proof.
  unfold start_endpoint. apply preserves_bind; [|intros _].
  { apply live_on_chip, StartEndpoint_chip_only. }
  do 2 (apply preserves_bind; [eauto with preserves|intros ?]).
  intros w [Hc Hm]. unfold self, set_active_of, modify_self. mrun.
  split; [done|]. cbn. by apply (activate_all_mapped i [a0]).
Qed.

Lemma live_touch i : preserves live (addrs ← self (active_of i); set_active_of (C:=C) i addrs).
Proof.
  intros w [Hc Hm]. split; [done|]. intros a n Ha.
  change (a ∈ active_of n (touch i (w_gadget w))). unfold touch. rewrite active_of_touch. by apply Hm.
Qed.

Lemma live_GetConfigurationDescriptor : preserves live (GetConfigurationDescriptor (C:=C)).
Proof. intros w Hw. by rewrite <- GetConfigurationDescriptor_pure. Qed.

Hint Resolve live_start_endpoint live_GetConfigurationDescriptor : preserves.

Lemma live_interface_body i : preserves live (interface_body i).
Proof.
  unfold interface_body. do 2 (apply preserves_bind; [eauto with preserves|intros ?]).
  destruct (negb _); [apply preserves_ret|].
  apply preserves_bind; [eauto with preserves|intros num].
  intros w Hw. rewrite <- M_bind_assoc.
  revert w Hw. apply preserves_bind; [apply live_touch|intros _].
  solve_preserves.
Qed.

Lemma live_release_body a : preserves live (release_body a).
Proof.
  unfold release_body. apply preserves_bind; [|intros _].
  { apply live_on_chip, StopEndpoint_chip_only. }
  intros w [Hc Hm]. unfold self, modify_self. mrun. destruct (_ !! a); [|done].
  split; [done|]. intros b n. cbn. rewrite lookup_delete_Some. intros [_ Hb]. by apply Hm.
Qed.

Lemma live_setdefault {A} i (rest : gset Z → M (world C) A) :
  (∀ addrs, preserves live (rest addrs)) →
  preserves live (addrs ← self (active_of i); set_active_of i addrs;; rest addrs).
Proof.
  intros Hr w Hw. apply (Hr (active_of i (w_gadget w)) (World.set_gadget (touch i (w_gadget w)) w)).
  exact (live_touch i w Hw).
Qed.

(** *** SET_CONFIGURATION *)

Definition stop_phase : M (world C) unit :=
  active ← self g_active_endpoints;
  mfor (dict_items active) stop_body;;
  modify_self (set_endpoint_interface_map ∅).

Definition keeps_chip w w' : Prop := g_chip (w_gadget w') = g_chip (w_gadget w).

#[local] Instance keeps_chip_preorder : PreOrder keeps_chip.
Proof. split; [done|]. intros w1 w2 w3 H1 H2. unfold keeps_chip. congruence. Qed.

Lemma keeps_tables_chip {A} (m : M (world C) A) :
  respects keeps_tables m → respects keeps_chip m.
Proof. intros Hm w. by destruct (Hm w) as (_ & _ & ? & _). Qed.

Lemma set_active_of_keeps_chip i x : respects keeps_chip (set_active_of (C:=C) i x).
Proof. by intros w. Qed.

Lemma on_chip_keeps_chip name m :
  respects chip_only m → respects keeps_chip (on_chip (C:=C) name m).
Proof.
  intros Hm. apply keeps_tables_chip, chip_only_keeps_tables. unfold on_chip. solve_respects.
Qed.

Lemma StartEndpoint_keeps_chip d :
  respects keeps_chip (on_chip (C:=C) "StartEndpoint" (chip_StartEndpoint d)).
Proof. apply on_chip_keeps_chip, StartEndpoint_chip_only. Qed.

Lemma StopEndpoint_keeps_chip a :
  respects keeps_chip (on_chip (C:=C) "StopEndpoint" (chip_StopEndpoint a)).
Proof. apply on_chip_keeps_chip, StopEndpoint_chip_only. Qed.

Lemma set_map_keeps_chip m :
  respects keeps_chip (modify_self (C:=C) (set_endpoint_interface_map m)).
Proof. by intros w. Qed.

Lemma GetConfigurationDescriptor_keeps_chip :
  respects keeps_chip (GetConfigurationDescriptor (C:=C)).
Proof. intros w. by rewrite <- GetConfigurationDescriptor_pure. Qed.

Hint Resolve set_active_of_keeps_chip StartEndpoint_keeps_chip StopEndpoint_keeps_chip
  set_map_keeps_chip GetConfigurationDescriptor_keeps_chip : respects.

Lemma start_endpoint_keeps_chip i e : respects keeps_chip (start_endpoint (C:=C) i e).
Proof.
  unfold start_endpoint. solve_respects. by intros w.
Qed.
Hint Resolve start_endpoint_keeps_chip : respects.

Lemma stop_phase_keeps_chip : respects keeps_chip stop_phase.
Proof.
  unfold stop_phase. apply respects_bind; [apply _|solve_respects|intros active].
  apply respects_bind; [apply _| |intros _; solve_respects].
  apply respects_mfor; [apply _|]. intros [i x] _. unfold stop_body. solve_respects.
Qed.

Lemma stop_phase_Ok w w' :
  stop_phase w = (Ok (), w') → g_endpoint_interface_map (w_gadget w') = ∅.
Proof.
  unfold stop_phase. intros (active & w1 & _ & Hw)%M_bind_Ok.
  apply M_bind_Ok in Hw as (u & w2 & _ & [= <-]). done.
Qed.

(** With no endpoint active there is nothing to stop. *)
Lemma stop_phase_quiet w : quiet w → ∃ w', stop_phase w = (Ok (), w') ∧ quiet w'.
Proof.
  intros Hq. change (stop_phase w) with
    ((mfor (dict_items (g_active_endpoints (w_gadget w))) stop_body;;
      modify_self (set_endpoint_interface_map ∅)) w).
  enough (∀ items w, quiet w → ∃ w', mfor items stop_body w = (Ok (), w') ∧ quiet w')
    as Hloop.
  { destruct (Hloop (dict_items (g_active_endpoints (w_gadget w))) w Hq) as (w1 & Hrun & H1).
    rewrite (M_bind_run _ _ _ _ _ Hrun). eexists. split; [done|]. by destruct H1 as (? & ? & _). }
  clear w Hq. induction items as [|[i x] items IH]; intros w Hq; [by exists w|].
  cbn [mfor]. assert (stop_body (i, x) w = (Ok (), World.set_gadget (empty_at i (w_gadget w)) w))
    as Hbody.
  { unfold stop_body, self. mrun. rewrite (proj1 (proj2 Hq)), set_items_empty. done. }
  rewrite (M_bind_run _ _ _ _ _ Hbody). apply IH.
  destruct Hq as (Hs & He & Hm). split; [done|]. split; [|done].
  intros n. cbn. rewrite active_of_empty_at. by case_decide.
Qed.

(** Whether a SET_CONFIGURATION stops every active endpoint: it raises there or
    goes on with what its index selects. Index 0 selects nothing. *)
Definition stops_all w : bool :=
  match fst (SetConfiguration 0 w) with Ok _ => true | Raise _ => false end.

Lemma stops_all_phase w :
  stops_all w = match fst (stop_phase w) with Ok _ => true | Raise _ => false end.
Proof.
  unfold stops_all. rewrite SetConfiguration_split. fold stop_phase.
  unfold mbind, M_bind. by destruct (stop_phase w) as [[[]|e] w1].
Qed.

Lemma live_configure : preserves live
  (config_desc ← GetConfigurationDescriptor (C:=C);
   h ← gets w_heap;
   interfaces ← lift (GetInterfaces h config_desc);
   mfor interfaces interface_body;;
   mret (Some true)).
Proof. solve_preserves. apply live_interface_body. Qed.

Lemma SetConfiguration_tables_ok i b w :
  tables_ok b w → tables_ok (stops_all w) (snd (SetConfiguration i w)).
Proof.
  intros [Hm Hc]. rewrite stops_all_phase, SetConfiguration_split. fold stop_phase.
  unfold mbind at 1, M_bind at 1. destruct (g_chip (w_gadget w)) eqn:E.
  - pose proof (stop_phase_keeps_chip w) as Hk. unfold keeps_chip in Hk. rewrite E in Hk.
    destruct (stop_phase w) as [[[]|e] w1] eqn:Hs; cbn in Hk |- *;
      [|by apply connected_tables_ok].
    apply live_tables_ok. assert (live w1) as Hl.
    { split; [done|]. intros a n. by rewrite (stop_phase_Ok _ _ Hs). }
    destruct (i =? 0); [done|]. destruct (negb _); [done|]. by apply live_configure.
  - destruct (stop_phase_quiet w (Hc eq_refl)) as (w1 & -> & Hq). apply quiet_tables_ok.
    destruct (i =? 0); [done|]. destruct (negb _); [done|].
    unfold GetConfigurationDescriptor, GetSpeed, self. mrun. by rewrite (proj1 Hq).
Qed.

(** *** SET_INTERFACE *)

Lemma live_SetInterface i alt : preserves live (SetInterface (C:=C) i alt).
Proof.
  unfold SetInterface. apply (preserves_bind live); [eauto with preserves|intros cd].
  do 3 (apply preserves_bind; [eauto with preserves|intros ?]).
  destruct a1 as [o|]; [|apply preserves_ret].
  apply live_setdefault. intros addrs.
  apply preserves_bind; [apply preserves_mfor; intros addr _; apply live_release_body|].
  intros _. solve_preserves.
Qed.

Lemma SetInterface_keeps_chip i alt : respects keeps_chip (SetInterface (C:=C) i alt).
Proof. unfold SetInterface. solve_respects. Qed.

Lemma SetInterface_tables_ok b i alt : preserves (tables_ok b) (SetInterface (C:=C) i alt).
Proof.
  intros w [Hm Hc]. destruct (g_chip (w_gadget w)) eqn:E.
  - destruct b; [by apply live_tables_ok, live_SetInterface; split; [|apply Hm]|].
    apply connected_tables_ok. by rewrite SetInterface_keeps_chip.
  - unfold SetInterface, GetConfigurationDescriptor, GetSpeed, self. mrun.
    rewrite (proj1 (Hc eq_refl)). split; [exact Hm|intros _; by apply Hc].
Qed.

(** *** Operations *)

(** The control transfers that are a SET_CONFIGURATION. *)
Definition sets_configuration (request_type request : Z) : bool :=
  (Z.land request_type UsbConstants.Dir.IN =? 0)
  && (Z.land request_type UsbConstants.Type_.MASK =? UsbConstants.Type_.STANDARD)
  && (Z.land request_type UsbConstants.Recipient.MASK =? UsbConstants.Recipient.DEVICE)
  && (request =? UsbConstants.Request.SET_CONFIGURATION).

(** Whether the last SET_CONFIGURATION since the last disconnection, if any,
    stopped every active endpoint. *)
Definition intact_step (op : gadget_op) w (intact : bool) : bool :=
  match op with
  | OpDisconnected => true
  | OpControlWrite rt q _ _ _ => if sets_configuration rt q then stops_all w else intact
  | _ => intact
  end.

Fixpoint intact_after (ops : list gadget_op) w (intact : bool) : bool :=
  match ops with
  | [] => intact
  | op :: ops => intact_after ops (snd (run_op op w)) (intact_step op w intact)
  end.

Lemma ControlWrite_tables_ok rt q v i d b w :
  tables_ok b w →
  tables_ok (if sets_configuration rt q then stops_all w else b)
    (snd (ControlWrite Gadget_methods rt q v i d w)).
Proof.
  intros Hw. unfold ControlWrite, Gadget_methods, sets_configuration. cbn.
  unfold StandardControlWrite, ClassControlWrite, VendorControlWrite.
  destruct (Z.land rt UsbConstants.Dir.IN =? 0); cbn; [|done].
  destruct (_ =? UsbConstants.Type_.STANDARD); cbn; [|by repeat destruct (_ =? _)].
  destruct (_ =? UsbConstants.Recipient.DEVICE), (q =? UsbConstants.Request.SET_CONFIGURATION);
    cbn; [by eapply SetConfiguration_tables_ok|..|done|];
    (destruct (q =? _); [|done]; destruct (_ =? _); [|done]; by apply SetInterface_tables_ok).
Qed.

Lemma run_op_tables_ok op b w :
  tables_ok b w → tables_ok (intact_step op w b) (snd (run_op op w)).
Proof.
  intros Hw. destruct op; cbn [run_op intact_step].
  - revert Hw. apply protect_keeps_tables. unfold AddStringDescriptor. solve_respects.
  - revert Hw. apply protect_keeps_tables. unfold EnableMicrosoftOSDescriptorsV1. solve_respects.
  - revert Hw. apply protect_keeps_tables.
    unfold EnableMicrosoftOSDescriptorsV2, AddDeviceCapabilityDescriptor. solve_respects.
  - revert Hw. apply protect_keeps_tables. unfold SetMicrosoftCompatId. solve_respects.
  - revert Hw. apply protect_keeps_tables. unfold AddDeviceCapabilityDescriptor. solve_respects.
  - destruct Hw as [Hm Hc]. split; [exact Hm|done].
  - by apply quiet_tables_ok.
  - revert Hw. apply protect_keeps_tables, pure_keeps_tables, (ControlRead_respects eq);
      intros; cbn; first [apply StandardControlRead_pure|apply VendorControlRead_pure
                          |apply respects_ret, _].
  - by apply ControlWrite_tables_ok.
  - revert Hw. apply protect_keeps_tables. unfold SendPacket. solve_respects.
    apply chip_only_keeps_tables, SendPacket_chip_only.
  - revert Hw. apply protect_keeps_tables. unfold HaltEndpoint, on_chip. solve_respects.
    apply chip_only_keeps_tables, HaltEndpoint_chip_only.
Qed.

Lemma run_ops_tables_ok ops b w :
  tables_ok b w → tables_ok (intact_after ops w b) (snd (mfor ops run_op w)).
Proof.
  revert b w. induction ops as [|op ops IH]; intros b w Hw; [done|].
  apply (run_op_tables_ok op) in Hw. apply IH in Hw. cbn [intact_after mfor].
  unfold mbind, M_bind. destruct (run_op op w) as [[[]|e] w1] eqn:E; [exact Hw|].
  by destruct op.
Qed.

(** C21: Take any history of registrations, connection changes and host requests,
    with any controller: any of its calls may raise, and so may any request. Then an
    endpoint address that [GetInterfaceForEndpoint] routes to an interface is in
    that interface's set of active endpoints, unless the last SET_CONFIGURATION
    since the last disconnection was cut short because an active endpoint could not
    be stopped (failures anywhere else, of SET_INTERFACE or of a start, do not
    matter; the next disconnection or the next SET_CONFIGURATION that stops its
    endpoints repairs it); and a disconnected gadget always has no active endpoint
    and routes none. *)
Theorem endpoint_routing d fs hs w0 ops :
  let w1 := snd (Gadget_init d fs hs w0) in
  let w := snd (mfor ops run_op w1) in
  (intact_after ops w1 true = true →
   ∀ a n, GetInterfaceForEndpoint a w = (Ok (Some n), w) → a ∈ active_of n (w_gadget w)) ∧
  (IsConnected w = (Ok false, w) →
   (∀ n, active_of n (w_gadget w) = ∅) ∧ g_endpoint_interface_map (w_gadget w) = ∅).
Proof.
  intros w1 w. assert (tables_ok (intact_after ops w1 true) w) as [Hm Hc].
  { apply run_ops_tables_ok. by apply quiet_tables_ok. }
  split.
  - intros Hi a n [= Ha]. by apply Hm.
  - intros [= Hd]. by destruct (Hc Hd) as (_ & He & ?).
Qed.
End histories.

(** ** Witnesses *)

Definition test_layout : list setting * list (list loc) :=
  Eval vm_compute in
    match layout connected_world with Ok l => l | Raise _ => ([], []) end.

Lemma SetConfiguration_selects_witness :
  ∃ g, runs (SetConfiguration 1) connected_world (StartCall <$> hs_bulk) (Some true) g ∧
    (∀ a n, a ∈ active_of n g ↔
       ∃ addrs, (n, 0, addrs) ∈ test_layout.1 ∧ a ∈ addrs) ∧
    mapped_active g ∧ active_mapped g ∧ tables_only (w_gadget connected_world) g.
Proof.
  replace (StartCall <$> hs_bulk) with
    (stop_calls (w_gadget connected_world) ++ (StartCall <$> concat test_layout.2))
    by (by vm_compute).
  apply SetConfiguration_selects; by vm_compute.
Defined.

(** The test device after SET_CONFIGURATION(1). *)
Definition configured_world : world call_log :=
  snd (SetConfiguration 1 connected_world).

Lemma SetConfiguration_deselects_witness :
  ∃ g, runs (SetConfiguration 0) configured_world [StopCall 0x81; StopCall 0x01]
         (Some true) g ∧ (∀ n, active_of n g = ∅) ∧ g_endpoint_interface_map g = ∅.
Proof.
  destruct (SetConfiguration_deselects configured_world 0) as (g & H1 & H2 & H3 & _);
    [left; by vm_compute|done|].
  exists g. refine (conj _ (conj H2 H3)).
  replace [StopCall 0x81; StopCall 0x01] with (stop_calls (w_gadget configured_world))
    by (by vm_compute). exact H1.
Defined.

(** A device whose alternate setting 0 has no endpoints, as isochronous devices
    have: SET_INTERFACE 1, 0, 1 fails on the third request. *)
Definition streaming_configuration : M heap loc :=
  cd ← new ConfigurationDescriptor [("bmAttributes", VInt 0xC0); ("MaxPower", VInt 50)];
  i ← new InterfaceDescriptor [("bInterfaceNumber", VInt 0)];
  AddInterface cd i;;
  i ← new InterfaceDescriptor [("bInterfaceNumber", VInt 0); ("bAlternateSetting", VInt 1)];
  AddInterface cd i;;
  e ← test_endpoint 0x81 UsbConstants.TransferType.ISOCHRONOUS 1024 1;
  AddEndpoint i e;;
  mret cd.

(** That device streaming: configured, alternate setting 1 selected. *)
Definition streaming_world : world call_log :=
  snd ((dev ← in_heap test_device_desc;
        cd ← in_heap streaming_configuration;
        Gadget_init dev cd cd;;
        Connected UsbConstants.Speed.HIGH;;
        _ ← SetConfiguration 1; SetInterface 0 1) blank_world).

Lemma SetInterface_strands_witness :
  fst (SetInterface 0 1 (snd (SetInterface 0 0 streaming_world))) = Raise KeyError.
Proof.
  destruct (SetInterface_strands streaming_world 0 0 [] []) as (g & _ & _ & _ & H).
  - by vm_compute.
  - by vm_compute.
  - intros a Ha. apply elem_of_elements in Ha. vm_compute in Ha.
    apply list_elem_of_singleton in Ha as ->. vm_compute. by eexists.
  - refine (H 0x81 1 ([4%nat], [0x81]) _ (not_elem_of_nil _) _); clear H.
    + apply elem_of_elements. vm_compute. by apply list_elem_of_singleton.
    + by vm_compute.
Defined.

(** A history of that device: the host selects the settings 1, 0 and 1 of the
    interface, the last in vain, and then reconnects and selects 1 again. *)
Definition streaming_ops : list gadget_op :=
  let configure := OpControlWrite 0x00 UsbConstants.Request.SET_CONFIGURATION 1 0 [] in
  let select alt := OpControlWrite 0x01 UsbConstants.Request.SET_INTERFACE alt 0 [] in
  let connect := OpConnected UsbConstants.Speed.HIGH in
  [connect; configure; select 1; select 0; select 1; OpDisconnected; connect; configure; select 1].

Definition streaming_descriptors : outcome (loc * loc) * world call_log :=
  (dev ← in_heap test_device_desc; cd ← in_heap streaming_configuration; mret (dev, cd))
    blank_world.

Lemma endpoint_routing_witness :
  ∃ dev cd w0, streaming_descriptors = (Ok (dev, cd), w0) ∧
  let w1 := snd (Gadget_init dev cd cd w0) in
  let w := snd (mfor streaming_ops run_op w1) in
  GetInterfaceForEndpoint 0x81 w = (Ok (Some 0), w) ∧ 0x81 ∈ active_of 0 (w_gadget w).
Proof.
  eexists _, _, _. split; [by vm_compute|]. cbv zeta.
  match goal with |- ?P ∧ _ => assert (P) as H by (by vm_compute) end.
  split; [exact H|].
  refine (proj1 (endpoint_routing _ _ _ _ streaming_ops) _ 0x81 0 H). by vm_compute.
Defined.
