(* ===== verification/HidReports.v ===== *)
(** What the HID features report: the reports have the lengths their descriptors
    declare, a keyboard is a multiset of pressed keys, typed text reaches the
    host, a mouse and an echo device send what they are told. *)

From stdpp Require Import gmultiset.
From S2P Require Import Prelude PyStruct UsbConstants HidConstants UsbDescriptors.
From S2P Require Import MsOs20Descriptors World Gadget Composite HidDescriptors.
From S2P Require Import HidGadget HidFeatures Devices TestDevice GadgetReads.
From S2P Require Import GadgetMsOs GadgetEndpoints.

#[local] Open Scope Z_scope.

(** ** Declared report lengths *)

(** The bits of the reports of one kind (main item tag 8 input, 9 output,
    11 feature) that a report descriptor declares: the sum of ReportSize times
    ReportCount over its main items. *)
Fixpoint declared_bits (kind : Z) (items : list short_item) (size count : Z) : Z :=
  match items with
  | [] => 0
  | i :: items =>
      if (i_type i =? HidConstants.Scope.GLOBAL) && (i_tag i =? 7)
      then declared_bits kind items (i_data i) count
      else if (i_type i =? HidConstants.Scope.GLOBAL) && (i_tag i =? 9)
      then declared_bits kind items size (i_data i)
      else if (i_type i =? HidConstants.Scope.MAIN) && (i_tag i =? kind)
      then size * count + declared_bits kind items size count
      else declared_bits kind items size count
  end.

Definition report_bits (kind : Z) (desc : outcome bytes) : option Z :=
  match desc with
  | Ok b => items ← report_items b; Some (declared_bits kind items 0 0)
  | Raise _ => None
  end.

Section reports.
Context {C : Type} `{!Chip C}.
Implicit Types w : world C.

(** Whatever [m] returns has length [n]. *)
Definition returns_length (n : Z) (m : M (world C) bytes) : Prop :=
  ∀ w b w', m w = (Ok b, w') → py_len b = n.

Lemma pack_returns fmt n vs :
  struct_calcsize fmt = Ok n → returns_length n (lift (struct_pack fmt vs)).
Proof.
  intros Hn w b w' [= Hb _]. apply struct_pack_calcsize in Hb. congruence.
Qed.

Lemma bind_returns {A} n (m : M (world C) A) f :
  (∀ a, returns_length n (f a)) → returns_length n (m ≫= f).
Proof. intros Hf w b w' (a & w1 & _ & Hb)%M_bind_Ok. by eapply Hf. Qed.

Lemma some_report_Ok (m : M (world C) bytes) w b w' :
  some_report m w = (Ok (Some b), w') → m w = (Ok b, w').
Proof. intros (b' & w1 & Hm & [= -> ->])%M_bind_Ok. done. Qed.

Ltac solve_length :=
  repeat (apply bind_returns; intros ?; repeat case_match); by apply pack_returns.

Lemma keyboard_input_length i : returns_length 8 (KeyboardFeature_GetInputReport i).
Proof. unfold KeyboardFeature_GetInputReport. solve_length. Qed.
Lemma keyboard_output_length i : returns_length 1 (KeyboardFeature_GetOutputReport i).
Proof. unfold KeyboardFeature_GetOutputReport. solve_length. Qed.
Lemma mouse_input_length i x y : returns_length 3 (EncodeInputReport i x y).
Proof. unfold EncodeInputReport. solve_length. Qed.
Lemma echo_input_length i : returns_length 8 (EchoFeature_GetInputReport i).
Proof. unfold EchoFeature_GetInputReport. solve_length. Qed.
Lemma echo_output_length i : returns_length 8 (EchoFeature_GetOutputReport i).
Proof. unfold EchoFeature_GetOutputReport. solve_length. Qed.
Lemma echo_feature_length i : returns_length 8 (EchoFeature_GetFeatureReport i).
Proof. unfold EchoFeature_GetFeatureReport. solve_length. Qed.

(** Every report a keyboard, mouse or HID echo feature produces on request is
    exactly as long as its report descriptor declares. *)
Theorem report_lengths i w w' b f :
  w_hid_features w !! i = Some f →
  let desc := match hf_class f with
              | KeyboardFeature _ _ _ => KEYBOARD_REPORT_DESC
              | MouseFeature _ => MOUSE_REPORT_DESC
              | EchoFeature _ _ => HID_ECHO_REPORT_DESC
              end in
  (hid_GetInputReport i w = (Ok (Some b), w') →
     report_bits 8 desc = Some (8 * py_len b)) ∧
  (hid_GetOutputReport i w = (Ok (Some b), w') →
     report_bits 9 desc = Some (8 * py_len b)) ∧
  (hid_GetFeatureReport i w = (Ok (Some b), w') →
     report_bits 11 desc = Some (8 * py_len b)).
Proof.
  intros Hf. cbn [hid_GetInputReport hid_GetOutputReport hid_GetFeatureReport hid_features].
  assert (∀ {A} (k : HidFeature → M (world C) A), (f ← hid_feature i; k f) w = k f w) as Hk.
  { intros A k. unfold hid_feature. mrun. by rewrite Hf. }
  rewrite !Hk. destruct (hf_class f); (split; [|split]); try done;
    intros ->%some_report_Ok%(keyboard_input_length i) ||
    intros ->%some_report_Ok%(keyboard_output_length i) ||
    intros ->%some_report_Ok%(mouse_input_length i) ||
    intros ->%some_report_Ok%(echo_input_length i) ||
    intros ->%some_report_Ok%(echo_output_length i) ||
    intros ->%some_report_Ok%(echo_feature_length i); by vm_compute.
Qed.

(** ** The keyboard *)

(** Attributes of a keyboard: modifiers, slots, LEDs. *)
Definition keyboard_state (i : hfid) w : option (Z * list Z * Z) :=
  f ← w_hid_features w !! i;
  match hf_class f with KeyboardFeature m k l => Some (m, k, l) | _ => None end.

(** The pressed keys: the slots that are not free. *)
Definition pressed (keys : list Z) : gmultiset Z :=
  list_to_set_disj (base.filter (.≠ 0) keys).

(** The held modifiers: the bits of the modifier byte that are set. *)
Definition held (modifiers : Z) : gset Z :=
  list_to_set (base.filter (λ b, Z.testbit modifiers b = true) (seqZ 0 8)).

Inductive key_event := Down (k : Z) | Up (k : Z) | ModDown (x : Z) | ModUp (x : Z).

(** Key codes are those of a byte other than 0, which stands for a free slot;
    modifiers are masks of a byte. *)
Definition event_ok (e : key_event) : Prop :=
  match e with Down k | Up k => 0 < k < 256 | ModDown x | ModUp x => 0 <= x < 256 end.

(** A keyboard as its user sees it: a set of held modifiers, a multiset of at most
    six pressed keys. *)
Definition kb_spec : Type := gset Z * gmultiset Z.

Definition spec_event (e : key_event) (s : kb_spec) : option kb_spec :=
  let '(mods, keys) := s in
  match e with
  | Down k => if (size keys <? 6)%nat then Some (mods, {[+ k +]} ⊎ keys) else None
  | Up k => if decide (k ∈ keys) then Some (mods, keys ∖ {[+ k +]}) else None
  | ModDown x => Some (mods ∪ held x, keys)
  | ModUp x => Some (mods ∖ held x, keys)
  end.

(** What a host reads in an input report, by the layout of the boot keyboard: the
    bits of the first byte are the modifiers, the second is reserved, six key
    codes follow. *)
Definition host_report (b : bytes) : option kb_spec :=
  match Z_of_byte <$> b with
  | [m; reserved; k1; k2; k3; k4; k5; k6] =>
      if reserved =? 0 then Some (held m, pressed [k1; k2; k3; k4; k5; k6]) else None
  | _ => None
  end.

Definition run_event (i : hfid) (e : key_event) : M (world C) unit :=
  match e with
  | Down k => KeyDown i k
  | Up k => KeyUp i k
  | ModDown x => ModifierDown i x
  | ModUp x => ModifierUp i x
  end.

Lemma keyboard_run i w m k l :
  keyboard_state i w = Some (m, k, l) → keyboard i w = (Ok (m, k, l), w).
Proof.
  unfold keyboard_state, keyboard, hid_feature. mrun.
  destruct (w_hid_features w !! i) as [f|]; [|done]. cbn.
  destruct (hf_class f); try done. by intros [= -> -> ->].
Qed.

Lemma set_class_state i w s m k l :
  keyboard_state i w = Some s →
  keyboard_state i (snd (set_class i (KeyboardFeature m k l) w)) = Some (m, k, l).
Proof.
  unfold keyboard_state, set_class, modify_hid_feature. cbn.
  rewrite list_lookup_alter_eq. by destruct (w_hid_features w !! i).
Qed.

Lemma chip_only_state i w w' :
  chip_only w w' → keyboard_state i w' = keyboard_state i w.
Proof. by intros <-. Qed.

Context `{!ChipLaws C}.

Lemma SendPacket_only_chip e d : respects chip_only (SendPacket (C:=C) e d).
Proof. unfold SendPacket. solve_respects. Qed.

Hint Resolve SendPacket_only_chip : respects.

Lemma HidFeature_SendReport_only_chip i d :
  respects chip_only (HidFeature_SendReport (C:=C) i d).
Proof.
  unfold HidFeature_SendReport, HidCompositeFeature_SendReport,
    CompositeFeature_SendPacket, hid_attrs, hid_feature, feature. solve_respects.
Qed.

Hint Resolve HidFeature_SendReport_only_chip : respects.

Lemma send_if_connected_only_chip i m :
  respects chip_only m → respects chip_only (send_if_connected (C:=C) i m).
Proof.
  intros Hm. unfold send_if_connected, HidFeature_IsConnected, hid_feature. solve_respects.
Qed.

Lemma keyboard_input_only_chip i :
  respects chip_only (KeyboardFeature_GetInputReport (C:=C) i).
Proof.
  unfold KeyboardFeature_GetInputReport, keyboard, hid_feature. solve_respects.
Qed.

Lemma py_index_Ok z l n : py_index z l = Ok n → l !! n = Some z.
Proof.
  unfold py_index. intros Hn%of_option_Ok. apply fmap_Some in Hn as ([n' z'] & Hf & ->).
  by apply list_find_Some in Hf as (? & -> & _).
Qed.

Lemma py_index_Raise z l e :
  py_index z l = Raise e → z ∉ l ∧ ∃ msg, e = ValueError msg.
Proof.
  unfold py_index. destruct (list_find (z =.) l) as [[n z']|] eqn:Hf; [done|].
  intros [= <-]. split; [|by eexists]. apply list_find_None in Hf.
  rewrite Forall_forall in Hf. intros Hz. by apply (Hf z).
Qed.

Lemma pressed_insert_free keys n k :
  keys !! n = Some 0 → k ≠ 0 → pressed (<[n := k]> keys) = {[+ k +]} ⊎ pressed keys.
Proof.
  intros Hn Hk. unfold pressed. rewrite insert_take_drop by (by eapply lookup_lt_Some).
  rewrite <- (take_drop_middle keys n 0 Hn) at 3.
  rewrite !filter_app, (filter_cons_True (.≠ 0) k), (filter_cons_False (.≠ 0) 0) by lia.
  rewrite !list_to_set_disj_app, list_to_set_disj_cons. multiset_solver.
Qed.

Lemma pressed_insert_release keys n k :
  keys !! n = Some k → k ≠ 0 → pressed (<[n := 0]> keys) = pressed keys ∖ {[+ k +]}.
Proof.
  intros Hn Hk. unfold pressed. rewrite insert_take_drop by (by eapply lookup_lt_Some).
  rewrite <- (take_drop_middle keys n k Hn) at 3.
  rewrite !filter_app, (filter_cons_True (.≠ 0) k), (filter_cons_False (.≠ 0) 0) by lia.
  rewrite !list_to_set_disj_app, list_to_set_disj_cons. multiset_solver.
Qed.

Lemma elem_of_pressed keys k : k ≠ 0 → k ∈ pressed keys ↔ k ∈ keys.
Proof.
  intros Hk. unfold pressed. rewrite elem_of_list_to_set_disj, list_elem_of_filter. tauto.
Qed.

Lemma size_pressed keys : size (pressed keys) = length (base.filter (.≠ 0) keys).
Proof.
  unfold pressed. induction (base.filter (.≠ 0) keys) as [|k l IH]; [done|].
  rewrite list_to_set_disj_cons, gmultiset_size_disj_union, gmultiset_size_singleton.
  cbn [length]. lia.
Qed.

(** A free slot exists exactly when fewer keys are pressed than there are
    slots. *)
Lemma free_slot keys :
  0 ∈ keys ↔ (size (pressed keys) < length keys)%nat.
Proof.
  rewrite size_pressed. induction keys as [|k keys IH]; [split; [by intros ?%elem_of_nil|cbn; lia]|].
  rewrite elem_of_cons. destruct (decide (k = 0)) as [->|Hk].
  - rewrite filter_cons_False by lia. cbn [length].
    pose proof (length_filter (.≠ 0) keys). split; [lia|by left].
  - rewrite filter_cons_True by done. cbn [length]. rewrite <- Nat.succ_lt_mono, <- IH.
    split; [intros [?|?]; [congruence|done]|by right].
Qed.

Lemma elem_of_held b m : b ∈ held m ↔ 0 <= b < 8 ∧ Z.testbit m b = true.
Proof.
  unfold held. rewrite elem_of_list_to_set, list_elem_of_filter, elem_of_seqZ. intuition lia.
Qed.

Lemma held_lor m x : held (Z.lor m x) = held m ∪ held x.
Proof.
  apply set_eq. intros b. rewrite elem_of_union, !elem_of_held, Z.lor_spec, orb_true_iff.
  tauto.
Qed.

Lemma held_clear m x : held (Z.land m (Z.lnot x)) = held m ∖ held x.
Proof.
  apply set_eq. intros b. rewrite elem_of_difference, !elem_of_held, Z.land_spec.
  destruct (decide (0 <= b < 8)) as [Hb|Hb]; [|tauto].
  rewrite Z.lnot_spec, andb_true_iff, negb_true_iff, <- not_true_iff_false by lia. tauto.
Qed.

(** The attributes after an event, as the methods compute them. *)
Definition event_attrs (e : key_event) (m : Z) (keys : list Z) : outcome (Z * list Z) :=
  match e with
  | Down k => n ← py_index 0 keys; Ok (m, <[n := k]> keys)
  | Up k => n ← py_index k keys; Ok (m, <[n := 0]> keys)
  | ModDown x => Ok (Z.lor m x, keys)
  | ModUp x => Ok (Z.land m (Z.lnot x), keys)
  end.

(** Every method updates the attributes, then reports. *)
Lemma key_event_run i w e m keys l :
  keyboard_state i w = Some (m, keys, l) →
  run_event i e w =
    match event_attrs e m keys with
    | Ok (m', keys') =>
        (set_class i (KeyboardFeature m' keys' l);;
         send_if_connected i (KeyboardFeature_GetInputReport i)) w
    | Raise ex => (Raise ex, w)
    end.
Proof.
  intros Hs. destruct e as [k|k|x|x]; cbn [run_event];
    unfold KeyDown, KeyUp, ModifierDown, ModifierUp;
    rewrite (M_bind_run _ _ _ _ _ (keyboard_run _ _ _ _ _ Hs)); [..|done|done];
    unfold mbind at 1, M_bind at 1, lift at 1; cbn [event_attrs];
    by destruct (py_index _ _).
Qed.

(** Attributes of a keyboard: a byte of modifiers and six slots of a byte. *)
Definition small (z : Z) : Prop := 0 <= z < 256.
Definition attrs_ok (m : Z) (keys : list Z) : Prop :=
  small m ∧ length keys = 6%nat ∧ Forall small keys.

Lemma small_testbit z : small z ↔ 0 <= z ∧ ∀ b, 8 <= b → Z.testbit z b = false.
Proof.
  unfold small. split.
  - intros Hz. split; [lia|]. intros b Hb. rewrite <- (Z.mod_small z (2 ^ 8)) by (cbn; lia).
    by apply Z.mod_pow2_bits_high.
  - intros [H0 Hb]. split; [done|]. replace z with (z mod 2 ^ 8); [by apply Z.mod_pos_bound|].
    apply Z.bits_inj'. intros b Hn. destruct (Z.lt_ge_cases b 8) as [Hlt|Hge].
    + by rewrite Z.mod_pow2_bits_low.
    + rewrite Z.mod_pow2_bits_high by lia. by rewrite Hb.
Qed.

Lemma small_lor m x : small m → small x → small (Z.lor m x).
Proof.
  rewrite !small_testbit, Z.lor_nonneg. intros [? Hm] [? Hx]. split; [done|].
  intros b Hb. by rewrite Z.lor_spec, Hm, Hx.
Qed.

Lemma small_clear m x : small m → small (Z.land m (Z.lnot x)).
Proof.
  rewrite !small_testbit, Z.land_nonneg. intros [? Hm]. split; [by left|].
  intros b Hb. by rewrite Z.land_spec, Hm.
Qed.

(** The attributes against the specification. *)
Lemma event_attrs_spec e m keys :
  attrs_ok m keys → event_ok e →
  match spec_event e (held m, pressed keys) with
  | Some s => ∃ m' keys', event_attrs e m keys = Ok (m', keys') ∧
      attrs_ok m' keys' ∧ (held m', pressed keys') = s
  | None => ∃ msg, event_attrs e m keys = Raise (ValueError msg)
  end.
Proof.
  intros (Hm & Hlen & Hkeys) He. destruct e as [k|k|x|x]; cbn [spec_event event_attrs event_ok] in He |- *.
  - pose proof (free_slot keys) as Hfree. destruct (py_index 0 keys) as [n|ex] eqn:Hi; cbn [mbind outcome_bind].
    + pose proof (py_index_Ok _ _ _ Hi) as Hn.
      destruct (Nat.ltb_spec (size (pressed keys)) 6) as [Hlt|Hge].
      * exists m, (<[n := k]> keys). split; [done|]. rewrite pressed_insert_free by (done || lia).
        split; [|done]. split; [done|]. rewrite length_insert. split; [done|].
        apply Forall_insert; [done|unfold small; lia].
      * exfalso. apply list_elem_of_lookup_2, Hfree in Hn. lia.
    + apply py_index_Raise in Hi as [Hi [msg ->]].
      destruct (Nat.ltb_spec (size (pressed keys)) 6) as [Hlt|Hge]; [|by exists msg].
      exfalso. apply Hi, Hfree. lia.
  - pose proof (elem_of_pressed keys k ltac:(lia)) as Hin.
    destruct (py_index k keys) as [n|ex] eqn:Hi; cbn [mbind outcome_bind].
    + pose proof (py_index_Ok _ _ _ Hi) as Hn.
      rewrite decide_True by (apply Hin; by eapply list_elem_of_lookup_2).
      exists m, (<[n := 0]> keys). split; [done|].
      rewrite (pressed_insert_release _ _ k) by (done || lia).
      split; [|done]. split; [done|]. rewrite length_insert. split; [done|].
      by apply Forall_insert.
    + apply py_index_Raise in Hi as [Hi [msg ->]].
      rewrite decide_False by tauto. by exists msg.
  - exists (Z.lor m x), keys. split; [done|]. rewrite held_lor.
    split; [|done]. split; [by apply small_lor|done].
  - exists (Z.land m (Z.lnot x)), keys. split; [done|]. rewrite held_clear.
    split; [|done]. split; [by apply small_clear|done].
Qed.
End reports.

(** ** Reports that reach the host *)

(** A report on the wire: behind its report ID unless that is 0. *)
Definition frame (report_id : Z) (data : bytes) : bytes :=
  if report_id =? 0 then data else byte_of_Z report_id :: data.

Section sending.
Context {C : Type} `{!Chip C} `{!ChipTotal C}.
Implicit Types w : world C.

(** The feature is connected to a connected HID interface with IN endpoint [e],
    under report ID [r]. *)
Definition reporting (i : hfid) w (e r : Z) : Prop :=
  ∃ f c cf rd fs n oe,
    w_hid_features w !! i = Some f ∧ hf_gadget f = Some c ∧ hf_report_id f = Some r ∧
    w_features w !! c = Some cf ∧ cf_gadget cf = true ∧
    cf_class cf = HidCompositeFeature rd fs n e oe ∧
    g_chip (w_gadget w) = true ∧ Z.land e UsbConstants.Dir.IN ≠ 0 ∧ 0 <= r < 256.

(** The world after the chip got these calls. *)
Definition after_calls (cs : list chip_call) w : world C :=
  set_chip (foldl (λ c x, chip_step x c) (w_chip w) cs) w.

Lemma after_calls_app cs1 cs2 w :
  after_calls (cs1 ++ cs2) w = after_calls cs2 (after_calls cs1 w).
Proof. unfold after_calls. cbn. by rewrite foldl_app. Qed.

Lemma reporting_after_calls i w e r cs :
  reporting i w e r → reporting i (after_calls cs w) e r.
Proof. done. Qed.

(** A report of a connected feature is one [SendPacket] of the controller, whatever
    that does. *)
Lemma SendReport_call i w e r data :
  reporting i w e r →
  HidFeature_SendReport i data w = chip_SendPacket e (frame r data) w.
Proof.
  intros (f & c & cf & rd & fs & n & oe & Hf & Hc & Hr & Hcf & Hg & Hcls & Hchip & He & Hrange).
  unfold HidFeature_SendReport, HidCompositeFeature_SendReport,
    CompositeFeature_SendPacket, SendPacket, hid_attrs, hid_feature, feature, self, frame.
  mrun. rewrite Hf. cbn [of_option]. rewrite Hc, Hr. mrun. rewrite Hcf. cbn [of_option].
  rewrite Hcls. cbn [ha_in_endpoint]. destruct (r =? 0).
  - rewrite Hcf. cbn [of_option]. rewrite Hg. cbn [negb]. rewrite Hchip. cbn [negb].
    by rewrite (proj2 (Z.eqb_neq _ 0)).
  - replace (struct_pack "B" [VInt r]) with (@Ok bytes [byte_of_Z r]).
    + rewrite Hcf. cbn [of_option]. rewrite Hg. cbn [negb]. rewrite Hchip. cbn [negb].
      by rewrite (proj2 (Z.eqb_neq _ 0)).
    + unfold struct_pack. replace (parse_format "B") with (Some [C_B]) by reflexivity.
      cbn [of_option mbind outcome_bind pack_codes pack_value].
      by rewrite pack_uint_ok by (cbn; lia).
Qed.

Lemma SendReport_run i w e r data :
  reporting i w e r →
  HidFeature_SendReport i data w = (Ok (), after_calls [SendCall e (frame r data)] w).
Proof. intros Hr. rewrite (SendReport_call _ _ e r) by done. apply SendPacket_total. Qed.

(** The world with other attributes of the HID feature [i]. *)
Definition with_class (i : hfid) (cls : HidFeatureClass) w : world C :=
  set_hid_features (alter (set_hf_class cls) i (w_hid_features w)) w.

Lemma reporting_with_class i cls w e r :
  reporting i w e r → reporting i (with_class i cls w) e r.
Proof.
  intros (f & c & cf & rd & fs & n & oe & Hf & H').
  exists (set_hf_class cls f), c, cf, rd, fs, n, oe. split; [|exact H'].
  cbn. by rewrite list_lookup_alter_eq, Hf.
Qed.

Lemma with_class_twice i c1 c2 w : with_class i c2 (with_class i c1 w) = with_class i c2 w.
Proof.
  unfold with_class. cbn. unfold set_hid_features. cbn. f_equal. apply list_eq. intros j.
  rewrite !list_lookup_alter. repeat case_decide; [|done..]. by destruct (w_hid_features w !! i).
Qed.

Lemma with_class_same i f w :
  w_hid_features w !! i = Some f → with_class i (hf_class f) w = w.
Proof.
  intros Hf. unfold with_class. replace (alter _ _ _) with (w_hid_features w).
  - by destruct w.
  - apply list_eq. intros j. rewrite list_lookup_alter. case_decide; [subst|done].
    rewrite Hf. cbn. by destruct f.
Qed.

Lemma send_if_connected_call i w e r (report : M (world C) bytes) data :
  reporting i w e r → report w = (Ok data, w) →
  send_if_connected i report w = chip_SendPacket e (frame r data) w.
Proof.
  intros Hr Hrep. rewrite <- (SendReport_call i w e r data Hr).
  destruct Hr as (f & c & cf & rd & fs & n & oe & Hf & Hc & _).
  unfold send_if_connected, HidFeature_IsConnected, hid_feature. mrun.
  rewrite Hf. cbn [of_option]. rewrite Hc. cbn [is_not_none]. by rewrite Hrep.
Qed.

Lemma send_if_connected_run i w e r (report : M (world C) bytes) data :
  reporting i w e r → report w = (Ok data, w) →
  send_if_connected i report w = (Ok (), after_calls [SendCall e (frame r data)] w).
Proof.
  intros Hr Hrep. rewrite (send_if_connected_call _ _ e r _ data) by done.
  apply SendPacket_total.
Qed.

(** ** Typing *)

Lemma pack_bytes8 (l : list Z) :
  length l = 8%nat → Forall small l →
  struct_pack "BBBBBBBB" (VInt <$> l) = Ok (byte_of_Z <$> l).
Proof.
  intros Hlen Hl. unfold struct_pack.
  replace (parse_format "BBBBBBBB") with (Some (replicate 8 C_B)) by reflexivity.
  cbn [of_option mbind outcome_bind]. rewrite <- Hlen. clear Hlen.
  induction Hl as [|z l Hz _ IH]; [done|].
  rewrite !fmap_cons. cbn [length replicate pack_codes pack_value].
  rewrite pack_uint_ok by (exact Hz). by rewrite IH.
Qed.

(** An input report of the keyboard. *)
Definition key_report (m : Z) (keys : list Z) : bytes := byte_of_Z <$> (m :: 0 :: keys).

Lemma GetInputReport_run i w m keys l :
  keyboard_state i w = Some (m, keys, l) → attrs_ok m keys →
  KeyboardFeature_GetInputReport i w = (Ok (key_report m keys), w).
Proof.
  intros Hs (Hm & Hlen & Hk). unfold KeyboardFeature_GetInputReport.
  rewrite (M_bind_run _ _ _ _ _ (keyboard_run _ _ _ _ _ Hs)).
  unfold lift. change (VInt m :: VInt 0 :: (VInt <$> keys)) with (VInt <$> m :: 0 :: keys).
  rewrite pack_bytes8; [done|cbn; lia|].
  apply Forall_cons; split; [done|]. apply Forall_cons; split; [by unfold small|done].
Qed.

Lemma keyboard_with_class i w s m k l :
  keyboard_state i w = Some s →
  keyboard_state i (with_class i (KeyboardFeature m k l) w) = Some (m, k, l).
Proof. apply set_class_state. Qed.

Lemma reporting_keyboard i w e r m k l :
  reporting i w e r →
  keyboard_state i (with_class i (KeyboardFeature m k l) w) = Some (m, k, l).
Proof.
  intros (f & _ & _ & _ & _ & _ & _ & Hf & _).
  unfold keyboard_state, with_class. cbn. by rewrite list_lookup_alter_eq, Hf.
Qed.

Lemma update_and_send_call i w e r m keys l :
  reporting i w e r → attrs_ok m keys →
  (set_class i (KeyboardFeature m keys l);;
   send_if_connected i (KeyboardFeature_GetInputReport i)) w =
    chip_SendPacket e (frame r (key_report m keys)) (with_class i (KeyboardFeature m keys l) w).
Proof.
  intros Hr Hok.
  change ((set_class i (KeyboardFeature m keys l);;
    send_if_connected i (KeyboardFeature_GetInputReport i)) w) with
    (send_if_connected i (KeyboardFeature_GetInputReport i)
       (with_class i (KeyboardFeature m keys l) w)).
  apply send_if_connected_call; [by apply reporting_with_class|].
  eapply GetInputReport_run, Hok. by eapply reporting_keyboard.
Qed.

Lemma update_and_send_run i w e r m keys l :
  reporting i w e r → length keys = 6%nat → small m → Forall small keys →
  (set_class i (KeyboardFeature m keys l);;
   send_if_connected i (KeyboardFeature_GetInputReport i)) w =
    (Ok (), after_calls [SendCall e (frame r (key_report m keys))]
              (with_class i (KeyboardFeature m keys l) w)).
Proof.
  intros. rewrite (update_and_send_call _ _ e r) by done. apply SendPacket_total.
Qed.

Definition no_keys : list Z := [0; 0; 0; 0; 0; 0].
Definition one_key (k : Z) : list Z := [k; 0; 0; 0; 0; 0].

(** The keyboard [i] with these attributes, after these calls. *)
Definition kw (i : hfid) (m : Z) (keys : list Z) (l : Z) (cs : list chip_call) w : world C :=
  after_calls cs (with_class i (KeyboardFeature m keys l) w).

(** One operation of the typing loop. *)
Lemma kw_step i w e r m keys l cs (op : M (world C) unit) m' keys' :
  reporting i w e r → length keys' = 6%nat → small m' → Forall small keys' →
  (∀ w, keyboard_state i w = Some (m, keys, l) →
     op w = (set_class i (KeyboardFeature m' keys' l);;
             send_if_connected i (KeyboardFeature_GetInputReport i)) w) →
  op (kw i m keys l cs w) =
    (Ok (), kw i m' keys' l (cs ++ [SendCall e (frame r (key_report m' keys'))]) w).
Proof.
  intros Hr Hlen Hm Hk Hop. unfold kw. rewrite Hop
    by (by eapply (reporting_keyboard i (after_calls cs w)), reporting_after_calls).
  erewrite update_and_send_run;
    [|by apply reporting_after_calls, reporting_with_class|done..].
  f_equal. rewrite after_calls_app.
  change (with_class i (KeyboardFeature m' keys' l)
            (after_calls cs (with_class i (KeyboardFeature m keys l) w))) with
    (after_calls cs (with_class i (KeyboardFeature m' keys' l)
                       (with_class i (KeyboardFeature m keys l) w))).
  by rewrite with_class_twice.
Qed.

Lemma small_one_key k : small k → Forall small (one_key k).
Proof.
  intros Hk. unfold one_key. rewrite !Forall_cons. unfold small in *.
  repeat split; try lia. apply Forall_nil_2.
Qed.

Lemma small_no_keys : Forall small no_keys.
Proof. by apply (small_one_key 0). Qed.

Lemma kw_KeyDown i w e r m l cs k :
  reporting i w e r → small m → small k →
  KeyDown i k (kw i m no_keys l cs w) =
    (Ok (), kw i m (one_key k) l (cs ++ [SendCall e (frame r (key_report m (one_key k)))]) w).
Proof.
  intros Hr Hm Hk. apply kw_step; [done|done|done|by apply small_one_key|].
  intros w0 Hs. exact (key_event_run i w0 (Down k) m no_keys l Hs).
Qed.

Lemma kw_KeyUp i w e r m l cs k :
  reporting i w e r → small m →
  KeyUp i k (kw i m (one_key k) l cs w) =
    (Ok (), kw i m no_keys l (cs ++ [SendCall e (frame r (key_report m no_keys))]) w).
Proof.
  intros Hr Hm. apply kw_step; [done|done|done|apply small_no_keys|].
  intros w0 Hs. change (KeyUp i k) with (run_event (C:=C) i (Up k)).
  rewrite (key_event_run i w0 (Up k) m (one_key k) l Hs). cbn [event_attrs].
  replace (py_index k (one_key k)) with (@Ok nat 0%nat); [done|].
  unfold py_index, one_key. cbn [list_find]. by rewrite decide_True.
Qed.

Lemma kw_ModifierDown i w e r m l cs x :
  reporting i w e r → small (Z.lor m x) →
  ModifierDown i x (kw i m no_keys l cs w) =
    (Ok (), kw i (Z.lor m x) no_keys l
              (cs ++ [SendCall e (frame r (key_report (Z.lor m x) no_keys))]) w).
Proof.
  intros Hr Hm. apply kw_step; [done|done|done|apply small_no_keys|].
  intros w0 Hs. exact (key_event_run i w0 (ModDown x) m no_keys l Hs).
Qed.

Lemma kw_ModifierUp i w e r m l cs x :
  reporting i w e r → small (Z.land m (Z.lnot x)) →
  ModifierUp i x (kw i m no_keys l cs w) =
    (Ok (), kw i (Z.land m (Z.lnot x)) no_keys l
              (cs ++ [SendCall e (frame r (key_report (Z.land m (Z.lnot x)) no_keys))]) w).
Proof.
  intros Hr Hm. apply kw_step; [done|done|done|apply small_no_keys|].
  intros w0 Hs. exact (key_event_run i w0 (ModUp x) m no_keys l Hs).
Qed.

(** The reports the typing loop sends for a character. *)
Definition char_reports (char : string) : list bytes :=
  match KEY_CODES !! char with
  | Some code => [key_report 0 (one_key code); key_report 0 no_keys]
  | None =>
      match SHIFT_KEY_CODES !! char with
      | Some code =>
          let shift := HidConstants.ModifierKey.L_SHIFT in
          [key_report shift no_keys; key_report shift (one_key code);
           key_report shift no_keys; key_report 0 no_keys]
      | None => []
      end
  end.

(** The key press a character stands for: modifiers and key code. *)
Definition char_press (char : string) : option (Z * Z) :=
  match KEY_CODES !! char with
  | Some code => Some (0, code)
  | None => pair HidConstants.ModifierKey.L_SHIFT <$> SHIFT_KEY_CODES !! char
  end.

(** The host's side: each report against the keys of the report before it; a key
    that was not down is a new press. *)
Fixpoint host_presses (down : list Z) (reports : list bytes) : list (Z * Z) :=
  match reports with
  | [] => []
  | b :: reports =>
      match Z_of_byte <$> b with
      | m :: _ :: keys =>
          ((λ k, (m, k)) <$> base.filter (λ k, k ≠ 0 ∧ k ∉ down) keys)
            ++ host_presses keys reports
      | _ => host_presses down reports
      end
  end.

Lemma type_char_run i w e r l cs char :
  reporting i w e r →
  type_char i char (kw i 0 no_keys l cs w) =
    (Ok (), kw i 0 no_keys l
              (cs ++ ((λ b, SendCall e (frame r b)) <$> char_reports char)) w).
Proof.
  intros Hr. unfold type_char, char_reports.
  destruct (KEY_CODES !! char) as [code|] eqn:Hk.
  { assert (small code) by (apply KEY_CODES_range in Hk; unfold small; lia).
    erewrite M_bind_run by (by apply (kw_KeyDown _ _ e r)).
    rewrite (kw_KeyUp _ _ e r) by done. rewrite <- app_assoc. done. }
  destruct (SHIFT_KEY_CODES !! char) as [code|] eqn:Hs.
  { assert (small code) by (apply SHIFT_KEY_CODES_range in Hs; unfold small; lia).
    erewrite M_bind_run by (by apply (kw_ModifierDown _ _ e r)).
    erewrite M_bind_run by (by apply (kw_KeyDown _ _ e r)).
    erewrite M_bind_run by (by apply (kw_KeyUp _ _ e r)).
    rewrite (kw_ModifierUp _ _ e r) by done. rewrite <- !app_assoc. done. }
  by rewrite app_nil_r.
Qed.

Lemma key_report_values m keys :
  small m → Forall small keys → Z_of_byte <$> key_report m keys = m :: 0 :: keys.
Proof.
  intros Hm Hk. unfold key_report. rewrite <- list_fmap_compose.
  rewrite <- (list_fmap_id (m :: 0 :: keys)) at 2. apply list_fmap_ext.
  intros j z Hz. cbn. rewrite Z_of_byte_of_Z. apply Z.mod_small.
  apply list_elem_of_lookup_2 in Hz. rewrite !elem_of_cons in Hz.
  rewrite Forall_forall in Hk. destruct Hz as [->|[->|Hz]]; [exact Hm|lia|by apply Hk].
Qed.

Lemma host_presses_char char reports :
  host_presses no_keys (char_reports char ++ reports) =
    option_list (char_press char) ++ host_presses no_keys reports.
Proof.
  unfold char_reports, char_press.
  assert (∀ code, 0 < code < 256 → base.filter (λ k, k ≠ 0 ∧ k ∉ no_keys) (one_key code) = [code])
    as Hnew.
  { intros code Hc. unfold one_key. rewrite filter_cons_True.
    - by vm_compute.
    - split; [lia|]. unfold no_keys. rewrite !elem_of_cons, elem_of_nil. lia. }
  destruct (KEY_CODES !! char) as [code|] eqn:Hk; [|destruct (SHIFT_KEY_CODES !! char)
    as [code|] eqn:Hs]; [..|done].
  - apply KEY_CODES_range in Hk. assert (small code) by (unfold small; lia).
    cbn [app host_presses]. rewrite !key_report_values by
      (done || by apply small_one_key || apply small_no_keys). by rewrite Hnew.
  - apply SHIFT_KEY_CODES_range in Hs. assert (small code) by (unfold small; lia).
    cbn [app host_presses]. rewrite !key_report_values by
      (done || by apply small_one_key || apply small_no_keys). by rewrite Hnew.
Qed.

(** C30: Typing a string on a released keyboard sends, report by report, key
    presses the host decodes to exactly the characters of the string that the two
    key tables have, in order and with the shift they need; every key is released
    again and nothing but the chip is changed. *)
Theorem typed_text_arrives i w e r l f (chars : list string) :
  reporting i w e r → w_hid_features w !! i = Some f →
  hf_class f = KeyboardFeature 0 no_keys l →
  ∃ reports,
    WebTypeHandler i chars w =
      (Ok (), after_calls ((λ b, SendCall e (frame r b)) <$> reports) w) ∧
    host_presses no_keys reports = omap char_press chars.
Proof.
  intros Hr Hf Hcls. exists (concat (char_reports <$> chars)). split.
  - assert (∀ cs, mfor chars (type_char i) (kw i 0 no_keys l cs w) =
      (Ok (), kw i 0 no_keys l
        (cs ++ ((λ b, SendCall e (frame r b)) <$> concat (char_reports <$> chars))) w)) as Hloop.
    { induction chars as [|c chars IH]; intros cs; [by rewrite app_nil_r|].
      cbn [mfor]. erewrite M_bind_run by (by apply (type_char_run _ _ e r)).
      rewrite IH, fmap_cons. cbn [concat]. by rewrite fmap_app, app_assoc. }
    specialize (Hloop []). unfold kw in Hloop. rewrite <- Hcls in Hloop.
    rewrite (with_class_same _ _ _ Hf) in Hloop.
    replace (after_calls [] w) with w in Hloop by (by destruct w). exact Hloop.
  - induction chars as [|c chars IH]; [done|].
    rewrite fmap_cons. cbn [concat omap list_omap]. rewrite host_presses_char, IH.
    by destruct (char_press c).
Qed.

(** ** The mouse *)

Definition in_range8 (z : Z) : bool := (-128 <=? z) && (z <=? 127).

Lemma pack_mouse b x y :
  small b →
  struct_pack "Bbb" [VInt b; VInt x; VInt y] =
    if in_range8 x && in_range8 y
    then Ok (byte_of_Z b :: le_split 1 x ++ le_split 1 y) else Raise StructError.
Proof.
  intros Hb. unfold struct_pack, in_range8.
  replace (parse_format "Bbb") with (Some [C_B; C_b; C_b]) by reflexivity.
  cbn [of_option mbind outcome_bind pack_codes pack_value].
  rewrite pack_uint_ok by (exact Hb). cbn [mbind outcome_bind].
  destruct ((-128 <=? x) && (x <=? 127)); [|done]. cbn [mbind outcome_bind andb].
  by destruct ((-128 <=? y) && (y <=? 127)).
Qed.

Lemma unpack_mouse b x y :
  small b → in_range8 x && in_range8 y = true →
  struct_unpack "Bbb" (byte_of_Z b :: le_split 1 x ++ le_split 1 y) =
    Ok [VInt b; VInt x; VInt y].
Proof.
  intros Hb Hxy. apply (struct_unpack_pack _ [C_B; C_b; C_b]); [done|by repeat split|].
  rewrite pack_mouse by done. by rewrite Hxy.
Qed.

Lemma mouse_run i w f b :
  w_hid_features w !! i = Some f → hf_class f = MouseFeature b → mouse i w = (Ok b, w).
Proof. intros Hf Hc. unfold mouse, hid_feature. mrun. rewrite Hf. cbn. by rewrite Hc. Qed.

Lemma EncodeInputReport_run i w f b x y :
  w_hid_features w !! i = Some f → hf_class f = MouseFeature b → small b →
  EncodeInputReport i x y w =
    (if in_range8 x && in_range8 y
     then Ok (byte_of_Z b :: le_split 1 x ++ le_split 1 y) else Raise StructError, w).
Proof.
  intros Hf Hc Hb. unfold EncodeInputReport.
  rewrite (M_bind_run _ _ _ _ _ (mouse_run _ _ _ _ Hf Hc)). unfold lift.
  by rewrite pack_mouse.
Qed.

Lemma button_run i w e r f b b' (op : M (world C) unit) :
  reporting i w e r → w_hid_features w !! i = Some f → hf_class f = MouseFeature b →
  small b' →
  op w = (set_class i (MouseFeature b');;
          send_if_connected i (EncodeInputReport i 0 0)) w →
  op w = (Ok (), after_calls [SendCall e (frame r (byte_of_Z <$> [b'; 0; 0]))]
                   (with_class i (MouseFeature b') w)).
Proof.
  intros Hr Hf Hc Hb ->.
  apply (send_if_connected_run i (with_class i (MouseFeature b') w) e r).
  { by apply reporting_with_class. }
  by rewrite (EncodeInputReport_run _ _ (set_hf_class (MouseFeature b') f) b') by
    (first [done | unfold with_class; cbn; by rewrite list_lookup_alter_eq, Hf]).
Qed.

(** A connected mouse sends each movement as one report that unpacks to the
    buttons and the displacement, raises struct.error without sending or changing
    anything when a displacement does not fit a signed byte, and reports each
    button press and release with the updated button bits. *)
Theorem mouse_sends i w e r f b :
  reporting i w e r → w_hid_features w !! i = Some f → hf_class f = MouseFeature b →
  small b →
  (∀ x y, if in_range8 x && in_range8 y then
     ∃ report, Move i x y w = (Ok (), after_calls [SendCall e (frame r report)] w) ∧
       struct_unpack "Bbb" report = Ok [VInt b; VInt x; VInt y]
   else Move i x y w = (Raise StructError, w)) ∧
  (∀ x, small x →
     ButtonDown i x w =
       (Ok (), after_calls [SendCall e (frame r (byte_of_Z <$> [Z.lor b x; 0; 0]))]
                 (with_class i (MouseFeature (Z.lor b x)) w)) ∧
     ButtonUp i x w =
       (Ok (), after_calls
                 [SendCall e (frame r (byte_of_Z <$> [Z.land b (Z.lnot x); 0; 0]))]
                 (with_class i (MouseFeature (Z.land b (Z.lnot x))) w))).
Proof.
  intros Hr Hf Hc Hb. split.
  - intros x y. pose proof (EncodeInputReport_run i w f b x y Hf Hc Hb) as Henc.
    destruct (in_range8 x && in_range8 y) eqn:Hxy.
    + eexists. split; [by apply send_if_connected_run|]. by apply unpack_mouse.
    + destruct Hr as (f' & c & cf & rd & fs & n & oe & Hf' & Hg & _).
      unfold Move, send_if_connected, HidFeature_IsConnected, hid_feature. mrun.
      rewrite Hf'. cbn [of_option]. rewrite Hg. cbn [is_not_none]. by rewrite Henc.
  - intros x Hx. assert (0 <= b < 2 ^ 8 ∧ 0 <= x < 2 ^ 8) as [Hb' Hx'] by done.
    split; eapply button_run; try done.
    + split; [apply Z.lor_nonneg; lia|].
      destruct (decide (Z.lor b x = 0)) as [->|Hne]; [lia|].
      apply (Z.log2_lt_pow2 _ 8); [pose proof (proj2 (Z.lor_nonneg b x)); lia|].
      rewrite Z.log2_lor by lia. apply Z.max_lub_lt.
      * destruct (decide (b = 0)) as [->|]; [done|]. apply Z.log2_lt_pow2; lia.
      * destruct (decide (x = 0)) as [->|]; [done|]. apply Z.log2_lt_pow2; lia.
    + unfold ButtonDown. by rewrite (M_bind_run _ _ _ _ _ (mouse_run _ _ _ _ Hf Hc)).
    + split; [apply Z.land_nonneg; lia|].
      assert (Z.land b (Z.lnot x) <= b); [|unfold small in *; lia].
      rewrite <- Z.ldiff_land. apply Z.ldiff_le; [lia|].
      apply Z.bits_inj'. intros j Hj. rewrite !Z.ldiff_spec, Z.bits_0.
      by destruct (Z.testbit b j), (Z.testbit x j).
    + unfold ButtonUp. by rewrite (M_bind_run _ _ _ _ _ (mouse_run _ _ _ _ Hf Hc)).
Qed.

(** ** The HID echo device *)

Lemma unpack_report_run data :
  unpack_report data =
    if decide (length data = 8%nat) then Ok (le_combine data) else Raise StructError.
Proof.
  unfold unpack_report. destruct (struct_unpack "<Q" data) as [vs|ex] eqn:Hu.
  - apply unpack_Q_inv in Hu as [-> Hlen]. by rewrite decide_True.
  - unfold struct_unpack in Hu. replace (parse_format "<Q") with (Some [C_Q]) in Hu by reflexivity.
    cbn [of_option mbind outcome_bind] in Hu. change (codes_size [C_Q]) with 8%nat in Hu.
    destruct (decide _); [done|]. by injection Hu as <-.
Qed.

Lemma echo_run i w f a b :
  w_hid_features w !! i = Some f → hf_class f = EchoFeature a b → echo i w = (Ok (a, b), w).
Proof. intros Hf Hc. unfold echo, hid_feature. mrun. rewrite Hf. cbn. by rewrite Hc. Qed.

Lemma echo_set_run i w e r f io fr data :
  reporting i w e r → w_hid_features w !! i = Some f → hf_class f = EchoFeature io fr →
  let result := if decide (length data = 8%nat)
    then (Ok (Some true), after_calls [SendCall e (frame r data)]
            (with_class i (EchoFeature (le_combine data) fr) w))
    else (Raise StructError, w) in
  EchoFeature_SetOutputReport i data w = result ∧
  EchoFeature_SetInputReport i data w = result.
Proof.
  intros Hr Hf Hc result. unfold result, EchoFeature_SetInputReport.
  fold (EchoFeature_SetOutputReport (C:=C) i data). split; [|rename result into _r];
    unfold EchoFeature_SetOutputReport;
    rewrite (M_bind_run _ _ _ _ _ (echo_run _ _ _ _ _ Hf Hc));
    unfold mbind at 1, M_bind at 1, lift at 1; rewrite unpack_report_run;
    (case_decide as Hlen; [|done]);
    change (set_class i (EchoFeature (le_combine data) fr)) with
      (set_class (C:=C) i (EchoFeature (le_combine data) fr));
    unfold mbind at 1, M_bind at 1;
    change (set_class i (EchoFeature (le_combine data) fr) w) with
      (@Ok unit (), with_class i (EchoFeature (le_combine data) fr) w);
    cbv iota beta; unfold mbind at 1, M_bind at 1, lift at 1;
    rewrite pack_Q_combine by done;
    rewrite (M_bind_run _ _ _ _ _ (SendReport_run _ _ _ _ data
      (reporting_with_class i _ w e r Hr))); done.
Qed.

Lemma echo_set_feature_run i w f io fr data :
  w_hid_features w !! i = Some f → hf_class f = EchoFeature io fr →
  EchoFeature_SetFeatureReport i data w =
    if decide (length data = 8%nat)
    then (Ok (Some true), with_class i (EchoFeature io (le_combine data)) w)
    else (Raise StructError, w).
Proof.
  intros Hf Hc. unfold EchoFeature_SetFeatureReport.
  rewrite (M_bind_run _ _ _ _ _ (echo_run _ _ _ _ _ Hf Hc)).
  unfold mbind at 1, M_bind at 1, lift at 1. rewrite unpack_report_run.
  by case_decide.
Qed.

(** A HID echo feature returns every 8-byte output (or input) report to the
    host as an input report with the same bytes, and keeps it for GET_REPORT;
    a feature report is stored without being sent and reads back unchanged; any
    other length raises struct.error and changes nothing. *)
Theorem echo_reports i w e r f io fr data :
  reporting i w e r → w_hid_features w !! i = Some f → hf_class f = EchoFeature io fr →
  if decide (length data = 8%nat) then
    (∃ w', hid_SetOutputReport i data w = (Ok (Some true), w') ∧
       hid_SetInputReport i data w = (Ok (Some true), w') ∧
       w' = after_calls [SendCall e (frame r data)]
              (with_class i (EchoFeature (le_combine data) fr) w) ∧
       hid_GetInputReport i w' = (Ok (Some data), w') ∧
       hid_GetOutputReport i w' = (Ok (Some data), w')) ∧
    (∃ w', hid_SetFeatureReport i data w = (Ok (Some true), w') ∧
       w' = with_class i (EchoFeature io (le_combine data)) w ∧
       hid_GetFeatureReport i w' = (Ok (Some data), w'))
  else
    hid_SetOutputReport i data w = (Raise StructError, w) ∧
    hid_SetInputReport i data w = (Raise StructError, w) ∧
    hid_SetFeatureReport i data w = (Raise StructError, w).
Proof.
  intros Hr Hf Hc.
  assert (∀ {A} (k : HidFeature → M (world C) A) w0 f0,
    w_hid_features w0 !! i = Some f0 → (f ← hid_feature i; k f) w0 = k f0 w0) as Hk.
  { intros A k w0 f0 Hf0. unfold hid_feature. mrun. by rewrite Hf0. }
  assert (∀ w0 f0, w_hid_features w0 !! i = Some f0 → ∀ a b,
    w_hid_features (with_class i (EchoFeature a b) w0) !! i =
      Some (set_hf_class (EchoFeature a b) f0)) as Hwith.
  { intros w0 f0 Hf0 a b. cbn. by rewrite list_lookup_alter_eq, Hf0. }
  cbn [hid_SetOutputReport hid_SetInputReport hid_SetFeatureReport hid_GetInputReport
       hid_GetOutputReport hid_GetFeatureReport hid_features].
  rewrite !(Hk _ _ _ _ Hf), Hc.
  rewrite (echo_set_feature_run _ _ _ _ _ _ Hf Hc).
  destruct (echo_set_run i w e r f io fr data Hr Hf Hc) as [-> ->].
  destruct (decide (length data = 8%nat)) as [Hlen|]; [|done]. split.
  - eexists. split; [done|]. split; [done|]. split; [done|].
    set (w' := after_calls _ _).
    assert (w_hid_features w' !! i = Some (set_hf_class (EchoFeature (le_combine data) fr) f))
      as Hf' by (by apply Hwith).
    rewrite !(Hk _ _ _ _ Hf'). cbn [hf_class set_hf_class].
    unfold some_report, EchoFeature_GetInputReport, EchoFeature_GetOutputReport.
    unfold mbind at 1 3, M_bind at 1 3.
    rewrite !(M_bind_run _ _ _ _ _ (echo_run _ _ _ _ _ Hf' eq_refl)).
    unfold lift. by rewrite !pack_Q_combine by done.
  - eexists. split; [done|]. split; [done|].
    set (w' := with_class _ _ _).
    assert (w_hid_features w' !! i = Some (set_hf_class (EchoFeature io (le_combine data)) f))
      as Hf' by (by apply Hwith).
    rewrite !(Hk _ _ _ _ Hf'). cbn [hf_class set_hf_class].
    unfold some_report, EchoFeature_GetFeatureReport.
    unfold mbind at 1, M_bind at 1.
    rewrite !(M_bind_run _ _ _ _ _ (echo_run _ _ _ _ _ Hf' eq_refl)).
    unfold lift. by rewrite !pack_Q_combine by done.
Qed.
End sending.

(** ** The keyboard against its specification *)

Section refinement.
Context {C : Type} `{!Chip C} `{!ChipLaws C}.
Implicit Types w : world C.

Lemma host_report_key_report m keys :
  attrs_ok m keys → host_report (key_report m keys) = Some (held m, pressed keys).
Proof.
  intros (Hm & Hlen & Hk). unfold host_report. rewrite key_report_values by done.
  by do 7 (destruct keys as [|? keys]; try done).
Qed.

(** The feature is in no gadget. *)
Definition unconnected (i : hfid) w : Prop :=
  ∃ f, w_hid_features w !! i = Some f ∧ hf_gadget f = None.

(** What an event does to the keyboard [i] with LEDs [l] whose user sees [s]: a
    refused one raises ValueError and changes nothing; an accepted one changes
    nothing but the attributes to such that stand for the new state, and hands the
    controller one report on the IN endpoint, which the host reads as that state
    (none if the feature is in no gadget). *)
Definition event_effect (i : hfid) (l : Z) w (e : key_event) (s : kb_spec) : Prop :=
  match spec_event e s with
  | None => ∃ msg, run_event i e w = (Raise (ValueError msg), w)
  | Some s' => ∃ m keys report,
      let w' := with_class i (KeyboardFeature m keys l) w in
      (held m, pressed keys) = s' ∧ host_report report = Some s' ∧
      (∀ ep r, reporting i w ep r →
         run_event i e w = chip_SendPacket ep (frame r report) w') ∧
      (unconnected i w → run_event i e w = (Ok (), w'))
  end.

Lemma run_event_effect i w e m keys l :
  keyboard_state i w = Some (m, keys, l) → attrs_ok m keys → event_ok e →
  event_effect i l w e (held m, pressed keys).
Proof.
  intros Hs Hok He. unfold event_effect. pose proof (event_attrs_spec e m keys Hok He) as Hspec.
  pose proof (key_event_run i w e m keys l Hs) as Hrun.
  destruct (spec_event e _) as [s|].
  - destruct Hspec as (m' & keys' & Ha & Hok' & Hs'). rewrite Ha in Hrun.
    exists m', keys', (key_report m' keys'). cbv zeta. split; [done|].
    split; [by rewrite host_report_key_report, Hs'|]. rewrite Hrun. split.
    + intros ep r Hr. by apply update_and_send_call.
    + intros (f & Hf & Hg). unfold set_class, modify_hid_feature, send_if_connected,
        HidFeature_IsConnected, hid_feature. mrun.
      cbn [w_hid_features set_hid_features]. rewrite list_lookup_alter_eq, Hf. cbn.
      by rewrite Hg.
  - destruct Hspec as [msg Ha]. rewrite Ha in Hrun. by exists msg.
Qed.

(** The world after an event, whatever the controller does with the report. *)
Lemma run_event_world i w e m keys l :
  keyboard_state i w = Some (m, keys, l) → attrs_ok m keys → event_ok e →
  ∃ m' keys', attrs_ok m' keys' ∧
    (held m', pressed keys') =
      default (held m, pressed keys) (spec_event e (held m, pressed keys)) ∧
    chip_only (with_class i (KeyboardFeature m' keys' l) w) (snd (run_event i e w)).
Proof.
  intros Hs Hok He. pose proof (event_attrs_spec e m keys Hok He) as Hspec.
  rewrite (key_event_run i w e m keys l Hs). destruct (spec_event e _) as [s|].
  - destruct Hspec as (m' & keys' & Ha & Hok' & Hs'). rewrite Ha.
    exists m', keys'. split; [done|]. split; [done|].
    change (chip_only (with_class i (KeyboardFeature m' keys' l) w)
      (snd (send_if_connected i (KeyboardFeature_GetInputReport i)
              (with_class i (KeyboardFeature m' keys' l) w)))).
    apply send_if_connected_only_chip, keyboard_input_only_chip.
  - destruct Hspec as [msg Ha]. rewrite Ha. exists m, keys. split; [done|]. split; [done|].
    unfold keyboard_state in Hs. destruct (w_hid_features w !! i) as [f|] eqn:Hf; [|done].
    cbn in Hs. destruct (hf_class f) eqn:Hc; simplify_eq.
    by rewrite <- Hc, (with_class_same i f w Hf).
Qed.

Lemma chip_only_with_class i c c' w w1 w2 :
  chip_only (with_class i c w) w1 → chip_only (with_class i c' w1) w2 →
  chip_only (with_class i c' w) w2.
Proof. intros <- <-. unfold chip_only. by rewrite <- (with_class_twice i c c' w). Qed.

Lemma run_events_world i w es m keys l :
  keyboard_state i w = Some (m, keys, l) → attrs_ok m keys → Forall event_ok es →
  ∃ m' keys', attrs_ok m' keys' ∧
    (held m', pressed keys') =
      foldl (λ s e, default s (spec_event e s)) (held m, pressed keys) es ∧
    chip_only (with_class i (KeyboardFeature m' keys' l) w)
      (snd (mfor es (λ e, protect (run_event i e)) w)).
Proof.
  intros Hs Hok Hes. revert w m keys Hs Hok.
  induction Hes as [|e es He Hes IH]; intros w m keys Hs Hok.
  - exists m, keys. split; [done|]. split; [done|].
    unfold keyboard_state in Hs. destruct (w_hid_features w !! i) as [f|] eqn:Hf; [|done].
    cbn in Hs. destruct (hf_class f) eqn:Hc; simplify_eq.
    by rewrite <- Hc, (with_class_same i f w Hf).
  - destruct (run_event_world i w e m keys l Hs Hok He) as (m1 & keys1 & Hok1 & Hs1 & Hw1).
    change (mfor (e :: es) (λ e, protect (run_event i e)) w) with
      (mfor es (λ e, protect (run_event i e)) (snd (run_event i e w))).
    destruct (IH (snd (run_event i e w)) m1 keys1) as (m2 & keys2 & Hok2 & Hs2 & Hw2);
      [|done|].
    { erewrite chip_only_state by exact Hw1. by eapply keyboard_with_class. }
    exists m2, keys2. split; [done|]. split; [by rewrite Hs2, Hs1|].
    by eapply chip_only_with_class.
Qed.

(** C1: A keyboard refines a set of held modifiers and a multiset of at most six
    pressed keys. Take any sequence of presses and releases of keys (codes of a
    byte other than 0) and modifiers (masks of a byte), refused ones included, with
    any controller: its calls may fail, they only do not reach back into the gadget.
    Then the modifier byte and the six slots stand for the specified state, nothing
    else but the controller has changed, and the input report reads at the host as
    that state. From there every further event has its specified effect: a press
    with six keys down and a release of a key that is up raise ValueError and change
    nothing; any other event moves to the new state and, on a connected keyboard,
    hands the controller exactly one report, which reads as the new state. *)
Theorem keyboard_refines i w es m keys l :
  keyboard_state i w = Some (m, keys, l) → attrs_ok m keys → Forall event_ok es →
  let w' := snd (mfor es (λ e, protect (run_event i e)) w) in
  let s := foldl (λ s e, default s (spec_event e s)) (held m, pressed keys) es in
  (∃ m' keys', (held m', pressed keys') = s ∧
     keyboard_state i w' = Some (m', keys', l) ∧
     chip_only (with_class i (KeyboardFeature m' keys' l) w) w') ∧
  (∃ report, KeyboardFeature_GetInputReport i w' = (Ok report, w') ∧
     host_report report = Some s) ∧
  (∀ ep r, reporting i w ep r → reporting i w' ep r) ∧
  ∀ e, event_ok e → event_effect i l w' e s.
Proof.
  intros Hs Hok Hes w' s.
  destruct (run_events_world i w es m keys l Hs Hok Hes) as (m' & keys' & Hok' & Hs' & Hw').
  fold w' s in Hs', Hw'.
  assert (keyboard_state i w' = Some (m', keys', l)) as Hk.
  { erewrite chip_only_state by exact Hw'. by eapply keyboard_with_class. }
  split; [by exists m', keys'|]. split.
  { exists (key_report m' keys'). split; [by eapply GetInputReport_run|].
    by rewrite host_report_key_report, Hs'. }
  split.
  - intros ep r Hr. rewrite <- Hw'. by apply (reporting_with_class i _ w ep r).
  - intros e He. rewrite <- Hs'. by apply run_event_effect.
Qed.
End refinement.

(** ** Witnesses *)

(** A keyboard, a mouse and a HID echo device, connected at high speed. *)
Definition keyboard_world : world call_log :=
  snd ((_ ← KeyboardGadget_init 0x001122; CompositeGadget_Connected UsbConstants.Speed.HIGH)
         blank_world).
Definition mouse_world : world call_log :=
  snd ((_ ← MouseGadget_init 0x001122; CompositeGadget_Connected UsbConstants.Speed.HIGH)
         blank_world).
Definition hid_echo_world : world call_log :=
  snd ((_ ← HidEchoGadget_init 0x001122; CompositeGadget_Connected UsbConstants.Speed.HIGH)
         blank_world).

Definition hid_of (w : world call_log) : HidFeature :=
  default (mkHidFeature None None (MouseFeature 0)) (w_hid_features w !! 0%nat).
Definition cf_of (w : world call_log) : CompositeFeature :=
  default (mkCompositeFeature false [] [] EchoCompositeFeature) (w_features w !! 0%nat).

(** [reporting] of a connected HID gadget, by evaluation. *)
Ltac solve_reporting w :=
  let f := eval vm_compute in (hid_of w) in
  let cf := eval vm_compute in (cf_of w) in
  exists f, 0%nat, cf;
  lazymatch eval vm_compute in (cf_class cf) with
  | HidCompositeFeature ?rd ?fs ?n _ ?oe => exists rd, fs, n, oe
  end;
  repeat split; by vm_compute.

Lemma keyboard_world_reporting : reporting 0 keyboard_world 0x81 0.
Proof. solve_reporting keyboard_world. Qed.
Lemma mouse_world_reporting : reporting 0 mouse_world 0x81 0.
Proof. solve_reporting mouse_world. Qed.
Lemma hid_echo_world_reporting : reporting 0 hid_echo_world 0x81 0.
Proof. solve_reporting hid_echo_world. Qed.

Lemma report_lengths_witness :
  report_bits 8 KEYBOARD_REPORT_DESC = Some (8 * py_len (replicate 8 Byte.x00)).
Proof.
  refine (proj1 (report_lengths 0 keyboard_world keyboard_world (replicate 8 Byte.x00)
                   (hid_of keyboard_world) _) _); by vm_compute.
Defined.

Lemma keyboard_refines_witness :
  let es := [Down 4; ModDown 2; Down 5; Up 4; Up 9; ModDown 1; ModUp 2] in
  let w := snd (mfor es (λ e, protect (run_event 0 e)) keyboard_world) in
  (∃ report, KeyboardFeature_GetInputReport 0 w = (Ok report, w) ∧
     host_report report = Some ({[0]}, {[+ 5 +]})) ∧
  event_effect 0 0 w (Down 6) ({[0]}, {[+ 5 +]}).
Proof.
  intros es w.
  destruct (keyboard_refines 0 keyboard_world es 0 no_keys 0)
    as (_ & (report & Hr & Hs) & _ & He).
  - by vm_compute.
  - split; [by split|]. split; [done|apply small_no_keys].
  - unfold es. rewrite !Forall_cons, Forall_nil. cbn. lia.
  - replace (foldl _ _ es) with (({[0]}, {[+ 5 +]}) : kb_spec) in Hs, He by (by vm_compute).
    split; [exists report; by split|]. apply He. by split.
Defined.

Lemma typed_text_arrives_witness :
  ∃ reports,
    WebTypeHandler 0 ["H"; "i"; "!"] keyboard_world =
      (Ok (), after_calls ((λ b, SendCall 0x81 (frame 0 b)) <$> reports) keyboard_world) ∧
    host_presses no_keys reports = [(2, 11); (0, 12); (2, 30)].
Proof.
  exact (typed_text_arrives 0 keyboard_world 0x81 0 0 (hid_of keyboard_world) ["H"; "i"; "!"]
           keyboard_world_reporting eq_refl eq_refl).
Defined.

Lemma mouse_sends_witness :
  ∃ report, Move 0 (-1) 127 mouse_world =
      (Ok (), after_calls [SendCall 0x81 (frame 0 report)] mouse_world) ∧
    struct_unpack "Bbb" report = Ok [VInt 0; VInt (-1); VInt 127].
Proof.
  exact (proj1 (mouse_sends 0 mouse_world 0x81 0 (hid_of mouse_world) 0
           mouse_world_reporting eq_refl eq_refl (conj (Z.le_refl 0) eq_refl)) (-1) 127).
Defined.

Lemma echo_reports_witness :
  let data := byte_of_Z <$> [1; 2; 3; 4; 5; 6; 7; 8] in
  ∃ w', hid_SetOutputReport 0 data hid_echo_world = (Ok (Some true), w') ∧
    hid_GetInputReport 0 w' = (Ok (Some data), w').
Proof.
  destruct (echo_reports 0 hid_echo_world 0x81 0 (hid_of hid_echo_world) 0 0
              (byte_of_Z <$> [1; 2; 3; 4; 5; 6; 7; 8])
              hid_echo_world_reporting eq_refl eq_refl) as [(w' & H1 & _ & _ & H2 & _) _].
  exists w'. by split.
Defined.
