(* ===== verification/HidProtocol.v ===== *)
(** The HID protocol of a composite feature: the framing of reports by their ID,
    the polling intervals, and the link between a HID interface and its
    features. *)

From S2P Require Import Prelude PyStruct UsbConstants HidConstants UsbDescriptors.
From S2P Require Import MsOs20Descriptors World Gadget Composite HidDescriptors.
From S2P Require Import HidGadget HidFeatures Devices TestDevice GadgetReads.
From S2P Require Import GadgetMsOs GadgetEndpoints HidReports.

#[local] Open Scope Z_scope.

Section protocol.
Context {C : Type} `{!Chip C} `{!DictOrder} `{!HidFeatures C}.
Implicit Types w : world C.

(** The feature [i] is a HID interface with these attributes. *)
Definition hid_interface_at (i : fid) w (a : HidAttrs) : Prop :=
  ∃ f, w_features w !! i = Some f ∧
    cf_class f = HidCompositeFeature (ha_report_desc a) (ha_features a)
                   (ha_interface_number a) (ha_in_endpoint a) (ha_out_endpoint a).

Lemma hid_attrs_run i w a : hid_interface_at i w a → hid_attrs i w = (Ok a, w).
Proof.
  intros (f & Hf & Hc). unfold hid_attrs, feature. mrun. rewrite Hf. cbn.
  rewrite Hc. by destruct a.
Qed.

(** What a handler's answer does to an interrupt OUT packet. *)
Definition halt_unless (i : fid) (endpoint : Z) (r : outcome (option bool) * world C) :
    outcome unit * world C :=
  match r with
  | (Ok (Some _), w') => (Ok (), w')
  | (Ok None, w') => CompositeFeature_HaltEndpoint i endpoint w'
  | (Raise e, w') => (Raise e, w')
  end.

(** A report framed by the sender (behind its ID unless that is 0) is
    dispatched by [ReceivePacket] to the feature with that ID and with the same
    data; a numbered report the feature refuses, or whose ID no feature has,
    halts the endpoint, and an empty packet is ignored. *)
Theorem framed_report_dispatch i w a endpoint :
  hid_interface_at i w a → ha_out_endpoint a = Some endpoint →
  (∀ r f data, 0 <= r < 256 → ha_features a !! r = Some f →
     (r ≠ 0 → ha_features a !! 0 = None) →
     HidCompositeFeature_ReceivePacket i endpoint (frame r data) w =
       if r =? 0
       then match hid_SetOutputReport f data w with
            | (Ok _, w') => (Ok (), w') | (Raise e, w') => (Raise e, w')
            end
       else halt_unless i endpoint (hid_SetOutputReport f data w)) ∧
  (ha_features a !! 0 = None →
     HidCompositeFeature_ReceivePacket i endpoint [] w = (Ok (), w) ∧
     ∀ b rest, ha_features a !! Z_of_byte b = None →
       HidCompositeFeature_ReceivePacket i endpoint (b :: rest) w =
         CompositeFeature_HaltEndpoint i endpoint w).
Proof.
  intros Ha Hout. unfold HidCompositeFeature_ReceivePacket. split.
  - intros r f data Hr Hf Hz. rewrite !(M_bind_run _ _ _ _ _ (hid_attrs_run _ _ _ Ha)).
    rewrite bool_decide_true by done. unfold frame.
    destruct (Z.eqb_spec r 0) as [->|Hne].
    + mrun. cbn [assert_]. rewrite Hf. by destruct (hid_SetOutputReport f data w) as [[]].
    + mrun. cbn [assert_]. rewrite (Hz Hne), Z_of_byte_of_Z, Z.mod_small, Hf by done.
      by destruct (hid_SetOutputReport f data w) as [[[]|]].
  - intros Hz. split; [|intros b rest Hb];
      rewrite (M_bind_run _ _ _ _ _ (hid_attrs_run _ _ _ Ha)), bool_decide_true by done;
      mrun; cbn [assert_]; rewrite Hz; [done|by rewrite Hb].
Qed.
End protocol.

(** ** Polling intervals *)

Section intervals.
Context {C : Type} `{!Chip C} `{!DictOrder} `{!HidFeatures C}.
Implicit Types w : world C.

(** The interface descriptor [l] has endpoints at exactly the addresses [es], all
    of its endpoint descriptors with the interval [v] and packet size [ps]. *)
Definition polls (h : heap) (l : loc) (v ps : Z) (es : gset Z) : Prop :=
  ∃ o, h !! l = Some o ∧ o_class o = InterfaceDescriptor ∧ dom (o_endpoints o) = es ∧
    ∀ c, c ∈ o_descriptors o → ∃ oc, h !! c = Some oc ∧
      (o_class oc = EndpointDescriptor →
       o_attrs oc !! "bInterval" = Some (VInt v) ∧
       o_attrs oc !! "wMaxPacketSize" = Some (VInt ps)).

Lemma polls_alloc h l v ps es o : polls h l v ps es → polls (h ++ [o]) l v ps es.
Proof.
  intros (ol & Hl & Hc & He & Hall). exists ol. split; [by apply lookup_app_l_Some|].
  split; [done|]. split; [done|]. intros c Hc'. destruct (Hall c Hc') as (oc & Hoc & Hr).
  exists oc. split; [by apply lookup_app_l_Some|done].
Qed.

(** Replacing an interface descriptor disturbs no other one. *)
Lemma polls_insert h l l' v ps es o o' :
  l ≠ l' → h !! l' = Some o' → o_class o' = InterfaceDescriptor →
  o_class o = InterfaceDescriptor → polls h l v ps es → polls (<[l' := o]> h) l v ps es.
Proof.
  intros Hne Hl' Hc' Hco (ol & Hl & Hc & He & Hall). exists ol.
  rewrite list_lookup_insert_ne by done. split; [done|]. split; [done|]. split; [done|].
  intros c Hcin. destruct (decide (c = l')) as [->|].
  - exists o. rewrite list_lookup_insert_eq by (by eapply lookup_lt_Some).
    split; [done|]. by rewrite Hco.
  - destruct (Hall c Hcin) as (oc & ? & ?). exists oc. by rewrite list_lookup_insert_ne.
Qed.

Lemma getattr_endpoint h l address ps v t :
  h !! l = Some (mkObj EndpointDescriptor
    (<["bInterval" := VInt v]> (<["wMaxPacketSize" := VInt ps]>
       (<["bmAttributes" := VInt t]> (<["bEndpointAddress" := VInt address]> ∅))))
    [] [] [] ∅ ∅ [] None) →
  getattr_int h l "bEndpointAddress" = Ok address.
Proof. intros Hl. unfold getattr_int, deref. rewrite Hl. done. Qed.

Lemma hid_endpoint_run l address ps v es w :
  polls (w_heap w) l v ps es → address ∉ es →
  ∃ h, hid_endpoint l address ps v w = (Ok (), set_heap h w) ∧
    polls h l v ps ({[address]} ∪ es) ∧
    ∀ l' v' es', l' ≠ l → polls (w_heap w) l' v' ps es' → polls h l' v' ps es'.
Proof.
  intros Hp Ha. pose proof Hp as (o & Ho & Hc & He & Hall).
  unfold hid_endpoint, in_heap, zoom, mbind, M_bind.
  rewrite (new_run EndpointDescriptor _
    (<["bInterval" := VInt v]> (<["wMaxPacketSize" := VInt ps]>
       (<["bmAttributes" := VInt UsbConstants.TransferType.INTERRUPT]>
          (<["bEndpointAddress" := VInt address]> ∅))))) by reflexivity.
  cbv iota beta. cbn [w_heap set_heap]. set (e := mkObj EndpointDescriptor _ _ _ _ _ _ _ _).
  set (h1 := w_heap w ++ [e]).
  assert (h1 !! length (w_heap w) = Some e) as He1.
  { unfold h1. by rewrite lookup_app_r, Nat.sub_diag by lia. }
  assert (h1 !! l = Some o) as Ho1 by (by apply lookup_app_l_Some).
  rewrite (AddEndpoint_run h1 l _ o address Ho1) by (by eapply getattr_endpoint).
  assert (o_endpoints o !! address = None) as -> by (apply not_elem_of_dom; congruence).
  set (o' := set_descriptors _ _). exists (<[l := o']> h1). split; [done|]. split.
  - exists o'. rewrite list_lookup_insert_eq by (by eapply lookup_lt_Some).
    split; [done|]. split; [done|]. split; [cbn; rewrite dom_insert_L; set_solver|].
    intros c Hcin. cbn in Hcin. apply elem_of_app in Hcin as [Hcin| ->%list_elem_of_singleton].
    + destruct (Hall c Hcin) as (oc & Hoc & Hr). destruct (decide (c = l)) as [->|].
      * exists o'. rewrite list_lookup_insert_eq by (by eapply lookup_lt_Some).
        split; [done|]. cbn. rewrite Hc. done.
      * exists oc. rewrite list_lookup_insert_ne by done.
        split; [by apply lookup_app_l_Some|done].
    + exists e. rewrite list_lookup_insert_ne; [by split|].
      intros ->. apply lookup_lt_Some in Ho. lia.
  - intros l' v' es' Hne Hp'. eapply polls_insert; [done|exact Ho1|done|done|].
    by apply polls_alloc.
Qed.

Lemma hid_endpoint_duplicate l address ps v es w :
  polls (w_heap w) l v ps es → address ∈ es →
  ∃ msg w', hid_endpoint l address ps v w = (Raise (RuntimeError msg), w').
Proof.
  intros (o & Ho & Hc & He & Hall) Ha.
  unfold hid_endpoint, in_heap, zoom, mbind, M_bind.
  rewrite (new_run EndpointDescriptor _
    (<["bInterval" := VInt v]> (<["wMaxPacketSize" := VInt ps]>
       (<["bmAttributes" := VInt UsbConstants.TransferType.INTERRUPT]>
          (<["bEndpointAddress" := VInt address]> ∅))))) by reflexivity.
  cbv iota beta. cbn [w_heap set_heap]. set (e := mkObj EndpointDescriptor _ _ _ _ _ _ _ _).
  rewrite (AddEndpoint_run _ l _ o address); [|by apply lookup_app_l_Some|].
  - rewrite <- He in Ha. apply elem_of_dom in Ha as [x ->]. eauto.
  - eapply getattr_endpoint. by rewrite lookup_app_r, Nat.sub_diag by lia.
Qed.

Definition hid_interface_obj (n s : Z) (children : list loc) : obj :=
  mkObj InterfaceDescriptor
    (<["iInterface" := VInt s]> (<["bInterfaceProtocol" := VInt 0]>
      (<["bInterfaceSubClass" := VInt 0]>
        (<["bInterfaceClass" := VInt UsbConstants.DeviceClass.HID]>
          (<["bInterfaceNumber" := VInt n]> ∅)))))
    [] children [] ∅ ∅ [] None.

Lemma hid_interface_run n s w :
  hid_interface n s w =
    (Ok (length (w_heap w)), set_heap (w_heap w ++ [hid_interface_obj n s []]) w).
Proof. unfold hid_interface, in_heap, zoom. by erewrite new_run. Qed.

Lemma polls_fresh h o1 o2 o3 l v ps n s c :
  o_class o3 = HidDescriptor → c = (length h + 2)%nat →
  o1 = hid_interface_obj n s [c] → o2 = hid_interface_obj n s [c] →
  l = length h ∨ l = (length h + 1)%nat →
  polls (h ++ [o1; o2; o3]) l v ps ∅.
Proof.
  intros H3 Hc H1 H2 Hl. exists (hid_interface_obj n s [c]).
  split; [destruct Hl as [->| ->]; rewrite lookup_app_r by lia;
          [rewrite Nat.sub_diag|replace (_ - _)%nat with 1%nat by lia]; cbn; congruence|].
  split; [done|]. split; [done|]. intros c' ->%list_elem_of_singleton. exists o3.
  rewrite Hc, lookup_app_r by lia. replace (_ - _)%nat with 2%nat by lia.
  split; [done|]. by rewrite H3.
Qed.

(** The two interface descriptors before their endpoints are added. *)
Lemma hid_interfaces_run {A} n s len (k : loc → loc → M (world C) A) w :
  ∃ h fs hs, fs ≠ hs ∧
    (∀ v ps, polls h fs v ps ∅) ∧ (∀ v ps, polls h hs v ps ∅) ∧
    (fs_interface_desc ← hid_interface n s;
     hs_interface_desc ← hid_interface n s;
     hid_desc ← in_heap (new HidDescriptor []);
     in_heap (AddDescriptor hid_desc HidConstants.DescriptorType.REPORT len);;
     in_heap (Add fs_interface_desc hid_desc);;
     in_heap (Add hs_interface_desc hid_desc);;
     k fs_interface_desc hs_interface_desc) w = k fs hs (set_heap h w).
Proof.
  set (h0 := w_heap w). set (c := (length h0 + 2)%nat).
  set (d := mkObj HidDescriptor ∅ [] [] [(HidConstants.DescriptorType.REPORT, len)]
              ∅ ∅ [] None).
  exists (h0 ++ [hid_interface_obj n s [c]; hid_interface_obj n s [c]; d]),
    (length h0), (length h0 + 1)%nat.
  split; [lia|]. split; [intros; eapply polls_fresh; eauto; done|].
  split; [intros; eapply polls_fresh; eauto; done|].
  rewrite (M_bind_run _ _ _ _ _ (hid_interface_run n s w)).
  rewrite (M_bind_run _ _ _ _ _ (hid_interface_run n s _)).
  cbn [w_heap set_heap]. fold h0. rewrite length_app. cbn [length].
  unfold in_heap, zoom. unfold mbind, M_bind.
  rewrite (new_run HidDescriptor [] ∅) by reflexivity. cbv iota beta. cbn [w_heap set_heap].
  rewrite <- !app_assoc. cbn [app]. rewrite !length_app. cbn [length].
  unfold AddDescriptor, Add, modify_obj, modify. cbv iota beta. cbn [w_heap set_heap].
  change (h0 ++ [hid_interface_obj n s []; hid_interface_obj n s []]) with
    (h0 ++ [hid_interface_obj n s []; hid_interface_obj n s []]).
  rewrite !alter_app_r. fold c.
  replace (alter _ (length h0) _) with
    (h0 ++ alter (λ o, set_descriptors (o_descriptors o ++ [c]) o) 0%nat
       (alter (λ o, set_hid_descriptors (o_hid_descriptors o ++
          [(HidConstants.DescriptorType.REPORT, len)]) o) 2%nat
          [hid_interface_obj n s []; hid_interface_obj n s [];
           mkObj HidDescriptor ∅ [] [] [] ∅ ∅ [] None])).
  - rewrite alter_app_r. reflexivity.
  - rewrite <- (Nat.add_0_r (length h0)) at 1. by rewrite alter_app_r.
Qed.

(** The rest of [HidCompositeFeature.__init__], from the interval on. *)
Definition hid_endpoints (report_desc : bytes) (feats : gmap Z hfid)
    (ps ms n in_endpoint : Z) (out_endpoint : option Z) (fs hs : loc) : M (world C) fid :=
  e ← lift (interval_exponent ms);
  let fs_interval := e + 1 in
  if (fs_interval <? 1) || (fs_interval >? 16) then
    raise (ValueError "Full speed interval out of range")
  else
    hid_endpoint fs in_endpoint ps fs_interval;;
    let hs_interval := e + 4 in
    if (hs_interval <? 1) || (hs_interval >? 16) then
      raise (ValueError "High speed interval out of range")
    else
      hid_endpoint hs in_endpoint ps hs_interval;;
      match out_endpoint with
      | None => mret ()
      | Some out_endpoint =>
          hid_endpoint fs out_endpoint ps fs_interval;;
          hid_endpoint hs out_endpoint ps hs_interval
      end;;
      CompositeFeature_init
        (HidCompositeFeature report_desc feats n in_endpoint out_endpoint) [fs] [hs].

Lemma hid_endpoints_run report_desc feats ps ms n in_endpoint out_endpoint fs hs h w :
  fs ≠ hs → (∀ v ps, polls h fs v ps ∅) → (∀ v ps, polls h hs v ps ∅) →
  let addresses : gset Z := {[in_endpoint]} ∪
    match out_endpoint with Some a => {[a]} | None => ∅ end in
  match hid_endpoints report_desc feats ps ms n in_endpoint out_endpoint fs hs
          (set_heap h w) with
  | (Ok i, w') =>
      1 <= ms <= 4096 ∧ out_endpoint ≠ Some in_endpoint ∧
      w_features w' !! i = Some (mkCompositeFeature false [fs] [hs]
        (HidCompositeFeature report_desc feats n in_endpoint out_endpoint)) ∧
      polls (w_heap w') fs (Z.log2_up ms + 1) ps addresses ∧
      polls (w_heap w') hs (Z.log2_up ms + 4) ps addresses
  | (Raise x, _) =>
      (ms <= 0 ∧ x = ValueError "math domain error") ∨
      (32768 < ms ∧ x = ValueError "Full speed interval out of range") ∨
      (4096 < ms <= 32768 ∧ x = ValueError "High speed interval out of range") ∨
      (1 <= ms <= 4096 ∧ out_endpoint = Some in_endpoint ∧ ∃ msg, x = RuntimeError msg)
  end.
Proof.
  intros Hne Hfs Hhs addresses. unfold hid_endpoints, interval_exponent.
  destruct (Z.leb_spec ms 0); [by left|]. unfold mbind at 1, M_bind at 1, lift at 1.
  cbv zeta. set (e := Z.log2_up ms).
  assert (0 <= e) as He by apply Z.log2_up_nonneg.
  assert (ms <= 2 ^ 15 ↔ e <= 15) as H15 by (by apply Z.log2_up_le_pow2).
  assert (ms <= 2 ^ 12 ↔ e <= 12) as H12 by (by apply Z.log2_up_le_pow2).
  change (2 ^ 15) with 32768 in H15. change (2 ^ 12) with 4096 in H12.
  rewrite !(proj2 (Z.ltb_ge _ 1)), !Z.gtb_ltb by lia. cbn [orb].
  destruct (Z.ltb_spec 16 (e + 1)); [right; left; split; [lia|done]|].
  destruct (hid_endpoint_run fs in_endpoint ps (e + 1) ∅ (set_heap h w))
    as (h1 & Hrun1 & Hfs1 & Hoth1); [apply Hfs|set_solver|].
  rewrite (M_bind_run _ _ _ _ _ Hrun1). cbn [w_heap set_heap] in Hoth1.
  destruct (Z.ltb_spec 16 (e + 4)); [right; right; left; split; [lia|done]|].
  destruct (hid_endpoint_run hs in_endpoint ps (e + 4) ∅ (set_heap h1 (set_heap h w)))
    as (h2 & Hrun2 & Hhs2 & Hoth2); [by apply Hoth1|set_solver|].
  rewrite (M_bind_run _ _ _ _ _ Hrun2). cbn [w_heap set_heap] in Hoth2.
  apply Hoth2 in Hfs1; [|done]. destruct out_endpoint as [out|].
  - destruct (decide (out = in_endpoint)) as [->|Hout].
    + destruct (hid_endpoint_duplicate fs in_endpoint ps (e + 1) ({[in_endpoint]} ∪ ∅)
        (set_heap h2 (set_heap h1 (set_heap h w)))) as (msg & w' & Hdup);
        [exact Hfs1|set_solver|].
      rewrite (M_bind_run_raise _ _ _ _ _ (M_bind_run_raise _ _ _ _ _ Hdup)).
      do 3 right. split; [lia|]. split; [done|by eexists].
    + destruct (hid_endpoint_run fs out ps (e + 1) ({[in_endpoint]} ∪ ∅)
        (set_heap h2 (set_heap h1 (set_heap h w)))) as (h3 & Hrun3 & Hfs3 & Hoth3);
        [exact Hfs1|set_solver|]. cbn [w_heap set_heap] in Hoth3.
      destruct (hid_endpoint_run hs out ps (e + 4) ({[in_endpoint]} ∪ ∅)
        (set_heap h3 (set_heap h2 (set_heap h1 (set_heap h w)))))
        as (h4 & Hrun4 & Hhs4 & Hoth4); [by apply Hoth3|set_solver|].
      assert ((hid_endpoint fs out ps (e + 1);; hid_endpoint hs out ps (e + 4))
        (set_heap h2 (set_heap h1 (set_heap h w))) =
          (Ok (), set_heap h4 (set_heap h3 (set_heap h2 (set_heap h1 (set_heap h w))))))
        as Hrun34 by (by rewrite (M_bind_run _ _ _ _ _ Hrun3)).
      rewrite (M_bind_run _ _ _ _ _ Hrun34).
      unfold CompositeFeature_init. mrun. split; [lia|]. split; [congruence|].
      split; [cbn [w_features set_features set_heap];
              by rewrite lookup_app_r, Nat.sub_diag by lia|].
      assert (addresses = {[out]} ∪ ({[in_endpoint]} ∪ ∅)) as -> by set_solver.
      split; [apply Hoth4; [done|exact Hfs3]|exact Hhs4].
  - unfold CompositeFeature_init. mrun. split; [lia|]. split; [done|].
    split; [cbn [w_features set_features set_heap];
              by rewrite lookup_app_r, Nat.sub_diag by lia|].
    assert (addresses = {[in_endpoint]} ∪ ∅) as -> by set_solver. by split.
Qed.

(** A HID interface is created exactly for intervals of 1 to 4096 ms and
    distinct endpoint addresses.  It then has the IN endpoint and, unless
    disabled, the OUT endpoint at both speeds, with the packet size given; their
    interval exponents are those of the smallest power of two of milliseconds not
    below the requested interval (counting from 1 at full speed and, in eighths
    of a millisecond, from 4 at high speed).  Other intervals raise ValueError. *)
Theorem hid_intervals report_desc feats ps ms n s in_endpoint out_endpoint w :
  let addresses : gset Z := {[in_endpoint]} ∪
    match out_endpoint with Some a => {[a]} | None => ∅ end in
  match HidCompositeFeature_init report_desc feats ps ms n s in_endpoint out_endpoint w with
  | (Ok i, w') =>
      1 <= ms <= 4096 ∧ out_endpoint ≠ Some in_endpoint ∧
      ∃ e fs hs, ms <= 2 ^ e < 2 * ms ∧
        w_features w' !! i = Some (mkCompositeFeature false [fs] [hs]
          (HidCompositeFeature report_desc feats n in_endpoint out_endpoint)) ∧
        polls (w_heap w') fs (e + 1) ps addresses ∧
        polls (w_heap w') hs (e + 4) ps addresses
  | (Raise x, _) =>
      (ms <= 0 ∧ x = ValueError "math domain error") ∨
      (32768 < ms ∧ x = ValueError "Full speed interval out of range") ∨
      (4096 < ms <= 32768 ∧ x = ValueError "High speed interval out of range") ∨
      (1 <= ms <= 4096 ∧ out_endpoint = Some in_endpoint ∧ ∃ msg, x = RuntimeError msg)
  end.
Proof.
  intros addresses.
  pose (rest fs hs := hid_endpoints report_desc feats ps ms n in_endpoint out_endpoint fs hs).
  destruct (hid_interfaces_run n s (py_len report_desc) rest w)
    as (h & fs & hs & Hne & Hfs & Hhs & Hrun).
  change (HidCompositeFeature_init report_desc feats ps ms n s in_endpoint out_endpoint w)
    with ((fs_interface_desc ← hid_interface n s;
           hs_interface_desc ← hid_interface n s;
           hid_desc ← in_heap (new HidDescriptor []);
           in_heap (AddDescriptor hid_desc HidConstants.DescriptorType.REPORT (py_len report_desc));;
           in_heap (Add fs_interface_desc hid_desc);;
           in_heap (Add hs_interface_desc hid_desc);;
           rest fs_interface_desc hs_interface_desc) w).
  rewrite Hrun. unfold rest. clear rest Hrun.
  pose proof (hid_endpoints_run report_desc feats ps ms n in_endpoint out_endpoint
                fs hs h w Hne Hfs Hhs) as Hrest.
  destruct (hid_endpoints _ _ _ _ _ _ _ fs hs (set_heap h w)) as [[i|x] w'].
  - destruct Hrest as (H1 & H2 & H3). split; [done|]. split; [done|].
    exists (Z.log2_up ms), fs, hs. split; [|done].
    split; [by apply Z.log2_up_le_pow2; lia|]. destruct (decide (ms = 1)) as [->|]; [done|].
    pose proof (Z.log2_up_spec ms ltac:(lia)) as [Hlt _].
    pose proof (Z.log2_up_pos ms ltac:(lia)).
    replace (Z.log2_up ms) with (Z.succ (Z.pred (Z.log2_up ms))) by lia.
    rewrite Z.pow_succ_r by lia. lia.
  - exact Hrest.
Qed.
End intervals.

(** ** The link *)

Section link.
Context {C : Type} `{!Chip C} `{!DictOrder} `{!HidFeatures C}.
Implicit Types w : world C.

(** A loop of assignments to HID features. *)
Definition alter_all (g : Z → HidFeature → HidFeature) (l : list (Z * hfid))
    (fs : list HidFeature) : list HidFeature :=
  foldl (λ fs '(r, f), alter (g r) f fs) fs l.

Lemma link_loop_run (g : Z → HidFeature → HidFeature) (l : list (Z * hfid)) w :
  mfor l (λ '(r, f), modify_hid_feature f (g r)) w =
    (Ok (), set_hid_features (alter_all g l (w_hid_features w)) w).
Proof.
  revert w. induction l as [|[r f] l IH]; intros w; [by destruct w|].
  cbn [mfor]. unfold mbind, M_bind, modify_hid_feature at 1, modify.
  exact (IH (set_hid_features (alter (g r) f (w_hid_features w)) w)).
Qed.

Lemma alter_all_lookup g l fs r f :
  NoDup l.*2 → (r, f) ∈ l → alter_all g l fs !! f = g r <$> fs !! f.
Proof.
  unfold alter_all. revert fs. induction l as [|[r' f'] l IH]; intros fs Hnd Hin; [set_solver|].
  cbn [fmap list_fmap] in Hnd. apply NoDup_cons in Hnd as [Hf' Hnd]. cbn [foldl].
  apply elem_of_cons in Hin as [[= <- <-]|Hin].
  - assert (∀ fs : list HidFeature, foldl (λ fs '(r, f), alter (g r) f fs) fs l !! f = fs !! f) as Hsame.
    { clear IH Hnd. induction l as [|[r2 f2] l IH]; intros fs0; [done|].
      cbn in *. apply not_elem_of_cons in Hf' as [Hne Hf'].
      rewrite IH by done. by rewrite list_lookup_alter_ne. }
    by rewrite Hsame, list_lookup_alter_eq.
  - rewrite IH by done. rewrite list_lookup_alter_ne; [done|]. intros ->. apply Hf'.
    apply list_elem_of_fmap. by exists (r, f).
Qed.

(** No feature object is registered under two report IDs. *)
Definition one_id_each (feats : gmap Z hfid) : Prop :=
  ∀ r1 r2 f, feats !! r1 = Some f → feats !! r2 = Some f → r1 = r2.

Lemma items_one_id (feats : gmap Z hfid) :
  one_id_each feats → NoDup (dict_items feats).*2.
Proof.
  intros Hone. pose proof (NoDup_dict_keys feats) as Hnd.
  assert (∀ r f, (r, f) ∈ dict_items feats → feats !! r = Some f) as Hin
    by (intros; by apply elem_of_dict_items).
  induction (dict_items feats) as [|[r f] l IH]; cbn; [constructor|].
  cbn in Hnd. apply NoDup_cons in Hnd as [Hr Hnd]. apply NoDup_cons. split.
  - intros ([r' f'] & Heq & Hl)%list_elem_of_fmap. cbn in Heq. subst f'.
    assert (r' = r) as -> by (eapply Hone; apply Hin; [by apply list_elem_of_further|by apply list_elem_of_here]).
    apply Hr, list_elem_of_fmap. by exists (r, f).
  - apply IH; [done|]. intros r' f' Hl. by apply Hin, list_elem_of_further.
Qed.

Lemma feature_link_run i w a b :
  hid_interface_at i w a →
  ∃ w', modify_feature i (set_cf_gadget b) w = (Ok (), w') ∧ hid_interface_at i w' a ∧
    w_hid_features w' = w_hid_features w ∧ w_gadget w' = w_gadget w ∧
    (∃ f, w_features w' !! i = Some f ∧ cf_gadget f = b).
Proof.
  intros (f & Hf & Hc). eexists. split; [done|].
  assert (alter (set_cf_gadget b) i (w_features w) !! i = Some (set_cf_gadget b f)) as Hl
    by (by rewrite list_lookup_alter_eq, Hf).
  split; [by exists (set_cf_gadget b f)|]. split; [done|]. split; [done|].
  by exists (set_cf_gadget b f).
Qed.

(** Connecting a HID interface gives each of its features the interface and
    the report ID it is registered under; disconnecting takes both away, after
    which no feature can send (RuntimeError), and neither touches the gadget. *)
Theorem hid_link_lifecycle i w a :
  hid_interface_at i w a → one_id_each (ha_features a) →
  (∃ w', HidCompositeFeature_Connected i w = (Ok (), w') ∧ w_gadget w' = w_gadget w ∧
     CompositeFeature_IsConnected i w' = (Ok true, w') ∧
     ∀ r f hf, ha_features a !! r = Some f → w_hid_features w !! f = Some hf →
       w_hid_features w' !! f = Some (set_hf_link (Some i) (Some r) hf)) ∧
  (∃ w', HidCompositeFeature_Disconnected i w = (Ok (), w') ∧ w_gadget w' = w_gadget w ∧
     CompositeFeature_IsConnected i w' = (Ok false, w') ∧
     ∀ r f hf, ha_features a !! r = Some f → w_hid_features w !! f = Some hf →
       w_hid_features w' !! f = Some (set_hf_link None None hf) ∧
       ∀ data, HidFeature_SendReport f data w' =
         (Raise (RuntimeError "Device is not connected."), w')).
Proof.
  intros Ha Hone. pose proof (items_one_id _ Hone) as Hnd. split.
  - destruct (feature_link_run i w a true Ha) as (w1 & Hrun & Ha1 & Hh & Hg & f1 & Hf1 & Hc1).
    set (g r := set_hf_link (Some i) (Some r)).
    exists (set_hid_features (alter_all g (dict_items (ha_features a)) (w_hid_features w1)) w1).
    split; [|split; [done|split]].
    + unfold HidCompositeFeature_Connected, CompositeFeature_Connected.
      rewrite (M_bind_run _ _ _ _ _ Hrun), (M_bind_run _ _ _ _ _ (hid_attrs_run _ _ _ Ha1)).
      apply (link_loop_run g).
    + unfold CompositeFeature_IsConnected, feature. mrun. cbn [w_features set_hid_features].
      rewrite Hf1. cbn. by rewrite Hc1.
    + intros r f hf Hr Hf. cbn [w_hid_features set_hid_features].
      rewrite (alter_all_lookup g _ _ r) by (done || by apply elem_of_dict_items).
      by rewrite Hh, Hf.
  - destruct (feature_link_run i w a false Ha) as (w1 & Hrun & Ha1 & Hh & Hg & f1 & Hf1 & Hc1).
    set (g := λ _ : Z, set_hf_link None None).
    exists (set_hid_features (alter_all g (dict_items (ha_features a)) (w_hid_features w1)) w1).
    assert (∀ r f hf, ha_features a !! r = Some f → w_hid_features w !! f = Some hf →
      alter_all g (dict_items (ha_features a)) (w_hid_features w1) !! f =
        Some (set_hf_link None None hf)) as Hlinks.
    { intros r f hf Hr Hf.
      rewrite (alter_all_lookup g _ _ r) by (done || by apply elem_of_dict_items).
      by rewrite Hh, Hf. }
    split; [|split; [done|split]].
    + unfold HidCompositeFeature_Disconnected, CompositeFeature_Disconnected.
      rewrite (M_bind_run _ _ _ _ _ Hrun), (M_bind_run _ _ _ _ _ (hid_attrs_run _ _ _ Ha1)).
      apply (link_loop_run g).
    + unfold CompositeFeature_IsConnected, feature. mrun. cbn [w_features set_hid_features].
      rewrite Hf1. cbn. by rewrite Hc1.
    + intros r f hf Hr Hf. split; [by eapply Hlinks|]. intros data.
      unfold HidFeature_SendReport, hid_feature. mrun. cbn [w_hid_features set_hid_features].
      by rewrite (Hlinks r f hf).
Qed.
End link.

(** ** Witnesses *)

Definition keyboard_attrs : HidAttrs :=
  Eval vm_compute in
    match fst (hid_attrs 0 keyboard_world) with
    | Ok a => a | Raise _ => mkHidAttrs [] ∅ 0 0 None
    end.

Lemma keyboard_interface : hid_interface_at 0 keyboard_world keyboard_attrs.
Proof. exists (cf_of keyboard_world). split; by vm_compute. Qed.

Lemma framed_report_dispatch_witness :
  HidCompositeFeature_ReceivePacket 0 0x01 [byte_of_Z 2] keyboard_world =
    match hid_SetOutputReport 0 [byte_of_Z 2] keyboard_world with
    | (Ok _, w') => (Ok (), w') | (Raise e, w') => (Raise e, w')
    end.
Proof.
  exact (proj1 (framed_report_dispatch 0 keyboard_world keyboard_attrs 0x01
           keyboard_interface eq_refl) 0 0%nat [byte_of_Z 2] (conj (Z.le_refl 0) eq_refl)
           eq_refl (λ H, False_ind _ (H eq_refl))).
Defined.

Lemma hid_link_lifecycle_witness :
  ∃ w', HidCompositeFeature_Disconnected 0 keyboard_world = (Ok (), w') ∧
    ∀ data, HidFeature_SendReport 0 data w' =
      (Raise (RuntimeError "Device is not connected."), w').
Proof.
  destruct (hid_link_lifecycle 0 keyboard_world keyboard_attrs keyboard_interface)
    as [_ (w' & H1 & _ & _ & H2)].
  - intros r1 r2 f H1 H2.
    assert (∀ r, ha_features keyboard_attrs !! r = Some f → r = 0) as Hz.
    { intros r Hr. change (ha_features keyboard_attrs) with ({[0 := 0%nat]} : gmap Z hfid) in Hr.
      by apply lookup_singleton_Some in Hr as [<- _]. }
    by rewrite (Hz r1 H1), (Hz r2 H2).
  - exists w'. split; [exact H1|].
    exact (proj2 (H2 0 0%nat (hid_of keyboard_world) eq_refl eq_refl)).
Defined.
