(* ===== verification/CompositeDispatch.v ===== *)
(** A composite gadget from its construction to the dispatch of requests and
    packets: which interface descriptors it accepts, the configurations it builds
    from its features, and the feature every interface and endpoint reaches. *)

From S2P Require Import Prelude PyStruct UsbConstants HidConstants UsbDescriptors.
From S2P Require Import MsOs20Descriptors World Gadget Composite TestDevice.
From S2P Require Import GadgetReads GadgetMsOs GadgetEndpoints.

#[local] Open Scope Z_scope.

(** ** Interface descriptors *)

Definition plain_int (o : obj) (name : string) : Z :=
  match o_attrs o !! name with Some (VInt z) => z | _ => 0 end.

(** Number and alternate setting of the interface descriptor at [l]. *)
Definition key_of (h : heap) (l : loc) : Z * Z :=
  match h !! l with
  | Some o => (plain_int o "bInterfaceNumber", plain_int o "bAlternateSetting")
  | None => (0, 0)
  end.

(** The interface descriptor at [l] has an endpoint with address [a]. *)
Definition lists (h : heap) (l : loc) (a : Z) : Prop :=
  ∃ o e, h !! l = Some o ∧ o_endpoints o !! a = Some e.

(** What the constructors and [AddEndpoint] leave at [l]: an interface descriptor
    with a number, whose dict indexes endpoint descriptors by their addresses. *)
Definition is_interface (h : heap) (l : loc) : Prop :=
  ∃ o n a, h !! l = Some o ∧ o_class o = InterfaceDescriptor ∧
    o_attrs o !! "bInterfaceNumber" = Some (VInt n) ∧
    default (VInt 0) (o_attrs o !! "bAlternateSetting") = VInt a ∧
    ∀ addr e, o_endpoints o !! addr = Some e → ∃ oe, h !! e = Some oe ∧
      o_class oe = EndpointDescriptor ∧
      o_attrs oe !! "bEndpointAddress" = Some (VInt addr).

(** Objects stay as they are. *)
Definition keeps (h h' : heap) : Prop := ∀ l o, h !! l = Some o → h' !! l = Some o.

Lemma keeps_app h h' : keeps h (h ++ h').
Proof. intros l o. apply lookup_app_l_Some. Qed.

Lemma is_interface_keeps h h' l : keeps h h' → is_interface h l → is_interface h' l.
Proof.
  intros Hk (o & n & a & Ho & Hc & Hn & Ha & He). exists o, n, a.
  split; [by apply Hk|]. do 3 (split; [done|]).
  intros addr e Haddr. destruct (He addr e Haddr) as (oe & ? & ?). exists oe.
  split; [by apply Hk|done].
Qed.

Lemma key_of_keeps h h' l : keeps h h' → is_interface h l → key_of h' l = key_of h l.
Proof. intros Hk (o & _ & _ & Ho & _). unfold key_of. by rewrite (Hk _ _ Ho), Ho. Qed.

Lemma lists_keeps h h' l a : keeps h h' → is_interface h l → lists h' l a ↔ lists h l a.
Proof. intros Hk (o & _ & _ & Ho & _). unfold lists. by rewrite (Hk _ _ Ho), Ho. Qed.

#[local] Hint Resolve keeps_app : core.

Lemma interface_attrs h l :
  is_interface h l →
  getattr_int h l "bInterfaceNumber" = Ok (key_of h l).1 ∧
  getattr_int h l "bAlternateSetting" = Ok (key_of h l).2.
Proof.
  intros (o & n & a & Ho & Hc & Hn & Ha & _). unfold getattr_int, deref, key_of, plain_int.
  rewrite Ho. cbn [of_option mbind outcome_bind]. unfold getattr. rewrite Hc.
  cbn [c_fields InterfaceDescriptor]. cbn -[field_value].
  unfold field_value. cbn. rewrite Hn. split; [done|].
  destruct (o_attrs o !! "bAlternateSetting") as [[]|]; cbn in *; congruence.
Qed.

(** ** Construction *)

(** An interface of a feature: its number and alternate setting, the descriptor
    and the feature. *)
Abbreviation entry := (Z * Z * (loc * fid))%type.

Definition interface_index (D : list entry) : gmap (Z * Z) loc :=
  list_to_map (reverse ((λ '(k, (l, _)), (k, l)) <$> D)).
Definition feature_index (D : list entry) : gmap Z fid :=
  list_to_map (reverse ((λ '(k, (_, f)), (k.1, f)) <$> D)).

Definition configuration_of (D : list entry) : obj :=
  mkObj ConfigurationDescriptor
    (<["MaxPower" := VInt 50]> {["bmAttributes" := VInt 0x80]}) []
    (D.*2.*1) [] (interface_index D) ∅ [] None.

Lemma interface_index_snoc D k l f :
  interface_index (D ++ [(k, (l, f))]) = <[k := l]> (interface_index D).
Proof. unfold interface_index. by rewrite fmap_app, reverse_app. Qed.

Lemma feature_index_snoc D k l f :
  feature_index (D ++ [(k, (l, f))]) = <[k.1 := f]> (feature_index D).
Proof. unfold feature_index. by rewrite fmap_app, reverse_app. Qed.

Lemma interface_index_None D k : interface_index D !! k = None ↔ k ∉ D.*1.
Proof.
  unfold interface_index. rewrite <- not_elem_of_list_to_map, fmap_reverse, elem_of_reverse.
  rewrite <- list_fmap_compose. erewrite (list_fmap_ext (fst ∘ _) fst); [done|].
  by intros ? [? []].
Qed.

Lemma interface_index_elem D k l :
  NoDup D.*1 → interface_index D !! k = Some l ↔ ∃ f, (k, (l, f)) ∈ D.
Proof.
  intros Hnd. unfold interface_index. rewrite <- elem_of_list_to_map.
  - rewrite elem_of_reverse, list_elem_of_fmap. split.
    + intros ([k' [l' f]] & [= -> ->] & ?). by exists f.
    + intros [f ?]. by exists (k, (l, f)).
  - rewrite fmap_reverse, reverse_Permutation, <- list_fmap_compose.
    erewrite (list_fmap_ext (fst ∘ _) fst); [done|]. by intros ? [? []].
Qed.

Lemma feature_index_None D n : feature_index D !! n = None ↔ n ∉ D.*1.*1.
Proof.
  unfold feature_index. rewrite <- not_elem_of_list_to_map, fmap_reverse, elem_of_reverse.
  rewrite <- !list_fmap_compose. erewrite (list_fmap_ext (fst ∘ _) (fst ∘ fst)); [done|].
  by intros ? [? []].
Qed.

Section construction.
Context {C : Type} `{!Chip C} `{!DictOrder} `{!Features C}.
Implicit Types w : world C.

(** The interfaces of the features [fs] at one speed, in the order the
    constructor adds them. *)
Definition interfaces_of (descs : CompositeFeature → list loc) w (f : fid) : list loc :=
  match w_features w !! f with Some x => descs x | None => [] end.
Definition feature_entries (h : heap) (f : fid) (ls : list loc) : list entry :=
  (λ l, (key_of h l, (l, f))) <$> ls.
Definition entries (descs : CompositeFeature → list loc) w (fs : list fid) : list entry :=
  fs ≫= λ f, feature_entries (w_heap w) f (interfaces_of descs w f).

(** The world while the constructor runs: both configurations follow the objects
    of [w]. *)
Definition building (Dfs Dhs : list entry) w : world C :=
  set_composite (mkComposite (feature_index Dfs) (feature_index Dhs)
                   (c_features (w_composite w)))
    (set_heap (w_heap w ++ [configuration_of Dfs; configuration_of Dhs]) w).

(** [m] goes on to [w'] if [P] holds and raises RuntimeError otherwise. *)
Definition unless_raises {A} (P : Prop) (m : M (world C) A) w (a : A) w' : Prop :=
  (P ∧ m w = (Ok a, w')) ∨ (¬ P ∧ ∃ msg w'', m w = (Raise (RuntimeError msg), w'')).

Lemma unless_raises_bind {A B} (P Q R : Prop) (m : M (world C) A) (f : A → M (world C) B)
    w a w1 b w2 :
  (R ↔ P ∧ Q) → unless_raises P m w a w1 → (P → unless_raises Q (f a) w1 b w2) →
  unless_raises R (m ≫= f) w b w2.
Proof.
  intros HR [[HP Hm]|(HP & msg & w'' & Hm)] Hf.
  - destruct (Hf HP) as [[HQ Hb]|(HQ & msg & w'' & Hb)].
    + left. split; [tauto|]. by rewrite (M_bind_run _ _ _ _ _ Hm).
    + right. split; [tauto|]. exists msg, w''. by rewrite (M_bind_run _ _ _ _ _ Hm).
  - right. split; [tauto|]. exists msg, w''. by rewrite (M_bind_run_raise _ _ _ _ _ Hm).
Qed.

(** What one of the two configurations is extended with. *)
Definition extended (high : bool) (Dfs Dhs E : list entry) w : world C :=
  if high then building Dfs (Dhs ++ E) w else building (Dfs ++ E) Dhs w.
Definition side (high : bool) (Dfs Dhs : list entry) : list entry :=
  if high then Dhs else Dfs.
Definition add_to (high : bool) (h : heap) : fid → loc → M (world C) unit :=
  if high then add_feature_interface (S (length h)) c_hs_interface_feature_map set_hs_map
  else add_feature_interface (length h) c_fs_interface_feature_map set_fs_map.

Lemma NoDup_snoc {A} (l : list A) x : NoDup l → NoDup (l ++ [x]) ↔ x ∉ l.
Proof.
  intros Hl. rewrite NoDup_app. split.
  - intros (_ & Hx & _) Hin. eapply Hx; [done|]. by apply list_elem_of_singleton.
  - intros Hx. split; [done|]. split; [|apply NoDup_singleton].
    by intros y Hy ->%list_elem_of_singleton.
Qed.

Lemma add_step high Dfs Dhs f l w :
  is_interface (w_heap w) l → NoDup (side high Dfs Dhs).*1 →
  unless_raises (NoDup (side high Dfs Dhs ++ feature_entries (w_heap w) f [l]).*1)
    (add_to high (w_heap w) f l) (building Dfs Dhs w) ()
    (extended high Dfs Dhs (feature_entries (w_heap w) f [l]) w).
Proof.
  intros Hl Hnd. set (h := w_heap w). set (D := side high Dfs Dhs).
  set (h' := h ++ [configuration_of Dfs; configuration_of Dhs]).
  destruct (interface_attrs h' l) as [Hnum Halt]; [eapply is_interface_keeps; [apply keeps_app|exact Hl]|].
  pose proof (key_of_keeps h h' l (keeps_app _ _) Hl) as Hkey. rewrite Hkey in Hnum, Halt.
  set (c := if high then S (length h) else length h).
  assert (h' !! c = Some (configuration_of D)) as Hc.
  { unfold h', c, D. rewrite lookup_app_r by (destruct high; lia).
    destruct high; [by rewrite Nat.sub_succ_l, Nat.sub_diag by done|by rewrite Nat.sub_diag]. }
  pose proof (AddInterface_run h' c l _ _ _ Hc Hnum Halt) as Hrun.
  rewrite <- (surjective_pairing (key_of h l)) in Hrun.
  rewrite fmap_app. change ((feature_entries h f [l]).*1) with [key_of h l].
  unfold unless_raises. fold D. rewrite NoDup_snoc, <- interface_index_None by done.
  assert (∀ m, AddInterface c l h' = m → in_heap (AddInterface c l) (building Dfs Dhs w) =
            (m.1, set_heap m.2 (building Dfs Dhs w))) as Hin.
  { intros [o h2] Ho. exact (in_heap_run _ _ _ _ Ho). }
  change (o_interfaces (configuration_of D)) with (interface_index D) in Hrun.
  destruct (interface_index D !! key_of h l) as [x|] eqn:Hx.
  - right. split; [done|]. apply Hin in Hrun.
    destruct high; (do 2 eexists; unfold add_to, add_feature_interface;
                    exact (M_bind_run_raise _ _ _ _ _ Hrun)).
  - left. split; [done|]. apply Hin in Hrun. cbn [fst snd] in Hrun.
    assert (<[c := set_descriptors (o_descriptors (configuration_of D) ++ [l])
              (set_interfaces (<[key_of h l := l]> (interface_index D)) (configuration_of D))]> h'
      = w_heap (extended high Dfs Dhs (feature_entries h f [l]) w)) as Hh.
    { unfold h', c, D. destruct high; rewrite insert_app_r_alt by lia.
      - rewrite Nat.sub_succ_l, Nat.sub_diag by done. cbn. unfold configuration_of.
        rewrite interface_index_snoc, !fmap_app. done.
      - rewrite Nat.sub_diag. cbn. unfold configuration_of.
        rewrite interface_index_snoc, !fmap_app. done. }
    rewrite Hh in Hrun.
    assert (getattr_int (w_heap (extended high Dfs Dhs (feature_entries h f [l]) w)) l
              "bInterfaceNumber" = Ok (key_of h l).1) as Hnum'.
    { destruct high; cbn [extended building w_heap set_composite set_heap];
        rewrite (proj1 (interface_attrs _ _ (is_interface_keeps _ _ _ (keeps_app _ _) Hl)));
        by rewrite (key_of_keeps (w_heap w)) by (done || apply keeps_app). }
    destruct high; unfold add_to, add_feature_interface;
      rewrite (M_bind_run _ _ _ _ _ Hrun); mrun; cbn [w_heap set_heap];
      rewrite Hnum'; unfold extended, building; cbn -[feature_index];
      by rewrite feature_index_snoc.
Qed.

Lemma add_all high f ls Dfs Dhs w :
  (∀ l, l ∈ ls → is_interface (w_heap w) l) → NoDup (side high Dfs Dhs).*1 →
  unless_raises (NoDup (side high Dfs Dhs ++ feature_entries (w_heap w) f ls).*1)
    (mfor ls (add_to high (w_heap w) f)) (building Dfs Dhs w) ()
    (extended high Dfs Dhs (feature_entries (w_heap w) f ls) w).
Proof.
  revert Dfs Dhs. induction ls as [|l ls IH]; intros Dfs Dhs Hls Hnd.
  { left. change (feature_entries _ _ []) with (@nil entry).
    unfold extended. rewrite !app_nil_r. by destruct high. }
  cbn [mfor]. set (x := feature_entries (w_heap w) f [l]).
  change (feature_entries (w_heap w) f (l :: ls)) with
    (x ++ feature_entries (w_heap w) f ls).
  set (E := feature_entries (w_heap w) f ls). set (D := side high Dfs Dhs) in *.
  apply (unless_raises_bind (NoDup (D ++ x).*1) (NoDup ((D ++ x) ++ E).*1) _ _ _ _ ()
           (extended high Dfs Dhs x w)).
  - rewrite (assoc_L (++)). split; [|tauto]. intros Hn. split; [|done].
    rewrite fmap_app in Hn. by apply NoDup_app in Hn as [].
  - apply add_step; [set_solver|done].
  - intros Hn. unfold extended, D in *. destruct high; cbn [side] in *.
    + rewrite (assoc_L (++) Dhs x E). apply IH; [set_solver|done].
    + rewrite (assoc_L (++) Dfs x E). apply IH; [set_solver|done].
Qed.

(** The constructor's loop body: both speeds of one feature. *)
Definition add_feature (h : heap) (f : fid) : M (world C) unit :=
  fs_interfaces ← GetFullSpeedInterfaces f;
  mfor fs_interfaces (add_to false h f);;
  hs_interfaces ← GetHighSpeedInterfaces f;
  mfor hs_interfaces (add_to true h f).

Definition distinct (Dfs Dhs : list entry) : Prop := NoDup Dfs.*1 ∧ NoDup Dhs.*1.

(** The feature [f] exists, and its interfaces are interface descriptors. *)
Definition is_feature w (f : fid) : Prop :=
  ∃ x, w_features w !! f = Some x ∧
    (∀ l, l ∈ cf_fs_interface_descs x → is_interface (w_heap w) l) ∧
    (∀ l, l ∈ cf_hs_interface_descs x → is_interface (w_heap w) l).

End construction.

Abbreviation fs_entries := (entries cf_fs_interface_descs).
Abbreviation hs_entries := (entries cf_hs_interface_descs).

Section constructor.
Context {C : Type} `{!Chip C} `{!DictOrder} `{!Features C}.
Implicit Types w : world C.

Lemma entries_cons descs w f fs :
  entries descs w (f :: fs) =
    feature_entries (w_heap w) f (interfaces_of descs w f) ++ entries descs w fs.
Proof. done. Qed.

Lemma NoDup_fst_app_l (D E : list entry) : NoDup (D ++ E).*1 → NoDup D.*1.
Proof. rewrite fmap_app. by intros [? _]%NoDup_app. Qed.

Lemma add_feature_run f Dfs Dhs w :
  is_feature w f → distinct Dfs Dhs →
  unless_raises (distinct (Dfs ++ fs_entries w [f]) (Dhs ++ hs_entries w [f]))
    (add_feature (w_heap w) f) (building Dfs Dhs w) ()
    (building (Dfs ++ fs_entries w [f]) (Dhs ++ hs_entries w [f]) w).
Proof.
  intros (x & Hx & Hfs & Hhs) [Hn1 Hn2].
  assert (interfaces_of cf_fs_interface_descs w f = cf_fs_interface_descs x) as Efs
    by (unfold interfaces_of; by rewrite Hx).
  assert (interfaces_of cf_hs_interface_descs w f = cf_hs_interface_descs x) as Ehs
    by (unfold interfaces_of; by rewrite Hx).
  rewrite !entries_cons, Efs, Ehs, !app_nil_r. unfold add_feature.
  assert (∀ D1 D2, GetFullSpeedInterfaces f (building D1 D2 w) =
            (Ok (cf_fs_interface_descs x), building D1 D2 w) ∧
          GetHighSpeedInterfaces f (building D1 D2 w) =
            (Ok (cf_hs_interface_descs x), building D1 D2 w)) as Hget.
  { intros. unfold GetFullSpeedInterfaces, GetHighSpeedInterfaces, feature. mrun.
    cbn [w_features building set_composite set_heap]. by rewrite Hx. }
  unfold unless_raises at 1. rewrite (M_bind_run _ _ _ _ _ (proj1 (Hget _ _))).
  eapply unless_raises_bind; [unfold distinct; reflexivity|
    by apply (add_all false f (cf_fs_interface_descs x))|].
  intros _. unfold unless_raises at 1. cbn [extended].
  rewrite (M_bind_run _ _ _ _ _ (proj2 (Hget _ _))).
  by apply (add_all true f (cf_hs_interface_descs x)).
Qed.

Lemma add_features_run fs Dfs Dhs w :
  (∀ f, f ∈ fs → is_feature w f) → distinct Dfs Dhs →
  unless_raises (distinct (Dfs ++ fs_entries w fs) (Dhs ++ hs_entries w fs))
    (mfor fs (add_feature (w_heap w))) (building Dfs Dhs w) ()
    (building (Dfs ++ fs_entries w fs) (Dhs ++ hs_entries w fs) w).
Proof.
  revert Dfs Dhs. induction fs as [|f fs IH]; intros Dfs Dhs Hfs Hn.
  { left. cbn. by rewrite !app_nil_r. }
  cbn [mfor]. change (f :: fs) with ([f] ++ fs). unfold entries. rewrite !bind_app.
  fold (fs_entries w [f]) (hs_entries w [f]) (fs_entries w fs) (hs_entries w fs).
  rewrite !(assoc_L (++)).
  eapply unless_raises_bind; [|apply add_feature_run; [set_solver|done]|].
  - instantiate (1 := distinct ((Dfs ++ fs_entries w [f]) ++ fs_entries w fs)
      ((Dhs ++ hs_entries w [f]) ++ hs_entries w fs)).
    unfold distinct. split; [|tauto]. intros [H1 H2]. split; [|done].
    split; by eapply NoDup_fst_app_l.
  - intros Hn'. apply IH; [set_solver|done].
Qed.

(** The world the constructor leaves. *)
Definition composite_built (device_desc : loc) (fs : list fid) w : world C :=
  let c := length (w_heap w) in
  set_composite (mkComposite (feature_index (fs_entries w fs))
                   (feature_index (hs_entries w fs)) fs)
    (World.set_gadget (mkGadget UsbConstants.Speed.UNKNOWN false device_desc c (S c)
                         ∅ None ∅ ∅ None None ∅ None None None)
      (set_heap (w_heap w ++ [configuration_of (fs_entries w fs);
                              configuration_of (hs_entries w fs)]) w)).

Lemma CompositeGadget_init_run device_desc fs w :
  (∀ f, f ∈ fs → is_feature w f) →
  unless_raises (distinct (fs_entries w fs) (hs_entries w fs))
    (CompositeGadget_init device_desc fs) w () (composite_built device_desc fs w).
Proof.
  intros Hfs. unfold unless_raises.
  assert (CompositeGadget_init device_desc fs w =
    ((mfor fs (add_feature (w_heap w));;
      Gadget_init device_desc (length (w_heap w)) (S (length (w_heap w)));;
      modify_composite (set_c_features fs)) (building [] [] w))) as ->.
  { unfold CompositeGadget_init, modify_composite, in_heap, zoom.
    do 2 (erewrite M_bind_run by reflexivity).
    do 2 (erewrite M_bind_run; [|erewrite new_run by reflexivity; reflexivity]).
    cbn [w_heap set_heap set_composite]. rewrite <- app_assoc, length_app.
    cbn [length]. rewrite Nat.add_1_r. done. }
  destruct (add_features_run fs [] [] w Hfs) as [[Hn Hrun]|(Hn & msg & w'' & Hrun)].
  { split; constructor. }
  - left. split; [exact Hn|]. by rewrite (M_bind_run _ _ _ _ _ Hrun).
  - right. split; [exact Hn|]. exists msg, w''.
    by rewrite (M_bind_run_raise _ _ _ _ _ Hrun).
Qed.
End constructor.

Lemma feature_index_lookup D n :
  feature_index D !! n = (λ e, e.2.2) <$> last (base.filter (λ e : entry, e.1.1 = n) D).
Proof.
  induction D as [|[k [l f]] D IH] using rev_ind; [done|].
  rewrite feature_index_snoc, filter_app. destruct (decide (k.1 = n)) as [<-|Hne].
  - rewrite lookup_insert_eq, filter_cons_True, filter_nil, last_snoc by done. done.
  - rewrite lookup_insert_ne, IH, filter_cons_False, filter_nil, app_nil_r by done. done.
Qed.

(** ** What a feature promises the gadget *)

(** Connecting a feature reaches nothing but the features. *)
Definition features_only {C} (w w' : world C) : Prop :=
  w_heap w' = w_heap w ∧ w_gadget w' = w_gadget w ∧ w_composite w' = w_composite w ∧
  w_chip w' = w_chip w ∧
  ∀ i, is_Some (w_features w !! i) → is_Some (w_features w' !! i).

Class FeatureLaws (C : Type) `{!Features C} := {
  feature_Connected_total i w : is_Some (w_features w !! i) →
    ∃ w', feature_Connected i w = (Ok (), w') ∧ features_only w w';
  feature_Disconnected_total i w : is_Some (w_features w !! i) →
    ∃ w', feature_Disconnected i w = (Ok (), w') ∧ features_only w w'
}.

#[export] Instance features_only_preorder {C} : PreOrder (@features_only C).
Proof.
  split; [by intros w|]. intros w1 w2 w3 (H1 & H2 & H3 & H4 & H5) (I1 & I2 & I3 & I4 & I5).
  split; [congruence|]. split; [congruence|]. split; [congruence|]. split; [congruence|]. eauto.
Qed.

Section dispatch.
Context {C : Type} `{!Chip C} `{!ChipTotal C} `{!DictOrder} `{!Features C} `{!FeatureLaws C}.
Implicit Types w : world C.

Lemma connect_all_run (m : fid → M (world C) unit) fs w :
  (∀ i w, is_Some (w_features w !! i) → ∃ w', m i w = (Ok (), w') ∧ features_only w w') →
  (∀ f, f ∈ fs → is_Some (w_features w !! f)) →
  ∃ w', mfor fs m w = (Ok (), w') ∧ features_only w w'.
Proof.
  intros Hm. revert w. induction fs as [|f fs IH]; intros w Hfs; [by exists w|].
  destruct (Hm f w) as (w1 & Hrun & Hw1); [apply Hfs; set_solver|].
  destruct (IH w1) as (w2 & Hrun2 & Hw2).
  { intros g Hg. apply Hw1, Hfs. set_solver. }
  exists w2. cbn [mfor]. rewrite (M_bind_run _ _ _ _ _ Hrun). split; [done|]. by etrans.
Qed.

(** The interfaces of the configuration in use at a speed, and the feature
    registered for an interface number. *)
Definition speed_entries (speed : Z) w (fs : list fid) : list entry :=
  if speed =? UsbConstants.Speed.FULL then fs_entries w fs else hs_entries w fs.

(** A connected composite device made of the features [fs] of the world [w0]: its
    current configuration and feature table are those its constructor built. *)
Record composite_of (fs : list fid) (speed : Z) w0 w : Prop := {
  of_heap : keeps (w_heap w0) (w_heap w);
  of_chip : g_chip (w_gadget w) = true;
  of_configuration : ∃ cd, fst (GetConfigurationDescriptor w) = Ok cd ∧
    w_heap w !! cd = Some (configuration_of (speed_entries speed w0 fs));
  of_map : GetInterfaceFeatureMap w = (Ok (feature_index (speed_entries speed w0 fs)), w)
}.

(** A device that is ready to be connected: its configurations and tables are
    those its constructor built of the features [fs] of the world [w0]. *)
Record composite_ready (fs : list fid) w0 w : Prop := {
  ready_heap : keeps (w_heap w0) (w_heap w);
  ready_fs : w_heap w !! g_fs_config_desc (w_gadget w) =
    Some (configuration_of (fs_entries w0 fs));
  ready_hs : w_heap w !! g_hs_config_desc (w_gadget w) =
    Some (configuration_of (hs_entries w0 fs));
  ready_composite : w_composite w =
    mkComposite (feature_index (fs_entries w0 fs)) (feature_index (hs_entries w0 fs)) fs
}.

Lemma composite_built_ready device_desc fs w :
  composite_ready fs w (composite_built device_desc fs w).
Proof.
  split; cbn -[lookup configuration_of length].
  - apply keeps_app.
  - by rewrite lookup_app_r, Nat.sub_diag by lia.
  - rewrite lookup_app_r by lia. by rewrite Nat.sub_succ_l, Nat.sub_diag by done.
  - done.
Qed.

Lemma connected_composite_of fs speed w0 w w' :
  composite_ready fs w0 w →
  speed = UsbConstants.Speed.FULL ∨ speed = UsbConstants.Speed.HIGH →
  features_only (World.set_gadget (set_link speed true (w_gadget w)) w) w' →
  composite_of fs speed w0 w'.
Proof.
  intros [Hk Hfs Hhs Hcomp] Hs (Hh & Hg & Hc & _).
  cbn [w_heap w_gadget w_composite World.set_gadget] in Hh, Hg, Hc. split.
  - by rewrite Hh.
  - by rewrite Hg.
  - unfold GetConfigurationDescriptor, GetSpeed, self, speed_entries. mrun.
    rewrite Hh, Hg. destruct Hs as [->| ->]; cbn -[lookup configuration_of].
    + exists (g_fs_config_desc (w_gadget w)). by rewrite Hg.
    + exists (g_hs_config_desc (w_gadget w)). by rewrite Hg.
  - unfold GetInterfaceFeatureMap, GetSpeed, self, speed_entries. mrun.
    rewrite Hg, Hc, Hcomp. by destruct Hs as [->| ->].
Qed.

Lemma CompositeGadget_Connected_run fs speed w0 w :
  composite_ready fs w0 w → (∀ f, f ∈ fs → is_Some (w_features w !! f)) →
  speed = UsbConstants.Speed.FULL ∨ speed = UsbConstants.Speed.HIGH →
  ∃ w', CompositeGadget_Connected speed w = (Ok (), w') ∧ composite_of fs speed w0 w' ∧
    g_ms_vendor_code_v1 (w_gadget w') = g_ms_vendor_code_v1 (w_gadget w).
Proof.
  intros Hr Hfs Hs. set (w1 := World.set_gadget (set_link speed true (w_gadget w)) w).
  destruct (connect_all_run feature_Connected fs w1) as (w' & Hrun & Hw').
  { intros i w2. apply feature_Connected_total. }
  { exact Hfs. }
  exists w'. split; [|split; [by eapply connected_composite_of|]].
  2: { destruct Hw' as (_ & -> & _). done. }
  change (mfor (c_features (w_composite w)) feature_Connected w1 = (Ok (), w')).
  by rewrite (ready_composite _ _ _ Hr).
Qed.

Lemma mapM_outcome_total {A B} (f : A → outcome B) l :
  (∀ x, x ∈ l → ∃ y, f x = Ok y) → ∃ k, mapM f l = Ok k.
Proof.
  induction l as [|x l IH]; intros Hf; [by exists []|].
  destruct (Hf x) as [y Hy]; [set_solver|]. destruct IH as [k Hk]; [set_solver|].
  exists (y :: k). by rewrite mapM_outcome_cons, Hy, Hk.
Qed.

(** An interface descriptor read as a setting: exactly its endpoint addresses. *)
Lemma setting_of_interface h l :
  is_interface h l →
  ∃ addrs es, setting_of h l = Ok ((key_of h l).1, (key_of h l).2, addrs) ∧
    starts_of h l = Ok es ∧ ∀ a, a ∈ addrs ↔ lists h l a.
Proof.
  intros Hl. destruct (interface_attrs h l Hl) as [Hn Ha].
  destruct Hl as (o & n & alt & Ho & Hc & _ & _ & He).
  set (es := (dict_items (o_endpoints o)).*2).
  assert (GetEndpoints h l = Ok es) as Hes by (unfold GetEndpoints, deref; by rewrite Ho).
  assert (endpoint_addresses h es = Ok (dict_items (o_endpoints o)).*1) as Haddrs.
  { unfold endpoint_addresses, es. apply mapM_outcome_Ok, Forall2_fmap_2, Forall_Forall2_diag.
    apply Forall_forall. intros [addr e] Hin%elem_of_dict_items. cbn.
    destruct (He addr e Hin) as (oe & Hoe & Hce & Hae).
    unfold getattr_int, deref. rewrite Hoe. cbn [of_option mbind outcome_bind].
    unfold getattr. rewrite Hce. cbn -[field_value]. unfold field_value. cbn. by rewrite Hae. }
  exists (dict_items (o_endpoints o)).*1, (if (key_of h l).2 =? 0 then es else []).
  split; [|split].
  - unfold setting_of. rewrite Hn, Ha. cbn. rewrite Hes. cbn. by rewrite Haddrs.
  - unfold starts_of. rewrite Ha. cbn. by rewrite Hes.
  - intros a. rewrite list_elem_of_fmap. split.
    + intros ([a' e] & -> & Hin%elem_of_dict_items). by exists o, e.
    + intros (o' & e & Ho' & Hin). assert (o' = o) as -> by congruence.
      exists (a, e). by rewrite elem_of_dict_items.
Qed.

(** Interface [n] of the configuration lists the endpoint address [a] in its
    alternate setting 0. *)
Definition listed (h : heap) (D : list entry) (a n : Z) : Prop :=
  ∃ l f, (n, 0, (l, f)) ∈ D ∧ lists h l a.

Lemma entries_interface descs w fs k l f :
  (∀ g x l, g ∈ fs → w_features w !! g = Some x → l ∈ descs x → is_interface (w_heap w) l) →
  (k, (l, f)) ∈ entries descs w fs → is_interface (w_heap w) l ∧ k = key_of (w_heap w) l.
Proof.
  intros Hfs Hin. unfold entries in Hin. apply list_elem_of_bind in Hin as (g & Hin & Hg).
  unfold feature_entries in Hin. apply list_elem_of_fmap in Hin as (l' & [= -> -> ->] & Hl).
  split; [|done]. unfold interfaces_of in Hl.
  destruct (w_features w !! g) as [x|] eqn:Hx; [by eapply Hfs|set_solver].
Qed.

Lemma speed_entries_interface speed w fs k l f :
  (∀ f, f ∈ fs → is_feature w f) → (k, (l, f)) ∈ speed_entries speed w fs →
  is_interface (w_heap w) l ∧ k = key_of (w_heap w) l.
Proof.
  intros Hfs. unfold speed_entries. destruct (_ =? _); apply entries_interface;
    intros g x l' Hg Hx; destruct (Hfs g Hg) as (x' & Hx' & H1 & H2);
    (assert (x' = x) as -> by congruence); auto.
Qed.

(** The interfaces of the current configuration are those of the features. *)
Lemma composite_interfaces fs speed w w' :
  (∀ f, f ∈ fs → is_feature w f) → distinct (fs_entries w fs) (hs_entries w fs) →
  composite_of fs speed w w' →
  ∃ cd ifs, fst (GetConfigurationDescriptor w') = Ok cd ∧
    GetInterfaces (w_heap w') cd = Ok ifs ∧
    (∀ l, l ∈ ifs ↔ ∃ f, (key_of (w_heap w) l, (l, f)) ∈ speed_entries speed w fs) ∧
    ∀ l, l ∈ ifs → is_interface (w_heap w) l ∧ is_interface (w_heap w') l ∧
      key_of (w_heap w') l = key_of (w_heap w) l.
Proof.
  intros Hfs Hd [Hkeep _ (cd & Hcd & Hconf) _]. set (D := speed_entries speed w fs) in *.
  assert (NoDup D.*1) as Hnd by (unfold D, speed_entries; destruct (_ =? _); apply Hd).
  exists cd, (dict_items (interface_index D)).*2. split; [done|].
  split; [unfold GetInterfaces, deref; by rewrite Hconf|].
  assert (∀ l, l ∈ (dict_items (interface_index D)).*2 ↔
    ∃ f, (key_of (w_heap w) l, (l, f)) ∈ D) as Hin.
  { intros l. rewrite list_elem_of_fmap. split.
    - intros ([k l'] & -> & Hk%elem_of_dict_items).
      apply interface_index_elem in Hk as [f Hf]; [|done]. exists f.
      cbn [snd]. by destruct (speed_entries_interface _ _ _ _ _ _ Hfs Hf) as [_ <-].
    - intros [f Hf]. exists (key_of (w_heap w) l, l). split; [done|].
      apply elem_of_dict_items, interface_index_elem; [done|]. by exists f. }
  split; [done|]. intros l [f Hf]%Hin.
  destruct (speed_entries_interface _ _ _ _ _ _ Hfs Hf) as [Hl _].
  split; [done|]. split; [by eapply is_interface_keeps|by apply key_of_keeps].
Qed.

(** The layout of a connected composite device is the list of its features'
    interfaces, up to the order of a dict. *)
Lemma layout_connected fs speed w w' :
  (∀ f, f ∈ fs → is_feature w f) → distinct (fs_entries w fs) (hs_entries w fs) →
  composite_of fs speed w w' →
  ∃ ds ss, layout w' = Ok (ds, ss) ∧
    ∀ a n, (∃ addrs, (n, 0, addrs) ∈ ds ∧ a ∈ addrs) ↔
      listed (w_heap w) (speed_entries speed w fs) a n.
Proof.
  intros Hfs Hd Hof. set (D := speed_entries speed w fs).
  destruct (composite_interfaces _ _ _ _ Hfs Hd Hof) as (cd & ifs & Hcd & Hifs & Hin & Hint).
  fold D in Hin.
  assert (∀ l, l ∈ ifs → ∃ addrs es,
    setting_of (w_heap w') l = Ok ((key_of (w_heap w) l).1, (key_of (w_heap w) l).2, addrs) ∧
    starts_of (w_heap w') l = Ok es ∧ ∀ a, a ∈ addrs ↔ lists (w_heap w) l a) as Hset.
  { intros l Hl. destruct (Hint l Hl) as (Hl1 & Hl2 & Hkey).
    destruct (setting_of_interface (w_heap w') l Hl2) as (addrs & es & H1 & H2 & H3).
    exists addrs, es. rewrite Hkey in H1. split; [done|]. split; [done|].
    intros a. rewrite H3. apply lists_keeps; [apply Hof|done]. }
  destruct (mapM_outcome_total (setting_of (w_heap w')) ifs) as [ds Hds].
  { intros l Hl. destruct (Hset l Hl) as (addrs & es & H1 & _). by eexists. }
  destruct (mapM_outcome_total (starts_of (w_heap w')) ifs) as [ss Hss].
  { intros l Hl. destruct (Hset l Hl) as (addrs & es & _ & H2 & _). by eexists. }
  exists ds, ss. split.
  { unfold layout. rewrite Hcd. cbn [mbind outcome_bind]. rewrite Hifs.
    cbn [mbind outcome_bind]. rewrite Hds. cbn [mbind outcome_bind]. by rewrite Hss. }
  apply mapM_outcome_Ok in Hds. intros a n. unfold listed. split.
  - intros (addrs & Hds' & Ha).
    apply list_elem_of_lookup in Hds' as [j Hj].
    destruct (Forall2_lookup_r _ _ _ _ _ Hds Hj) as (l & Hl & Hset').
    apply list_elem_of_lookup_2 in Hl. destruct (Hset l Hl) as (addrs' & es & H1 & _ & H3).
    rewrite H1 in Hset'. injection Hset' as Hn Hz ->.
    apply Hin in Hl as [f Hf]. exists l, f.
    rewrite <- Hn, <- Hz, <- surjective_pairing. split; [done|]. by apply H3.
  - intros (l & f & Hf & Ha).
    destruct (speed_entries_interface _ _ _ _ _ _ Hfs Hf) as [_ Hkey].
    assert (l ∈ ifs) as Hl by (apply Hin; exists f; by rewrite <- Hkey).
    destruct (Hset l Hl) as (addrs & es & H1 & _ & H3). rewrite <- Hkey in H1.
    apply list_elem_of_lookup in Hl as [j Hj].
    destruct (Forall2_lookup_l _ _ _ _ _ Hds Hj) as (d & Hd' & Hdj).
    rewrite H1 in Hdj. injection Hdj as <-. exists addrs.
    split; [by eapply list_elem_of_lookup_2|]. by apply H3.
Qed.

(** A composite gadget in service: it has the feature table of [D], and an
    endpoint map that routes exactly the endpoints [D] lists. *)
Record in_service (h : heap) (D : list entry) (w : world C) : Prop := {
  service_chip : g_chip (w_gadget w) = true;
  service_map : GetInterfaceFeatureMap w = (Ok (feature_index D), w);
  service_routed a n : listed h D a n →
    ∃ n', listed h D a n' ∧ GetInterfaceForEndpoint a w = (Ok (Some n'), w);
  service_unrouted a : (∀ n, ¬ listed h D a n) →
    GetInterfaceForEndpoint a w = (Ok None, w);
  service_active a n : a ∈ active_of n (w_gadget w) ↔ listed h D a n
}.

Lemma configured_in_service fs speed w w' :
  (∀ f, f ∈ fs → is_feature w f) → distinct (fs_entries w fs) (hs_entries w fs) →
  composite_of fs speed w w' →
  ∃ g c, SetConfiguration 1 w' = (Ok (Some true), set_chip c (World.set_gadget g w')) ∧
    in_service (w_heap w) (speed_entries speed w fs) (set_chip c (World.set_gadget g w')) ∧
    tables_only (w_gadget w') g.
Proof.
  intros Hfs Hd Hw'. set (D := speed_entries speed w fs).
  destruct (layout_connected _ _ _ _ Hfs Hd Hw') as (ds & ss & Hl & Hlisted). fold D in Hlisted.
  pose proof (runs_SetConfiguration_1 w' ds ss (of_chip _ _ _ _ Hw') Hl) as Hrun.
  set (g := configure ds (deactivate (w_gadget w'))) in *.
  pose proof (tables_only_selected ds (w_gadget w')) as Hg. fold g in Hg.
  destruct (configure_tables ds (deactivate (w_gadget w'))) as [H1 H2];
    [by intros a n|intros a n; by rewrite active_of_deactivate|]. fold g in H1, H2.
  assert (∀ a n, a ∈ active_of n g ↔ listed (w_heap w) D a n) as Hact.
  { intros a n. unfold g. rewrite elem_of_configure, active_of_deactivate, <- Hlisted. set_solver. }
  do 2 eexists. split; [exact Hrun|]. split; [|exact Hg]. unfold tables_only in Hg. split.
  - cbn [w_gadget set_chip World.set_gadget]. rewrite Hg. apply Hw'.
  - pose proof (of_map _ _ _ _ Hw') as Hm. fold D in Hm. revert Hm.
    unfold GetInterfaceFeatureMap, GetSpeed, self. mrun.
    cbn [w_gadget set_chip World.set_gadget w_composite].
    assert (g_speed g = g_speed (w_gadget w')) as -> by (by rewrite Hg).
    by destruct (_ =? _); [intros [= ->]|destruct (_ =? _); [intros [= ->]|]].
  - intros a n Hn%Hact. destruct (H2 a n Hn) as [n' Hn']. exists n'.
    split; [by apply Hact, H1|]. unfold GetInterfaceForEndpoint, self. mrun.
    cbn [w_gadget set_chip World.set_gadget]. by rewrite Hn'.
  - intros a Hn. unfold GetInterfaceForEndpoint, self. mrun.
    cbn [w_gadget set_chip World.set_gadget].
    destruct (g_endpoint_interface_map g !! a) as [n|] eqn:Ha; [|done].
    exfalso. by apply (Hn n), Hact, H1.
  - exact Hact.
Qed.

(** The feature that answers requests to interface [n], and to endpoint [a]. *)
Definition owner (D : list entry) (n : Z) : option fid := feature_index D !! n.

Lemma base_then_feature_run {A} (base : M (world C) (option A)) r i k o w :
  base w = (Ok None, w) → GetFeatureForIndex r i w = (Ok o, w) →
  base_then_feature base r i k w =
    match o with Some f => k f w | None => (Ok None, w) end.
Proof.
  intros Hb Hf. unfold base_then_feature.
  rewrite (M_bind_run _ _ _ _ _ Hb), (M_bind_run _ _ _ _ _ Hf). by destruct o.
Qed.

(** The handlers of a feature for a request type, and those of the base class. *)
Definition feature_read (typ : Z) (f : fid) : read_handler C :=
  if typ =? UsbConstants.Type_.STANDARD then feature_StandardControlRead f
  else if typ =? UsbConstants.Type_.CLASS then feature_ClassControlRead f
  else feature_VendorControlRead f.
Definition feature_write (typ : Z) (f : fid) : write_handler C :=
  if typ =? UsbConstants.Type_.STANDARD then feature_StandardControlWrite f
  else if typ =? UsbConstants.Type_.CLASS then feature_ClassControlWrite f
  else feature_VendorControlWrite f.
Definition base_read (typ : Z) : read_handler C :=
  if typ =? UsbConstants.Type_.STANDARD then StandardControlRead
  else if typ =? UsbConstants.Type_.CLASS then ClassControlRead
  else VendorControlRead.
Definition base_write (typ : Z) : write_handler C :=
  if typ =? UsbConstants.Type_.STANDARD then StandardControlWrite
  else if typ =? UsbConstants.Type_.CLASS then ClassControlWrite
  else VendorControlWrite.

Definition request_types : list Z :=
  [UsbConstants.Type_.STANDARD; UsbConstants.Type_.CLASS; UsbConstants.Type_.VENDOR].

(** The one request to an interface or endpoint that the base class answers, in a
    gadget without Microsoft OS descriptors. *)
Definition gadget_answers (typ recipient request : Z) : bool :=
  (typ =? UsbConstants.Type_.STANDARD) && (recipient =? UsbConstants.Recipient.INTERFACE)
  && (request =? UsbConstants.Request.SET_INTERFACE).

(** What the owner [o] answers, or a stall if there is none. *)
Definition handed {A} (o : option fid) (k : fid → M (world C) (option A)) w :
    outcome (option A) * world C :=
  match o with Some f => k f w | None => (Ok None, w) end.

Lemma vendor_read_stalls r q v i len w :
  r ≠ UsbConstants.Recipient.DEVICE → g_ms_vendor_code_v1 (w_gadget w) = None →
  VendorControlRead r q v i len w = (Ok None, w).
Proof.
  intros Hr Hv.
  change (VendorControlRead r q v i len w) with
    ((if bool_decide (g_ms_vendor_code_v1 (w_gadget w) = Some q) && ((r =? UsbConstants.Recipient.DEVICE) || (r =? UsbConstants.Recipient.INTERFACE))
      then GetMicrosoftOSDescriptorV1 r v i len
      else if bool_decide (g_ms_vendor_code_v2 (w_gadget w) = Some q)
              && (r =? UsbConstants.Recipient.DEVICE) && (v =? 0x0000) && (i =? 0x0007)
      then GetMicrosoftOSDescriptorV2 len else mret None) w).
  rewrite Hv, (proj2 (Z.eqb_neq r _) Hr), andb_false_r. done.
Qed.

Lemma base_stalls typ r q v i len data w :
  typ ∈ request_types → r = UsbConstants.Recipient.INTERFACE ∨ r = UsbConstants.Recipient.ENDPOINT →
  g_ms_vendor_code_v1 (w_gadget w) = None →
  base_read typ r q v i len w = (Ok None, w) ∧
  (gadget_answers typ r q = false → base_write typ r q v i data w = (Ok None, w)).
Proof.
  intros Ht Hr Hv. unfold request_types in Ht. rewrite !elem_of_cons, elem_of_nil in Ht. split.
  - destruct Ht as [->|[->|[->|[]]]]; [by destruct Hr as [->| ->]|done|].
    apply vendor_read_stalls; [|done]. by destruct Hr as [->| ->].
  - intros Hq. destruct Ht as [->|[->|[->|[]]]]; [|done..].
    change (StandardControlWrite r q v i data w = (Ok None, w)).
    unfold StandardControlWrite. destruct Hr as [->| ->].
    + change ((q =? UsbConstants.Request.SET_INTERFACE) = false) in Hq. rewrite Hq.
      by destruct (q =? UsbConstants.Request.SET_CONFIGURATION).
    + destruct (q =? UsbConstants.Request.SET_CONFIGURATION); [done|].
      by destruct (q =? UsbConstants.Request.SET_INTERFACE).
Qed.

(** A composite gadget passes on what the base class does not answer. *)
Lemma composite_split typ r q v i len data w :
  typ ∈ request_types → r = UsbConstants.Recipient.INTERFACE ∨ r = UsbConstants.Recipient.ENDPOINT →
  ControlRead CompositeGadget_methods (UsbConstants.Dir.IN + typ + r) q v i len w =
    base_then_feature (base_read typ r q v i len) r i (λ f, feature_read typ f r q v i len) w ∧
  ControlWrite CompositeGadget_methods (typ + r) q v i data w =
    base_then_feature (base_write typ r q v i data) r i (λ f, feature_write typ f r q v i data) w.
Proof.
  intros Ht Hr. unfold request_types in Ht. rewrite !elem_of_cons, elem_of_nil in Ht.
  by destruct Ht as [->|[->|[->|[]]]], Hr as [->| ->].
Qed.

Lemma requests_handed typ r q v i len data o w :
  typ ∈ request_types → r = UsbConstants.Recipient.INTERFACE ∨ r = UsbConstants.Recipient.ENDPOINT →
  g_ms_vendor_code_v1 (w_gadget w) = None → GetFeatureForIndex r i w = (Ok o, w) →
  ControlRead CompositeGadget_methods (UsbConstants.Dir.IN + typ + r) q v i len w =
    handed o (λ f, feature_read typ f r q v i len) w ∧
  (gadget_answers typ r q = false →
   ControlWrite CompositeGadget_methods (typ + r) q v i data w =
     handed o (λ f, feature_write typ f r q v i data) w).
Proof.
  intros Ht Hr Hv Ho. destruct (composite_split typ r q v i len data w Ht Hr) as [-> ->].
  destruct (base_stalls typ r q v i len data w Ht Hr Hv) as [Hread Hwrite]. split.
  - by apply base_then_feature_run.
  - intros Hq. apply base_then_feature_run; [by apply Hwrite|done].
Qed.

(** The feature the requests for an interface and for an endpoint go to. *)
Lemma feature_for_interface h D w n :
  in_service h D w →
  GetFeatureForIndex UsbConstants.Recipient.INTERFACE n w = (Ok (owner D n), w).
Proof. intros Hw. exact (M_bind_run _ _ _ _ _ (service_map _ _ _ Hw)). Qed.

Lemma feature_for_endpoint h D w a o :
  in_service h D w → GetInterfaceForEndpoint a w = (Ok o, w) →
  GetFeatureForIndex UsbConstants.Recipient.ENDPOINT a w = (Ok (o ≫= owner D), w).
Proof.
  intros Hw Ha. unfold GetFeatureForIndex.
  change (UsbConstants.Recipient.ENDPOINT =? _) with false at 1. cbv iota.
  rewrite Z.eqb_refl, (M_bind_run _ _ _ _ _ Ha). destruct o as [n|]; [|done].
  exact (M_bind_run _ _ _ _ _ (service_map _ _ _ Hw)).
Qed.

Lemma packet_run h D w a o data :
  in_service h D w → GetInterfaceForEndpoint a w = (Ok o, w) →
  CompositeGadget_ReceivePacket a data w =
    match o ≫= owner D with
    | Some f => feature_ReceivePacket f a data w
    | None => (Raise KeyError, w)
    end.
Proof.
  intros Hw Ha. unfold CompositeGadget_ReceivePacket. rewrite (M_bind_run _ _ _ _ _ Ha).
  rewrite (M_bind_run _ _ _ _ _ (service_map _ _ _ Hw)). unfold owner.
  destruct o as [n|]; [|done]. cbn [mbind option_bind]. by destruct (feature_index D !! n).
Qed.

(** Requests for the device never reach a feature. *)
Lemma device_requests rt q v i len data w :
  Z.land rt UsbConstants.Recipient.MASK = UsbConstants.Recipient.DEVICE →
  ControlRead CompositeGadget_methods rt q v i len w = ControlRead Gadget_methods rt q v i len w ∧
  ControlWrite CompositeGadget_methods rt q v i data w =
    ControlWrite Gadget_methods rt q v i data w.
Proof.
  intros Hr. unfold ControlRead, ControlWrite. rewrite Hr.
  assert (∀ A (base : M (world C) (option A)) k,
    base_then_feature base UsbConstants.Recipient.DEVICE i k w = base w) as Hbase.
  { intros A base k. unfold base_then_feature, mbind, M_bind.
    by destruct (base w) as [[[x|]|e] w']. }
  cbn [CompositeGadget_methods Gadget_methods m_StandardControlRead m_ClassControlRead
       m_VendorControlRead m_StandardControlWrite m_ClassControlWrite m_VendorControlWrite].
  unfold CompositeGadget_StandardControlRead, CompositeGadget_ClassControlRead,
    CompositeGadget_VendorControlRead, CompositeGadget_StandardControlWrite,
    CompositeGadget_ClassControlWrite, CompositeGadget_VendorControlWrite.
  split; unfold mbind at 1 2, M_bind at 1 2, lift;
    (destruct (assert_ _); [|done]); repeat case_match; by rewrite ?Hbase.
Qed.

(** Configuring and selecting settings keeps a composite device what it is. *)
Lemma composite_of_tables fs speed w0 w g c :
  composite_of fs speed w0 w → tables_only (w_gadget w) g →
  composite_of fs speed w0 (set_chip c (World.set_gadget g w)).
Proof.
  intros [Hk Hc (cd & Hcd & Hconf) Hm] Hg. unfold tables_only in Hg. split.
  - exact Hk.
  - cbn. by rewrite Hg.
  - exists cd. split; [|exact Hconf]. rewrite <- Hcd.
    apply GetConfigurationDescriptor_gadget; cbn; by rewrite Hg.
  - revert Hm. unfold GetInterfaceFeatureMap, GetSpeed, self. mrun.
    cbn [w_gadget set_chip World.set_gadget w_composite].
    assert (g_speed g = g_speed (w_gadget w)) as -> by (by rewrite Hg).
    by destruct (_ =? _); [intros [= ->]|destruct (_ =? _); [intros [= ->]|]].
Qed.

(** Among interface descriptors with distinct keys the loop finds the one asked
    for. *)
Lemma find_interface_run h n alt options found :
  (∀ l, l ∈ options → is_interface h l) →
  ∃ r, find_interface h n alt options found = Ok r ∧
    ((∀ l, l ∈ options → key_of h l ≠ (n, alt)) → r = found) ∧
    (∀ l, l ∈ options → key_of h l = (n, alt) →
       (∀ l', l' ∈ options → key_of h l' = (n, alt) → l' = l) → r = Some l).
Proof.
  revert found. induction options as [|o options IH]; intros found Ho.
  { exists found. split; [done|]. split; [done|]. intros l Hl. set_solver. }
  destruct (interface_attrs h o) as [Hn Ha]; [apply Ho; set_solver|].
  cbn [find_interface]. rewrite Hn, Ha. cbn [mbind outcome_bind].
  destruct (IH (if ((key_of h o).1 =? n) && ((key_of h o).2 =? alt) then Some o else found))
    as (r & Hr & Hnone & Hone); [intros; apply Ho; set_solver|].
  exists r. split; [exact Hr|].
  assert (((key_of h o).1 =? n) && ((key_of h o).2 =? alt) = true ↔ key_of h o = (n, alt)) as Hkey.
  { rewrite andb_true_iff, !Z.eqb_eq. destruct (key_of h o). cbn. split; [by intros [-> ->]|by intros [= -> ->]]. }
  destruct (decide (key_of h o = (n, alt))) as [He|Hne].
  - rewrite (proj2 Hkey He) in *. split; [intros Hno; by destruct (Hno o); [set_solver|]|].
    intros l Hl Hkl Huniq. rewrite <- (Huniq o) by (done || set_solver).
    destruct (decide (o ∈ options)) as [Hoo|Hoo].
    + apply Hone; [done|done|]. intros l' Hl' Hk'. rewrite (Huniq o) by (done || set_solver).
      apply Huniq; [set_solver|done].
    + apply Hnone. intros l' Hl' Hk'. apply Hoo. rewrite (Huniq o) by (done || set_solver).
      rewrite <- (Huniq l') by (done || set_solver). done.
  - assert (((key_of h o).1 =? n) && ((key_of h o).2 =? alt) = false) as Hf.
    { apply not_true_is_false. by rewrite Hkey. }
    rewrite Hf in *. split.
    + intros Hno. apply Hnone. set_solver.
    + intros l Hl Hkl Huniq. apply elem_of_cons in Hl as [->|Hl]; [done|].
      apply Hone; [done|done|]. intros l' Hl'. apply Huniq. set_solver.
Qed.

(** A setting of the composite device, as SET_INTERFACE finds it. *)
Lemma setting_endpoints_composite fs speed w w' n alt l f :
  (∀ f, f ∈ fs → is_feature w f) → distinct (fs_entries w fs) (hs_entries w fs) →
  composite_of fs speed w w' → (n, alt, (l, f)) ∈ speed_entries speed w fs →
  ∃ es addrs, setting_endpoints w' n alt = Ok (Some (es, addrs)) ∧
    ∀ a, a ∈ addrs ↔ lists (w_heap w) l a.
Proof.
  intros Hfs Hd Hof Hin. set (D := speed_entries speed w fs) in *.
  assert (NoDup D.*1) as Hnd by (unfold D, speed_entries; destruct (_ =? _); apply Hd).
  destruct (composite_interfaces _ _ _ _ Hfs Hd Hof) as (cd & ifs & Hcd & Hifs & Hiffs & Hint).
  fold D in Hiffs.
  destruct (speed_entries_interface _ _ _ _ _ _ Hfs Hin) as [Hl Hkl].
  assert (l ∈ ifs) as Hlin by (apply Hiffs; exists f; by rewrite <- Hkl).
  destruct (find_interface_run (w_heap w') n alt ifs None) as (r & Hr & _ & Hone).
  { intros l' Hl'. by apply Hint. }
  rewrite (Hone l) in Hr; [|done| |].
  - destruct (setting_of_interface (w_heap w') l) as (addrs & es & H1 & _ & H3); [by apply Hint|].
    unfold setting_of in H1. apply outcome_bind_Ok in H1 as (n' & _ & H1).
    apply outcome_bind_Ok in H1 as (alt' & _ & H1).
    apply outcome_bind_Ok in H1 as (es' & Hes & H1).
    apply outcome_bind_Ok in H1 as (addrs' & Haddrs & [= _ _ <-]).
    exists es', addrs'. split.
    + unfold setting_endpoints. rewrite Hcd. cbn [mbind outcome_bind]. rewrite Hifs.
      cbn [mbind outcome_bind]. rewrite Hr. cbn [mbind outcome_bind]. rewrite Hes.
      cbn [mbind outcome_bind]. by rewrite Haddrs.
    + intros a. rewrite H3. apply lists_keeps; [apply Hof|done].
  - rewrite (proj2 (proj2 (Hint l Hlin))). by symmetry.
  - intros l' Hl' Hk'. rewrite (proj2 (proj2 (Hint l' Hl'))) in Hk'.
    apply Hiffs in Hl' as [f' Hf']. rewrite Hk' in Hf'.
    apply list_elem_of_lookup in Hf' as [i Hi]. apply list_elem_of_lookup in Hin as [j Hj].
    assert (i = j) as ->.
    { eapply (NoDup_lookup _ _ _ _ Hnd); rewrite list_lookup_fmap; [by rewrite Hi|by rewrite Hj]. }
    congruence.
Qed.

(** A composite gadget can be made of given features exactly when no two
    interface descriptors of one speed share number and alternate setting
    (RuntimeError otherwise).  Each configuration then encodes the descriptors of
    its features in order and indexes them by number and alternate setting, and
    the table of each speed gives for an interface number the last feature that
    has it. *)
Theorem composite_construction device_desc fs w :
  (∀ f, f ∈ fs → is_feature w f) →
  match CompositeGadget_init device_desc fs w with
  | (Ok _, w') =>
      distinct (fs_entries w fs) (hs_entries w fs) ∧
      w_features w' = w_features w ∧ c_features (w_composite w') = fs ∧
      keeps (w_heap w) (w_heap w') ∧
      ∀ cd map D,
        (cd, map, D) ∈ [(g_fs_config_desc (w_gadget w'),
                         c_fs_interface_feature_map (w_composite w'), fs_entries w fs);
                        (g_hs_config_desc (w_gadget w'),
                         c_hs_interface_feature_map (w_composite w'), hs_entries w fs)] →
        (∃ o, w_heap w' !! cd = Some o ∧ o_descriptors o = D.*2.*1 ∧
           ∀ k l, o_interfaces o !! k = Some l ↔ ∃ f, (k, (l, f)) ∈ D) ∧
        ∀ n, map !! n = (λ e, e.2.2) <$> last (base.filter (λ e : entry, e.1.1 = n) D)
  | (Raise x, _) =>
      ¬ distinct (fs_entries w fs) (hs_entries w fs) ∧ ∃ msg, x = RuntimeError msg
  end.
Proof.
  intros Hfs. destruct (CompositeGadget_init_run device_desc fs w Hfs)
    as [[Hd Hrun]|(Hd & msg & w' & Hrun)]; rewrite Hrun; [|by eauto].
  split; [done|]. split; [done|]. split; [done|]. split; [apply keeps_app|].
  intros cd map D [[= -> -> ->]|[[= -> -> ->]|[]%elem_of_nil]%elem_of_cons]%elem_of_cons.
  - split; [|intros n; apply feature_index_lookup].
    exists (configuration_of (fs_entries w fs)). split.
    { cbn -[lookup configuration_of length]. by rewrite lookup_app_r, Nat.sub_diag by lia. }
    split; [done|]. intros k l. by apply interface_index_elem, Hd.
  - split; [|intros n; apply feature_index_lookup].
    exists (configuration_of (hs_entries w fs)). split.
    { cbn -[lookup configuration_of length]. rewrite lookup_app_r by lia.
      by rewrite Nat.sub_succ_l, Nat.sub_diag by done. }
    split; [done|]. intros k l. by apply interface_index_elem, Hd.
Qed.

(** What a composite gadget in service with the interfaces [D] does with requests and
    packets.  Requests for an interface, of every type, go to the owner of its
    number, and stall if there is none; but SET_INTERFACE is the gadget's own. *)
Definition interfaces_dispatched (D : list entry) w : Prop :=
  ∀ typ n q v len data, typ ∈ request_types →
    let r := UsbConstants.Recipient.INTERFACE in
    ControlRead CompositeGadget_methods (UsbConstants.Dir.IN + typ + r) q v n len w =
      handed (owner D n) (λ f, feature_read typ f r q v n len) w ∧
    (gadget_answers typ r q = false →
     ControlWrite CompositeGadget_methods (typ + r) q v n data w =
       handed (owner D n) (λ f, feature_write typ f r q v n data) w).

(** Requests for the endpoint [a] go to [o], packets received on it too; without
    an owner the former stall and the latter raise KeyError. *)
Definition endpoint_dispatched (a : Z) (o : option fid) w : Prop :=
  (∀ typ q v len data, typ ∈ request_types →
     let r := UsbConstants.Recipient.ENDPOINT in
     ControlRead CompositeGadget_methods (UsbConstants.Dir.IN + typ + r) q v a len w =
       handed o (λ f, feature_read typ f r q v a len) w ∧
     ControlWrite CompositeGadget_methods (typ + r) q v a data w =
       handed o (λ f, feature_write typ f r q v a data) w) ∧
  ∀ data, CompositeGadget_ReceivePacket a data w =
    match o with
    | Some f => feature_ReceivePacket f a data w
    | None => (Raise KeyError, w)
    end.

Lemma in_service_interfaces h D w :
  in_service h D w → g_ms_vendor_code_v1 (w_gadget w) = None → interfaces_dispatched D w.
Proof.
  intros Hw Hv typ n q v len data Ht r. apply requests_handed; [done|by left|done|].
  by apply (feature_for_interface h).
Qed.

Lemma in_service_endpoint h D w a o :
  in_service h D w → g_ms_vendor_code_v1 (w_gadget w) = None →
  GetInterfaceForEndpoint a w = (Ok o, w) → endpoint_dispatched a (o ≫= owner D) w.
Proof.
  intros Hw Hv Ha. split; [|intros data; by apply (packet_run h)].
  intros typ q v len data Ht r.
  destruct (requests_handed typ r q v a len data (o ≫= owner D) w) as [Hr Hwr];
    [done|by right|done|by apply (feature_for_endpoint h)|].
  split; [exact Hr|]. apply Hwr. unfold gadget_answers, r. by rewrite andb_false_r.
Qed.
End dispatch.

(** C22: Take a composite gadget right after construction, connection and
    SET_CONFIGURATION(1), with a controller that accepts every call (as the mock of
    the tests does) and features whose [Connected] succeeds.  Requests for an
    interface, be they standard, class or vendor requests, go to the feature that
    owns its number, except SET_INTERFACE, which the gadget handles itself.  Requests
    for an endpoint, and packets received on it, go to the owner of the one interface
    whose alternate setting 0 lists the endpoint.  Requests for other interfaces and
    endpoints stall, and packets on other endpoints raise KeyError.  Requests for the
    device are those of the base class. *)
Theorem composite_dispatch {C : Type} `{!Chip C, !DictOrder, !Features C}
    (accepts_calls : ChipTotal C) (connects : FeatureLaws C) device_desc fs speed (w : world C) :
  (∀ f, f ∈ fs → is_feature w f) → distinct (fs_entries w fs) (hs_entries w fs) →
  speed = UsbConstants.Speed.FULL ∨ speed = UsbConstants.Speed.HIGH →
  let D := speed_entries speed w fs in
  ∃ w', (CompositeGadget_init device_desc fs;; CompositeGadget_Connected speed;;
         ControlWrite CompositeGadget_methods 0x00
           UsbConstants.Request.SET_CONFIGURATION 1 0 []) w = (Ok (Some true), w') ∧
    interfaces_dispatched D w' ∧
    (∀ a n, listed (w_heap w) D a n → (∀ n', listed (w_heap w) D a n' → n' = n) →
       endpoint_dispatched a (owner D n) w') ∧
    (∀ a, (∀ n, ¬ listed (w_heap w) D a n) → endpoint_dispatched a None w') ∧
    ∀ rt q v i len data,
      Z.land rt UsbConstants.Recipient.MASK = UsbConstants.Recipient.DEVICE →
      ControlRead CompositeGadget_methods rt q v i len w' =
        ControlRead Gadget_methods rt q v i len w' ∧
      ControlWrite CompositeGadget_methods rt q v i data w' =
        ControlWrite Gadget_methods rt q v i data w'.
Proof.
  intros Hfs Hd Hs D.
  destruct (CompositeGadget_init_run device_desc fs w Hfs) as [[_ Hinit]|[[] _]]; [|done].
  destruct (CompositeGadget_Connected_run fs speed w _ (composite_built_ready device_desc fs w))
    as (w1 & Hconn & Hof & Hv1); [|exact Hs|].
  { intros f Hf. destruct (Hfs f Hf) as (x & Hx & _). by exists x. }
  destruct (configured_in_service _ _ _ _ Hfs Hd Hof) as (g & c & Hset & Hserv & Hg).
  fold D in Hserv. set (w2 := set_chip _ _) in *.
  assert (g_ms_vendor_code_v1 (w_gadget w2) = None) as Hv2 by (cbn; by rewrite Hg).
  exists w2. split; [|split; [|split; [|split]]].
  - rewrite (M_bind_run _ _ _ _ _ Hinit), (M_bind_run _ _ _ _ _ Hconn).
    exact (M_bind_run _ _ _ _ _ Hset).
  - by apply (in_service_interfaces (w_heap w)).
  - intros a n Hn Hone. destruct (service_routed _ _ _ Hserv a n Hn) as (n' & Hn' & Ha).
    rewrite (Hone n' Hn') in Ha.
    exact (in_service_endpoint (w_heap w) D w2 a (Some n) Hserv Hv2 Ha).
  - intros a Hn. exact (in_service_endpoint (w_heap w) D w2 a None Hserv Hv2
      (service_unrouted _ _ _ Hserv a Hn)).
  - intros. by apply device_requests.
Qed.
