(* ===== verification/EchoDevice.v ===== *)
(** The echo device end to end: the feature classes of the repository keep the
    promises a composite gadget relies on, and the gadget of echo_gadget.py, from
    its constructor to the packets it sends back. *)

From S2P Require Import Prelude PyStruct UsbConstants HidConstants UsbDescriptors.
From S2P Require Import MsOs20Descriptors World Gadget Composite HidDescriptors.
From S2P Require Import HidGadget HidFeatures Devices TestDevice GadgetReads.
From S2P Require Import GadgetMsOs GadgetEndpoints HidReports HidProtocol.
From S2P Require Import CompositeDispatch.

#[local] Open Scope Z_scope.

Section laws.
Context {C : Type} `{!Chip C} `{!DictOrder}.
Implicit Types w : world C.

(** A feature after its link is set, with the HID features [hs] it told. *)
Definition relinked (b : bool) (i : fid) (hs : list HidFeature) w : world C :=
  set_hid_features hs (set_features (alter (set_cf_gadget b) i (w_features w)) w).

Lemma relinked_echo b i w :
  modify_feature i (set_cf_gadget b) w = (Ok (), relinked b i (w_hid_features w) w).
Proof. by destruct w. Qed.

Lemma relinked_hid b i w f a (g : Z → HidFeature → HidFeature) :
  w_features w !! i = Some f → hid_interface_at i w a →
  (modify_feature i (set_cf_gadget b);;
   a ← hid_attrs i;
   mfor (dict_items (ha_features a)) (λ '(r, f), modify_hid_feature f (g r))) w =
    (Ok (), relinked b i (alter_all g (dict_items (ha_features a)) (w_hid_features w)) w).
Proof.
  intros Hf Ha. rewrite (M_bind_run _ _ _ _ _ (relinked_echo b i w)).
  assert (hid_interface_at i (relinked b i (w_hid_features w) w) a) as Ha'.
  { destruct Ha as (f' & Hf' & Hc). exists (set_cf_gadget b f'). split; [|done].
    cbn. by rewrite list_lookup_alter_eq, Hf'. }
  rewrite (M_bind_run _ _ _ _ _ (hid_attrs_run _ _ _ Ha')). by rewrite link_loop_run.
Qed.

Lemma feature_links_run i w f :
  w_features w !! i = Some f →
  (∃ hs, feature_Connected i w = (Ok (), relinked true i hs w)) ∧
  (∃ hs, feature_Disconnected i w = (Ok (), relinked false i hs w)).
Proof.
  intros Hf. assert (feature i w = (Ok f, w)) as Hrun
    by (unfold feature; mrun; by rewrite Hf).
  cbn [feature_Connected feature_Disconnected features].
  rewrite !(M_bind_run _ _ _ _ _ Hrun). unfold is_hid.
  destruct (cf_class f) as [|rd fs n ie oe] eqn:Hc.
  - split; eexists; apply relinked_echo.
  - assert (hid_interface_at i w (mkHidAttrs rd fs n ie oe)) as Ha by (by exists f).
    split; eexists.
    + exact (relinked_hid true i w f _ (λ r, set_hf_link (Some i) (Some r)) Hf Ha).
    + exact (relinked_hid false i w f _ (λ _, set_hf_link None None) Hf Ha).
Qed.

Lemma relinked_features_only b i hs w : features_only w (relinked b i hs w).
Proof.
  do 4 (split; [done|]). intros j. cbn. rewrite list_lookup_alter.
  destruct (decide (i = j)) as [->|]; [|done]. intros [x Hx]. rewrite Hx. by eexists.
Qed.

#[export] Instance feature_laws : FeatureLaws C.
Proof.
  split; intros i w [f Hf]; destruct (feature_links_run i w f Hf) as [[hs H1] [hs' H2]].
  - eexists. split; [exact H1|apply relinked_features_only].
  - eexists. split; [exact H2|apply relinked_features_only].
Qed.
End laws.

(** ** Checking features by evaluation *)

Definition is_endpointb (h : heap) : Z * loc → bool := λ '(addr, e),
  match h !! e with
  | Some o => bool_decide (o_class o = EndpointDescriptor)
              && bool_decide (o_attrs o !! "bEndpointAddress" = Some (VInt addr))
  | None => false
  end.

Definition is_int (v : value) : bool := match v with VInt _ => true | VStr _ => false end.

Definition is_interfaceb (h : heap) (l : loc) : bool :=
  match h !! l with
  | Some o =>
      bool_decide (o_class o = InterfaceDescriptor)
      && is_int (default (VStr []) (o_attrs o !! "bInterfaceNumber"))
      && is_int (default (VInt 0) (o_attrs o !! "bAlternateSetting"))
      && forallb (is_endpointb h) (map_to_list (o_endpoints o))
  | None => false
  end.

Definition is_featureb {C} (w : world C) (f : fid) : bool :=
  match w_features w !! f with
  | Some x => forallb (is_interfaceb (w_heap w))
                (cf_fs_interface_descs x ++ cf_hs_interface_descs x)
  | None => false
  end.

Lemma is_interfaceb_spec h l : is_interfaceb h l = true → is_interface h l.
Proof.
  unfold is_interfaceb, is_interface. destruct (h !! l) as [o|] eqn:Ho; [|done].
  rewrite !andb_true_iff, bool_decide_eq_true, forallb_forall.
  intros (((Hc & Hn) & Ha) & He).
  destruct (o_attrs o !! "bInterfaceNumber") as [[n|]|] eqn:En; [|done..].
  destruct (default (VInt 0) (o_attrs o !! "bAlternateSetting")) as [a|] eqn:Ea; [|done].
  exists o, n, a. do 4 (split; [done|]). intros addr e Haddr.
  specialize (He (addr, e)). rewrite <- list_elem_of_In, elem_of_map_to_list in He.
  specialize (He Haddr). cbn in He. destruct (h !! e) as [oe|]; [|done].
  rewrite andb_true_iff, !bool_decide_eq_true in He. exists oe. split; [done|apply He].
Qed.

Lemma is_featureb_spec {C} (w : world C) f : is_featureb w f = true → is_feature w f.
Proof.
  unfold is_featureb, is_feature. destruct (w_features w !! f) as [x|]; [|done].
  rewrite forallb_app, andb_true_iff, !forallb_forall. intros [H1 H2]. exists x.
  split; [done|]. split; intros l Hl; apply is_interfaceb_spec;
    [apply H1|apply H2]; by apply list_elem_of_In.
Qed.

Definition endpoint_list (h : heap) (l : loc) : list Z :=
  match h !! l with Some o => (map_to_list (o_endpoints o)).*1 | None => [] end.

Lemma lists_elem h l a : lists h l a ↔ a ∈ endpoint_list h l.
Proof.
  unfold lists, endpoint_list. split.
  - intros (o & e & -> & Ha). apply list_elem_of_fmap. exists (a, e).
    by rewrite elem_of_map_to_list.
  - destruct (h !! l) as [o|]; [|set_solver].
    intros ([a' e] & -> & Ha%elem_of_map_to_list)%list_elem_of_fmap. by exists o, e.
Qed.

(** The endpoints the alternate settings 0 of a configuration list, with their
    interfaces. *)
Definition listed_pairs (h : heap) (D : list entry) : list (Z * Z) :=
  D ≫= λ '((n, alt), (l, _)), if alt =? 0 then (λ a, (a, n)) <$> endpoint_list h l else [].

Lemma listed_elem h D a n : listed h D a n ↔ (a, n) ∈ listed_pairs h D.
Proof.
  unfold listed, listed_pairs. rewrite list_elem_of_bind. split.
  - intros (l & f & Hin & Ha%lists_elem). exists (n, 0, (l, f)). split; [|done].
    apply list_elem_of_fmap. by exists a.
  - intros ([[n' alt] [l f]] & Hin & HD). destruct (Z.eqb_spec alt 0) as [->|]; [|set_solver].
    apply list_elem_of_fmap in Hin as (a' & [= -> ->] & Ha). exists l, f.
    split; [done|by apply lists_elem].
Qed.

(** ** The gadget of echo_gadget.py *)

(** ** Routing a packet to an echo feature and back *)

Section routing.
Context {C : Type} `{!Chip C} `{!DictOrder}.
Implicit Types w : world C.

(** Feature [i] echoes packets. *)
Definition echoes_at (i : fid) w : Prop :=
  ∃ f, w_features w !! i = Some f ∧ cf_class f = EchoCompositeFeature ∧ cf_gadget f = true.

Lemma echo_packet_sends i a data w :
  echoes_at i w → g_chip (w_gadget w) = true → a = 1 ∨ a = 2 ∨ a = 3 →
  feature_ReceivePacket i a data w = chip_SendPacket (a + 0x80) data w.
Proof.
  intros (f & Hf & Hc & Hg) Hchip Ha.
  assert (feature i w = (Ok f, w)) as Hrun by (unfold feature; mrun; by rewrite Hf).
  cbn [feature_ReceivePacket features]. rewrite (M_bind_run _ _ _ _ _ Hrun).
  unfold is_hid. rewrite Hc. unfold EchoCompositeFeature_ReceivePacket.
  assert (Z.land a UsbConstants.Dir.IN = 0 ∧ Z.lor a UsbConstants.Dir.IN = a + 0x80 ∧
          (Z.land (a + 0x80) UsbConstants.Dir.IN =? 0) = false) as (Hland & Hlor & Hin)
    by (destruct Ha as [->|[->| ->]]; done).
  rewrite Hland, Hlor. change (0 =? 0) with true.
  unfold CompositeFeature_SendPacket. mrun. cbn [assert_]. rewrite Hrun.
  rewrite Hg. cbn [negb]. unfold SendPacket, self. mrun. rewrite Hchip. cbn [negb].
  by rewrite Hin.
Qed.

Lemma packet_routed a n m i data w :
  g_endpoint_interface_map (w_gadget w) !! a = Some n →
  GetInterfaceFeatureMap w = (Ok m, w) → m !! n = Some i →
  CompositeGadget_ReceivePacket a data w = feature_ReceivePacket i a data w.
Proof.
  intros Hr Hm Hn. unfold CompositeGadget_ReceivePacket.
  assert (GetInterfaceForEndpoint a w = (Ok (Some n), w)) as Hg
    by (unfold GetInterfaceForEndpoint, self; mrun; by rewrite Hr).
  rewrite (M_bind_run _ _ _ _ _ Hg), (M_bind_run _ _ _ _ _ Hm). cbn [mbind option_bind].
  by rewrite Hn.
Qed.
End routing.

Section echo_device.
Context {C : Type} `{!Chip C} `{!ChipTotal C} `{!DictOrder}.
Implicit Types w : world C.

(** The constructor up to the composite gadget, and from there on. *)
Definition echo_parts : M (world C) (loc * fid) :=
  device_desc ← google_device UsbConstants.ProductID.GOOGLE_ECHO_GADGET 0x0200;
  feature ← EchoCompositeFeature_init
    [(0, 4, 0x81, 0x01); (1, 5, 0x82, 0x02); (2, 6, 0x83, 0x03)];
  mret (device_desc, feature).

Definition echo_names (serial : text) (container_id : bytes) : M (world C) unit :=
  add_string 1 "Google Inc.";;
  add_string 2 "Echo Gadget";;
  AddStringDescriptor 3 serial 0x0409;;
  add_string 4 "Interrupt Echo";;
  add_string 5 "Bulk Echo";;
  add_string 6 "Isochronous Echo";;
  EnableMicrosoftOSDescriptorsV1 0x01;;
  winusb 0;; winusb 1;; winusb 2;;
  container ← in_heap (new ContainerIdDescriptor [("ContainerID", VStr container_id)]);
  AddDeviceCapabilityDescriptor container.

Lemma EchoGadget_init_split node container_id w :
  EchoGadget_init node container_id w =
    ('(d, f) ← echo_parts; CompositeGadget_init d [f];;
     echo_names (text_of (hex 6 node)) container_id) w.
Proof.
  unfold EchoGadget_init, echo_parts, echo_names, mbind, M_bind.
  destruct (google_device _ _ w) as [[d|e] w1]; [|done].
  by destruct (EchoCompositeFeature_init _ w1) as [[f|e] w2].
Qed.

Definition named (index : Z) (t : text) (g : Gadget) : Gadget :=
  set_strings (<[0x0409 := <[index := t]> (default ∅ (g_strings g !! 0x0409))]> (g_strings g)) g.

Lemma add_string_run index t w :
  1 <= index <= 255 →
  AddStringDescriptor index t 0x0409 w = (Ok (), World.set_gadget (named index t (w_gadget w)) w).
Proof.
  intros Hi. unfold AddStringDescriptor.
  by rewrite (proj2 (Z.ltb_ge _ _)), Z.gtb_ltb, (proj2 (Z.ltb_ge _ _)) by lia.
Qed.

(** Steps of a constructor that add to the descriptors and leave the device's
    configurations as they are. *)
Definition describes w w' : Prop :=
  ∃ g objs, w' = set_heap (w_heap w ++ objs) (World.set_gadget g w) ∧
    g_speed g = g_speed (w_gadget w) ∧ g_chip g = g_chip (w_gadget w) ∧
    g_fs_config_desc g = g_fs_config_desc (w_gadget w) ∧
    g_hs_config_desc g = g_hs_config_desc (w_gadget w).

Lemma describes_trans w1 w2 w3 : describes w1 w2 → describes w2 w3 → describes w1 w3.
Proof.
  intros (g & os & -> & H1 & H2 & H3 & H4) (g' & os' & -> & I1 & I2 & I3 & I4).
  exists g', (os ++ os'). cbn in *. rewrite (assoc_L (++)). repeat split; congruence.
Qed.

(** Nothing to do with Microsoft descriptors or capabilities yet. *)
Definition undescribed w : Prop :=
  g_ms_os20_config_subset (w_gadget w) = None ∧ g_bos_descriptor (w_gadget w) = None.

(** [m] succeeds, only describes, and leaves a world with [P]. *)
Definition describing (P : world C → Prop) (m : M (world C) unit) w : Prop :=
  ∃ w', m w = (Ok (), w') ∧ describes w w' ∧ P w'.

Lemma describing_bind P Q (m m' : M (world C) unit) w :
  describing P m w → (∀ w', P w' → describing Q m' w') → describing Q (m;; m') w.
Proof.
  intros (w1 & Hrun & Hd & HP) Hm. destruct (Hm w1 HP) as (w2 & Hrun2 & Hd2 & HQ).
  exists w2. rewrite (M_bind_run _ _ _ _ _ Hrun). split; [done|].
  split; [by eapply describes_trans|done].
Qed.

Lemma describing_gadget P (m : M (world C) unit) w g :
  m w = (Ok (), World.set_gadget g w) →
  g_speed g = g_speed (w_gadget w) → g_chip g = g_chip (w_gadget w) →
  g_fs_config_desc g = g_fs_config_desc (w_gadget w) →
  g_hs_config_desc g = g_hs_config_desc (w_gadget w) →
  P (World.set_gadget g w) → describing P m w.
Proof.
  intros Hm ? ? ? ? HP. eexists. split; [exact Hm|]. split; [|exact HP].
  exists g, []. rewrite app_nil_r. by destruct w.
Qed.

Lemma string_describes v1 index t w :
  1 <= index <= 255 → undescribed w ∧ g_ms_vendor_code_v1 (w_gadget w) = v1 →
  describing (λ w, undescribed w ∧ g_ms_vendor_code_v1 (w_gadget w) = v1)
    (AddStringDescriptor index t 0x0409) w.
Proof. intros Hi Hw. by eapply describing_gadget; [by apply add_string_run|..]. Qed.

Lemma winusb_describes n w :
  undescribed w → describing undescribed (winusb n) w.
Proof.
  intros [Hs Hb]. eapply describing_gadget.
  - unfold winusb, SetMicrosoftCompatId, self, modify_self. mrun.
    cbn [w_gadget World.set_gadget set_ms_compat_ids g_ms_os20_config_subset].
    by rewrite Hs.
  - done.
  - done.
  - done.
  - done.
  - by split.
Qed.

Lemma enable_v1_describes w :
  undescribed w ∧ g_ms_vendor_code_v1 (w_gadget w) = None →
  describing undescribed (EnableMicrosoftOSDescriptorsV1 0x01) w.
Proof.
  intros [Hw Hv]. eapply describing_gadget.
  - unfold EnableMicrosoftOSDescriptorsV1, self, modify_self. mrun.
    by rewrite Hv, decide_False by done.
  - done.
  - done.
  - done.
  - done.
  - exact Hw.
Qed.

Lemma container_describes container_id w :
  undescribed w →
  describing (λ _, True)
    (container ← in_heap (new ContainerIdDescriptor [("ContainerID", VStr container_id)]);
     AddDeviceCapabilityDescriptor container) w.
Proof.
  intros [_ Hb]. unfold describing, AddDeviceCapabilityDescriptor, self, modify_self, in_heap, zoom. mrun.
  erewrite new_run by reflexivity. cbn [w_heap w_gadget set_heap]. rewrite Hb.
  erewrite new_run by reflexivity. cbn [w_heap set_heap World.set_gadget].
  unfold AddDeviceCapability, Add, modify_obj. mrun.
  eexists. split; [reflexivity|]. split; [|done].
  set (h := w_heap w ++ _). rewrite <- (Nat.add_0_r (length h)), !alter_app_r. unfold h.
  do 2 eexists. split; [cbn [w_heap set_heap]; rewrite <- app_assoc; reflexivity|done].
Qed.

Lemma echo_names_describes serial container_id w :
  undescribed w → g_ms_vendor_code_v1 (w_gadget w) = None →
  describing (λ _, True) (echo_names serial container_id) w.
Proof.
  intros Hw Hv. unfold echo_names, add_string.
  do 6 (eapply describing_bind;
        [apply (string_describes None); [lia|eauto]|cbv beta; clear w Hw Hv; intros w [Hw Hv]]).
  eapply describing_bind; [by apply enable_v1_describes|clear w Hw Hv; intros w Hw].
  do 3 (eapply describing_bind; [by apply winusb_describes|clear w Hw; intros w Hw]).
  by apply container_describes.
Qed.

Lemma fmap_singleton {A B} (f : A → B) (l : list A) y :
  f <$> l = [y] → ∃ x, l = [x] ∧ f x = y.
Proof. destruct l as [|x []]; [done| |done]. intros [= <-]. by exists x. Qed.

(** The store and the features of the echo device when its constructor hands
    them to the composite gadget. *)
Definition echo_made g c hf (chip : C) : world C :=
  snd (echo_parts (mkWorld [] g c [] hf chip)).

#[local] Opaque echo_made.

Section made.
Context (g : Gadget) (c : Composite) (hf : list HidFeature) (chip : C).

Lemma echo_made_run :
  echo_parts (mkWorld [] g c [] hf chip) = (Ok (0%nat, 0%nat), echo_made g c hf chip).
Proof.
  Transparent echo_made. unfold echo_made. rewrite (surjective_pairing (echo_parts _)) at 1.
  f_equal.
Qed.

Lemma echo_made_feature f : f ∈ [0%nat] → is_feature (echo_made g c hf chip) f.
Proof. intros ->%list_elem_of_singleton. apply is_featureb_spec. by vm_compute. Qed.

Lemma echo_made_class :
  cf_class <$> w_features (echo_made g c hf chip) !! 0%nat = Some EchoCompositeFeature.
Proof. by vm_compute. Qed.

Lemma echo_made_distinct :
  distinct (fs_entries (echo_made g c hf chip) [0%nat]) (hs_entries (echo_made g c hf chip) [0%nat]).
Proof.
  assert (bool_decide (NoDup (fs_entries (echo_made g c hf chip) [0%nat]).*1) &&
          bool_decide (NoDup (hs_entries (echo_made g c hf chip) [0%nat]).*1) = true) as Hb
    by (by vm_compute).
  apply andb_true_iff in Hb as [H1%bool_decide_eq_true H2%bool_decide_eq_true].
  exact (conj H1 H2).
Qed.

Definition echo_entries (speed : Z) : list entry :=
  speed_entries speed (echo_made g c hf chip) [0%nat].

#[local] Opaque echo_entries.

Lemma echo_made_listed speed a n :
  speed = UsbConstants.Speed.FULL ∨ speed = UsbConstants.Speed.HIGH →
  listed (w_heap (echo_made g c hf chip)) (echo_entries speed) a n ↔
    (n = 0 ∧ (a = 0x01 ∨ a = 0x81)) ∨ (n = 1 ∧ (a = 0x02 ∨ a = 0x82)).
Proof.
  intros Hs. rewrite listed_elem.
  assert (listed_pairs (w_heap (echo_made g c hf chip)) (echo_entries speed) =
    [(0x81, 0); (0x01, 0); (0x82, 1); (0x02, 1)]) as ->
    by (destruct Hs as [->| ->]; by vm_compute).
  rewrite !elem_of_cons, elem_of_nil. split.
  - intros [[= -> ->]|[[= -> ->]|[[= -> ->]|[[= -> ->]|[]]]]]; tauto.
  - intros [[-> [->| ->]]|[-> [->| ->]]]; tauto.
Qed.

Lemma echo_made_owner speed n :
  speed = UsbConstants.Speed.FULL ∨ speed = UsbConstants.Speed.HIGH →
  n = 0 ∨ n = 1 ∨ n = 2 → owner (echo_entries speed) n = Some 0%nat.
Proof. by intros [->| ->] [->|[->| ->]]; vm_compute. Qed.

(** Interface 2 has a setting without endpoints and one with two. *)
Lemma echo_made_settings speed alt :
  speed = UsbConstants.Speed.FULL ∨ speed = UsbConstants.Speed.HIGH →
  alt = 0 ∨ alt = 1 →
  ∃ l f, (2, alt, (l, f)) ∈ echo_entries speed ∧
    ∀ a, lists (w_heap (echo_made g c hf chip)) l a ↔ alt = 1 ∧ (a = 0x03 ∨ a = 0x83).
Proof.
  intros Hs Ha.
  set (l := match (speed =? UsbConstants.Speed.FULL)%Z, (alt =? 0)%Z with
            | true, true => 13 | true, false => 14 | false, true => 17 | false, false => 18
            end%nat).
  assert ((λ e : entry, (e, endpoint_list (w_heap (echo_made g c hf chip)) e.2.1)) <$>
            base.filter (λ e : entry, e.1 = (2, alt)) (echo_entries speed) =
          [((2, alt, (l, 0%nat)), if alt =? 1 then [0x83; 0x03] else [])]) as Hin
    by (destruct Hs as [->| ->], Ha as [->| ->]; by vm_compute).
  apply fmap_singleton in Hin as (e & Hf & He). apply pair_equal_spec in He as [-> Hl].
  exists l, 0%nat. split.
  - eapply (list_elem_of_filter (λ e : entry, e.1 = (2, alt))). rewrite Hf.
    by apply list_elem_of_singleton.
  - intros a. cbn [fst snd] in Hl. rewrite lists_elem, Hl. clear -Ha. destruct Ha as [->| ->]; cbn.
    + rewrite elem_of_nil. lia.
    + rewrite !elem_of_cons, elem_of_nil. lia.
Qed.
End made.

Lemma describes_ready fs w0 w w' :
  describes w w' → composite_ready fs w0 w → composite_ready fs w0 w'.
Proof.
  intros (g & objs & -> & _ & _ & Hf & Hh) [Hk Hfs Hhs Hc]. split; cbn -[lookup configuration_of].
  - intros l o Hl. by apply lookup_app_l_Some, Hk.
  - rewrite Hf. by apply lookup_app_l_Some.
  - rewrite Hh. by apply lookup_app_l_Some.
  - exact Hc.
Qed.

Lemma echo_started node container_id speed g c hf chip :
  speed = UsbConstants.Speed.FULL ∨ speed = UsbConstants.Speed.HIGH →
  ∃ w, (EchoGadget_init node container_id;; CompositeGadget_Connected speed)
         (mkWorld [] g c [] hf chip) = (Ok (), w) ∧
    composite_of [0%nat] speed (echo_made g c hf chip) w ∧ echoes_at 0 w.
Proof.
  intros Hs. set (w0 := mkWorld [] g c [] hf chip).
  pose proof (echo_made_run g c hf chip) as Hmade. fold w0 in Hmade.
  pose proof (echo_made_class g c hf chip) as Hclass.
  pose proof (echo_made_feature g c hf chip) as Hfeature.
  pose proof (echo_made_distinct g c hf chip) as Hdistinct.
  revert Hmade Hclass Hfeature Hdistinct. generalize (echo_made g c hf chip). intros w1.
  intros Hmade (f & Hf & Hclass)%fmap_Some Hfeature Hdistinct.
  destruct (CompositeGadget_init_run 0%nat [0%nat] w1) as [[_ Hinit]|[[] _]]; [done| |done].
  pose proof (composite_built_ready 0%nat [0%nat] w1) as Hready.
  set (w2 := composite_built 0%nat [0%nat] w1) in *.
  destruct (echo_names_describes (text_of (hex 6 node)) container_id w2)
    as (w3 & Hnames & Hd & _); [by split|done|].
  assert (EchoGadget_init node container_id w0 = (Ok (), w3)) as Hrun.
  { rewrite EchoGadget_init_split, (M_bind_run _ _ _ _ _ Hmade).
    by rewrite (M_bind_run _ _ _ _ _ Hinit). }
  apply (describes_ready _ _ _ _ Hd) in Hready.
  assert (w_features w3 = w_features w1) as Hfs3
    by (destruct Hd as (g3 & objs & -> & _); reflexivity).
  set (w4 := World.set_gadget (set_link speed true (w_gadget w3)) w3).
  destruct (feature_links_run 0 w4 f) as [[hs Hconn] _]; [cbn; by rewrite Hfs3|].
  exists (relinked true 0 hs w4). split; [|split].
  - rewrite (M_bind_run _ _ _ _ _ Hrun).
    change ((mfor (c_features (w_composite w3)) feature_Connected) w4 =
              (Ok (), relinked true 0 hs w4)).
    rewrite (ready_composite _ _ _ Hready). cbn [c_features mfor].
    by rewrite (M_bind_run _ _ _ _ _ Hconn).
  - eapply connected_composite_of; [exact Hready|exact Hs|apply relinked_features_only].
  - exists (set_cf_gadget true f). split; [|split; [exact (eq_sym Hclass)|reflexivity]].
    cbn [relinked w_features set_hid_features set_features w4 World.set_gadget].
    rewrite list_lookup_alter_eq, Hfs3, Hf. reflexivity.
Qed.

Lemma echo_packet i a data w :
  echoes_at i w → g_chip (w_gadget w) = true → a = 1 ∨ a = 2 ∨ a = 3 →
  feature_ReceivePacket i a data w =
    (Ok (), set_chip (chip_step (SendCall (a + 0x80) data) (w_chip w)) w).
Proof. intros. rewrite echo_packet_sends by done. apply SendPacket_total. Qed.

(** A packet received on endpoint [a] goes back on the IN endpoint of the same
    number, and nothing else happens. *)
Definition echoing w (a : Z) : Prop := ∀ data,
  CompositeGadget_ReceivePacket a data w =
    (Ok (), set_chip (chip_step (SendCall (a + 0x80) data) (w_chip w)) w).

(** A packet on endpoint [a] has nowhere to go. *)
Definition unrouted w (a : Z) : Prop := ∀ data,
  CompositeGadget_ReceivePacket a data w = (Raise KeyError, w).

Lemma echoing_routed w a n m :
  echoes_at 0 w → g_chip (w_gadget w) = true → a = 1 ∨ a = 2 ∨ a = 3 →
  g_endpoint_interface_map (w_gadget w) !! a = Some n →
  GetInterfaceFeatureMap w = (Ok m, w) → m !! n = Some 0%nat → echoing w a.
Proof.
  intros He Hc Ha Hr Hm Hn data. rewrite <- (echo_packet 0 a data w He Hc Ha).
  by eapply packet_routed.
Qed.

Lemma unrouted_unmapped w a m :
  g_endpoint_interface_map (w_gadget w) !! a = None →
  GetInterfaceFeatureMap w = (Ok m, w) → unrouted w a.
Proof.
  intros Hr Hm data. unfold CompositeGadget_ReceivePacket.
  assert (GetInterfaceForEndpoint a w = (Ok None, w)) as Hg
    by (unfold GetInterfaceForEndpoint, self; mrun; by rewrite Hr).
  by rewrite (M_bind_run _ _ _ _ _ Hg), (M_bind_run _ _ _ _ _ Hm).
Qed.

(** SET_INTERFACE of the composite gadget is that of the base class. *)
Lemma composite_set_interface n alt w :
  ControlWrite CompositeGadget_methods 0x01 UsbConstants.Request.SET_INTERFACE alt n [] w =
    base_then_feature (SetInterface n alt) UsbConstants.Recipient.INTERFACE n
      (λ f, feature_StandardControlWrite f UsbConstants.Recipient.INTERFACE
              UsbConstants.Request.SET_INTERFACE alt n []) w.
Proof. reflexivity. Qed.

Lemma composite_set_interface_run n alt w w' :
  SetInterface n alt w = (Ok (Some true), w') →
  ControlWrite CompositeGadget_methods 0x01 UsbConstants.Request.SET_INTERFACE alt n [] w =
    (Ok (Some true), w').
Proof. intros Hs. rewrite composite_set_interface. exact (M_bind_run _ _ _ _ _ Hs). Qed.

Lemma composite_set_interface_raise n alt w e :
  fst (SetInterface n alt w) = Raise e →
  fst (ControlWrite CompositeGadget_methods 0x01 UsbConstants.Request.SET_INTERFACE alt n [] w) =
    Raise e.
Proof.
  intros Hs. rewrite composite_set_interface. unfold base_then_feature, mbind, M_bind.
  destruct (SetInterface n alt w) as [o w']. cbn in Hs. by subst.
Qed.

(** What the echo gadget's features look like to the rest of the proof. *)
Record echo_layout speed w0 : Prop := {
  layout_feature f : f ∈ [0%nat] → is_feature w0 f;
  layout_distinct : distinct (fs_entries w0 [0%nat]) (hs_entries w0 [0%nat]);
  layout_listed a n : listed (w_heap w0) (speed_entries speed w0 [0%nat]) a n ↔
    (n = 0 ∧ (a = 0x01 ∨ a = 0x81)) ∨ (n = 1 ∧ (a = 0x02 ∨ a = 0x82));
  layout_owner n : n = 0 ∨ n = 1 ∨ n = 2 →
    feature_index (speed_entries speed w0 [0%nat]) !! n = Some 0%nat;
  layout_settings alt : alt = 0 ∨ alt = 1 →
    ∃ l f, (2, alt, (l, f)) ∈ speed_entries speed w0 [0%nat] ∧
      ∀ a, lists (w_heap w0) l a ↔ alt = 1 ∧ (a = 0x03 ∨ a = 0x83)
}.

Lemma echo_made_layout speed g c hf chip :
  speed = UsbConstants.Speed.FULL ∨ speed = UsbConstants.Speed.HIGH →
  echo_layout speed (echo_made g c hf chip).
Proof.
  intros Hs. split.
  - apply echo_made_feature.
  - apply echo_made_distinct.
  - intros a n. exact (echo_made_listed g c hf chip speed a n Hs).
  - intros n. exact (echo_made_owner g c hf chip speed n Hs).
  - intros alt. exact (echo_made_settings g c hf chip speed alt Hs).
Qed.

(** The echo gadget from its constructor to SET_CONFIGURATION(1). *)
Definition echo_configured node container_id speed : M (world C) (option bool) :=
  (EchoGadget_init node container_id;; CompositeGadget_Connected speed);;
  ControlWrite CompositeGadget_methods 0x00 UsbConstants.Request.SET_CONFIGURATION 1 0 [].

Definition select_isochronous (alt : Z) : M (world C) (option bool) :=
  ControlWrite CompositeGadget_methods 0x01 UsbConstants.Request.SET_INTERFACE alt 2 [].

(** The echo gadget with the active endpoints [active] of interface 2, and
    [routes]. *)
Record echo_state w0 speed (active : Z → Prop) (routes : Z → option Z) w : Prop := {
  echo_of : composite_of [0%nat] speed w0 w;
  echo_at : echoes_at 0 w;
  echo_active a : a ∈ active_of 2 (w_gadget w) ↔ active a;
  echo_routes a : a = 1 ∨ a = 2 ∨ a = 3 ∨ a = 0x83 →
    g_endpoint_interface_map (w_gadget w) !! a = routes a
}.

Lemma echo_state_echoing w0 speed active routes w a n :
  echo_layout speed w0 → echo_state w0 speed active routes w →
  a = 1 ∨ a = 2 ∨ a = 3 → n = 0 ∨ n = 1 ∨ n = 2 → routes a = Some n → echoing w a.
Proof.
  intros Hl [Hof He _ Hr] Ha Hn Hroute. eapply echoing_routed; [done|apply Hof|done| |apply Hof|].
  - rewrite Hr; [exact Hroute|tauto].
  - by apply (layout_owner _ _ Hl).
Qed.

Lemma echo_state_unrouted w0 speed active routes w a :
  echo_state w0 speed active routes w → a = 1 ∨ a = 2 ∨ a = 3 → routes a = None → unrouted w a.
Proof.
  intros [Hof _ _ Hr] Ha Hroute. eapply unrouted_unmapped; [|apply Hof].
  rewrite Hr; [exact Hroute|tauto].
Qed.

(** The endpoints of a setting of interface 2. *)
Definition isochronous (alt a : Z) : Prop := alt = 1 ∧ (a = 0x03 ∨ a = 0x83).
#[local] Instance isochronous_dec alt a : Decision (isochronous alt a).
Proof. unfold isochronous. apply _. Defined.

(** Selecting a setting while all active endpoints of the interface are routed. *)
Lemma echo_select w0 speed active `{!∀ a, Decision (active a)} routes w alt :
  echo_layout speed w0 → alt = 0 ∨ alt = 1 → echo_state w0 speed active routes w →
  (∀ a, active a → (a = 3 ∨ a = 0x83) ∧ is_Some (routes a)) →
  ∃ w', select_isochronous alt w = (Ok (Some true), w') ∧
    echo_state w0 speed (λ a, active a ∨ isochronous alt a)
      (λ a, if decide (isochronous alt a) then Some 2
            else if decide (active a) then None else routes a) w'.
Proof.
  intros Hlay Halt [Hof He Hact Hr] Hroutes.
  destruct (layout_settings _ _ Hlay alt Halt) as (l & f & Hin & Hl).
  destruct (setting_endpoints_composite [0%nat] speed w0 w 2 alt l f)
    as (es & addrs & Hse & Haddrs); [apply Hlay|apply Hlay|exact Hof|exact Hin|].
  assert (∀ a, a ∈ active_of 2 (w_gadget w) →
    is_Some (g_endpoint_interface_map (w_gadget w) !! a)) as Hmapped.
  { intros a Ha%Hact. destruct (Hroutes a Ha) as [Ha' Hs]. rewrite Hr; [done|tauto]. }
  pose proof (runs_SetInterface w 2 alt es addrs (of_chip _ _ _ _ Hof) Hse Hmapped) as Hrun.
  unfold runs in Hrun. eexists. split; [exact (composite_set_interface_run 2 alt w _ Hrun)|].
  assert (∀ a, a ∈ addrs ↔ isochronous alt a) as Hnew by (intros a; rewrite Haddrs; apply Hl).
  split.
  - apply composite_of_tables; [exact Hof|apply tables_only_switch].
  - exact He.
  - intros a. cbn [w_gadget set_chip World.set_gadget].
    by rewrite active_of_switch, Hact, Hnew.
  - intros a Ha. cbn [w_gadget set_chip World.set_gadget]. rewrite map_switch.
    specialize (Hnew a). specialize (Hact a). repeat case_decide; first [tauto|by apply Hr].
Qed.

Lemma echo_configured_routes w0 speed w a :
  echo_layout speed w0 → in_service (w_heap w0) (speed_entries speed w0 [0%nat]) w →
  a = 1 ∨ a = 2 ∨ a = 3 ∨ a = 0x83 →
  g_endpoint_interface_map (w_gadget w) !! a =
    if decide (a = 1) then Some 0 else if decide (a = 2) then Some 1 else None.
Proof.
  intros Hlay Hserv Ha.
  assert (∀ o, GetInterfaceForEndpoint a w = (Ok o, w) →
    g_endpoint_interface_map (w_gadget w) !! a = o) as Hget by (by intros o [= ->]).
  assert (a = 1 ∨ a = 2 ∨ (a = 3 ∨ a = 0x83)) as [Ha'|[Ha'|Ha']] by tauto.
  - destruct (service_routed _ _ _ Hserv a 0) as (n & Hn & Hroute).
    { apply (layout_listed _ _ Hlay). lia. }
    apply (layout_listed _ _ Hlay) in Hn. rewrite (Hget _ Hroute), decide_True by done.
    f_equal. lia.
  - destruct (service_routed _ _ _ Hserv a 1) as (n & Hn & Hroute).
    { apply (layout_listed _ _ Hlay). lia. }
    apply (layout_listed _ _ Hlay) in Hn.
    rewrite (Hget _ Hroute), decide_False, decide_True by lia. f_equal. lia.
  - rewrite decide_False, decide_False by lia. apply Hget, (service_unrouted _ _ _ Hserv).
    intros n Hn. apply (layout_listed _ _ Hlay) in Hn. lia.
Qed.

Lemma echo_stuck w0 speed active routes w alt :
  echo_layout speed w0 → alt = 0 ∨ alt = 1 → echo_state w0 speed active routes w →
  active 3 → routes 3 = None → fst (select_isochronous alt w) = Raise KeyError.
Proof.
  intros Hlay Halt [Hof He Hact Hr] H3 Hroute.
  destruct (layout_settings _ _ Hlay alt Halt) as (l & f & Hin & Hl).
  destruct (setting_endpoints_composite [0%nat] speed w0 w 2 alt l f)
    as (es & addrs & Hse & Haddrs); [apply Hlay|apply Hlay|exact Hof|exact Hin|].
  refine (composite_set_interface_raise 2 alt w KeyError
            (SetInterface_stuck w 2 alt 3 (es, addrs) _ Hse _ _)).
  - apply Hof.
  - by apply Hact.
  - rewrite Hr; [exact Hroute|lia].
Qed.

(** The two isochronous settings, from the configured device on. *)
Lemma echo_settings w0 speed w :
  echo_layout speed w0 →
  echo_state w0 speed (λ _, False)
    (λ a, if decide (a = 1) then Some 0 else if decide (a = 2) then Some 1 else None) w →
  ∃ w1 w2,
    echoing w 1 ∧ echoing w 2 ∧ unrouted w 3 ∧
    select_isochronous 1 w = (Ok (Some true), w1) ∧
    echoing w1 1 ∧ echoing w1 2 ∧ echoing w1 3 ∧
    select_isochronous 0 w1 = (Ok (Some true), w2) ∧
    echoing w2 1 ∧ echoing w2 2 ∧ unrouted w2 3 ∧
    fst (select_isochronous 0 w2) = Raise KeyError ∧
    fst (select_isochronous 1 w2) = Raise KeyError.
Proof.
  intros Hlay Hw.
  destruct (echo_select w0 speed _ _ w 1 Hlay (or_intror eq_refl) Hw)
    as (w1 & Hrun1 & Hw1); [done|].
  destruct (echo_select w0 speed _ _ w1 0 Hlay (or_introl eq_refl) Hw1) as (w2 & Hrun2 & Hw2).
  { intros a [[]|[_ [->| ->]]]; (split; [lia|]); vm_compute; by eexists. }
  exists w1, w2.
  pose proof (λ a n, echo_state_echoing w0 speed _ _ w a n Hlay Hw) as He.
  pose proof (λ a n, echo_state_echoing w0 speed _ _ w1 a n Hlay Hw1) as He1.
  pose proof (λ a n, echo_state_echoing w0 speed _ _ w2 a n Hlay Hw2) as He2.
  split_and!.
  - apply (He 1 0); [lia..|reflexivity].
  - apply (He 2 1); [lia..|reflexivity].
  - eapply echo_state_unrouted; [exact Hw|lia|reflexivity].
  - exact Hrun1.
  - apply (He1 1 0); [lia..|reflexivity].
  - apply (He1 2 1); [lia..|reflexivity].
  - apply (He1 3 2); [lia..|reflexivity].
  - exact Hrun2.
  - apply (He2 1 0); [lia..|reflexivity].
  - apply (He2 2 1); [lia..|reflexivity].
  - eapply echo_state_unrouted; [exact Hw2|lia|reflexivity].
  - eapply echo_stuck; [exact Hlay|lia|exact Hw2|vm_compute; tauto|reflexivity].
  - eapply echo_stuck; [exact Hlay|lia|exact Hw2|vm_compute; tauto|reflexivity].
Qed.

End echo_device.

(** C34: The echo gadget, whatever the host identifiers and the dict order, with a
    controller that accepts every call, as the mock of the tests does: after
    construction, connection at full or high speed and SET_CONFIGURATION(1), a packet
    received on OUT endpoint 1 or 2 is sent back unchanged on the IN endpoint of the
    same number and nothing else happens, while endpoint 3 is unknown;
    SET_INTERFACE(2, 1) opens the isochronous pair 3, SET_INTERFACE(2, 0) closes it,
    and after that every further SET_INTERFACE of interface 2 fails with KeyError.
    (The driver of linux_gadgetfs.py accepts less: at full speed it refuses the
    isochronous pair, [GadgetfsDriver.echo_isochronous_refused].) *)
Theorem echo_device {C : Type} `{!Chip C, !DictOrder} (accepts_calls : ChipTotal C)
    node container_id speed g c hf (chip : C) :
  speed = UsbConstants.Speed.FULL ∨ speed = UsbConstants.Speed.HIGH →
  ∃ w w1 w2,
    echo_configured node container_id speed (mkWorld [] g c [] hf chip) = (Ok (Some true), w) ∧
    echoing w 1 ∧ echoing w 2 ∧ unrouted w 3 ∧
    select_isochronous 1 w = (Ok (Some true), w1) ∧
    echoing w1 1 ∧ echoing w1 2 ∧ echoing w1 3 ∧
    select_isochronous 0 w1 = (Ok (Some true), w2) ∧
    echoing w2 1 ∧ echoing w2 2 ∧ unrouted w2 3 ∧
    fst (select_isochronous 0 w2) = Raise KeyError ∧
    fst (select_isochronous 1 w2) = Raise KeyError.
Proof.
  intros Hs. pose proof (echo_made_layout speed g c hf chip Hs) as Hlay.
  destruct (echo_started node container_id speed g c hf chip Hs) as (w0 & Hstart & Hof & Hat).
  revert Hlay Hof. generalize (echo_made g c hf chip). intros wm Hlay Hof.
  destruct (configured_in_service [0%nat] speed wm w0) as (g1 & c1 & Hset & Hserv & Hof1);
    [apply Hlay|apply Hlay|exact Hof|].
  set (w := set_chip c1 (World.set_gadget g1 w0)) in *.
  destruct (echo_settings wm speed w Hlay) as (w1 & w2 & Hall).
  { split.
    - exact (composite_of_tables _ _ _ _ _ _ Hof Hof1).
    - exact Hat.
    - intros a. rewrite (service_active _ _ _ Hserv), (layout_listed _ _ Hlay). clear. lia.
    - intros a Ha. exact (echo_configured_routes wm speed w a Hlay Hserv Ha). }
  exists w, w1, w2. split; [|exact Hall].
  unfold echo_configured. rewrite (M_bind_run _ _ _ _ _ Hstart).
  exact (M_bind_run _ _ _ _ _ Hset).
Qed.

(** ** Witnesses *)

Abbreviation echo_example :=
  (echo_made blank_gadget (mkComposite ∅ ∅ []) [] ([] : call_log)).

Lemma composite_construction_witness :
  distinct (fs_entries echo_example [0%nat]) (hs_entries echo_example [0%nat]).
Proof.
  pose proof (composite_construction 0%nat [0%nat] echo_example
    (echo_made_feature _ _ _ _)) as H.
  destruct (CompositeGadget_init 0%nat [0%nat] echo_example) as [[[]|e] w'] eqn:Hrun.
  - exact (proj1 H).
  - exfalso. refine (_ (f_equal fst Hrun)). vm_compute. discriminate.
Defined.

Lemma composite_dispatch_witness :
  ∃ w', ControlRead CompositeGadget_methods 0x81 6 0 7 8 w' = (Ok None, w') ∧
    ControlRead CompositeGadget_methods 0xA2 1 0 1 8 w' =
      feature_ClassControlRead 0 UsbConstants.Recipient.ENDPOINT 1 0 1 8 w' ∧
    CompositeGadget_ReceivePacket 1 [] w' = feature_ReceivePacket 0 1 [] w'.
Proof.
  destruct (composite_dispatch recording_chip_total feature_laws
    0%nat [0%nat] UsbConstants.Speed.HIGH echo_example
    (echo_made_feature _ _ _ _) (echo_made_distinct _ _ _ _) (or_intror eq_refl))
    as (w' & _ & H1 & H2 & _).
  exists w'. split.
  - assert (owner (speed_entries UsbConstants.Speed.HIGH echo_example [0%nat]) 7 = None) as Ho
      by (by vm_compute).
    pose proof (proj1 (H1 UsbConstants.Type_.STANDARD 7 6 0 8 []
      (list_elem_of_here _ _))) as Hr. rewrite Ho in Hr. exact Hr.
  - pose proof (echo_made_listed blank_gadget (mkComposite ∅ ∅ []) [] ([] : call_log)
      UsbConstants.Speed.HIGH 1) as Hl.
    assert (owner (speed_entries UsbConstants.Speed.HIGH echo_example [0%nat]) 0 = Some 0%nat)
      as Ho by (by vm_compute).
    destruct (H2 1 0) as [Hr Hp].
    { apply (Hl 0 (or_intror eq_refl)). lia. }
    { intros n Hn. apply (Hl n (or_intror eq_refl)) in Hn. lia. }
    rewrite Ho in Hr, Hp. split; [|exact (Hp [])].
    exact (proj1 (Hr UsbConstants.Type_.CLASS 1 0 8 []
      (list_elem_of_further _ _ _ (list_elem_of_here _ _)))).
Defined.

Lemma echo_device_witness :
  ∃ w, echo_configured 0x1234 [] UsbConstants.Speed.HIGH blank_world = (Ok (Some true), w) ∧
    echoing w 1.
Proof.
  destruct (echo_device recording_chip_total 0x1234 [] UsbConstants.Speed.HIGH blank_gadget (mkComposite ∅ ∅ [])
    [] ([] : call_log) (or_intror eq_refl)) as (w & _ & _ & H1 & H2 & _).
  exists w. exact (conj H1 H2).
Defined.
