(* ===== verification/LinuxGadgetfs.v ===== *)
(** The controller of linux_gadgetfs.py: it exposes a gadget through the files of
    the Linux gadgetfs kernel driver, with one child process per endpoint.

    The files are the kernel's and the event loop is a library's: both are the
    parameter [Env].  Pipes and child processes are those of the standard
    library, a pipe a queue of packets and a child the body of its endless loop,
    of which [child_step] runs one turn.  The [print] statements are left out. *)

From Stdlib Require Import Ascii.
From S2P Require Import Prelude PyStruct UsbConstants HidConstants UsbDescriptors.
From S2P Require Import MsOs20Descriptors World Gadget PyPath.

#[local] Open Scope Z_scope.

(** ** Constants *)

Definition GADGETFS_NOP : Z := 0.
Definition GADGETFS_CONNECT : Z := 1.
Definition GADGETFS_DISCONNECT : Z := 2.
Definition GADGETFS_SETUP : Z := 3.
Definition GADGETFS_SUSPEND : Z := 4.

Definition BULK : Z := 0x01.
Definition INTERRUPT : Z := 0x02.
Definition ISOCHRONOUS : Z := 0x04.

Definition USB_TRANSFER_TYPE_TO_MASK : gmap Z Z :=
  list_to_map [(UsbConstants.TransferType.BULK, BULK);
               (UsbConstants.TransferType.INTERRUPT, INTERRUPT);
               (UsbConstants.TransferType.ISOCHRONOUS, ISOCHRONOUS)].

Definition IN : Z := 0x01.
Definition OUT : Z := 0x02.

(** Name, transfer types and packet size of a hardware endpoint. *)
Abbreviation hardware_endpoint := (string * Z * Z)%type.

Definition any_transfer : Z := Z.lor (Z.lor BULK INTERRUPT) ISOCHRONOUS.

Definition HARDWARE : gmap string (string * gmap Z hardware_endpoint) :=
  {["beaglebone-black" :=
     ("musb-hdrc",
      list_to_map
        [(0x01, ("ep1out", any_transfer, 512)); (0x81, ("ep1in", any_transfer, 512));
         (0x02, ("ep2out", any_transfer, 512)); (0x82, ("ep2in", any_transfer, 512));
         (0x03, ("ep3out", any_transfer, 512)); (0x83, ("ep3in", any_transfer, 512));
         (0x04, ("ep4out", any_transfer, 512)); (0x84, ("ep4in", any_transfer, 512));
         (0x05, ("ep5out", any_transfer, 512)); (0x85, ("ep5in", any_transfer, 512));
         (0x06, ("ep6out", any_transfer, 512)); (0x86, ("ep6in", any_transfer, 512));
         (0x07, ("ep7out", any_transfer, 512)); (0x87, ("ep7in", any_transfer, 512));
         (0x08, ("ep8out", any_transfer, 512)); (0x88, ("ep8in", any_transfer, 512));
         (0x09, ("ep9out", any_transfer, 512)); (0x89, ("ep9in", any_transfer, 512));
         (0x0A, ("ep10out", any_transfer, 64)); (0x8A, ("ep10in", any_transfer, 256));
         (0x0B, ("ep11out", any_transfer, 64)); (0x8B, ("ep11in", any_transfer, 256));
         (0x0C, ("ep12out", any_transfer, 64)); (0x8C, ("ep12in", any_transfer, 256));
         (0x0D, ("ep13", any_transfer, 4096)); (0x8D, ("ep13", any_transfer, 4096));
         (0x0E, ("ep14", any_transfer, 1024)); (0x8E, ("ep14", any_transfer, 1024));
         (0x0F, ("ep15", any_transfer, 1024)); (0x8F, ("ep15", any_transfer, 1024))])]}.

(** [errno.EL2HLT] and [errno.EBADMSG]. *)
Definition EL2HLT : Z := 51.
Definition EBADMSG : Z := 74.

(** ** The surroundings *)

(** What the event loop watches: an open file or the reading end of a pipe. *)
Inductive watched := FileNo (fd : Z) | PipeNo (pipe : nat).

#[export] Instance watched_eq_dec : EqDecision watched.
Proof. solve_decision. Defined.

(** The callbacks registered with it. *)
Inductive handler :=
  | HandleEvent_handler
  | ReceivePacket_handler (endpoint_addr : Z) (pipe : nat).

#[export] Instance handler_eq_dec : EqDecision handler.
Proof. solve_decision. Defined.

(** [os.open(path, O_RDWR)], [os.close], [os.read], [os.write] on the files of
    the kernel driver, and [IOLoop.add_handler] and [remove_handler]. *)
Class Env (K : Type) := {
  env_open : string → M K Z;
  env_close : Z → M K unit;
  env_read : Z → Z → M K bytes;
  env_write : Z → bytes → M K Z;
  env_add_handler : watched → handler → M K unit;
  env_remove_handler : watched → M K unit
}.

(** The target functions of the child processes, closures over these values. *)
Inductive job :=
  | WriterProcess (fd : Z) (pipe_r : nat)
  | ReaderProcess (fd ep_size : Z) (pipe_w : nat).

Inductive child_state := Created | Running | Terminated.

(** ** The driver *)

(** The dict [_ep_fds] has endpoint addresses as keys and tuples of handles as
    values; a name looked up in it is a key of another type. *)
Abbreviation ep_key := (Z + string)%type.

Record Driver (K : Type) := mkDriver {
  dr_chip : string;
  dr_hw_eps : gmap Z hardware_endpoint;
  dr_ep_dir : string;
  dr_gadget : bool;                        (* self._gadget is not None *)
  dr_fd : option Z;
  dr_ep_fds : gmap ep_key (list Z);
  dr_pipes : list (list bytes);
  dr_children : list (job * child_state);
  dr_env : K
}.
Arguments mkDriver {_} _ _ _ _ _ _ _ _ _.
Arguments dr_chip {_} _.
Arguments dr_hw_eps {_} _.
Arguments dr_ep_dir {_} _.
Arguments dr_gadget {_} _.
Arguments dr_fd {_} _.
Arguments dr_ep_fds {_} _.
Arguments dr_pipes {_} _.
Arguments dr_children {_} _.
Arguments dr_env {_} _.

(** What the driver calls on the gadget bound to it. *)
Record Device (C : Type) := mkDevice {
  d_Connected : Z → M (world C) unit;
  d_Disconnected : M (world C) unit;
  d_ReceivePacket : Z → bytes → M (world C) unit;
  d_methods : Methods C
}.
Arguments mkDevice {_} _ _ _ _.
Arguments d_Connected {_} _.
Arguments d_Disconnected {_} _.
Arguments d_ReceivePacket {_} _.
Arguments d_methods {_} _.

Section LinuxGadgetfs.
Context {K : Type} `{!Env K}.
Implicit Types d : Driver K.

Definition set_dr_binding (gadget : bool) (fd : option Z) d : Driver K :=
  mkDriver (dr_chip d) (dr_hw_eps d) (dr_ep_dir d) gadget fd (dr_ep_fds d) (dr_pipes d)
    (dr_children d) (dr_env d).
Definition set_dr_ep_fds (v : gmap ep_key (list Z)) d : Driver K :=
  mkDriver (dr_chip d) (dr_hw_eps d) (dr_ep_dir d) (dr_gadget d) (dr_fd d) v (dr_pipes d)
    (dr_children d) (dr_env d).
Definition set_dr_pipes (v : list (list bytes)) d : Driver K :=
  mkDriver (dr_chip d) (dr_hw_eps d) (dr_ep_dir d) (dr_gadget d) (dr_fd d) (dr_ep_fds d) v
    (dr_children d) (dr_env d).
Definition set_dr_children (v : list (job * child_state)) d : Driver K :=
  mkDriver (dr_chip d) (dr_hw_eps d) (dr_ep_dir d) (dr_gadget d) (dr_fd d) (dr_ep_fds d)
    (dr_pipes d) v (dr_env d).
Definition set_dr_env (v : K) d : Driver K :=
  mkDriver (dr_chip d) (dr_hw_eps d) (dr_ep_dir d) (dr_gadget d) (dr_fd d) (dr_ep_fds d)
    (dr_pipes d) (dr_children d) v.

Abbreviation W := (world (Driver K)).

(** [self._x] of the driver, an assignment to it, and a call outside. *)
Definition driver {A} (f : Driver K → A) : M W A := gets (λ w, f (w_chip w)).
Definition modify_driver (f : Driver K → Driver K) : M W unit :=
  modify (λ w, set_chip (f (w_chip w)) w).
Definition in_env {A} (m : M K A) : M W A :=
  zoom (λ w, dr_env (w_chip w)) (λ k w, set_chip (set_dr_env k (w_chip w)) w) m.

(** *** The standard library: pipes and processes *)

(** [multiprocessing.Pipe(False)]: both ends go by the number of the pipe. *)
Definition Pipe : M W nat :=
  n ← driver (λ d, length (dr_pipes d));
  modify_driver (λ d, set_dr_pipes (dr_pipes d ++ [[]]) d);;
  mret n.
Definition pipe_send (pipe : nat) (data : bytes) : M W unit :=
  modify_driver (λ d, set_dr_pipes (alter (λ q, q ++ [data]) pipe (dr_pipes d)) d).

(** [recv] takes the oldest packet; on an empty pipe it waits, [None]. *)
Definition pipe_recv (pipe : nat) : M W (option bytes) :=
  pipes ← driver dr_pipes;
  match pipes !! pipe with
  | Some (data :: q) =>
      modify_driver (λ d, set_dr_pipes (<[pipe := q]> (dr_pipes d)) d);; mret (Some data)
  | _ => mret None
  end.

Definition Process (target : job) : M W nat :=
  n ← driver (λ d, length (dr_children d));
  modify_driver (λ d, set_dr_children (dr_children d ++ [(target, Created)]) d);;
  mret n.
Definition set_child (child : nat) (s : child_state) : M W unit :=
  modify_driver (λ d, set_dr_children (alter (λ '(j, _), (j, s)) child (dr_children d)) d).
Definition child_start (child : nat) : M W unit := set_child child Running.

(** [terminate] and [join] of a process that was started. *)
Definition child_stop (child : nat) : M W unit :=
  children ← driver dr_children;
  match children !! child with
  | Some (_, Created) | None => raise (AttributeError "terminate")
  | Some _ => set_child child Terminated
  end.

(** One turn of the loop of a child. *)
Definition child_step (target : job) : M W unit :=
  match target with
  | WriterProcess fd pipe_r =>
      data ← pipe_recv pipe_r;
      match data with
      | None => mret ()
      | Some data => in_env (env_write fd data);; mret ()
      end
  | ReaderProcess fd ep_size pipe_w =>
      data ← in_env (env_read fd ep_size);
      pipe_send pipe_w data
  end.

(** *** Endpoints *)

(** Tuple assignment from a tuple of another length raises. *)
Definition unpack3 (t : list Z) : outcome (Z * Z * Z) :=
  match t with
  | [a; b; c] => Ok (a, b, c)
  | _ => Raise (ValueError "too many values to unpack")
  end.
Definition unpack2 (t : list Z) : outcome (Z * Z) :=
  match t with
  | [a; b] => Ok (a, b)
  | _ => Raise (ValueError "too many values to unpack")
  end.

(** [struct.pack('=I', n)] *)
Definition pack_I (n : Z) : outcome bytes := struct_pack "=I" [VInt n].

(** A call on [self._gadget] when it may be [None]. *)
Definition on_gadget {A} (method : string) (m : M W A) : M W A :=
  bound ← driver dr_gadget;
  if (bound : bool) then m else raise (AttributeError method).

(** The buffer that configures an endpoint file. *)
Definition endpoint_config (endpoint_desc : loc) (endpoint_addr : Z) : M W bytes :=
  buf ← lift (pack_I 1);
  speed ← on_gadget "GetSpeed" GetSpeed;
  h ← gets w_heap;
  if speed =? UsbConstants.Speed.HIGH then
    full_speed_endpoint ← lift (encode_temporary
      (new EndpointDescriptor
         [("bEndpointAddress", VInt endpoint_addr); ("bmAttributes", VInt 0);
          ("wMaxPacketSize", VInt 0); ("bInterval", VInt 0)]) h);
    desc ← lift (Encode (max_depth h) h endpoint_desc);
    mret (buf ++ full_speed_endpoint ++ desc)
  else
    desc ← lift (Encode (max_depth h) h endpoint_desc);
    mret (buf ++ desc).

Definition StartEndpoint (endpoint_desc : loc) : M W unit :=
  h ← gets w_heap;
  endpoint_addr ← lift (getattr_int h endpoint_desc "bEndpointAddress");
  hw_eps ← driver dr_hw_eps;
  '(name, hw_ep_type, hw_ep_size) ← lift (of_option KeyError (hw_eps !! endpoint_addr));
  ep_fds ← driver dr_ep_fds;
  if is_not_none (ep_fds !! (inr name : ep_key)) then
    raise (RuntimeError ("Hardware endpoint " +:+ name +:+ " already in use."))
  else
    attributes ← lift (getattr_int h endpoint_desc "bmAttributes");
    ep_type ← lift (of_option KeyError
      (USB_TRANSFER_TYPE_TO_MASK !! Z.land attributes UsbConstants.TransferType.MASK));
    ep_size ← lift (getattr_int h endpoint_desc "wMaxPacketSize");
    if Z.land hw_ep_type ep_type =? 0 then
      raise (RuntimeError ("Hardware endpoint " +:+ name
                             +:+ " does not support this transfer type."))
    else if hw_ep_size <? ep_size then
      raise (RuntimeError ("Hardware endpoint " +:+ name
        +:+ " only supports a maximum packet size of " +:+ pretty hw_ep_size +:+ ", "
        +:+ pretty ep_size +:+ " requested."))
    else
      dir ← driver dr_ep_dir;
      fd ← in_env (env_open (path_join dir name));
      buf ← endpoint_config endpoint_desc endpoint_addr;
      in_env (env_write fd buf);;
      pipe ← Pipe;
      child ← (if negb (Z.land endpoint_addr UsbConstants.Dir.IN =? 0) then
                 Process (WriterProcess fd pipe)
               else
                 child ← Process (ReaderProcess fd ep_size pipe);
                 in_env (env_add_handler (PipeNo pipe)
                           (ReceivePacket_handler endpoint_addr pipe));;
                 mret child);
      modify_driver (λ d, set_dr_ep_fds
        (<[inl endpoint_addr := [fd; Z.of_nat child; Z.of_nat pipe]]> (dr_ep_fds d)) d);;
      child_start child.

Definition StopEndpoint (endpoint_addr : Z) : M W unit :=
  ep_fds ← driver dr_ep_fds;
  entry ← lift (of_option KeyError (ep_fds !! (inl endpoint_addr : ep_key)));
  modify_driver (set_dr_ep_fds (delete (inl endpoint_addr) ep_fds));;
  '(fd, child, pipe) ← lift (unpack3 entry);
  child_stop (Z.to_nat child);;
  (if Z.land endpoint_addr UsbConstants.Dir.IN =? 0
   then in_env (env_remove_handler (PipeNo (Z.to_nat pipe))) else mret ());;
  in_env (env_close fd).

Definition gadgetfs_SendPacket (endpoint_addr : Z) (data : bytes) : M W unit :=
  ep_fds ← driver dr_ep_fds;
  entry ← lift (of_option KeyError (ep_fds !! (inl endpoint_addr : ep_key)));
  '(_, _, pipe) ← lift (unpack3 entry);
  pipe_send (Z.to_nat pipe) data.

(** [try: m  except OSError, e: if e.errno != errno: raise] *)
Definition ignoring (errno : Z) (m : M W unit) : M W unit := λ w,
  match m w with
  | (Raise (OSError e), w') =>
      if e =? errno then (Ok (), w') else (Raise (OSError e), w')
  | r => r
  end.

Definition gadgetfs_HaltEndpoint (endpoint_addr : Z) : M W unit :=
  ep_fds ← driver dr_ep_fds;
  entry ← lift (of_option KeyError (ep_fds !! (inl endpoint_addr : ep_key)));
  '(fd, _) ← lift (unpack2 entry);
  ignoring EBADMSG
    (if negb (Z.land endpoint_addr UsbConstants.Dir.IN =? 0)
     then in_env (env_read fd 0);; mret ()
     else in_env (env_write fd []);; mret ()).

#[export] Instance gadgetfs_chip : Chip (Driver K) := {|
  chip_StartEndpoint := StartEndpoint;
  chip_StopEndpoint := StopEndpoint;
  chip_SendPacket := gadgetfs_SendPacket;
  chip_HaltEndpoint := gadgetfs_HaltEndpoint
|}.
End LinuxGadgetfs.

(** *** The driver and its gadget *)

Section binding.
Context {K : Type} `{!Env K} `{!DictOrder}.
Context (gadget : Device (Driver K)).
Abbreviation W := (world (Driver K)).

(** [LinuxGadgetfs.__init__] *)
Definition LinuxGadgetfs_init (hardware mountpoint : string) : M W unit :=
  '(chip, hw_eps) ← lift (of_option KeyError (HARDWARE !! hardware));
  modify_driver (λ d, mkDriver chip hw_eps mountpoint false None ∅ (dr_pipes d)
                        (dr_children d) (dr_env d)).

Definition Create : M W unit :=
  modify_driver (λ d, set_dr_binding true (dr_fd d) d);;
  dir ← driver dr_ep_dir;
  chip ← driver dr_chip;
  fd ← in_env (env_open (path_join dir chip));
  modify_driver (set_dr_binding true (Some fd));;
  zero ← lift (pack_I 0);
  fs ← GetFullSpeedConfigurationDescriptor;
  hs ← GetHighSpeedConfigurationDescriptor;
  dev ← GetDeviceDescriptor;
  h ← gets w_heap;
  bufs ← lift (mapM (Encode (max_depth h) h) [fs; hs; dev]);
  in_env (env_write fd (zero ++ concat bufs));;
  in_env (env_add_handler (FileNo fd) HandleEvent_handler).

Definition IsConfigured : M W bool := driver dr_gadget.

Definition gadgetfs_Connected (speed : Z) : M W unit :=
  on_gadget "Connected" (d_Connected gadget speed).

(** The keys of [_ep_fds]; only endpoint addresses are ever put in. *)
Definition stop_key (k : ep_key) : M W unit :=
  match k with
  | inl endpoint_addr => StopEndpoint endpoint_addr
  | inr _ => raise (TypeError "unsupported operand type(s) for &")
  end.

Definition gadgetfs_Disconnected : M W unit :=
  ep_fds ← driver dr_ep_fds;
  mfor (dict_items ep_fds).*1 stop_key;;
  modify_driver (set_dr_ep_fds ∅);;
  on_gadget "Disconnected" (d_Disconnected gadget).

(** A call on [self._fd], which is [None] before the file is opened. *)
Definition on_fd {A} (m : Z → M W A) : M W A :=
  fd ← driver dr_fd;
  match fd with Some fd => m fd | None => raise (TypeError "an integer is required") end.

Definition Destroy : M W unit :=
  gadgetfs_Disconnected;;
  on_fd (λ fd, in_env (env_remove_handler (FileNo fd)));;
  on_fd (λ fd, in_env (env_close fd));;
  modify_driver (set_dr_binding false None).

Definition HandleSetup (request_type request value index length : Z) : M W unit :=
  if negb (Z.land request_type UsbConstants.Dir.IN =? 0) then
    data ← on_gadget "ControlRead"
      (ControlRead (d_methods gadget) request_type request value index length);
    match data with
    | None => ignoring EL2HLT (on_fd (λ fd, in_env (env_read fd 0));; mret ())
    | Some data => on_fd (λ fd, in_env (env_write fd data));; mret ()
    end
  else
    data ← (if negb (length =? 0) then on_fd (λ fd, in_env (env_read fd length))
            else mret []);
    result ← on_gadget "ControlWrite"
      (ControlWrite (d_methods gadget) request_type request value index data);
    match result with
    | None => ignoring EL2HLT (on_fd (λ fd, in_env (env_write fd []));; mret ())
    | Some _ =>
        if length =? 0 then on_fd (λ fd, in_env (env_read fd 0));; mret () else mret ()
    end.

Definition HandleEvent : M W unit :=
  buf ← on_fd (λ fd, in_env (env_read fd 12));
  event ← lift (struct_unpack_from "=I" buf 8);
  match event with
  | [VInt event_type] =>
      if event_type =? GADGETFS_NOP then mret ()
      else if event_type =? GADGETFS_CONNECT then
        speed ← lift (struct_unpack "=Ixxxxxxxx" buf);
        match speed with
        | [VInt speed] => gadgetfs_Connected speed
        | _ => raise StructError
        end
      else if event_type =? GADGETFS_DISCONNECT then gadgetfs_Disconnected
      else if event_type =? GADGETFS_SETUP then
        fields ← lift (struct_unpack "<BBHHHxxxx" buf);
        match fields with
        | [VInt request_type; VInt request; VInt value; VInt index; VInt length] =>
            HandleSetup request_type request value index length
        | _ => raise StructError
        end
      else mret ()
  | _ => raise StructError
  end.

(** What the event loop runs when a watched file or pipe is readable; the second
    is the closure [ReceivePacket] of [StartEndpoint]. *)
Definition run_handler (f : handler) : M W unit :=
  match f with
  | HandleEvent_handler => HandleEvent
  | ReceivePacket_handler endpoint_addr pipe =>
      data ← pipe_recv pipe;
      match data with
      | None => mret ()
      | Some data =>
          on_gadget "ReceivePacket" (d_ReceivePacket gadget endpoint_addr data)
      end
  end.
End binding.
