(* ===== verification/GadgetfsDriver.v ===== *)
(** What the controller of linux_gadgetfs.py does to the kernel's files, the
    child processes and the gadget: starting, stopping and halting endpoints,
    decoding events, and the order of packets. *)

From S2P Require Import Prelude PyStruct UsbConstants HidConstants UsbDescriptors.
From S2P Require Import PyPath MsOs20Descriptors World Gadget LinuxGadgetfs.

#[local] Open Scope Z_scope.

(** ** A kernel that records *)

Inductive env_call :=
  | OpenCall (path : string)
  | CloseCall (fd : Z)
  | ReadCall (fd n : Z)
  | WriteCall (fd : Z) (data : bytes)
  | AddHandlerCall (x : watched) (f : handler)
  | RemoveHandlerCall (x : watched).

#[export] Instance env_call_eq_dec : EqDecision env_call.
Proof. solve_decision. Defined.

(** The calls so far, and what the coming reads return. *)
Record trace := mkTrace { t_calls : list env_call; t_reads : list (outcome bytes) }.

Definition trace_call {A} (c : env_call) (a : A) : M trace A :=
  modify (λ t, mkTrace (t_calls t ++ [c]) (t_reads t));; mret a.

Definition is_open (c : env_call) : bool := match c with OpenCall _ => true | _ => false end.

(** File descriptors count up from 3; a read beyond the script is empty. *)
#[export] Instance trace_env : Env trace := {|
  env_open path :=
    n ← gets (λ t, length (List.filter is_open (t_calls t)));
    trace_call (OpenCall path) (3 + Z.of_nat n);
  env_close fd := trace_call (CloseCall fd) ();
  env_read fd n :=
    reads ← gets t_reads;
    modify (λ t, mkTrace (t_calls t ++ [ReadCall fd n]) (drop 1 reads));;
    lift (default (Ok []) (head reads));
  env_write fd data := trace_call (WriteCall fd data) (py_len data);
  env_add_handler x f := trace_call (AddHandlerCall x f) ();
  env_remove_handler x := trace_call (RemoveHandlerCall x) ()
|}.

(** ** Starting an endpoint *)

Section start.
Context {K : Type} `{!Env K}.
Abbreviation W := (world (Driver K)).
Implicit Types w : W.

(** The endpoint descriptor at [l], as the driver reads it. *)
Definition endpoint_reads (h : heap) (l : loc) (addr attributes size : Z) : Prop :=
  getattr_int h l "bEndpointAddress" = Ok addr ∧
  getattr_int h l "bmAttributes" = Ok attributes ∧
  getattr_int h l "wMaxPacketSize" = Ok size.

(** Why the driver refuses an endpoint, if it does. *)
Inductive refusal := NoSuchEndpoint | NoSuchTransfer | WrongTransfer | TooLarge.

Definition refused (hw : gmap Z hardware_endpoint) (addr attributes size : Z) : option refusal :=
  match hw !! addr with
  | None => Some NoSuchEndpoint
  | Some (_, hw_type, hw_size) =>
      match USB_TRANSFER_TYPE_TO_MASK !! Z.land attributes UsbConstants.TransferType.MASK with
      | None => Some NoSuchTransfer
      | Some typ =>
          if Z.land hw_type typ =? 0 then Some WrongTransfer
          else if hw_size <? size then Some TooLarge
          else None
      end
  end.

(** The table of open endpoints as the driver fills it: endpoint addresses, and
    triples of handles. *)
Definition well_keyed (d : Driver K) : Prop :=
  ∀ k t, dr_ep_fds d !! k = Some t →
    ∃ addr fd child pipe, k = inl addr ∧ t = [fd; Z.of_nat child; Z.of_nat pipe].

Lemma well_keyed_name d name : well_keyed d → dr_ep_fds d !! inr name = None.
Proof.
  intros Hd. destruct (_ !! _) as [t|] eqn:Ht; [|done].
  by destruct (Hd _ _ Ht) as (? & ? & ? & ? & ? & ?).
Qed.

(** Everything after the checks. *)
Definition open_endpoint (endpoint_desc : loc) (name : string) (endpoint_addr ep_size : Z) :
    M W unit :=
  dir ← driver dr_ep_dir;
  fd ← in_env (env_open (path_join dir name));
  buf ← endpoint_config endpoint_desc endpoint_addr;
  in_env (env_write fd buf);;
  pipe ← Pipe;
  child ← (if negb (Z.land endpoint_addr UsbConstants.Dir.IN =? 0) then
             Process (WriterProcess fd pipe)
           else
             child ← Process (ReaderProcess fd ep_size pipe);
             in_env (env_add_handler (PipeNo pipe)
                       (ReceivePacket_handler endpoint_addr pipe));;
             mret child);
  modify_driver (λ d, set_dr_ep_fds
    (<[inl endpoint_addr := [fd; Z.of_nat child; Z.of_nat pipe]]> (dr_ep_fds d)) d);;
  child_start child.

Lemma StartEndpoint_run l addr attributes size w :
  endpoint_reads (w_heap w) l addr attributes size → well_keyed (w_chip w) →
  match refused (dr_hw_eps (w_chip w)) addr attributes size with
  | Some NoSuchEndpoint | Some NoSuchTransfer => StartEndpoint l w = (Raise KeyError, w)
  | Some _ => ∃ msg, StartEndpoint l w = (Raise (RuntimeError msg), w)
  | None => ∃ name hw_type hw_size,
      dr_hw_eps (w_chip w) !! addr = Some (name, hw_type, hw_size) ∧
      StartEndpoint l w = open_endpoint l name addr size w
  end.
Proof.
  intros (Ha & Hat & Hs) Hk. unfold StartEndpoint, refused, driver. run_steps.
  destruct (dr_hw_eps (w_chip w) !! addr) as [[[name typ] hsize]|]; run_steps; [|done].
  rewrite (well_keyed_name _ _ Hk). cbn [is_not_none]. run_steps.
  destruct (USB_TRANSFER_TYPE_TO_MASK !! _) as [ep_type|]; run_steps; [|done].
  destruct (Z.land typ ep_type =? 0); [by eexists|].
  destruct (hsize <? size); [by eexists|]. by exists name, typ, hsize.
Qed.

End start.

(** ** The bytes that configure an endpoint *)

Definition endpoint_bytes (addr attributes size interval : Z) : bytes :=
  (byte_of_Z <$> [7; UsbConstants.DescriptorType.ENDPOINT; addr; attributes])
    ++ le_split 2 size ++ [byte_of_Z interval].

(** An endpoint descriptor whose fields fit. *)
Definition endpoint_at (h : heap) (l : loc) (addr attributes size interval : Z) : Prop :=
  ∃ o, h !! l = Some o ∧ o_class o = EndpointDescriptor ∧
    o_attrs o !! "bEndpointAddress" = Some (VInt addr) ∧
    o_attrs o !! "bmAttributes" = Some (VInt attributes) ∧
    o_attrs o !! "wMaxPacketSize" = Some (VInt size) ∧
    o_attrs o !! "bInterval" = Some (VInt interval) ∧
    0 <= addr < 256 ∧ 0 <= attributes < 256 ∧ 0 <= size < 65536 ∧ 0 <= interval < 256.

Lemma pack_uint_in n z : 0 <= z < 256 ^ Z.of_nat n → pack_uint n z = Ok (le_split n z).
Proof.
  intros [H1 H2]. unfold pack_uint.
  by rewrite (proj2 (Z.leb_le 0 z) H1), (proj2 (Z.ltb_lt _ _) H2).
Qed.

Lemma Encode_endpoint depth h l addr attributes size interval :
  endpoint_at h l addr attributes size interval →
  Encode (S depth) h l = Ok (endpoint_bytes addr attributes size interval).
Proof.
  intros (o & Hl & Hc & Ha & Hat & Hs & Hi & ? & ? & ? & ?).
  rewrite Encode_S. unfold deref. rewrite Hl. cbn [of_option].
  unfold own_bytes. cbn [mbind outcome_bind]. rewrite Hc. cbn [c_base EndpointDescriptor].
  rewrite encode_fields_nodup
    by (rewrite Hc; apply (bool_decide_unpack _); by vm_compute).
  rewrite Hc. cbn [c_fields EndpointDescriptor AddField AddFixedField AddComputedField app].
  rewrite !mapM_outcome_cons.
  cbn -[total_size pack_uint struct_pack fmt struct_size].
  replace (struct_size o) with (@Ok Z 7)
    by (unfold struct_size; by rewrite Hc).
  rewrite Ha, Hat, Hs, Hi. cbn -[pack_uint struct_pack fmt].
  unfold struct_pack.
  replace (parse_format (fmt EndpointDescriptor))
    with (Some [C_B; C_B; C_B; C_B; C_H; C_B]) by reflexivity.
  cbn -[pack_uint le_split]. rewrite !pack_uint_in by (cbn; lia). done.
Qed.

Lemma bEndpointAddress_read h l addr attributes size interval :
  endpoint_at h l addr attributes size interval →
  endpoint_reads h l addr attributes size.
Proof.
  intros (o & Hl & Hc & Ha & Hat & Hs & Hi & _). unfold endpoint_reads, getattr_int, deref.
  rewrite Hl. cbn [of_option mbind outcome_bind]. unfold getattr. rewrite Hc.
  split_and!; cbn -[total_size Encode lookup]; by rewrite ?Ha, ?Hat, ?Hs.
Qed.

(** A tag, at high speed a full-speed descriptor nobody will use, and the
    descriptor itself. *)
Definition config_bytes (speed addr attributes size interval : Z) : bytes :=
  le_split 4 1
    ++ (if speed =? UsbConstants.Speed.HIGH then endpoint_bytes addr 0 0 0 else [])
    ++ endpoint_bytes addr attributes size interval.

Lemma encode_dummy_endpoint addr h :
  0 <= addr < 256 →
  encode_temporary (new EndpointDescriptor
    [("bEndpointAddress", VInt addr); ("bmAttributes", VInt 0);
     ("wMaxPacketSize", VInt 0); ("bInterval", VInt 0)]) h =
  Ok (endpoint_bytes addr 0 0 0).
Proof.
  intros Ha. unfold encode_temporary, new, alloc. mrun.
  change (Descriptor_init (c_fields EndpointDescriptor) _) with
    (Ok (<["bInterval" := VInt 0]> (<["wMaxPacketSize" := VInt 0]>
      (<["bmAttributes" := VInt 0]> (<["bEndpointAddress" := VInt addr]>
        (∅ : gmap string value)))))).
  cbv iota beta. unfold max_depth. cbn [outcome_bind].
  apply Encode_endpoint. eexists. rewrite lookup_app_r, Nat.sub_diag by lia.
  split; [done|]. split_and!; try done; lia.
Qed.

(** ** What a started endpoint leaves behind *)

Section started.
Context {K : Type} `{!Env K}.
Abbreviation W := (world (Driver K)).
Implicit Types w : W.

Definition is_input (addr : Z) : bool := negb (Z.land addr UsbConstants.Dir.IN =? 0).

(** The child of an endpoint: [fd] is its open file, [pipe] its queue. *)
Definition job_of (addr size fd : Z) (pipe : nat) : job :=
  if is_input addr then WriterProcess fd pipe else ReaderProcess fd size pipe.

(** A new pipe, a running child, and their entry in the table. *)
Definition started (addr size fd : Z) (k : K) (d : Driver K) : Driver K :=
  let pipe := length (dr_pipes d) in
  let child := length (dr_children d) in
  mkDriver (dr_chip d) (dr_hw_eps d) (dr_ep_dir d) (dr_gadget d) (dr_fd d)
    (<[inl addr := [fd; Z.of_nat child; Z.of_nat pipe]]> (dr_ep_fds d))
    (dr_pipes d ++ [[]])
    (dr_children d ++ [(job_of addr size fd pipe, Running)]) k.

(** The calls a start makes on its surroundings. *)
Definition start_calls (path : string) (addr : Z) (config : bytes) (pipe : nat) : M K Z :=
  fd ← env_open path;
  env_write fd config;;
  (if is_input addr then mret ()
   else env_add_handler (PipeNo pipe) (ReceivePacket_handler addr pipe));;
  mret fd.

Lemma alter_last {A} (f : A → A) (l : list A) x : alter f (length l) (l ++ [x]) = l ++ [f x].
Proof. induction l; [done|]. cbn. by f_equal. Qed.

(** A call outside changes the surroundings only. *)
Lemma in_env_run {A} (m : M K A) w o k :
  m (dr_env (w_chip w)) = (o, k) → in_env m w = (o, set_chip (set_dr_env k (w_chip w)) w).
Proof. unfold in_env, zoom. by intros ->. Qed.

Lemma endpoint_config_run l addr attributes size interval w :
  endpoint_at (w_heap w) l addr attributes size interval → dr_gadget (w_chip w) = true →
  endpoint_config l addr w =
    (Ok (config_bytes (g_speed (w_gadget w)) addr attributes size interval), w).
Proof.
  intros He Hb. unfold endpoint_config.
  replace (pack_I 1) with (Ok (le_split 4 1)) by reflexivity.
  unfold on_gadget, driver, GetSpeed, self. run_steps.
  rewrite (M_bind_run _ _ _ (g_speed (w_gadget w)) w) by (run_steps; by rewrite Hb).
  run_steps. unfold config_bytes, max_depth.
  destruct (_ =? _); run_steps.
  - destruct He as (o & He'). pose proof He' as (_ & _ & _ & _ & _ & _ & ? & _).
    rewrite encode_dummy_endpoint by done. run_steps.
    rewrite (Encode_endpoint _ _ _ addr attributes size interval) by by exists o. done.
  - rewrite (Encode_endpoint _ _ _ _ _ _ _ He). done.
Qed.

Lemma open_endpoint_run l name addr attributes size interval w fd k :
  endpoint_at (w_heap w) l addr attributes size interval → dr_gadget (w_chip w) = true →
  let d := w_chip w in
  start_calls (path_join (dr_ep_dir d) name) addr
    (config_bytes (g_speed (w_gadget w)) addr attributes size interval) (length (dr_pipes d))
    (dr_env d) = (Ok fd, k) →
  open_endpoint l name addr size w = (Ok (), set_chip (started addr size fd k d) w).
Proof.
  destruct w as [h g c fs hf [chip hw dir bound fd0 eps pipes children env]].
  cbn [w_heap w_chip dr_gadget]. intros He ->. cbv zeta. cbn [dr_ep_dir dr_pipes dr_env].
  unfold start_calls. intros Hrun.
  apply M_bind_Ok in Hrun as (fd' & k1 & Hopen & Hrun).
  apply M_bind_Ok in Hrun as (n & k2 & Hwrite & Hrun).
  apply M_bind_Ok in Hrun as ([] & k3 & Hadd & Hrun). injection Hrun as -> ->.
  unfold open_endpoint, driver. rewrite bind_gets. cbn [w_chip dr_ep_dir].
  erewrite M_bind_run by (by apply in_env_run).
  unfold set_chip at 1. cbn [w_chip].
  erewrite M_bind_run by (by apply endpoint_config_run).
  erewrite M_bind_run by (by apply in_env_run).
  unfold Pipe, Process, modify_driver, driver, set_chip, set_dr_env.
  rewrite M_bind_assoc. rewrite bind_gets. cbn. rewrite !M_bind_assoc.
  mrun. fold (is_input addr) in *. unfold started, job_of, child_start, set_child.
  unfold in_env, zoom, modify_driver, set_dr_children, set_dr_ep_fds, set_dr_pipes, set_dr_env.
  destruct (is_input addr); [injection Hadd as <-|]; mrun; cbn [w_chip dr_env set_chip];
    rewrite ?Hadd; cbn; by rewrite alter_last.
Qed.

(** When a call fails, the table is as it was. *)
Lemma open_endpoint_raise l name addr attributes size interval w e k :
  endpoint_at (w_heap w) l addr attributes size interval → dr_gadget (w_chip w) = true →
  let d := w_chip w in
  start_calls (path_join (dr_ep_dir d) name) addr
    (config_bytes (g_speed (w_gadget w)) addr attributes size interval) (length (dr_pipes d))
    (dr_env d) = (Raise e, k) →
  ∃ d', open_endpoint l name addr size w = (Raise e, set_chip d' w) ∧
        dr_ep_fds d' = dr_ep_fds d ∧ dr_env d' = k.
Proof.
  destruct w as [h g c fs hf [chip hw dir bound fd0 eps pipes children env]].
  cbn [w_heap w_chip dr_gadget]. intros He ->. cbv zeta. cbn [dr_ep_dir dr_pipes dr_env].
  unfold start_calls. intros Hrun. unfold mbind at 1, M_bind at 1 in Hrun.
  unfold open_endpoint, driver. rewrite bind_gets. cbn [w_chip dr_ep_dir].
  destruct (env_open _ env) as [[fd|e1] k1] eqn:Hopen.
  2: { injection Hrun as -> ->. erewrite M_bind_run_raise by (by apply in_env_run).
       by eexists. }
  erewrite M_bind_run by (by apply in_env_run).
  unfold set_chip at 1. cbn [w_chip].
  erewrite M_bind_run by (by apply endpoint_config_run).
  unfold mbind at 1, M_bind at 1 in Hrun.
  destruct (env_write _ _ k1) as [[n|e1] k2] eqn:Hwrite.
  2: { injection Hrun as -> ->. erewrite M_bind_run_raise by (by apply in_env_run).
       by eexists. }
  erewrite M_bind_run by (by apply in_env_run).
  unfold Pipe, Process, modify_driver, driver, set_chip, set_dr_env.
  rewrite M_bind_assoc. rewrite bind_gets. cbn. rewrite !M_bind_assoc.
  fold (is_input addr) in *. destruct (is_input addr); [by mrun|].
  unfold mbind at 1, M_bind at 1 in Hrun.
  destruct (env_add_handler _ _ k2) as [[[]|e1] k3] eqn:Hadd; [done|].
  injection Hrun as -> ->. mrun.
  unfold in_env, zoom, modify_driver, set_dr_children, set_dr_ep_fds, set_dr_pipes, set_dr_env.
  mrun. cbn [w_chip dr_env set_chip]. rewrite Hadd. by eexists.
Qed.

(** Starting an endpoint.  An address the hardware lacks or a transfer type
    without a mask raises [KeyError], an unsupported type or a packet size above
    the hardware's [RuntimeError], before any file is opened and with nothing
    changed.  Otherwise the endpoint's file is opened and sent its configuration,
    which at high speed holds a full-speed descriptor too; a child of the
    endpoint's direction runs on a new pipe, watched by the event loop for an
    output endpoint, and the table maps the address to the three.  If the kernel
    refuses a call, its error comes out and the table is as it was. *)
Theorem StartEndpoint_effect l addr attributes size interval w :
  endpoint_at (w_heap w) l addr attributes size interval →
  well_keyed (w_chip w) → dr_gadget (w_chip w) = true →
  let d := w_chip w in
  let config := config_bytes (g_speed (w_gadget w)) addr attributes size interval in
  match refused (dr_hw_eps d) addr attributes size with
  | Some NoSuchEndpoint | Some NoSuchTransfer => StartEndpoint l w = (Raise KeyError, w)
  | Some _ => ∃ msg, StartEndpoint l w = (Raise (RuntimeError msg), w)
  | None => ∃ name typ max, dr_hw_eps d !! addr = Some (name, typ, max) ∧
      match start_calls (path_join (dr_ep_dir d) name) addr config (length (dr_pipes d))
              (dr_env d) with
      | (Ok fd, k) => StartEndpoint l w = (Ok (), set_chip (started addr size fd k d) w)
      | (Raise e, k) => ∃ d', StartEndpoint l w = (Raise e, set_chip d' w) ∧
                              dr_ep_fds d' = dr_ep_fds d ∧ dr_env d' = k
      end
  end.
Proof.
  intros He Hk Hb. cbv zeta.
  pose proof (StartEndpoint_run l addr attributes size w (bEndpointAddress_read _ _ _ _ _ _ He) Hk)
    as Hrun.
  destruct (refused _ _ _ _) as [r|]; [done|].
  destruct Hrun as (name & typ & max & Hhw & ->). exists name, typ, max. split; [done|].
  destruct (start_calls _ _ _ _ _) as [[fd|e] k] eqn:Hcalls.
  - by eapply open_endpoint_run.
  - by eapply open_endpoint_raise.
Qed.
End started.

(** ** No child outlives its endpoint *)

Section tracked.
Context {K : Type} `{!Env K} `{!DictOrder}.
Abbreviation W := (world (Driver K)).
Implicit Types w : W.

(** The child [c] belongs to the entry of [addr]. *)
Definition child_of (addr : Z) (c : nat) w : Prop :=
  ∃ fd pipe, dr_ep_fds (w_chip w) !! inl addr = Some [fd; Z.of_nat c; Z.of_nat pipe].

(** The running children are those of the table, and some of [L]. *)
Definition tracked (L : gset nat) w : Prop :=
  well_keyed (w_chip w) ∧
  ∀ c j, dr_children (w_chip w) !! c = Some (j, Running) →
    (∃ addr, child_of addr c w) ∨ c ∈ L.

(** While an endpoint is started: its own entry will not count, and the child it
    has goes to [L']. *)
Definition starting (addr : Z) (L L' : gset nat) w : Prop :=
  tracked L w ∧
  ∀ c j, dr_children (w_chip w) !! c = Some (j, Running) →
    (∃ addr', addr' ≠ addr ∧ child_of addr' c w) ∨ c ∈ L'.

Definition start_result {A} (L L' : gset nat) (r : outcome A * W) : Prop :=
  match r with (Ok _, w) => tracked L' w | (Raise _, w) => tracked L w end.

(** Only the surroundings and the pipes may differ. *)
Definition same_tables w w' : Prop :=
  dr_ep_fds (w_chip w') = dr_ep_fds (w_chip w) ∧
  dr_children (w_chip w') = dr_children (w_chip w).

#[local] Instance same_tables_preorder : PreOrder same_tables.
Proof. split; [done|]. unfold same_tables. intros ??? [] []. split; congruence. Qed.

Lemma tracked_same_tables L w w' : same_tables w w' → tracked L w → tracked L w'.
Proof. unfold tracked, well_keyed, child_of. by intros [-> ->]. Qed.

Lemma starting_same_tables addr L L' w w' :
  same_tables w w' → starting addr L L' w → starting addr L L' w'.
Proof. unfold starting, tracked, well_keyed, child_of. by intros [-> ->]. Qed.

Lemma same_tables_in_env {A} (m : M K A) : respects same_tables (in_env m).
Proof. intros w. unfold in_env, zoom. by destruct (m _). Qed.

Lemma same_tables_driver {A} (f : Driver K → A) : respects same_tables (driver f).
Proof. by intros w. Qed.

Lemma same_tables_pipes f : respects same_tables (modify_driver (λ d, set_dr_pipes (f d) d)).
Proof. by intros w. Qed.

Lemma same_tables_pipe_send p b : respects same_tables (pipe_send p b).
Proof. by intros w. Qed.

Lemma same_tables_pipe_recv p : respects same_tables (pipe_recv p).
Proof.
  intros w. unfold pipe_recv, driver. rewrite bind_gets.
  by destruct (_ !! _) as [[|b q]|].
Qed.

Lemma same_tables_child_step j : respects same_tables (child_step j).
Proof.
  destruct j; cbn [child_step]; apply respects_bind; try apply _;
    eauto using same_tables_pipe_recv, same_tables_in_env, same_tables_pipe_send.
  intros []; [|apply respects_ret, _]. apply respects_bind; [apply _|apply same_tables_in_env|].
  intros. apply respects_ret, _.
Qed.

Lemma same_tables_SendPacket a b : respects same_tables (gadgetfs_SendPacket a b).
Proof.
  unfold gadgetfs_SendPacket. apply respects_bind; [apply _|apply same_tables_driver|].
  intros t. apply respects_bind; [apply _|apply respects_lift, _|]. intros e.
  apply respects_bind; [apply _|apply respects_lift, _|]. intros [[] p].
  apply same_tables_pipe_send.
Qed.

Lemma same_tables_ignoring e m :
  respects same_tables m → respects same_tables (ignoring (K:=K) e m).
Proof.
  intros Hm w. specialize (Hm w). unfold ignoring.
  destruct (m w) as [[[]|[]] w'] eqn:E; cbn in *; try done. by case_match.
Qed.

Lemma same_tables_HaltEndpoint a : respects same_tables (gadgetfs_HaltEndpoint a).
Proof.
  unfold gadgetfs_HaltEndpoint. apply respects_bind; [apply _|apply same_tables_driver|].
  intros t. apply respects_bind; [apply _|apply respects_lift, _|]. intros e.
  apply respects_bind; [apply _|apply respects_lift, _|]. intros [fd p].
  apply same_tables_ignoring. destruct (negb _);
    (apply respects_bind; [apply _|apply same_tables_in_env|intros; apply respects_ret, _]).
Qed.

Lemma same_tables_endpoint_config l a : respects same_tables (endpoint_config l a).
Proof.
  unfold endpoint_config, on_gadget, GetSpeed, self.
  repeat (apply respects_bind; [apply _|..]);
    repeat first [progress intros | apply respects_lift, _ | apply respects_gets, _
      | apply same_tables_driver | apply respects_raise, _ | apply respects_ret, _
      | apply respects_bind; [apply _|..] | case_match ].
Qed.

Lemma set_child_lookup c st w c' :
  dr_children (w_chip (snd (set_child c st w))) !! c' =
    if decide (c = c') then (λ '(j, _), (j, st)) <$> dr_children (w_chip w) !! c'
    else dr_children (w_chip w) !! c'.
Proof.
  cbn. destruct (decide (c = c')) as [<-|Hne].
  - by rewrite list_lookup_alter, decide_True.
  - by rewrite list_lookup_alter_ne.
Qed.

Lemma finish_start addr fd child pipe L L' w :
  starting addr L L' w →
  start_result L L' ((modify_driver (λ d, set_dr_ep_fds
    (<[inl addr := [fd; Z.of_nat child; Z.of_nat pipe]]> (dr_ep_fds d)) d);;
    child_start child) w).
Proof.
  intros [[Hk _] Hc]. unfold modify_driver. rewrite bind_modify.
  set (w1 := set_chip _ w). change (tracked L' (snd (child_start child w1))). split.
  - intros k t. change (dr_ep_fds _) with (<[inl addr := [fd; Z.of_nat child; Z.of_nat pipe]]>
      (dr_ep_fds (w_chip w))).
    destruct (decide (k = inl addr)) as [->|Hne].
    + rewrite lookup_insert_eq. intros [= <-]. by eexists _, _, _, _.
    + rewrite lookup_insert_ne by done. apply Hk.
  - intros c j. unfold child_start, child_of. rewrite set_child_lookup.
    change (dr_ep_fds _) with (<[inl addr := [fd; Z.of_nat child; Z.of_nat pipe]]>
      (dr_ep_fds (w_chip w))).
    destruct (decide (child = c)) as [<-|Hne].
    + intros _. left. exists addr, fd, pipe. by rewrite lookup_insert_eq.
    + intros Hj. destruct (Hc c j Hj) as [(a & Hna & fd' & pipe' & Ha')|?]; [left|by right].
      exists a, fd', pipe'. by rewrite lookup_insert_ne by (intros [=]; congruence).
Qed.

(** A computation that keeps the tables, followed by one that ends well. *)
Lemma starting_bind {A B} addr L L' (m : M W A) (f : A → M W B) w :
  respects same_tables m → starting addr L L' w →
  (∀ a w', starting addr L L' w' → start_result L L' (f a w')) →
  start_result L L' ((m ≫= f) w).
Proof.
  intros Hm Hw Hf. specialize (Hm w). unfold mbind, M_bind.
  destruct (m w) as [[a|e] w']; cbn in *.
  - apply Hf. by eapply starting_same_tables.
  - eapply tracked_same_tables; [done|]. apply Hw.
Qed.

Lemma created_starting addr L L' target w :
  starting addr L L' w → starting addr L L' (snd (Process target w)).
Proof.
  assert (∀ c j, dr_children (w_chip (snd (Process target w))) !! c = Some (j, Running) →
            dr_children (w_chip w) !! c = Some (j, Running)) as Hrunning.
  { intros c j. cbn. intros [?|[_ Hj]]%lookup_app_Some; [done|].
    by apply list_lookup_singleton_Some in Hj as [_ ?]. }
  intros [[Hk Hc] Hs]. split; [split; [done|]|].
  - intros c j Hj. exact (Hc c j (Hrunning c j Hj)).
  - intros c j Hj. exact (Hs c j (Hrunning c j Hj)).
Qed.

Lemma open_endpoint_tracked l name addr size L L' w :
  starting addr L L' w → start_result L L' (open_endpoint l name addr size w).
Proof.
  intros Hw. unfold open_endpoint.
  apply (starting_bind addr); [apply same_tables_driver|done|]. clear w Hw. intros dir w Hw.
  apply (starting_bind addr); [apply same_tables_in_env|done|]. clear w Hw. intros fd w Hw.
  apply (starting_bind addr); [apply same_tables_endpoint_config|done|].
  clear w Hw. intros buf w Hw.
  apply (starting_bind addr); [apply same_tables_in_env|done|]. clear w Hw. intros n w Hw.
  apply (starting_bind addr); [by intros []|done|]. clear w Hw n. intros pipe w Hw.
  destruct (negb _).
  - rewrite (M_bind_run (Process _) _ w _ _ eq_refl).
    by apply (finish_start addr), created_starting.
  - rewrite M_bind_assoc.
    rewrite (M_bind_run (Process _) _ w _ _ eq_refl).
    pose proof (created_starting addr L L' (ReaderProcess fd size pipe) w Hw) as Hw'.
    rewrite M_bind_assoc. apply (starting_bind addr); [apply same_tables_in_env|done|].
    intros [] w2 Hw2. rewrite bind_ret. by apply (finish_start addr).
Qed.

(** The child in the entry of the address of a descriptor. *)
Definition entry_child l w : gset nat :=
  match getattr_int (w_heap w) l "bEndpointAddress" with
  | Ok addr =>
      match dr_ep_fds (w_chip w) !! inl addr with
      | Some [_; child; _] => {[Z.to_nat child]}
      | _ => ∅
      end
  | Raise _ => ∅
  end.

Lemma tracked_starting l addr L w :
  getattr_int (w_heap w) l "bEndpointAddress" = Ok addr →
  tracked L w → starting addr L (L ∪ entry_child l w) w.
Proof.
  intros Ha Hw. split; [done|]. destruct Hw as [Hk Hc]. intros c j Hj.
  destruct (Hc c j Hj) as [(a & fd & pipe & He)|?]; [|right; set_solver].
  destruct (decide (a = addr)) as [->|Hne]; [right|left; exists a; split; [done|by exists fd, pipe]].
  unfold entry_child. rewrite Ha, He, Nat2Z.id. set_solver.
Qed.

Lemma StartEndpoint_tracked l L w :
  tracked L w → start_result L (L ∪ entry_child l w) (StartEndpoint l w).
Proof.
  intros Hw. unfold StartEndpoint, driver. run_steps.
  destruct (getattr_int (w_heap w) l "bEndpointAddress") as [addr|e] eqn:Ha; run_steps; [|done].
  pose proof (tracked_starting l addr L w Ha Hw) as Hs. revert Hs.
  generalize (L ∪ entry_child l w). intros L' Hs.
  destruct (dr_hw_eps (w_chip w) !! addr) as [[[name typ] hsize]|]; run_steps; [|done].
  case_match; [done|].
  destruct (getattr_int (w_heap w) l "bmAttributes") as [at_|e]; run_steps; [|done].
  destruct (USB_TRANSFER_TYPE_TO_MASK !! _) as [ep_type|]; run_steps; [|done].
  destruct (getattr_int (w_heap w) l "wMaxPacketSize") as [size|e]; run_steps; [|done].
  case_match; [done|]. case_match; [done|].
  by apply (open_endpoint_tracked l name addr size L L' w).
Qed.

Definition ep_fds_of w := dr_ep_fds (w_chip w).

(** Stopping an endpoint drops its entry, even when a call outside fails. *)
Lemma StopEndpoint_table addr L w :
  tracked L w →
  match dr_ep_fds (w_chip w) !! inl addr with
  | None => StopEndpoint addr w = (Raise KeyError, w)
  | Some _ => ep_fds_of (snd (StopEndpoint addr w)) = delete (inl addr) (ep_fds_of w)
  end ∧ tracked L (snd (StopEndpoint addr w)).
Proof.
  intros [Hk Hc]. unfold StopEndpoint, driver, ep_fds_of. run_steps.
  destruct (dr_ep_fds (w_chip w) !! inl addr) as [t|] eqn:Ht; run_steps; [|done].
  destruct (Hk _ _ Ht) as (a & fd & child & pipe & [= <-] & ->).
  unfold modify_driver. run_steps. cbn [unpack3]. run_steps.
  set (w1 := set_chip _ w).
  assert (well_keyed (w_chip w1)) as Hk1.
  { intros k t. cbn. intros [_ H']%lookup_delete_Some. by apply Hk. }
  unfold child_stop, driver. rewrite M_bind_assoc. run_steps. rewrite !Nat2Z.id.
  change (dr_children (w_chip w1)) with (dr_children (w_chip w)).
  assert (∀ c j, dr_children (w_chip w) !! c = Some (j, Running) → child ≠ c →
    (∃ addr, child_of addr c w1) ∨ c ∈ L) as Hothers.
  { intros c j Hj Hne. destruct (Hc c j Hj) as [(a & fd' & pipe' & Ha)|?]; [left|by right].
    exists a, fd', pipe'. cbn. apply lookup_delete_Some. split; [|done].
    intros [= <-]. rewrite Ha in Ht. injection Ht as _ Heq _. lia. }
  assert (∀ m, respects same_tables m →
    let w' := snd ((set_child child Terminated;; m : M W unit) w1) in
    dr_ep_fds (w_chip w') = delete (inl addr) (dr_ep_fds (w_chip w)) ∧ tracked L w') as Hend.
  { intros m Hm w'. subst w'.
    change ((set_child child Terminated;; m) w1)
      with (m (snd (set_child child Terminated w1))).
    specialize (Hm (snd (set_child child Terminated w1))).
    split; [by destruct Hm as [-> _]|].
    eapply tracked_same_tables; [exact Hm|]. split; [done|].
    intros c j. rewrite set_child_lookup.
    destruct (decide (child = c)); [by destruct (_ !! c) as [[]|]|].
    intros Hj. by apply (Hothers c j). }
  assert (tracked L w1 ∨ ∃ j, dr_children (w_chip w) !! child = Some (j, Running)) as Hdec.
  { destruct (dr_children (w_chip w) !! child) as [[j []]|] eqn:Hj; [|by right; eexists| |];
      left; (split; [done|]; intros c j' Hj'; apply (Hothers c j' Hj');
      intros <-; change (dr_children (w_chip w) !! child = Some (j', Running)) in Hj';
      congruence). }
  assert (respects same_tables ((if Z.land addr UsbConstants.Dir.IN =? 0
    then in_env (env_remove_handler (PipeNo pipe)) else mret ());;
    in_env (env_close fd))) as Hm.
  { apply respects_bind; [apply _| |intros; apply same_tables_in_env].
    destruct (_ =? _); [apply same_tables_in_env|apply respects_ret, _]. }
  specialize (Hend _ Hm).
  destruct (dr_children (w_chip w) !! child) as [[j []]|] eqn:Hj; run_steps.
  2, 3: exact Hend.
  all: split; [done|]; destruct Hdec as [?|[? ?]]; [done|]; congruence.
Qed.

Lemma StopEndpoint_tracked addr L w : tracked L w → tracked L (snd (StopEndpoint addr w)).
Proof. intros Hw. apply (StopEndpoint_table addr L w Hw). Qed.

Lemma stop_keys ks L w w' :
  tracked L w →
  tracked L (snd (mfor ks stop_key w)) ∧
  (mfor ks stop_key w = (Ok (), w') →
   ∀ k, k ∈ ks ∨ ep_fds_of w !! k = None → ep_fds_of w' !! k = None).
Proof.
  revert w. induction ks as [|k ks IH]; intros w Hw; cbn [mfor].
  { split; [exact Hw|]. intros [= <-] k [Hk|Hk]; [by apply not_elem_of_nil in Hk|done]. }
  unfold mbind, M_bind. destruct (stop_key k w) as [[[]|e] w1] eqn:Hstop.
  2: { split; [|done]. destruct k as [a|n]; [|by injection Hstop as _ <-].
       cbn in Hstop. apply (f_equal snd) in Hstop. cbn in Hstop. subst w1.
       by apply StopEndpoint_tracked. }
  destruct k as [a|n]; [|done]. cbn in Hstop.
  destruct (StopEndpoint_table a L w Hw) as [Htable Hw1]. rewrite Hstop in Htable, Hw1.
  destruct (IH w1 Hw1) as [? IH']. split; [done|]. intros Hrun k Hk. apply IH'; [done|].
  destruct (dr_ep_fds (w_chip w) !! inl a); [|done]. cbn in Htable. rewrite Htable.
  rewrite elem_of_cons in Hk. destruct (decide (k = inl a)) as [->|Hne].
  - right. by rewrite lookup_delete_eq.
  - rewrite lookup_delete_ne by done. naive_solver.
Qed.

(** What happens to the driver: calls of the gadget, turns of its children, and
    the disconnect event. *)
Inductive driver_op :=
  | OpStart (endpoint_desc : loc)
  | OpStop (endpoint_addr : Z)
  | OpSend (endpoint_addr : Z) (data : bytes)
  | OpHalt (endpoint_addr : Z)
  | OpTurn (child : job)
  | OpDisconnected.

Context (gadget : Device (Driver K)).

Definition run_op (o : driver_op) : M W unit :=
  match o with
  | OpStart l => StartEndpoint l
  | OpStop a => StopEndpoint a
  | OpSend a b => gadgetfs_SendPacket a b
  | OpHalt a => gadgetfs_HaltEndpoint a
  | OpTurn j => child_step j
  | OpDisconnected => gadgetfs_Disconnected gadget
  end.

(** The child an operation leaves running without an entry: a start that succeeds
    on an address that is open replaces the entry of the child it has. *)
Definition displaced (o : driver_op) w : gset nat :=
  match o with
  | OpStart l =>
      match fst (StartEndpoint l w) with Ok _ => entry_child l w | Raise _ => ∅ end
  | _ => ∅
  end.

(** Any history, exceptions included, with the children it displaced. *)
Inductive history (w : W) : gset nat → W → Prop :=
  | history_refl : history w ∅ w
  | history_step L w1 o :
      history w L w1 → history w (L ∪ displaced o w1) (snd (run_op o w1)).

(** The address of a descriptor, if it has one, is not in use. *)
Definition unused l w : Prop :=
  ∀ addr, getattr_int (w_heap w) l "bEndpointAddress" = Ok addr →
    dr_ep_fds (w_chip w) !! inl addr = None.

Lemma displaced_unused l w : unused l w → displaced (OpStart l) w = ∅.
Proof.
  intros Hl. unfold displaced, entry_child. destruct (fst _); [|done].
  destruct (getattr_int _ _ _) as [addr|e] eqn:Ha; [|done]. by rewrite (Hl addr Ha).
Qed.

Lemma started_and_sent l a b w :
  unused l w → history w ∅ (snd (gadgetfs_SendPacket a b (snd (StartEndpoint l w)))).
Proof.
  intros Hl. pose proof (history_step w _ _ (OpStart l) (history_refl w)) as H1.
  rewrite displaced_unused in H1 by done.
  pose proof (history_step w _ _ (OpSend a b) H1) as H2. cbn [displaced run_op] in H2.
  by rewrite !(right_id_L ∅ (∪)) in H2.
Qed.

(** The gadget's [Disconnected] leaves the controller alone. *)
Hypothesis gadget_Disconnected : respects same_tables (d_Disconnected gadget).

Lemma Disconnected_tracked L w :
  tracked L w →
  tracked L (snd (gadgetfs_Disconnected gadget w)) ∧
  ∀ w', gadgetfs_Disconnected gadget w = (Ok (), w') → ep_fds_of w' = ∅.
Proof.
  intros Hw. unfold gadgetfs_Disconnected, driver. run_steps.
  set (ks := (dict_items (dr_ep_fds (w_chip w))).*1).
  destruct (mfor ks stop_key w) as [[[]|e] w1] eqn:Hrun.
  - destruct (stop_keys ks L w w1 Hw) as [Hw1 Hempty]. rewrite Hrun in Hw1.
    assert (ep_fds_of w1 = ∅) as He.
    { apply map_eq. intros k. rewrite lookup_empty. apply Hempty; [done|].
      destruct (dr_ep_fds (w_chip w) !! k) as [t|] eqn:Ht; [left|by right].
      apply list_elem_of_fmap. exists (k, t). by rewrite elem_of_dict_items. }
    rewrite (M_bind_run _ _ _ _ _ Hrun). unfold modify_driver. run_steps.
    set (w2 := set_chip _ w1). assert (same_tables w1 w2) as H12 by by split.
    assert (respects same_tables (on_gadget "Disconnected" (d_Disconnected gadget))) as Hg.
    { unfold on_gadget. apply respects_bind; [apply _|apply same_tables_driver|].
      intros []; [done|apply respects_raise, _]. }
    specialize (Hg w2). split.
    + apply (tracked_same_tables L w1); [|done]. etrans; [exact H12|exact Hg].
    + intros w' Hrun'. rewrite Hrun' in Hg. destruct Hg as [Hg _]. exact Hg.
  - rewrite (M_bind_run_raise _ _ _ _ _ Hrun). split; [|done]. cbn.
    destruct (stop_keys ks L w w1 Hw) as [Hw1 _]. by rewrite Hrun in Hw1.
Qed.

Lemma run_op_tracked o L w : tracked L w → tracked (L ∪ displaced o w) (snd (run_op o w)).
Proof.
  intros Hw. destruct o; cbn [run_op displaced].
  { pose proof (StartEndpoint_tracked endpoint_desc L w Hw) as Hs.
    destruct (StartEndpoint endpoint_desc w) as [[u|e] w']; cbn [fst snd start_result] in *;
      [exact Hs|]. by rewrite (right_id_L ∅ (∪)). }
  all: rewrite (right_id_L ∅ (∪)).
  - by apply StopEndpoint_tracked.
  - eapply tracked_same_tables; [apply same_tables_SendPacket|exact Hw].
  - eapply tracked_same_tables; [apply same_tables_HaltEndpoint|exact Hw].
  - eapply tracked_same_tables; [apply same_tables_child_step|exact Hw].
  - by apply Disconnected_tracked.
Qed.

Lemma history_tracked w w' L : tracked ∅ w → history w L w' → tracked L w'.
Proof. intros Hw Hh. induction Hh as [|L w1 o _ IH]; [done|]. by apply run_op_tracked. Qed.

(** C23: No child process outlives its endpoint, unless the endpoint was started
    again while open.  Take any gadget whose [Disconnected] leaves the controller
    alone, as those of the repository do.  Start with no endpoint open and no child running; then
    whatever sequence of starts, stops, packets, halts, turns of children and
    disconnections has happened, failing calls included, every running child belongs
    to an entry of the endpoint table or is one of [L], the children whose entry a
    successful start of an open address has replaced (the driver does not refuse it:
    [restart_strands]); and a disconnection that returns (its calls of the kernel may
    raise) leaves the table empty and no child running but those of [L].  If no open
    address is started again, [L] is empty. *)
Theorem children_tracked w L w1 w2 :
  dr_ep_fds (w_chip w) = ∅ → (∀ c j, dr_children (w_chip w) !! c ≠ Some (j, Running)) →
  history w L w1 →
  tracked L w1 ∧
  (gadgetfs_Disconnected gadget w1 = (Ok (), w2) →
   dr_ep_fds (w_chip w2) = ∅ ∧
   ∀ c j, dr_children (w_chip w2) !! c = Some (j, Running) → c ∈ L).
Proof.
  intros He Hc Hh. assert (tracked L w1) as Hw1.
  { eapply history_tracked; [|done]. split.
    - intros k t. by rewrite He, lookup_empty.
    - intros c j Hj. by destruct (Hc c j). }
  split; [done|]. intros Hrun. destruct (Disconnected_tracked L w1 Hw1) as [Hw2 Hempty].
  specialize (Hempty w2 Hrun). rewrite Hrun in Hw2. cbn in Hw2. split; [done|].
  intros c j Hj. destruct Hw2 as [_ Hw2].
  destruct (Hw2 c j Hj) as [(a & fd & p & Ha)|?]; [|done].
  unfold ep_fds_of in Hempty. by rewrite Hempty, lookup_empty in Ha.
Qed.
End tracked.

(** ** Events *)

(** What the kernel reports: eight bytes of payload and a type. *)
Inductive usb_event :=
  | EvNop
  | EvConnect (speed : Z)
  | EvDisconnect
  | EvSetup (request_type request value index length : Z)
  | EvSuspend
  | EvOther (typ : Z).

Definition event_type (e : usb_event) : Z :=
  match e with
  | EvNop => GADGETFS_NOP | EvConnect _ => GADGETFS_CONNECT
  | EvDisconnect => GADGETFS_DISCONNECT | EvSetup _ _ _ _ _ => GADGETFS_SETUP
  | EvSuspend => GADGETFS_SUSPEND | EvOther t => t
  end.

Definition payload (e : usb_event) : bytes :=
  match e with
  | EvConnect speed => le_split 4 speed
  | EvSetup rt r v i n => [byte_of_Z rt; byte_of_Z r] ++ le_split 2 v ++ le_split 2 i ++ le_split 2 n
  | _ => []
  end.

Definition valid_event (e : usb_event) : Prop :=
  match e with
  | EvConnect speed => 0 <= speed < 4294967296
  | EvSetup rt r v i n =>
      0 <= rt < 256 ∧ 0 <= r < 256 ∧ 0 <= v < 65536 ∧ 0 <= i < 65536 ∧ 0 <= n < 65536
  | EvOther t => GADGETFS_SUSPEND < t < 4294967296
  | _ => True
  end.

Definition event_bytes (e : usb_event) (pad : bytes) : bytes :=
  payload e ++ pad ++ le_split 4 (event_type e).

Section events.
Context {K : Type} `{!Env K} `{!DictOrder}.
Abbreviation W := (world (Driver K)).
Context (gadget : Device (Driver K)).
Implicit Types w : W.

Definition reaction (e : usb_event) : M W unit :=
  match e with
  | EvConnect speed => gadgetfs_Connected gadget speed
  | EvDisconnect => gadgetfs_Disconnected gadget
  | EvSetup rt r v i n => HandleSetup gadget rt r v i n
  | _ => mret ()
  end.

Lemma event_type_range e : valid_event e → 0 <= event_type e < 256 ^ Z.of_nat 4.
Proof.
  change (256 ^ Z.of_nat 4) with 4294967296.
  destruct e; unfold valid_event, event_type, GADGETFS_NOP, GADGETFS_CONNECT,
    GADGETFS_DISCONNECT, GADGETFS_SETUP, GADGETFS_SUSPEND; try lia.
Qed.

Lemma read_event_type e pad :
  valid_event e → (length (payload e) + length pad = 8)%nat →
  struct_unpack_from "=I" (event_bytes e pad) 8 = Ok [VInt (event_type e)].
Proof.
  intros Hv Hl. unfold event_bytes. rewrite app_assoc. unfold struct_unpack_from.
  rewrite drop_app_length' by (by rewrite length_app).
  replace (parse_format "=I") with (Some [C_I]) by reflexivity.
  cbn [of_option mbind outcome_bind]. rewrite decide_True by (by rewrite length_le_split).
  cbn -[le_split le_combine]. rewrite take_ge by (by rewrite length_le_split).
  by rewrite le_combine_split by by apply event_type_range.
Qed.

(** Decoding the kernel's events.  A 12-byte event is decoded to exactly the
    reaction for what it says: a setup packet's five fields and a connection's
    speed come out as they were put in, whatever the unused bytes hold; an
    unknown type is ignored.  A shorter read raises [struct.error]. *)
Theorem HandleEvent_decodes fd w k buf :
  dr_fd (w_chip w) = Some fd → env_read fd 12 (dr_env (w_chip w)) = (Ok buf, k) →
  let w' := set_chip (set_dr_env k (w_chip w)) w in
  (∀ e pad, valid_event e → (length (payload e) + length pad = 8)%nat →
     buf = event_bytes e pad → HandleEvent gadget w = reaction e w') ∧
  ((length buf < 12)%nat → HandleEvent gadget w = (Raise StructError, w')).
Proof.
  intros Hfd Hread w'.
  assert (∀ A (f : bytes → M W A),
    ((on_fd (λ fd, in_env (env_read fd 12))) ≫= f) w = f buf w') as Hstep.
  { intros A f. apply M_bind_run. unfold on_fd, driver. run_steps. rewrite Hfd.
    by apply in_env_run. }
  unfold HandleEvent. rewrite Hstep. split.
  - intros e pad Hv Hl ->. rewrite (read_event_type e pad Hv Hl). run_steps.
    unfold event_bytes. destruct e as [|speed| |rt r v i n| |t]; cbn [event_type reaction payload].
    + done.
    + cbn in Hl. do 4 (destruct pad as [|? pad]; [done|]). destruct pad; [|done].
      cbn [Z.eqb GADGETFS_CONNECT GADGETFS_NOP Pos.eqb].
      replace (struct_unpack _ _) with (@Ok (list value) [VInt (le_combine (le_split 4 speed))])
        by reflexivity.
      run_steps. by rewrite le_combine_split.
    + done.
    + cbn in Hl. destruct pad as [|? pad]; [|done].
      cbn [Z.eqb GADGETFS_SETUP GADGETFS_CONNECT GADGETFS_NOP GADGETFS_DISCONNECT Pos.eqb].
      replace (struct_unpack _ _) with (@Ok (list value)
        (VInt ∘ le_combine <$> [le_split 1 rt; le_split 1 r;
           le_split 2 v; le_split 2 i; le_split 2 n])) by reflexivity.
      run_steps. cbn [fmap list_fmap compose]. destruct Hv as (? & ? & ? & ? & ?).
      by rewrite !le_combine_split.
    + done.
    + unfold valid_event, GADGETFS_SUSPEND in Hv.
      unfold GADGETFS_NOP, GADGETFS_CONNECT, GADGETFS_DISCONNECT, GADGETFS_SETUP.
      repeat match goal with
             | |- context [t =? ?n] => destruct (Z.eqb_spec t n); [lia|]
             end.
      done.
  - intros Hlen. unfold struct_unpack_from.
    replace (parse_format "=I") with (Some [C_I]) by reflexivity.
    cbn [of_option mbind outcome_bind]. rewrite decide_False; [done|].
    rewrite length_drop. cbn. lia.
Qed.
End events.

(** ** Calls the driver gets wrong *)

Section failures.
Context {K : Type} `{!Env K}.
Abbreviation W := (world (Driver K)).
Implicit Types w : W.

(** Halting an endpoint never works: the entry of an endpoint is a triple and
    the code unpacks a pair, so an open endpoint raises [ValueError] and any
    other [KeyError], before the kernel is told anything. *)
Theorem HaltEndpoint_raises a w :
  well_keyed (w_chip w) →
  gadgetfs_HaltEndpoint a w =
    (Raise (match dr_ep_fds (w_chip w) !! inl a with
            | Some _ => ValueError "too many values to unpack"
            | None => KeyError
            end), w).
Proof.
  intros Hk. unfold gadgetfs_HaltEndpoint, driver. run_steps.
  destruct (dr_ep_fds (w_chip w) !! inl a) as [t|] eqn:Ht; run_steps; [|done].
  destruct (Hk _ _ Ht) as (a' & fd & c & p & _ & ->). done.
Qed.

(** An endpoint started twice is not refused, whatever the check of the table
    for its name means to do: the first child goes on running with no entry to
    stop it by. *)
Lemma restart_strands l addr attributes size interval fd' c p w fd k j :
  endpoint_at (w_heap w) l addr attributes size interval →
  well_keyed (w_chip w) → dr_gadget (w_chip w) = true →
  let d := w_chip w in
  dr_ep_fds d !! inl addr = Some [fd'; Z.of_nat c; Z.of_nat p] →
  (∀ a fd c' p', a ≠ addr → dr_ep_fds d !! inl a = Some [fd; Z.of_nat c'; Z.of_nat p'] → c' ≠ c) →
  dr_children d !! c = Some (j, Running) →
  refused (dr_hw_eps d) addr attributes size = None →
  (∀ name, start_calls (path_join (dr_ep_dir d) name) addr
     (config_bytes (g_speed (w_gadget w)) addr attributes size interval) (length (dr_pipes d))
     (dr_env d) = (Ok fd, k)) →
  ∃ w', StartEndpoint l w = (Ok (), w') ∧
    dr_children (w_chip w') !! c = Some (j, Running) ∧
    ∀ a fd p, dr_ep_fds (w_chip w') !! inl a ≠ Some [fd; Z.of_nat c; Z.of_nat p].
Proof.
  intros He Hk Hb d Ht Hc Hj Hr Hcalls.
  pose proof (StartEndpoint_run l addr attributes size w (bEndpointAddress_read _ _ _ _ _ _ He) Hk)
    as Hrun. fold d in Hrun. rewrite Hr in Hrun. destruct Hrun as (name & typ & max & _ & ->).
  eexists. split; [by eapply open_endpoint_run|]. cbn.
  pose proof (lookup_lt_Some _ _ _ Hj). split; [by apply lookup_app_l_Some|].
  intros a fd1 p1. destruct (decide (a = addr)) as [->|Hne].
  - rewrite lookup_insert_eq. intros [= _ Heq _]. subst d. lia.
  - rewrite lookup_insert_ne by (intros [=]; congruence). intros Ha. by eapply Hc.
Qed.
End failures.

(** ** Witnesses: a BeagleBone *)

Section witnesses.
#[local] Existing Instance canonical_order.

Definition beaglebone : gmap Z hardware_endpoint :=
  match HARDWARE !! "beaglebone-black" with Some (_, eps) => eps | None => ∅ end.

Definition bound_driver (reads : list (outcome bytes)) : Driver trace :=
  mkDriver "musb-hdrc" beaglebone "/dev/gadget" true (Some 3) ∅ [] [] (mkTrace [] reads).

Definition endpoint_object (addr attributes size interval : Z) : obj :=
  mkObj EndpointDescriptor
    (list_to_map [("bEndpointAddress", VInt addr); ("bmAttributes", VInt attributes);
                  ("wMaxPacketSize", VInt size); ("bInterval", VInt interval)])
    [] [] [] ∅ ∅ [] None.

(** A bulk endpoint, and the isochronous ones of the echo gadget. *)
Definition driver_world (reads : list (outcome bytes)) : world (Driver trace) :=
  mkWorld [endpoint_object 0x81 2 512 0; endpoint_object 0x83 1 1023 1;
           endpoint_object 0x01 2 512 0]
    (mkGadget UsbConstants.Speed.HIGH true 0%nat 0%nat 0%nat ∅ None ∅ ∅
       None None ∅ None None None)
    (mkComposite ∅ ∅ []) [] [] (bound_driver reads).

Definition generic_device : Device (Driver trace) :=
  mkDevice Connected Disconnected ReceivePacket Gadget_methods.

Lemma StartEndpoint_effect_witness :
  let w := driver_world [] in
  ∃ name typ max, dr_hw_eps (w_chip w) !! 0x81 = Some (name, typ, max) ∧
    match start_calls (path_join "/dev/gadget" name) 0x81
            (config_bytes UsbConstants.Speed.HIGH 0x81 2 512 0) 0 (mkTrace [] []) with
    | (Ok fd, k) => StartEndpoint 0%nat w =
                      (Ok (), set_chip (started 0x81 512 fd k (bound_driver [])) w)
    | (Raise e, k) => ∃ d', StartEndpoint 0%nat w = (Raise e, set_chip d' w) ∧
                            dr_ep_fds d' = ∅ ∧ dr_env d' = k
    end.
Proof.
  apply (StartEndpoint_effect 0%nat 0x81 2 512 0 (driver_world [])).
  - eexists. split_and!; reflexivity || discriminate.
  - intros k t. cbn. by rewrite lookup_empty.
  - reflexivity.
Defined.

(** The isochronous endpoints of the echo gadget at full speed do not fit. *)
Lemma echo_isochronous_refused :
  fst (StartEndpoint 1%nat (driver_world [])) = Raise (RuntimeError
    "Hardware endpoint ep3in only supports a maximum packet size of 512, 1023 requested.").
Proof. reflexivity. Qed.

Lemma children_tracked_witness :
  let w1 := snd (StartEndpoint 0%nat (driver_world [])) in
  let w2 := snd (gadgetfs_SendPacket 0x81 [Byte.x01] w1) in
  let w3 := snd (gadgetfs_Disconnected generic_device w2) in
  tracked ∅ w2 ∧ dr_ep_fds (w_chip w3) = ∅ ∧
  (∀ c j, dr_children (w_chip w3) !! c = Some (j, Running) → c ∈ (∅ : gset nat)) ∧
  dr_children (w_chip w2) !! 0%nat = Some (WriterProcess 3 0, Running).
Proof.
  intros w1 w2 w3.
  destruct (children_tracked generic_device (λ w, conj eq_refl eq_refl) (driver_world []) ∅ w2 w3)
    as [Ht Hend].
  - reflexivity.
  - by intros [] j.
  - apply started_and_sent. intros addr _. cbn. by rewrite lookup_empty.
  - split; [exact Ht|].
    pose proof (run_fst (gadgetfs_Disconnected generic_device) w2 (Ok ())) as Hrun.
    assert (fst (gadgetfs_Disconnected generic_device w2) = Ok ()) as Hfst by by vm_compute.
    destruct (Hend (Hrun Hfst)) as [He Hc]. split; [exact He|]. split; [exact Hc|by vm_compute].
Defined.

Lemma HandleEvent_decodes_witness :
  let e := EvSetup 0x80 6 0x0100 0 64 in
  let w := driver_world [Ok (event_bytes e [])] in
  HandleEvent generic_device w =
    HandleSetup generic_device 0x80 6 0x0100 0 64
      (set_chip (set_dr_env (mkTrace [ReadCall 3 12] []) (w_chip w)) w).
Proof.
  intros e w.
  apply (HandleEvent_decodes generic_device 3 w (mkTrace [ReadCall 3 12] []) (event_bytes e []))
    with (e := e) (pad := []); try reflexivity.
  split_and!; done || lia.
Defined.

Lemma HaltEndpoint_raises_witness :
  let d := set_dr_ep_fds {[inl 0x81 := [4; 0; 0]]} (bound_driver []) in
  let w := set_chip d (driver_world []) in
  gadgetfs_HaltEndpoint 0x81 w = (Raise (ValueError "too many values to unpack"), w).
Proof.
  intros d w. apply (HaltEndpoint_raises 0x81 w). intros k t.
  change ((({[inl 0x81 := [4; 0; 0]]} : gmap ep_key (list Z)) !! k = Some t) →
    ∃ addr fd child pipe, k = inl addr ∧ t = [fd; Z.of_nat child; Z.of_nat pipe]).
  intros [<- <-]%lookup_singleton_Some. by exists 0x81, 4, 0%nat, 0%nat.
Defined.
End witnesses.
