(* ===== verification/GadgetfsEcho.v ===== *)
(** The echo device behind the gadgetfs controller: packets go from the kernel
    through a reader process, a pipe, the event loop and the gadget, a second
    pipe and a writer process back to the kernel.  Whatever the order in which
    the two processes and the event loop run, the packets stay in order, and
    they all come back once everyone has had enough turns. *)

From S2P Require Import Prelude PyStruct UsbConstants HidConstants UsbDescriptors.
From S2P Require Import World Gadget Composite HidGadget Devices.
From S2P Require Import CompositeDispatch EchoDevice LinuxGadgetfs GadgetfsDriver.

#[local] Open Scope Z_scope.

Section echo.
Context `{!DictOrder}.
Abbreviation W := (world (Driver trace)).
Implicit Types w : W.

(** A composite gadget bound to the driver. *)
Definition composite_device : Device (Driver trace) :=
  mkDevice CompositeGadget_Connected CompositeGadget_Disconnected
    CompositeGadget_ReceivePacket CompositeGadget_methods.

(** An endpoint pair: [a] and [a + 0x80], with their files and pipes. *)
Context (a fd_out fd_in size child_in : Z) (p_out p_in : nat).

Inductive actor := Reader | Loop | Writer.

#[export] Instance actor_eq_dec : EqDecision actor.
Proof. solve_decision. Defined.

(** One turn.  A read with no packet from the host waits. *)
Definition turn (x : actor) : M W unit :=
  match x with
  | Reader =>
      reads ← driver (λ d, t_reads (dr_env d));
      match reads with [] => mret () | _ => child_step (ReaderProcess fd_out size p_out) end
  | Loop => run_handler composite_device (ReceivePacket_handler a p_out)
  | Writer => child_step (WriterProcess fd_in p_in)
  end.

(** What was written to the file of the input endpoint. *)
Definition written_by (c : env_call) : option bytes :=
  match c with
  | WriteCall fd data => if decide (fd = fd_in) then Some data else None
  | _ => None
  end.
Definition written w : list bytes := omap written_by (t_calls (dr_env (w_chip w))).

(** The gadget echoes on [a], and both endpoints are started. *)
Record linked (rest outq inq : list bytes) w : Prop := {
  l_address : a = 1 ∨ a = 2 ∨ a = 3;
  l_connected : g_chip (w_gadget w) = true;
  l_echoes : echoes_at 0 w;
  l_routed : ∃ n m, g_endpoint_interface_map (w_gadget w) !! a = Some n ∧
               GetInterfaceFeatureMap w = (Ok m, w) ∧ m !! n = Some 0%nat;
  l_bound : dr_gadget (w_chip w) = true;
  l_entry : dr_ep_fds (w_chip w) !! inl (a + 0x80) = Some [fd_in; child_in; Z.of_nat p_in];
  l_pipes : p_out ≠ p_in;
  l_out : dr_pipes (w_chip w) !! p_out = Some outq;
  l_in : dr_pipes (w_chip w) !! p_in = Some inq;
  l_reads : t_reads (dr_env (w_chip w)) = Ok <$> rest
}.

(** Only pipes and the kernel may have changed. *)
Definition pipes_and_env w w' : Prop :=
  w' = set_chip (set_dr_env (dr_env (w_chip w'))
         (set_dr_pipes (dr_pipes (w_chip w')) (w_chip w))) w.

Lemma linked_change rest outq inq rest' outq' inq' w w' :
  linked rest outq inq w → pipes_and_env w w' →
  dr_pipes (w_chip w') !! p_out = Some outq' → dr_pipes (w_chip w') !! p_in = Some inq' →
  t_reads (dr_env (w_chip w')) = Ok <$> rest' → linked rest' outq' inq' w'.
Proof.
  intros [? ? Hechoes (n & m & ? & Hm & ?) ? ? ? _ _ _] Hw' ? ? ?.
  unfold pipes_and_env in Hw'. split; try done; rewrite Hw'; try done.
  exists n, m. split_and!; try done. revert Hm.
  unfold GetInterfaceFeatureMap, GetSpeed, self. run_steps. cbn.
  destruct (_ =? _); [by intros [= ->]|]. destruct (_ =? _); [by intros [= ->]|done].
Qed.

Lemma reader_turn p rest outq inq w :
  linked (p :: rest) outq inq w →
  ∃ w', turn Reader w = (Ok (), w') ∧ linked rest (outq ++ [p]) inq w' ∧
        written w' = written w.
Proof.
  intros Hl. pose proof (l_reads _ _ _ _ Hl) as Hr.
  eexists. split.
  { unfold turn, driver. run_steps. rewrite Hr. cbn [fmap list_fmap child_step].
    erewrite M_bind_run; [|apply in_env_run; cbn; unfold gets, mbind, M_bind; by rewrite Hr].
    reflexivity. }
  split.
  - eapply linked_change; [exact Hl|done|..].
    + cbn. rewrite list_lookup_alter_eq, (l_out _ _ _ _ Hl). done.
    + cbn. rewrite list_lookup_alter_ne by apply (l_pipes _ _ _ _ Hl). apply (l_in _ _ _ _ Hl).
    + done.
  - unfold written. cbn. rewrite omap_app. cbn. by rewrite app_nil_r.
Qed.

Lemma pipe_recv_some p b q w :
  dr_pipes (w_chip w) !! p = Some (b :: q) →
  pipe_recv p w =
    (Ok (Some b), set_chip (set_dr_pipes (<[p := q]> (dr_pipes (w_chip w))) (w_chip w)) w).
Proof. intros Hp. unfold pipe_recv, driver. run_steps. by rewrite Hp. Qed.

Lemma pipe_recv_none p w :
  dr_pipes (w_chip w) !! p = Some [] → pipe_recv p w = (Ok None, w).
Proof. intros Hp. unfold pipe_recv, driver. run_steps. by rewrite Hp. Qed.

Lemma loop_turn p rest outq inq w :
  linked rest (p :: outq) inq w →
  ∃ w', turn Loop w = (Ok (), w') ∧ linked rest outq (inq ++ [p]) w' ∧
        written w' = written w.
Proof.
  intros Hl. pose proof (l_out _ _ _ _ Hl) as Ho. pose proof (l_in _ _ _ _ Hl) as Hi.
  set (w1 := set_chip (set_dr_pipes (<[p_out := outq]> (dr_pipes (w_chip w))) (w_chip w)) w).
  assert (p_out < length (dr_pipes (w_chip w)))%nat as Hlen by by eapply lookup_lt_Some.
  assert (linked rest outq inq w1) as Hl1.
  { eapply linked_change; [exact Hl|done|..].
    - cbn. by rewrite list_lookup_insert_eq.
    - cbn. by rewrite list_lookup_insert_ne by apply (l_pipes _ _ _ _ Hl).
    - apply (l_reads _ _ _ _ Hl). }
  destruct (l_routed _ _ _ _ Hl1) as (n & m & Hn & Hm & Hmn).
  eexists. split.
  { unfold turn, run_handler. rewrite (M_bind_run _ _ _ _ _ (pipe_recv_some _ _ _ _ Ho)).
    fold w1. unfold on_gadget, driver. run_steps. rewrite (l_bound _ _ _ _ Hl1).
    cbn [composite_device d_ReceivePacket]. rewrite (packet_routed _ _ _ _ _ _ Hn Hm Hmn).
    rewrite echo_packet_sends by apply Hl1. cbn [chip_SendPacket gadgetfs_chip].
    unfold gadgetfs_SendPacket, driver. run_steps. rewrite (l_entry _ _ _ _ Hl1).
    run_steps. cbn [unpack3]. run_steps. rewrite Nat2Z.id. reflexivity. }
  split; [|done]. eapply linked_change; [exact Hl1|done|..].
  - cbn. rewrite list_lookup_alter_ne by (symmetry; apply (l_pipes _ _ _ _ Hl)).
    by rewrite list_lookup_insert_eq.
  - cbn. rewrite list_lookup_alter_eq, list_lookup_insert_ne by apply (l_pipes _ _ _ _ Hl).
    by rewrite Hi.
  - apply (l_reads _ _ _ _ Hl).
Qed.

Lemma writer_turn p rest outq inq w :
  linked rest outq (p :: inq) w →
  ∃ w', turn Writer w = (Ok (), w') ∧ linked rest outq inq w' ∧
        written w' = written w ++ [p].
Proof.
  intros Hl. pose proof (l_out _ _ _ _ Hl) as Ho. pose proof (l_in _ _ _ _ Hl) as Hi.
  assert (p_in < length (dr_pipes (w_chip w)))%nat as Hlen by by eapply lookup_lt_Some.
  eexists. split.
  { unfold turn, child_step. rewrite (M_bind_run _ _ _ _ _ (pipe_recv_some _ _ _ _ Hi)).
    erewrite M_bind_run by (apply in_env_run; reflexivity). reflexivity. }
  split.
  - eapply linked_change; [exact Hl|done|..].
    + cbn. rewrite list_lookup_insert_ne; [done|]. symmetry. apply (l_pipes _ _ _ _ Hl).
    + cbn. by rewrite list_lookup_insert_eq.
    + apply (l_reads _ _ _ _ Hl).
  - unfold written. cbn. rewrite omap_app. cbn. by rewrite decide_True.
Qed.

(** An actor with nothing to do. *)
Definition idle (x : actor) (rest outq inq : list bytes) : Prop :=
  match x with Reader => rest = [] | Loop => outq = [] | Writer => inq = [] end.

Lemma idle_turn x rest outq inq w :
  linked rest outq inq w → idle x rest outq inq → turn x w = (Ok (), w).
Proof.
  intros Hl Hx. destruct x; cbn in Hx; subst.
  - unfold turn, driver. run_steps. by rewrite (l_reads _ _ _ _ Hl).
  - unfold turn, run_handler.
    by rewrite (M_bind_run _ _ _ _ _ (pipe_recv_none _ _ (l_out _ _ _ _ Hl))).
  - unfold turn, child_step.
    by rewrite (M_bind_run _ _ _ _ _ (pipe_recv_none _ _ (l_in _ _ _ _ Hl))).
Qed.

(** Every packet of [ps] is in exactly one place, in order: written, in one of
    the pipes, or still to be read. *)
Definition accounted (ps : list bytes) (rest outq inq : list bytes) w : Prop :=
  linked rest outq inq w ∧ written w ++ inq ++ outq ++ rest = ps.

(** The turns still needed. *)
Definition pending (rest outq inq : list bytes) : nat :=
  3 * length rest + 2 * length outq + length inq.

Lemma turn_step x ps rest outq inq w :
  accounted ps rest outq inq w →
  ∃ w' rest' outq' inq', turn x w = (Ok (), w') ∧ accounted ps rest' outq' inq' w' ∧
    (idle x rest outq inq ∧ (rest', outq', inq') = (rest, outq, inq) ∨
     ¬ idle x rest outq inq ∧ S (pending rest' outq' inq') = pending rest outq inq).
Proof.
  intros [Hl Hps].
  destruct x.
  - destruct rest as [|p rest].
    { exists w, [], outq, inq. split_and!; [by eapply idle_turn|by split|by left]. }
    destruct (reader_turn _ _ _ _ _ Hl) as (w' & Hrun & Hl' & Hw). exists w', rest, (outq ++ [p]), inq.
    split_and!; [done|split; [done|]; rewrite Hw, <- Hps; by rewrite <- !app_assoc|].
    right. split; [done|]. unfold pending. rewrite length_app. cbn. lia.
  - destruct outq as [|p outq].
    { exists w, rest, [], inq. split_and!; [by eapply idle_turn|by split|by left]. }
    destruct (loop_turn _ _ _ _ _ Hl) as (w' & Hrun & Hl' & Hw). exists w', rest, outq, (inq ++ [p]).
    split_and!; [done|split; [done|]; rewrite Hw, <- Hps; by rewrite <- !app_assoc|].
    right. split; [done|]. unfold pending. rewrite length_app. cbn. lia.
  - destruct inq as [|p inq].
    { exists w, rest, outq, []. split_and!; [by eapply idle_turn|by split|by left]. }
    destruct (writer_turn _ _ _ _ _ Hl) as (w' & Hrun & Hl' & Hw). exists w', rest, outq, inq.
    split_and!; [done|split; [done|]; rewrite Hw, <- Hps; by rewrite <- !app_assoc|].
    right. split; [done|]. unfold pending. cbn. lia.
Qed.

Lemma run_turns sched ps rest outq inq w :
  accounted ps rest outq inq w →
  ∃ w' rest' outq' inq', mfor sched turn w = (Ok (), w') ∧
    accounted ps rest' outq' inq' w' ∧
    (pending rest' outq' inq' <= pending rest outq inq)%nat ∧
    (∀ x, x ∈ sched → ¬ idle x rest outq inq →
       (pending rest' outq' inq' < pending rest outq inq)%nat).
Proof.
  revert rest outq inq w. induction sched as [|y sched IH]; intros rest outq inq w Hw.
  { exists w, rest, outq, inq. split_and!; [done..|]. by intros x ?%not_elem_of_nil. }
  destruct (turn_step y _ _ _ _ _ Hw) as (w1 & r1 & o1 & i1 & Hrun & Hw1 & Hstep).
  destruct (IH _ _ _ _ Hw1) as (w2 & r2 & o2 & i2 & Hrun2 & Hw2 & Hle & Hlt).
  exists w2, r2, o2, i2. cbn [mfor]. rewrite (M_bind_run _ _ _ _ _ Hrun).
  destruct Hstep as [[Hidle [= -> -> ->]]|[_ Hs]]; split_and!; try done; [|lia|lia].
  intros x [->|Hx]%elem_of_cons Hbusy; [done|]. by eapply Hlt.
Qed.

Lemma pending_busy rest outq inq :
  pending rest outq inq ≠ 0%nat → ∃ x, ¬ idle x rest outq inq.
Proof.
  unfold pending. intros Hp. destruct rest; [|by exists Reader].
  destruct outq; [|by exists Loop]. destruct inq; [done|by exists Writer].
Qed.

Lemma run_rounds rounds ps rest outq inq w :
  accounted ps rest outq inq w → (∀ r x, r ∈ rounds → x ∈ r) →
  ∃ w' rest' outq' inq', mfor (concat rounds) turn w = (Ok (), w') ∧
    accounted ps rest' outq' inq' w' ∧
    (pending rest' outq' inq' <= pending rest outq inq - length rounds)%nat.
Proof.
  revert rest outq inq w. induction rounds as [|r rounds IH]; intros rest outq inq w Hw Hr.
  { exists w, rest, outq, inq. split_and!; [done..|]. cbn. lia. }
  destruct (run_turns r _ _ _ _ _ Hw) as (w1 & r1 & o1 & i1 & Hrun & Hw1 & Hle & Hlt).
  destruct (IH _ _ _ _ Hw1) as (w2 & r2 & o2 & i2 & Hrun2 & Hw2 & Hle2).
  { intros r' x Hin. apply Hr. by apply elem_of_cons; right. }
  exists w2, r2, o2, i2. cbn [concat]. rewrite mfor_app, (M_bind_run _ _ _ _ _ Hrun).
  split_and!; [done..|]. cbn [length].
  destruct (decide (pending rest outq inq = 0%nat)) as [H0|H0]; [lia|].
  destruct (pending_busy _ _ _ H0) as [x Hx].
  assert (x ∈ r) as Hin by (apply Hr, elem_of_cons; by left).
  specialize (Hlt x Hin Hx). lia.
Qed.

(** C6: Packets are echoed in order, and all of them.  With the echo device bound
    to the driver and an endpoint pair started, let the reader process, the event
    loop and the writer process take turns in any order: no turn fails, what was
    written back to the host is at every moment a prefix of what the host sent,
    with no packet lost, repeated or overtaken; and once everyone has had three
    turns per packet, everything the host sent has been written back. *)
Theorem echo_in_order ps rest outq inq w sched :
  accounted ps rest outq inq w →
  ∃ w', mfor sched turn w = (Ok (), w') ∧ written w' `prefix_of` ps ∧
    ∀ rounds, sched = concat rounds → (∀ r x, r ∈ rounds → x ∈ r) →
      (pending rest outq inq <= length rounds)%nat → written w' = ps.
Proof.
  intros Hw. destruct (run_turns sched _ _ _ _ _ Hw) as (w' & r & o & i & Hrun & [_ Hps] & _).
  exists w'. split_and!; [done|by exists (i ++ o ++ r)|].
  intros rounds -> Hr Hn.
  destruct (run_rounds rounds _ _ _ _ _ Hw Hr) as (w2 & r2 & o2 & i2 & Hrun2 & [_ Hps2] & Hle).
  rewrite Hrun in Hrun2. injection Hrun2 as <-.
  assert (pending r2 o2 i2 = 0%nat) as H0 by lia. unfold pending in H0.
  destruct r2, o2, i2; try (cbn in H0; lia). by rewrite !app_nil_r in Hps2.
Qed.
End echo.

(** ** Witness: two packets on the bulk endpoint of a high-speed echo device *)

Definition echo_driver : Driver trace :=
  mkDriver "musb-hdrc" ∅ "/dev/gadget" true (Some 3)
    {[inl 0x01 := [4; 0; 0]; inl 0x81 := [5; 1; 1]]} [[]; []]
    [(ReaderProcess 4 512 0, Running); (WriterProcess 5 1, Running)]
    (mkTrace [] [Ok (bytes_of "ab"); Ok (bytes_of "c")]).

Definition echo_link : world (Driver trace) :=
  mkWorld []
    (mkGadget UsbConstants.Speed.HIGH true 0%nat 0%nat 0%nat ∅ None ∅ {[0x01 := 0; 0x81 := 0]}
       None None ∅ None None None)
    (mkComposite {[0 := 0%nat]} {[0 := 0%nat]} [0%nat])
    [mkCompositeFeature true [] [] EchoCompositeFeature] [] echo_driver.

Lemma echo_in_order_witness : ∃ w',
  mfor (concat (replicate 6 [Writer; Loop; Reader]))
    (@turn canonical_order 1 4 5 512 0 1) echo_link = (Ok (), w') ∧
  written 5 w' = [bytes_of "ab"; bytes_of "c"].
Proof.
  destruct (@echo_in_order canonical_order 1 4 5 512 1 0 1 [bytes_of "ab"; bytes_of "c"]
              [bytes_of "ab"; bytes_of "c"] [] [] echo_link
              (concat (replicate 6 [Writer; Loop; Reader]))) as (w' & Hrun & _ & Hall).
  - split; [|reflexivity]. split; try reflexivity; [by left|by eexists| |discriminate].
    exists 0, {[0 := 0%nat]}. split_and!; reflexivity.
  - exists w'. split; [exact Hrun|]. apply (Hall (replicate 6 [Writer; Loop; Reader])).
    + reflexivity.
    + intros r x [-> _]%elem_of_replicate. destruct x; set_solver.
    + apply Nat.leb_le. reflexivity.
Defined.
