(* ===== verification/Server.v ===== *)
(** The server of server.py: which gadget the controller is bound to, who has
    claimed the device, and the update of the package, with the upload of
    package.py and the start-up of __main__.py.

    A handler is a computation on the server's globals that answers a status and
    a body, the web framework's default being 200 and nothing.  Gadgets are
    objects, so the globals hold references.  The controller and the host (files,
    processes, the network) are interfaces. *)

From Stdlib Require Import Ascii String.
From S2P Require Import Prelude PyStruct PyPath.

#[local] Open Scope Z_scope.

(** A reference to a gadget object. *)
Abbreviation gref := nat.

(** What the server calls on its controller and on gadgets. *)
Class ServerChip (C : Type) := {
  sc_IsConfigured : C → bool;
  sc_Destroy : M C unit;
  sc_AddStringDescriptor : gref → Z → string → M C unit;
  sc_Create : gref → M C unit
}.

(** What a controller promises: [sc_bound] is the gadget it drives, an attempt to
    bind one leaves it bound to that one even if it fails later, and a release
    that returns has released. *)
Class ServerChipLaws (C : Type) `{!ServerChip C} := {
  sc_bound : C → option gref;
  sc_IsConfigured_bound c : sc_IsConfigured c = is_not_none (sc_bound c);
  sc_Destroy_ok c c' : sc_Destroy c = (Ok (), c') → sc_bound c' = None;
  sc_Destroy_raise c e c' :
    sc_Destroy c = (Raise e, c') → sc_bound c' = None ∨ sc_bound c' = sc_bound c;
  sc_AddStringDescriptor_bound g i s c :
    sc_bound (snd (sc_AddStringDescriptor g i s c)) = sc_bound c;
  sc_Create_bound g c : sc_bound (snd (sc_Create g c)) = Some g
}.

(** The host: [open] and [write], [HTTPServer.stop] and [listen], [Popen], [poll],
    the status [urlopen] gets or [None] for [URLError], [IOLoop.add_timeout] of
    the loop's end, and the MD5 digest in hexadecimal. *)
Class Host (H : Type) := {
  host_write : string → bytes → M H unit;
  host_stop : M H unit;
  host_listen : string → M H unit;
  host_Popen : list string → M H unit;
  host_poll : M H (option Z);
  host_urlopen : string → M H (option Z);
  host_stop_later : M H unit;
  md5 : bytes → string
}.

(** ** The version in a package name *)

(** [[a-z0-9]] *)
Definition hash_char (c : ascii) : bool :=
  let n := nat_of_ascii c in
  ((97 <=? n) && (n <=? 122) || (48 <=? n) && (n <=? 57))%nat.

Fixpoint take_hash (n : nat) (s : string) : option (string * string) :=
  match n, s with
  | O, _ => Some ("", s)
  | S n, String c s =>
      if hash_char c then '(h, rest) ← take_hash n s; Some (String c h, rest) else None
  | S _, EmptyString => None
  end%string.

(** [usb_gadget-([a-z0-9]{32})\.zip] at the beginning of the string. *)
Definition version_here (s : string) : option string :=
  rest ← strip_prefix "usb_gadget-" s;
  '(hash, rest) ← take_hash 32 rest;
  _ ← strip_prefix ".zip" rest;
  Some hash.

(** [VERSION_PATTERN.match(s)]: the greedy [.*] finds the last such place on the
    first line. *)
Definition newline : ascii := ascii_of_nat 10.
Fixpoint VERSION_PATTERN (s : string) : option string :=
  match s with
  | EmptyString => version_here s
  | String c s' =>
      match (if Ascii.eqb c newline then None else VERSION_PATTERN s') with
      | Some hash => Some hash
      | None => version_here s
      end
  end.

(** ** package.py *)

Definition crlf : string := String (ascii_of_nat 13) (String newline "").

Definition EncodeBody (filename buf : string) : string :=
  String.concat crlf
    ["--foo";
     "Content-Disposition: form-data; name=" +:+ quote "file"
       +:+ "; filename=" +:+ quote filename;
     "Content-Type: application/octet-stream"; EmptyString; buf; "--foo--"; EmptyString].

(** [UploadZip]: the request it sends, a URL, a header and a body. *)
Definition package_name (md5 : string) : string := "usb_gadget-" +:+ md5 +:+ ".zip".
Definition UploadZip (content md5 host : string) :
    string * (string * string) * string :=
  ("http://" +:+ host +:+ "/update",
   ("Content-Type", "multipart/form-data; boundary=foo"),
   EncodeBody (package_name md5) content).

(** ** The server's globals *)

Record Server (C H : Type) := mkServer {
  sv_address : option string;
  sv_claimed_by : option string;
  sv_default : gref;
  sv_gadget : option gref;
  sv_hardware : string;
  sv_interface : string;
  sv_port : string;
  sv_chip : C;
  sv_host : H
}.
Arguments mkServer {_ _} _ _ _ _ _ _ _ _ _.
Arguments sv_address {_ _} _.
Arguments sv_claimed_by {_ _} _.
Arguments sv_default {_ _} _.
Arguments sv_gadget {_ _} _.
Arguments sv_hardware {_ _} _.
Arguments sv_interface {_ _} _.
Arguments sv_port {_ _} _.
Arguments sv_chip {_ _} _.
Arguments sv_host {_ _} _.

(** A status and a body. *)
Abbreviation response := (Z * string)%type.

Section Server.
Context {C H : Type} `{!ServerChip C} `{!Host H}.
Abbreviation S := (Server C H).
Implicit Types s : S.

Definition set_claimed_by (v : option string) s : S :=
  mkServer (sv_address s) v (sv_default s) (sv_gadget s) (sv_hardware s) (sv_interface s)
    (sv_port s) (sv_chip s) (sv_host s).
Definition set_sv_gadget (v : option gref) s : S :=
  mkServer (sv_address s) (sv_claimed_by s) (sv_default s) v (sv_hardware s) (sv_interface s)
    (sv_port s) (sv_chip s) (sv_host s).
Definition set_sv_chip (v : C) s : S :=
  mkServer (sv_address s) (sv_claimed_by s) (sv_default s) (sv_gadget s) (sv_hardware s)
    (sv_interface s) (sv_port s) v (sv_host s).
Definition set_sv_host (v : H) s : S :=
  mkServer (sv_address s) (sv_claimed_by s) (sv_default s) (sv_gadget s) (sv_hardware s)
    (sv_interface s) (sv_port s) (sv_chip s) v.

Definition on_sv_chip {A} : M C A → M S A := zoom sv_chip set_sv_chip.
Definition on_host {A} : M H A → M S A := zoom sv_host set_sv_host.

(** [if chip.IsConfigured(): chip.Destroy()] *)
Definition release : M S unit :=
  configured ← gets (λ s, sc_IsConfigured (sv_chip s));
  when configured (on_sv_chip sc_Destroy).

(** A call on the global [gadget], which is [None] until the first switch; so is
    [address] until the program has set it. *)
Definition Create_gadget : M S unit :=
  gadget ← gets sv_gadget;
  match gadget with
  | Some g => on_sv_chip (sc_Create g)
  | None => raise (AttributeError "GetFullSpeedConfigurationDescriptor")
  end.

Definition SwitchGadget (new_gadget : gref) : M S unit :=
  release;;
  modify (set_sv_gadget (Some new_gadget));;
  address ← gets sv_address;
  address ← lift (of_option (TypeError "address") address);
  on_sv_chip (sc_AddStringDescriptor new_gadget 3 address);;
  Create_gadget.

(** *** Handlers *)

(** [VersionHandler.get]: the first entry of [sys.path] that names a package. *)
Fixpoint first_version (path : list string) : option string :=
  match path with
  | [] => None
  | p :: path =>
      match VERSION_PATTERN p with Some v => Some v | None => first_version path end
  end.
Definition VersionHandler_get (sys_path : list string) : M S response :=
  mret (200, default "unpackaged" (first_version sys_path)).

(** [get_argument] of a missing argument answers 400. *)
Definition ClaimHandler_post (session_id : option string) : M S response :=
  claimed_by ← gets sv_claimed_by;
  match claimed_by with
  | None =>
      match session_id with
      | Some id => modify (set_claimed_by (Some id));; mret (200, EmptyString)
      | None => mret (400, EmptyString)
      end
  | Some holder => mret (403, "Device is already claimed by " +:+ quote holder +:+ ".")
  end.

Definition UnclaimHandler_post : M S response :=
  modify (set_claimed_by None);;
  gadget ← gets sv_gadget;
  default ← gets sv_default;
  (if decide (gadget = Some default) then mret () else SwitchGadget default);;
  mret (200, EmptyString).

Definition UnconfigureHandler_post : M S response :=
  default ← gets sv_default;
  SwitchGadget default;;
  mret (200, EmptyString).

Definition DisconnectHandler_post : M S response := release;; mret (200, EmptyString).

Definition ReconnectHandler_post : M S response :=
  configured ← gets (λ s, sc_IsConfigured (sv_chip s));
  when (negb configured) Create_gadget;;
  mret (200, EmptyString).

(** The arguments the new package is started with. *)
Definition update_args (filename : string) s : list string :=
  ["/usr/bin/python"; filename; "--interface"; sv_interface s; "--port"; sv_port s;
   "--hardware"; sv_hardware s]
    ++ match sv_claimed_by s with Some id => ["--start-claimed"; id] | None => [] end.

(** The loop that waits for the new server, [fuel] rounds at most; [None] is no
    answer yet. *)
Fixpoint wait_for_child (fuel : nat) (address : string) : M S (option response) :=
  match fuel with
  | O => mret None
  | Datatypes.S fuel =>
      returncode ← on_host host_poll;
      match returncode with
      | Some code =>
          port ← gets sv_port;
          on_host (host_listen port);;
          gadget ← gets sv_gadget;
          (match gadget with
           | Some g => SwitchGadget g
           | None => raise (AttributeError "AddStringDescriptor")
           end);;
          mret (Some (500, "New package exited with error " +:+ pretty code +:+ "."))
      | None =>
          status ← on_host (host_urlopen ("http://" +:+ address +:+ "/version"));
          if decide (status = Some 200) then
            on_host host_stop_later;; mret (Some (200, EmptyString))
          else wait_for_child fuel address
      end
  end.

(** [UpdateHandler.post] of a file with this name and body. *)
Definition UpdateHandler_post (fuel : nat) (filename : string) (body : bytes) :
    M S (option response) :=
  match VERSION_PATTERN filename with
  | None => mret (Some (400, "Filename must contain MD5 hash."))
  | Some hash =>
      let md5sum := md5 body in
      if decide (md5sum = hash) then
        on_host (host_write (package_name md5sum) body);;
        args ← gets (update_args (package_name md5sum));
        release;;
        on_host host_stop;;
        on_host (host_Popen args);;
        address ← gets sv_address;
        wait_for_child fuel (default "None" address)
      else mret (Some (400, "File hash does not match."))
  end.

(** *** Start-up *)

(** [main] of __main__.py, up to the event loop: the globals before the first
    switch, from the arguments and the address of the interface. *)
Definition main_server (interface port hardware : string) (start_claimed : option string)
    (ip_address : string) (default_gadget : gref) (chip : C) (host : H) : S :=
  mkServer (Some (ip_address +:+ ":" +:+ port)) start_claimed default_gadget None hardware
    interface port chip host.
Definition main_start : M S unit :=
  default ← gets sv_default;
  SwitchGadget default;;
  port ← gets sv_port;
  on_host (host_listen port).
End Server.
