(* ===== verification/ServerOwnership.v ===== *)
(** What the server of server.py guarantees: one claim at a time, the controller
    bound to the gadget the server believes it is, updates only from files named
    after their hash. *)

From Stdlib Require Import Ascii String.
From S2P Require Import Prelude PyStruct PyPath Server.

#[local] Open Scope Z_scope.

(** ** Ownership *)

Section ownership.
Context {C H : Type} `{!ServerChip C} `{!ServerChipLaws C} `{!Host H}.
Abbreviation S := (Server C H).
Implicit Types s : S.

(** The requests the server answers, and a gadget's own handler switching to it. *)
Inductive request :=
  | Version (sys_path : list string)
  | Update (fuel : nat) (filename : string) (body : bytes)
  | Claim (session_id : option string)
  | Unclaim
  | Unconfigure
  | Disconnect
  | Reconnect
  | Configure (g : gref).

Definition answer (m : M S response) : M S (option response) := r ← m; mret (Some r).

Definition handle (r : request) : M S (option response) :=
  match r with
  | Version path => answer (VersionHandler_get path)
  | Update fuel name body => UpdateHandler_post fuel name body
  | Claim id => answer (ClaimHandler_post id)
  | Unclaim => answer UnclaimHandler_post
  | Unconfigure => answer UnconfigureHandler_post
  | Disconnect => answer DisconnectHandler_post
  | Reconnect => answer ReconnectHandler_post
  | Configure g => SwitchGadget g;; mret (Some (200, EmptyString))
  end.

(** The controller drives nothing, or the server's gadget. *)
Definition consistent s : Prop :=
  sc_bound (sv_chip s) = None ∨ sc_bound (sv_chip s) = sv_gadget s.

(** The claim is as it was. *)
Definition same_claim s s' : Prop :=
  sv_claimed_by s' = sv_claimed_by s ∧ sv_default s' = sv_default s.

#[local] Instance same_claim_preorder : PreOrder same_claim.
Proof. split; [done|]. unfold same_claim. intros ??? [] []. split; congruence. Qed.

Lemma on_host_same {A} (m : M H A) s :
  let s' := snd (on_host m s) in
  sv_chip s' = sv_chip s ∧ sv_gadget s' = sv_gadget s ∧ same_claim s s'.
Proof. unfold on_host, zoom. by destruct (m _). Qed.

Lemma on_host_consistent {A} (m : M H A) : preserves consistent (on_host m).
Proof.
  intros s Hs. destruct (on_host_same m s) as (Hc & Hg & _). unfold consistent.
  by rewrite Hc, Hg.
Qed.

Lemma on_host_claim {A} (m : M H A) : respects same_claim (on_host m).
Proof. intros s. apply on_host_same. Qed.

Lemma on_sv_chip_claim {A} (m : M C A) : respects same_claim (on_sv_chip m).
Proof. intros s. unfold on_sv_chip, zoom. by destruct (m _). Qed.

(** A release that returns leaves nothing bound; one that fails keeps the
    invariant. *)
Lemma release_spec s :
  let '(o, s') := release s in
  sv_gadget s' = sv_gadget s ∧
  match o with
  | Ok _ => sc_bound (sv_chip s') = None
  | Raise _ => consistent s → consistent s'
  end.
Proof.
  unfold release. rewrite bind_gets.
  destruct (sc_IsConfigured (sv_chip s)) eqn:Hc; cbn [when].
  - unfold on_sv_chip, zoom. destruct (sc_Destroy (sv_chip s)) as [[[]|e] c] eqn:Hd.
    + split; [done|]. by eapply sc_Destroy_ok.
    + split; [done|]. unfold consistent. cbn.
      destruct (sc_Destroy_raise _ _ _ Hd) as [->| ->]; [by left|done].
  - split; [done|]. rewrite sc_IsConfigured_bound in Hc. cbn.
    by destruct (sc_bound (sv_chip s)).
Qed.

Lemma release_claim : respects same_claim release.
Proof.
  unfold release. apply respects_bind; [apply _|by intros s|]. intros [];
    [apply on_sv_chip_claim|by intros s].
Qed.

(** An attempt to bind the server's gadget. *)
Lemma Create_gadget_spec s :
  consistent s →
  let '(o, s') := Create_gadget s in
  sv_gadget s' = sv_gadget s ∧ consistent s' ∧
  (o = Ok () → sc_bound (sv_chip s') = sv_gadget s').
Proof.
  intros Hs. unfold Create_gadget. rewrite bind_gets.
  destruct (sv_gadget s) as [g|] eqn:Hg; [|done].
  unfold on_sv_chip, zoom. pose proof (sc_Create_bound g (sv_chip s)) as Hb.
  destruct (sc_Create g (sv_chip s)) as [o c]. cbn in Hb. unfold consistent. cbn.
  rewrite Hb, Hg. split; [done|]. split; [by right|done].
Qed.

Lemma Create_gadget_claim : respects same_claim Create_gadget.
Proof.
  unfold Create_gadget. apply respects_bind; [apply _|by intros s|].
  intros []; [apply on_sv_chip_claim|by intros s].
Qed.

Lemma SwitchGadget_spec g s :
  consistent s →
  let '(o, s') := SwitchGadget g s in
  consistent s' ∧
  (o = Ok () → sv_gadget s' = Some g ∧ sc_bound (sv_chip s') = Some g).
Proof.
  intros Hs. unfold SwitchGadget. pose proof (release_spec s) as Hr.
  unfold mbind at 1, M_bind at 1. destruct (release s) as [[[]|e] s1].
  2: { split; [by apply Hr|done]. }
  destruct Hr as [_ Hb]. rewrite bind_modify, bind_gets. cbn [sv_address set_sv_gadget].
  destruct (sv_address s1) as [a|]; cbn [of_option]; run_steps; [|by split; [left|]].
  unfold mbind at 1, M_bind at 1. unfold on_sv_chip at 1, zoom at 1. cbn [sv_chip set_sv_gadget].
  pose proof (sc_AddStringDescriptor_bound g 3 a (sv_chip s1)) as Ha.
  destruct (sc_AddStringDescriptor g 3 a (sv_chip s1)) as [[[]|e] c]; cbn in Ha; rewrite Hb in Ha.
  2: { split; [by left|done]. }
  set (s2 := set_sv_chip c _). pose proof (Create_gadget_spec s2 ltac:(by left)) as Hc.
  destruct (Create_gadget s2) as [o s3]. destruct Hc as (Hg & Hc & Ho). split; [done|].
  intros ->. rewrite (Ho eq_refl), Hg. done.
Qed.

Lemma SwitchGadget_claim g : respects same_claim (SwitchGadget g).
Proof.
  unfold SwitchGadget.
  apply respects_bind; [apply _|apply release_claim|intros _].
  apply respects_bind; [apply _|by intros ?|intros _].
  apply respects_bind; [apply _|by intros ?|intros a].
  apply respects_bind; [apply _|by intros ?|intros a'].
  apply respects_bind; [apply _|apply on_sv_chip_claim|intros _]. apply Create_gadget_claim.
Qed.

Lemma SwitchGadget_consistent g : preserves consistent (SwitchGadget g).
Proof.
  intros s Hs. pose proof (SwitchGadget_spec g s Hs) as Hg.
  by destruct (SwitchGadget g s); destruct Hg.
Qed.

Lemma release_consistent : preserves consistent release.
Proof.
  intros s Hs. pose proof (release_spec s) as Hr.
  destruct (release s) as [[[]|e] s']; destruct Hr as [_ Hr]; [by left|by apply Hr].
Qed.

Lemma Create_gadget_consistent : preserves consistent Create_gadget.
Proof.
  intros s Hs. pose proof (Create_gadget_spec s Hs) as Hc.
  by destruct (Create_gadget s) as [o s']; destruct Hc as (_ & ? & _).
Qed.

#[local] Hint Resolve on_host_claim release_claim Create_gadget_claim SwitchGadget_claim : respects.
#[local] Hint Resolve on_host_consistent release_consistent Create_gadget_consistent
  SwitchGadget_consistent : preserves.

Lemma wait_claim fuel a : respects same_claim (wait_for_child fuel a).
Proof.
  induction fuel as [|fuel IH]; cbn [wait_for_child]; [by intros s|].
  apply respects_bind; [apply _|apply on_host_claim|intros [code|]].
  - apply respects_bind; [apply _|by intros ?|intros port].
    apply respects_bind; [apply _|apply on_host_claim|intros _].
    apply respects_bind; [apply _|by intros ?|intros g].
    apply respects_bind; [apply _| |by intros ??].
    destruct g; [apply SwitchGadget_claim|by intros s].
  - apply respects_bind; [apply _|apply on_host_claim|intros status].
    case_decide; [|apply IH].
    apply respects_bind; [apply _|apply on_host_claim|by intros ??].
Qed.

Lemma wait_consistent fuel a : preserves consistent (wait_for_child fuel a).
Proof.
  induction fuel as [|fuel IH]; cbn [wait_for_child]; [by intros s|].
  apply preserves_bind; [apply on_host_consistent|intros [code|]].
  - apply preserves_bind; [by intros ?|intros port].
    apply preserves_bind; [apply on_host_consistent|intros _].
    apply preserves_bind; [by intros ?|intros g].
    apply preserves_bind; [|by intros ??].
    destruct g; [apply SwitchGadget_consistent|by intros s].
  - apply preserves_bind; [apply on_host_consistent|intros status].
    case_decide; [|apply IH].
    apply preserves_bind; [apply on_host_consistent|by intros ??].
Qed.

Lemma update_claim fuel name body : respects same_claim (UpdateHandler_post fuel name body).
Proof.
  unfold UpdateHandler_post. destruct (VERSION_PATTERN name); [|by intros ?].
  case_decide; [|by intros ?].
  apply respects_bind; [apply _|apply on_host_claim|intros _].
  apply respects_bind; [apply _|by intros ?|intros args].
  apply respects_bind; [apply _|apply release_claim|intros _].
  apply respects_bind; [apply _|apply on_host_claim|intros _].
  apply respects_bind; [apply _|apply on_host_claim|intros _].
  apply respects_bind; [apply _|by intros ?|intros a]. apply wait_claim.
Qed.

Lemma update_consistent fuel name body : preserves consistent (UpdateHandler_post fuel name body).
Proof.
  unfold UpdateHandler_post. destruct (VERSION_PATTERN name); [|by intros ?].
  case_decide; [|by intros ?].
  apply preserves_bind; [apply on_host_consistent|intros _].
  apply preserves_bind; [by intros ?|intros args].
  apply preserves_bind; [apply release_consistent|intros _].
  apply preserves_bind; [apply on_host_consistent|intros _].
  apply preserves_bind; [apply on_host_consistent|intros _].
  apply preserves_bind; [by intros ?|intros a]. apply wait_consistent.
Qed.

Lemma handle_consistent r : preserves consistent (handle r).
Proof.
  destruct r; cbn [handle]; unfold answer;
    [..|apply preserves_bind; [apply SwitchGadget_consistent|by intros ??]];
    try (apply preserves_bind; [|by intros ??]).
  - by intros s.
  - apply update_consistent.
  - intros s Hs. unfold ClaimHandler_post. rewrite bind_gets.
    by destruct (sv_claimed_by s), session_id.
  - unfold UnclaimHandler_post. apply preserves_bind; [by intros ?|intros _].
    apply preserves_bind; [by intros ?|intros g].
    apply preserves_bind; [by intros ?|intros d].
    apply preserves_bind; [|by intros ??].
    case_decide; [by intros s|apply SwitchGadget_consistent].
  - unfold UnconfigureHandler_post. apply preserves_bind; [by intros ?|intros d].
    apply preserves_bind; [apply SwitchGadget_consistent|by intros ??].
  - unfold DisconnectHandler_post.
    apply preserves_bind; [apply release_consistent|by intros ??].
  - unfold ReconnectHandler_post. apply preserves_bind; [by intros ?|intros c].
    apply preserves_bind; [|by intros ??]. apply preserves_when, Create_gadget_consistent.
Qed.

(** Only a claim and its release change who holds the device. *)
Lemma handle_claim r s :
  match r with
  | Claim id => ∃ o s', handle r s = (Ok o, s') ∧
      match sv_claimed_by s, id with
      | Some holder, _ => s' = s ∧ ∃ body, o = Some (403, body)
      | None, Some id => s' = set_claimed_by (Some id) s ∧ o = Some (200, EmptyString)
      | None, None => s' = s ∧ o = Some (400, EmptyString)
      end
  | Unclaim => sv_claimed_by (snd (handle r s)) = None
  | _ => sv_claimed_by (snd (handle r s)) = sv_claimed_by s
  end.
Proof.
  assert (∀ A B (m : M S A) (f : A → M S B), respects same_claim m →
    (∀ a s, snd (f a s) = s) → sv_claimed_by (snd ((m ≫= f) s)) = sv_claimed_by s) as Hbind.
  { intros A B m f Hm Hf. specialize (Hm s). unfold mbind, M_bind.
    destruct (m s) as [[a|e] s']; [rewrite Hf|]; apply Hm. }
  destruct r; cbn [handle]; unfold answer.
  - done.
  - apply update_claim.
  - unfold ClaimHandler_post. rewrite M_bind_assoc, bind_gets.
    destruct (sv_claimed_by s), session_id; do 2 eexists; (split; [done|]); eauto.
  - unfold UnclaimHandler_post. rewrite M_bind_assoc, bind_modify.
    rewrite !M_bind_assoc, bind_gets, !M_bind_assoc, bind_gets, !M_bind_assoc.
    cbn [sv_gadget sv_default set_claimed_by]. case_decide; [done|].
    set (s1 := set_claimed_by None s).
    pose proof (SwitchGadget_claim (sv_default s) s1) as [Hc _].
    unfold mbind at 1, M_bind at 1.
    by destruct (SwitchGadget (sv_default s) s1) as [[[]|e] s'].
  - unfold UnconfigureHandler_post. rewrite M_bind_assoc, bind_gets, M_bind_assoc.
    apply Hbind; [apply SwitchGadget_claim|done].
  - unfold DisconnectHandler_post. rewrite M_bind_assoc.
    apply Hbind; [apply release_claim|done].
  - unfold ReconnectHandler_post. rewrite M_bind_assoc, bind_gets, M_bind_assoc.
    apply Hbind; [apply respects_when; [apply _|apply Create_gadget_claim]|done].
  - apply Hbind; [apply SwitchGadget_claim|done].
Qed.

(** Requests served one after the other, whatever they raise. *)
Inductive served : S → S → Prop :=
  | served_refl s : served s s
  | served_step s0 s r : served s0 s → served s0 (snd (handle r s)).

Lemma served_consistent s0 s : consistent s0 → served s0 s → consistent s.
Proof. intros Hs Hh. induction Hh; [done|]. by apply handle_consistent, IHHh. Qed.

(** C7: One owner and one gadget.  Through any sequence of requests, failed ones
    included, the controller drives nothing or the gadget the server believes it
    is.  A claim succeeds exactly when the device is free, and is otherwise
    refused with 403 and no effect; nobody but the holder's release changes a
    claim.  A release that returns frees the device and leaves the default
    gadget, and a request to become another gadget that returns has bound the
    controller to it. *)
Theorem server_ownership s0 s :
  consistent s0 → served s0 s →
  consistent s ∧
  (∀ id holder, sv_claimed_by s = Some holder →
     ∃ body, handle (Claim id) s = (Ok (Some (403, body)), s)) ∧
  (∀ id, sv_claimed_by s = None →
     handle (Claim (Some id)) s = (Ok (Some (200, EmptyString)), set_claimed_by (Some id) s)) ∧
  (∀ r, sv_claimed_by (snd (handle r s)) ≠ sv_claimed_by s →
     r = Unclaim ∨ (∃ id, r = Claim (Some id)) ∧ sv_claimed_by s = None) ∧
  (∀ o s', handle Unclaim s = (Ok o, s') →
     sv_claimed_by s' = None ∧ sv_gadget s' = Some (sv_default s)) ∧
  (∀ g o s', handle (Configure g) s = (Ok o, s') →
     sv_gadget s' = Some g ∧ sc_bound (sv_chip s') = Some g).
Proof.
  intros Hs0 Hh. pose proof (served_consistent _ _ Hs0 Hh) as Hs. split; [done|].
  split; [|split; [|split; [|split]]].
  - intros id holder Hc. destruct (handle_claim (Claim id) s) as (o & s' & -> & Ho).
    rewrite Hc in Ho. destruct Ho as (-> & body & ->). by exists body.
  - intros id Hc. destruct (handle_claim (Claim (Some id)) s) as (o & s' & -> & Ho).
    rewrite Hc in Ho. by destruct Ho as (-> & ->).
  - intros r Hne. pose proof (handle_claim r s) as Hr. destruct r; try by destruct Hne.
    + right. destruct Hr as (o & s' & Hrun & Ho). rewrite Hrun in Hne.
      destruct (sv_claimed_by s) eqn:Hc, session_id; destruct Ho as [-> ?];
        [by destruct Hne|by destruct Hne| |by destruct Hne].
      split; [by eexists|done].
    + by left.
  - intros o s' Hrun. pose proof (handle_claim Unclaim s) as Hr. rewrite Hrun in Hr.
    split; [done|]. revert Hrun. cbn [handle]. unfold answer, UnclaimHandler_post.
    rewrite M_bind_assoc, bind_modify, !M_bind_assoc, bind_gets, !M_bind_assoc, bind_gets.
    rewrite M_bind_assoc. cbn [sv_gadget sv_default set_claimed_by].
    case_decide as Hd; [by intros [= _ <-]|].
    pose proof (SwitchGadget_spec (sv_default s) (set_claimed_by None s) Hs) as Hsw.
    unfold mbind at 1, M_bind at 1.
    destruct (SwitchGadget _ _) as [[[]|e] s1]; [|done]. destruct Hsw as [_ Hsw].
    intros [= _ <-]. by apply Hsw.
  - intros g o s'. cbn [handle]. pose proof (SwitchGadget_spec g s Hs) as Hsw.
    unfold mbind, M_bind. destruct (SwitchGadget g s) as [[[]|e] s1]; [|done].
    destruct Hsw as [_ Hsw]. intros [= _ <-]. by apply Hsw.
Qed.
End ownership.

(** ** Updates *)

(** *** Package names *)

Lemma take_hash_app h t :
  string_forall hash_char h = true → take_hash (String.length h) (h +:+ t) = Some (h, t).
Proof.
  induction h as [|c h IH]; [done|]. rewrite append_cons.
  cbn [string_forall String.length take_hash]. intros [-> Hh]%andb_prop. by rewrite IH.
Qed.

Definition no_dash (c : ascii) : bool := negb (Ascii.eqb c "-"%char).

Lemma VERSION_PATTERN_no_dash s : string_forall no_dash s = true → VERSION_PATTERN s = None.
Proof.
  assert (∀ s, string_forall no_dash s = true → version_here s = None) as Hhere.
  { intros t Ht. unfold version_here. destruct (strip_prefix _ t) as [r|] eqn:Hr; [|done].
    apply strip_prefix_spec in Hr as ->. done. }
  induction s as [|c s IH]; intros Hs; cbn [VERSION_PATTERN]; [by apply Hhere|].
  cbn in Hs. pose proof Hs as [_ Hs']%andb_prop. rewrite (IH Hs').
  by destruct (Ascii.eqb c newline); apply Hhere.
Qed.

(** Nothing matches later than the name of the package itself. *)
Lemma VERSION_PATTERN_prefixed t h :
  VERSION_PATTERN t = None → version_here ("usb_gadget-" +:+ t) = Some h →
  VERSION_PATTERN ("usb_gadget-" +:+ t) = Some h.
Proof.
  intros Ht Hh. revert Hh. rewrite !append_cons, append_nil. intros Hh.
  cbn -[version_here]. rewrite Ht, Hh. reflexivity.
Qed.

(** A hash as the pattern has it. *)
Definition is_hash (h : string) : Prop :=
  String.length h = 32%nat ∧ string_forall hash_char h = true.

Lemma VERSION_PATTERN_package dir h :
  is_hash h → string_forall (λ c, negb (Ascii.eqb c newline)) dir = true →
  VERSION_PATTERN (dir +:+ package_name h) = Some h.
Proof.
  intros [Hlen Hh]. induction dir as [|c dir IH]; intros Hd.
  - cbn -[package_name VERSION_PATTERN].
    assert (string_forall no_dash (h +:+ ".zip") = true) as Hnd.
    { rewrite string_forall_app. rewrite (string_forall_impl hash_char); [done| |done].
      intros c. unfold no_dash. destruct (Ascii.eqb_spec c "-"%char) as [->|]; done. }
    pose proof (VERSION_PATTERN_no_dash _ Hnd) as Hnone.
    assert (version_here (package_name h) = Some h) as Hhere.
    { unfold version_here, package_name. rewrite strip_prefix_app. cbn [mbind option_bind].
      rewrite <- Hlen, take_hash_app by done. done. }
    unfold package_name in *. generalize dependent (h +:+ ".zip"). intros t _ Ht Hhere.
    by apply VERSION_PATTERN_prefixed.
  - rewrite append_cons. cbn [string_forall VERSION_PATTERN] in *.
    apply andb_prop in Hd as [Hc Hd]. destruct (Ascii.eqb c newline); [done|].
    by rewrite IH.
Qed.

(** *** A host that records *)

Inductive host_call :=
  | Write (name : string) (body : bytes)
  | Stop
  | Listen (port : string)
  | Popen (args : list string)
  | Urlopen (url : string)
  | StopLater.

(** The calls so far, and per round what [poll] and then [urlopen] answer. *)
Record script := mkScript {
  hs_calls : list host_call;
  hs_rounds : list (option Z * option Z)
}.

Section update.
Context (digest : bytes → string).

Definition record (c : host_call) : M script unit :=
  modify (λ h, mkScript (hs_calls h ++ [c]) (hs_rounds h)).

#[local] Instance script_host : Host script := {|
  host_write name body := record (Write name body);
  host_stop := record Stop;
  host_listen port := record (Listen port);
  host_Popen args := record (Popen args);
  host_poll := gets (λ h, match hs_rounds h with (code, _) :: _ => code | [] => None end);
  host_urlopen url :=
    record (Urlopen url);;
    rounds ← gets hs_rounds;
    modify (λ h, mkScript (hs_calls h) (drop 1 rounds));;
    mret (match rounds with (_, status) :: _ => status | [] => None end);
  host_stop_later := record StopLater;
  md5 := digest
|}.

Context {C : Type} `{!ServerChip C} `{!ServerChipLaws C}.
Abbreviation S := (Server C script).
Implicit Types s : S.

Definition with_calls (calls : list host_call) (rounds : list (option Z * option Z)) s : S :=
  set_sv_host (mkScript (hs_calls (sv_host s) ++ calls) rounds) s.

Lemma on_host_run {A} (m : M script A) s o h :
  m (sv_host s) = (o, h) → on_host m s = (o, set_sv_host h s).
Proof. unfold on_host, zoom. by intros ->. Qed.

Lemma poll_run s :
  on_host host_poll s =
    (Ok (match hs_rounds (sv_host s) with (code, _) :: _ => code | [] => None end), s).
Proof. by destruct s. Qed.

Lemma wait_pending fuel address k rounds s :
  Forall (λ r, fst r = None ∧ snd r ≠ Some 200) k →
  hs_rounds (sv_host s) = k ++ rounds →
  wait_for_child (length k + fuel) address s =
    wait_for_child fuel address
      (with_calls (replicate (length k) (Urlopen ("http://" +:+ address +:+ "/version"))) rounds s).
Proof.
  intros Hk. revert s. induction Hk as [|[code status] k [Hcode Hstatus] _ IH]; intros s Hr.
  - cbn. unfold with_calls. rewrite app_nil_r. cbn in Hr. rewrite <- Hr.
    destruct s as [????????[]]. done.
  - cbn in Hcode, Hstatus. subst code. cbn [length Nat.add wait_for_child].
    rewrite (M_bind_run _ _ _ _ _ (poll_run s)), Hr. cbn [app].
    set (u := "http://" +:+ address +:+ "/version").
    rewrite (M_bind_run _ _ _ status
      (with_calls [Urlopen u] (k ++ rounds) s)); 
      [|apply on_host_run; cbn [host_urlopen script_host]; unfold record; run_steps;
        cbn [hs_rounds hs_calls]; by rewrite Hr].
    rewrite decide_False by done. rewrite IH by done. f_equal.
    unfold with_calls, set_sv_host. cbn. by rewrite <- app_assoc.
Qed.

Lemma with_calls_app c1 c2 r1 r2 s :
  with_calls c2 r2 (with_calls c1 r1 s) = with_calls (c1 ++ c2) r2 s.
Proof. unfold with_calls, set_sv_host. cbn. by rewrite <- app_assoc. Qed.

Lemma with_calls_rounds c r s : hs_rounds (sv_host (with_calls c r s)) = r.
Proof. done. Qed.

Lemma record_run c s :
  on_host (record c) s = (Ok (), with_calls [c] (hs_rounds (sv_host s)) s).
Proof. done. Qed.

Lemma release_frame h s :
  release (set_sv_host h s) = (fst (release s), set_sv_host h (snd (release s))).
Proof.
  unfold release. rewrite !bind_gets. cbn [sv_chip set_sv_host].
  destruct (sc_IsConfigured (sv_chip s)); [|done]. cbn [when].
  unfold on_sv_chip, zoom. cbn [sv_chip set_sv_host]. by destruct (sc_Destroy _).
Qed.

Lemma release_keeps s o s1 :
  release s = (o, s1) →
  sv_host s1 = sv_host s ∧ sv_address s1 = sv_address s ∧ sv_port s1 = sv_port s ∧
  sv_gadget s1 = sv_gadget s.
Proof.
  unfold release. rewrite bind_gets. destruct (sc_IsConfigured (sv_chip s)); cbn [when].
  - unfold on_sv_chip, zoom. destruct (sc_Destroy _). by intros [= _ <-].
  - by intros [= _ <-].
Qed.

Lemma before_waiting fuel name body s s1 :
  release s = (Ok (), s1) →
  (on_host (host_write name body);;
   args ← gets (update_args name);
   release;;
   on_host host_stop;;
   on_host (host_Popen args);;
   address ← gets sv_address;
   wait_for_child fuel (default "None" address)) s =
  wait_for_child fuel (default "None" (sv_address s1))
    (with_calls [Write name body; Stop; Popen (update_args name s)] (hs_rounds (sv_host s)) s1).
Proof.
  intros Hrel. pose proof (release_keeps _ _ _ Hrel) as (Hh1 & _).
  cbn [host_write host_stop host_Popen script_host].
  rewrite (M_bind_run _ _ _ _ _ (record_run _ _)), bind_gets.

  assert (release (with_calls [Write name body] (hs_rounds (sv_host s)) s) =
    (Ok (), with_calls [Write name body] (hs_rounds (sv_host s)) s1)) as Hrel'.
  { unfold with_calls. rewrite release_frame, Hrel, Hh1. done. }
  rewrite (M_bind_run _ _ _ _ _ Hrel').
  rewrite (M_bind_run _ _ _ _ _ (record_run _ _)), (M_bind_run _ _ _ _ _ (record_run _ _)).
  by rewrite bind_gets, !with_calls_app.
Qed.

(** C37: An update.  A file whose name carries no hash, or not the hash of its
    contents, is refused with 400 and no effect; the name the upload tool gives a
    package carries its hash.  Otherwise the package is saved, the gadget
    released, the listener stopped and the package started with the server's own
    settings and claim; the server polls it until it exits, then answers 500,
    listens again and binds its gadget again, or until its version page answers,
    then 200. *)
Theorem update_outcome filename body s :
  (∀ fuel, VERSION_PATTERN filename ≠ Some (digest body) →
     ∃ msg, UpdateHandler_post fuel filename body s = (Ok (Some (400, msg)), s)) ∧
  (is_hash (digest body) →
     VERSION_PATTERN (package_name (digest body)) = Some (digest body)) ∧
  (∀ s1 k code status rounds fuel,
     let name := package_name (digest body) in
     let calls := [Write name body; Stop; Popen (update_args name s)] ++
       replicate (length k) (Urlopen ("http://" +:+ default "None" (sv_address s) +:+ "/version")) in
     VERSION_PATTERN filename = Some (digest body) → release s = (Ok (), s1) →
     hs_rounds (sv_host s) = k ++ (code, status) :: rounds →
     Forall (λ r, fst r = None ∧ snd r ≠ Some 200) k → (length k < fuel)%nat →
     match code with
     | Some code => ∀ g s2,
         sv_gadget s = Some g →
         SwitchGadget g (with_calls (calls ++ [Listen (sv_port s)])
                           ((Some code, status) :: rounds) s1) = (Ok (), s2) →
         UpdateHandler_post fuel filename body s =
           (Ok (Some (500, "New package exited with error " +:+ pretty code +:+ ".")), s2)
     | None => status = Some 200 →
         UpdateHandler_post fuel filename body s =
           (Ok (Some (200, EmptyString)),
            with_calls (calls ++ [Urlopen ("http://" +:+ default "None" (sv_address s) +:+ "/version");
                                  StopLater]) rounds s1)
     end).
Proof.
  split; [|split].
  - intros fuel Hne. unfold UpdateHandler_post.
    destruct (VERSION_PATTERN filename) as [hash|]; [|by eexists].
    cbn [md5 script_host]. rewrite decide_False by congruence. by eexists.
  - intros Hh. by apply (VERSION_PATTERN_package EmptyString).
  - intros s1 k code status rounds fuel name calls Hname Hrel Hrounds Hk Hfuel.
    unfold UpdateHandler_post. rewrite Hname. cbn [md5 script_host].
    rewrite decide_True by done. fold name.
    assert (sv_host s1 = sv_host s ∧ sv_address s1 = sv_address s ∧ sv_port s1 = sv_port s ∧
            sv_gadget s1 = sv_gadget s) as (Hh1 & Ha1 & Hp1 & Hg1) by exact (release_keeps _ _ _ Hrel).
    rewrite (before_waiting _ _ _ _ _ Hrel).
    replace fuel with (length k + Datatypes.S (fuel - length k - 1))%nat by lia.
    rewrite (wait_pending _ _ k ((code, status) :: rounds)) by (done || by cbn; rewrite Hh1).
    rewrite with_calls_app, Ha1. fold name calls.
    cbn [wait_for_child]. rewrite (M_bind_run _ _ _ _ _ (poll_run _)).
    rewrite with_calls_rounds. destruct code as [code|].
    + intros g s2 Hg Hsw. rewrite bind_gets. cbn [host_listen script_host].
      change (sv_port (with_calls _ _ s1)) with (sv_port s1). rewrite Hp1.
      rewrite (M_bind_run _ _ _ _ _ (record_run _ _)), with_calls_app, with_calls_rounds.
      rewrite bind_gets. change (sv_gadget (with_calls _ _ s1)) with (sv_gadget s1).
      rewrite Hg1, Hg. by rewrite (M_bind_run _ _ _ _ _ Hsw).
    + intros ->.
      set (u := "http://" +:+ default "None" (sv_address s) +:+ "/version").
      rewrite (M_bind_run _ _ _ (Some 200) (with_calls (calls ++ [Urlopen u]) rounds s1)).
      * rewrite decide_True by done. cbn [host_stop_later script_host].
        rewrite (M_bind_run _ _ _ _ _ (record_run _ _)), with_calls_app, with_calls_rounds.
        by rewrite <- app_assoc.
      * rewrite (on_host_run (host_urlopen u) _ (Ok (Some 200))
          (mkScript (hs_calls (sv_host s1) ++ calls ++ [Urlopen u]) rounds)); [done|].
        cbn [host_urlopen script_host]. unfold record. run_steps.
        cbn [hs_rounds hs_calls sv_host with_calls set_sv_host]. by rewrite <- app_assoc.
Qed.
End update.
