(* ===== verification/ServerDriver.v ===== *)
(** The server on the real controller: the gadgetfs driver keeps the promises
    server.py relies on.  The world of the driver holds one gadget, the one it
    drives; the others are parked beside it, and creating one swaps it in. *)

From S2P Require Import Prelude PyStruct UsbConstants UsbDescriptors World Gadget.
From S2P Require Import LinuxGadgetfs GadgetfsDriver Server ServerOwnership.

#[local] Open Scope Z_scope.

Record Bench (K : Type) := mkBench {
  b_world : world (Driver K);
  b_current : gref;
  b_parked : gref → Gadget * Composite
}.
Arguments mkBench {_} _ _ _.
Arguments b_world {_} _.
Arguments b_current {_} _.
Arguments b_parked {_} _.

Section bench.
Context {K : Type} `{!Env K} `{!DictOrder}.
Abbreviation W := (world (Driver K)).
Implicit Types w : W.
Implicit Types b : Bench K.

(** The class of each gadget. *)
Context (device : gref → Device (Driver K)).

Definition park (g : gref) (x : Gadget * Composite) (f : gref → Gadget * Composite) :
    gref → Gadget * Composite := λ g', if decide (g' = g) then x else f g'.

Definition swap_in (g : gref) b : Bench K :=
  let w := b_world b in
  let parked := park (b_current b) (w_gadget w, w_composite w) (b_parked b) in
  mkBench (set_composite (snd (parked g)) (World.set_gadget (fst (parked g)) w)) g parked.

Definition in_bench {A} (m : M W A) : M (Bench K) A :=
  zoom b_world (λ w b, mkBench w (b_current b) (b_parked b)) m.

(** [gadget.AddStringDescriptor(index, value)] of the current or a parked gadget. *)
Definition bench_AddStringDescriptor (g : gref) (index : Z) (value : string) :
    M (Bench K) unit :=
  current ← gets b_current;
  let add := AddStringDescriptor index (text_of value) 0x0409 in
  if decide (g = current) then in_bench add
  else λ b,
    let '(o, w) := add (World.set_gadget (fst (b_parked b g)) (b_world b)) in
    (o, mkBench (b_world b) (b_current b)
          (park g (w_gadget w, snd (b_parked b g)) (b_parked b))).

#[export] Instance bench_chip : ServerChip (Bench K) := {|
  sc_IsConfigured b := dr_gadget (w_chip (b_world b));
  sc_Destroy := λ b, in_bench (Destroy (device (b_current b))) b;
  sc_AddStringDescriptor := bench_AddStringDescriptor;
  sc_Create g := modify (swap_in g);; in_bench Create
|}.

(** [IsConfigured] is what the driver answers. *)
Lemma bench_IsConfigured b :
  IsConfigured (b_world b) = (Ok (sc_IsConfigured b), b_world b).
Proof. done. Qed.

(** The driver stays bound, or unbound. *)
Definition same_binding w w' : Prop := dr_gadget (w_chip w') = dr_gadget (w_chip w).

#[local] Instance same_binding_preorder : PreOrder same_binding.
Proof. split; [done|]. unfold same_binding. intros ???. congruence. Qed.

Lemma same_binding_in_env {A} (m : M K A) : respects same_binding (in_env m).
Proof. intros w. unfold in_env, zoom. by destruct (m _). Qed.

Lemma same_binding_driver {A} (f : Driver K → A) : respects same_binding (driver f).
Proof. by intros w. Qed.

Lemma same_binding_modify f :
  (∀ d, dr_gadget (f d) = dr_gadget d) → respects same_binding (modify_driver f).
Proof. intros Hf w. apply Hf. Qed.

Lemma same_binding_set_child c s : respects same_binding (set_child (K:=K) c s).
Proof. by intros w. Qed.

Lemma same_binding_stop_key k : respects same_binding (stop_key k).
Proof.
  destruct k as [a|n]; cbn [stop_key]; [|by intros ?]. unfold StopEndpoint.
  apply respects_bind; [apply _|apply same_binding_driver|intros t].
  apply respects_bind; [apply _|by intros ?|intros e].
  apply respects_bind; [apply _|by apply same_binding_modify|intros _].
  apply respects_bind; [apply _|by intros ?|intros [[fd c] p]].
  apply respects_bind; [apply _| |intros _].
  { unfold child_stop. apply respects_bind; [apply _|apply same_binding_driver|intros cs].
    by destruct (_ !! _) as [[j []]|]. }
  apply respects_bind; [apply _| |intros _; apply same_binding_in_env].
  destruct (_ =? _); [apply same_binding_in_env|by intros ?].
Qed.

(** No gadget's [Disconnected] touches the binding. *)
Context (device_laws : ∀ g, respects same_binding (d_Disconnected (device g))).

Lemma same_binding_Disconnected g :
  respects same_binding (gadgetfs_Disconnected (device g)).
Proof.
  unfold gadgetfs_Disconnected.
  apply respects_bind; [apply _|apply same_binding_driver|intros t].
  apply respects_bind; [apply _| |intros _].
  { apply respects_mfor; [apply _|intros; apply same_binding_stop_key]. }
  apply respects_bind; [apply _|by apply same_binding_modify|intros _].
  unfold on_gadget. apply respects_bind; [apply _|apply same_binding_driver|].
  intros []; [apply device_laws|by intros ?].
Qed.

Lemma same_binding_on_fd (m : Z → M K unit) :
  respects same_binding (on_fd (λ fd, in_env (m fd))).
Proof.
  unfold on_fd. apply respects_bind; [apply _|apply same_binding_driver|].
  intros [fd|]; [apply same_binding_in_env|by intros ?].
Qed.

(** The first three steps keep the binding, the last one clears it. *)
Lemma Destroy_binding g w :
  let '(o, w') := Destroy (device g) w in
  match o with
  | Ok _ => dr_gadget (w_chip w') = false
  | Raise _ => same_binding w w'
  end.
Proof.
  assert (∀ (m : M W unit) f, respects same_binding m →
    (∀ w', same_binding w w' → let '(o, w'') := f w' in
       match o with Ok () => dr_gadget (w_chip w'') = false | Raise _ => same_binding w w'' end) →
    ∀ w', same_binding w w' → let '(o, w'') := (m;; (f : M W unit)) w' in
       match o with Ok () => dr_gadget (w_chip w'') = false | Raise _ => same_binding w w'' end)
    as Hstep.
  { intros m f Hm Hf w' Hw'. specialize (Hm w'). unfold mbind, M_bind.
    destruct (m w') as [[[]|e] w'']; cbn in *; [apply Hf|]; by etrans. }
  enough (let '(o, w') := Destroy (device g) w in
    match o with Ok () => dr_gadget (w_chip w') = false | Raise _ => same_binding w w' end) as H'.
  { by destruct (Destroy (device g) w) as [[[]|e] w']. }
  unfold Destroy. apply Hstep; [apply same_binding_Disconnected| |done].
  apply Hstep; [apply same_binding_on_fd|].
  apply Hstep; [apply same_binding_on_fd|]. intros w' _. done.
Qed.

Lemma Create_binding w : dr_gadget (w_chip (snd (Create w))) = true.
Proof.
  unfold Create, modify_driver, driver. rewrite bind_modify, !bind_gets.
  set (w1 := set_chip _ w).
  assert (∀ {A B} (m : M W A) (f : A → M W B) w', dr_gadget (w_chip w') = true →
    respects same_binding m → (∀ a w', dr_gadget (w_chip w') = true →
      dr_gadget (w_chip (snd (f a w'))) = true) →
    dr_gadget (w_chip (snd ((m ≫= f) w'))) = true) as Hstep.
  { intros A B m f w' Hw' Hm Hf. specialize (Hm w'). unfold mbind, M_bind.
    unfold same_binding in Hm. rewrite Hw' in Hm. destruct (m w') as [[a|e] w'']; cbn in *; auto. }
  apply Hstep; [done|apply same_binding_in_env|intros fd w2 Hw2].
  unfold GetFullSpeedConfigurationDescriptor, GetHighSpeedConfigurationDescriptor,
    GetDeviceDescriptor, self.
  rewrite bind_modify. apply Hstep; [done|by intros ?|intros zero w3 Hw3].
  rewrite !bind_gets. apply Hstep; [done|by intros ?|intros bufs w4 Hw4].
  apply Hstep; [done|apply same_binding_in_env|intros n w5 Hw5].
  pose proof (same_binding_in_env (env_add_handler (FileNo fd) HandleEvent_handler) w5) as Hb.
  unfold same_binding in Hb. by rewrite Hb.
Qed.

#[export] Instance bench_laws : ServerChipLaws (Bench K).
Proof.
  refine {| sc_bound b := if dr_gadget (w_chip (b_world b)) then Some (b_current b) else None |}.
  - intros b. cbn. by destruct (dr_gadget _).
  - intros b b'. cbn. unfold in_bench, zoom.
    pose proof (Destroy_binding (b_current b) (b_world b)) as Hd.
    destruct (Destroy _ _) as [o w']. intros [= -> <-]. cbn. by rewrite Hd.
  - intros b e b'. cbn. unfold in_bench, zoom.
    pose proof (Destroy_binding (b_current b) (b_world b)) as Hd.
    destruct (Destroy _ _) as [o w']. intros [= -> <-]. cbn. right. by rewrite Hd.
  - intros g i s b. cbn. unfold bench_AddStringDescriptor. rewrite bind_gets.
    assert (respects same_binding (AddStringDescriptor (C:=Driver K) i (text_of s) 0x0409)) as Ha.
    { intros w. unfold AddStringDescriptor. repeat case_match; done. }
    case_decide.
    + unfold in_bench, zoom. specialize (Ha (b_world b)).
      destruct (AddStringDescriptor _ _ _ _) as [o w']. cbn in *. by rewrite Ha.
    + by destruct (AddStringDescriptor _ _ _ _).
  - intros g b. cbn. rewrite bind_modify. unfold in_bench, zoom.
    pose proof (Create_binding (b_world (swap_in g b))) as Hc.
    destruct (Create _) as [o w']. cbn in *. by rewrite Hc.
Defined.
End bench.

(** ** Witnesses: a server on an unbound BeagleBone *)

Section witnesses.
#[local] Existing Instance canonical_order.
Definition no_digest (b : bytes) : string := "0123456789abcdef0123456789abcdef".
#[local] Existing Instance script_host.

Definition idle_bench : Bench trace :=
  mkBench (set_chip (mkDriver "musb-hdrc" beaglebone "/dev/gadget" false None ∅ [] []
                       (mkTrace [] [])) (driver_world [])) 0%nat
    (λ _, (w_gadget (driver_world []), w_composite (driver_world []))).

Definition idle_server (rounds : list (option Z * option Z)) : Server (Bench trace) script :=
  mkServer (Some "127.0.0.1:8080") None 0%nat (Some 0%nat) "beaglebone-black" "lo" "8080"
    idle_bench (mkScript [] rounds).

#[local] Instance generic_chip : ServerChip (Bench trace) := bench_chip (λ _, generic_device).

Lemma generic_device_laws (g : gref) :
  respects (same_binding (K:=trace)) (d_Disconnected generic_device).
Proof. by intros w. Qed.

#[local] Instance generic_laws : ServerChipLaws (Bench trace) :=
  bench_laws (λ _, generic_device) generic_device_laws.

Lemma server_ownership_witness :
  let host := script_host no_digest in
  let s := set_claimed_by (Some "me") (idle_server []) in
  (∃ body, handle (Claim (Some "you")) s = (Ok (Some (403, body)), s)) ∧
  (∀ o s', handle Unclaim s = (Ok o, s') → sv_claimed_by s' = None ∧ sv_gadget s' = Some 0%nat).
Proof.
  intros host s.
  destruct (server_ownership (idle_server []) s) as (_ & Hclaim & _ & _ & Hunclaim & _).
  - left. reflexivity.
  - exact (served_step (idle_server []) (idle_server []) (Claim (Some "me")) (served_refl _)).
  - split; [by apply (Hclaim (Some "you") "me")|exact Hunclaim].
Defined.

Lemma update_outcome_witness :
  let name := package_name (no_digest []) in
  let url := "http://127.0.0.1:8080/version" in
  let s := idle_server [(None, None); (None, Some 200)] in
  UpdateHandler_post (H := script) (Host0 := script_host no_digest) 5 name [] s =
    (Ok (Some (200, "")),
     with_calls ([Write name []; Stop; Popen (update_args name s); Urlopen url]
                   ++ [Urlopen url; StopLater]) [] s).
Proof.
  intros name url s.
  destruct (update_outcome no_digest name [] s) as (_ & _ & Hrun).
  apply (Hrun s [(None, None)] None (Some 200) [] 5%nat).
  - reflexivity.
  - reflexivity.
  - reflexivity.
  - repeat constructor. discriminate.
  - cbn. lia.
  - reflexivity.
Defined.
End witnesses.
