(* ===== verification/DepsRules.v ===== *)
(** The dependency rules of checkdeps, buildtools/checkdeps/rules.py: which
    include paths a rule covers, how a new rule replaces older ones, and which
    rule applies to an include.

    The regular expressions of specific rules come from DEPS files; whether one
    matches a file name is the parameter [Regexp]. *)

From Stdlib Require Import Ascii String.
From S2P Require Import Prelude PyPath.

#[local] Open Scope string_scope.

(** [re.match(regexp, filename)] is not [None]. *)
Class Regexp := { re_match : string → string → bool }.

(** ** Rules *)

Definition ALLOW : string := "+".
Definition DISALLOW : string := "-".
Definition TEMP_ALLOW : string := "!".

(** [Rule], and [MessageRule] whose rule is a [DISALLOW] of nothing. *)
Inductive Rule :=
  | mkRule (allow dir dependent_dir source : string)
  | MessageRule (reason : string).

#[export] Instance Rule_eq_dec : EqDecision Rule.
Proof. solve_decision. Defined.

Definition allow (r : Rule) : string :=
  match r with mkRule a _ _ _ => a | MessageRule _ => DISALLOW end.
Definition rule_dir (r : Rule) : string :=
  match r with mkRule _ d _ _ => d | MessageRule _ => "" end.
Definition rule_dependent_dir (r : Rule) : string :=
  match r with mkRule _ _ d _ => d | MessageRule _ => "" end.
Definition rule_source (r : Rule) : string :=
  match r with mkRule _ _ _ s => s | MessageRule _ => "" end.

(** [__str__] of both classes. *)
Definition Rule_str (r : Rule) : string :=
  match r with
  | mkRule a d _ s => quote (a +:+ d) +:+ " from " +:+ s +:+ "."
  | MessageRule reason => reason
  end.

(** [x or '.'] *)
Definition or_dot (s : string) : string := if String.eqb s "" then "." else s.

Definition AsDependencyTuple (r : Rule) : string * string * string :=
  (allow r, or_dot (rule_dependent_dir r), or_dot (rule_dir r)).

Definition ParentOrMatch (r : Rule) (other : string) : bool :=
  String.eqb (rule_dir r) other || startswith (other +:+ "/") (rule_dir r).

Definition ChildOrMatch (r : Rule) (other : string) : bool :=
  String.eqb (rule_dir r) other || startswith (rule_dir r +:+ "/") other.

Definition ParseRuleString (rule_string source : string) : outcome (string * string) :=
  match rule_string with
  | EmptyString =>
      Raise (PyException ("The rule string " +:+ quote rule_string +:+ " is empty"
                            +:+ line_feed +:+ "in " +:+ source))
  | String c dir =>
      let typ := String c "" in
      if bool_decide (typ ∈ [ALLOW; DISALLOW; TEMP_ALLOW]) then Ok (typ, dir)
      else Raise (PyException ("The rule string " +:+ quote rule_string
             +:+ " does not begin with a " +:+ quote "+" +:+ ", " +:+ quote "-" +:+ " or "
             +:+ quote "!" +:+ "."))
  end.

(** ** Sets of rules *)

Record Rules := mkRules {
  general_rules : list Rule;
  specific_rules : gmap string (list Rule)
}.

(** [Rules()] *)
Definition no_rules : Rules := mkRules [] ∅.

(** [if not dependee_regexp]: the empty expression counts as none. *)
Definition group_of (dependee_regexp : option string) : option string :=
  match dependee_regexp with Some EmptyString => None | r => r end.

Definition rules_of (rs : Rules) (group : option string) : list Rule :=
  match group with
  | None => general_rules rs
  | Some regexp => default [] (specific_rules rs !! regexp)
  end.
Definition set_rules_of (rs : Rules) (group : option string) (l : list Rule) : Rules :=
  match group with
  | None => mkRules l (specific_rules rs)
  | Some regexp => mkRules (general_rules rs) (<[regexp := l]> (specific_rules rs))
  end.

(** A new rule goes in front, and the rules at or below its directory go. *)
Definition insert_rule (r : Rule) (l : list Rule) : list Rule :=
  r :: base.filter (λ x, ParentOrMatch x (rule_dir r) = false) l.

Definition AddRule (rule_string dependent_dir source : string)
    (dependee_regexp : option string) (rs : Rules) : outcome Rules :=
  '(rule_type, dir) ← ParseRuleString rule_string source;
  let group := group_of dependee_regexp in
  Ok (set_rules_of rs group
        (insert_rule (mkRule rule_type dir dependent_dir source) (rules_of rs group))).

Section Rules.
Context `{!DictOrder} `{!Regexp}.

(** [for rule in rules: if rule.ChildOrMatch(include_path): return rule] *)
Definition first_covering (include_path : string) (l : list Rule) : option Rule :=
  head (base.filter (λ r, ChildOrMatch r include_path = true) l).

Fixpoint specific_rule (groups : list (string * list Rule)) (include_path filename : string) :
    option Rule :=
  match groups with
  | [] => None
  | (regexp, l) :: groups =>
      match (if re_match regexp filename then first_covering include_path l else None) with
      | Some r => Some r
      | None => specific_rule groups include_path filename
      end
  end.

Definition RuleApplyingTo (rs : Rules) (include_path dependee_path : string) : Rule :=
  match specific_rule (dict_items (specific_rules rs)) include_path (basename dependee_path) with
  | Some r => r
  | None =>
      match first_covering include_path (general_rules rs) with
      | Some r => r
      | None => MessageRule "no rule applying."
      end
  end.

(** [Rules.__str__] *)
Definition Rules_str (rs : Rules) : string :=
  let lines l := String.concat line_feed ((λ r, "      " +:+ Rule_str r) <$> l) in
  String.concat line_feed
    (("Rules = {" +:+ line_feed +:+ "    (apply to all files): [" +:+ line_feed
        +:+ lines (general_rules rs) +:+ line_feed +:+ "    ],")
     :: ((λ '(regexp, l), "    (limited to files matching " +:+ regexp +:+ "): [" +:+ line_feed
            +:+ lines l +:+ line_feed +:+ "    ]") <$> dict_items (specific_rules rs))
     ++ ["  }"])%list.

Definition AddDependencyTuplesImpl (suffix : string) (l : list Rule)
    (deps : gset (string * string * string)) : gset (string * string * string) :=
  foldl (λ deps r, let '(a, dependent, dependee) := AsDependencyTuple r in
                   {[ (a, dependent +:+ suffix, dependee) ]} ∪ deps) deps l.

Definition AsDependencyTuples (include_general_rules include_specific_rules : bool)
    (rs : Rules) : gset (string * string * string) :=
  let deps := if include_general_rules
              then AddDependencyTuplesImpl "" (general_rules rs) ∅ else ∅ in
  if include_specific_rules
  then foldl (λ deps '(regexp, l), AddDependencyTuplesImpl ("/" +:+ regexp) l deps) deps
         (dict_items (specific_rules rs))
  else deps.
End Rules.
