(* ===== verification/DepsRuleLaws.v ===== *)
(** What the rules of checkdeps mean: dropping the rules a new one covers never
    changes an answer, so the last rule given that covers an include decides it. *)

From Stdlib Require Import Ascii String.
From S2P Require Import Prelude PyPath DepsRules.

#[local] Open Scope string_scope.
#[local] Open Scope list_scope.

(** ** Covering *)

(** [d] is the directory of [path], or above it. *)
Definition covers (d path : string) : Prop := d = path ∨ ∃ t, path = d +:+ "/" +:+ t.

Lemma ChildOrMatch_spec r path : ChildOrMatch r path = true ↔ covers (rule_dir r) path.
Proof.
  unfold ChildOrMatch, covers. rewrite orb_true_iff, String.eqb_eq, startswith_spec.
  split; (intros [|[t Ht]]; [by left|right; exists t]); by rewrite Ht, append_assoc.
Qed.

Lemma ParentOrMatch_spec r d : ParentOrMatch r d = true ↔ covers d (rule_dir r).
Proof.
  unfold ParentOrMatch, covers. rewrite orb_true_iff, String.eqb_eq, startswith_spec.
  split; (intros [|[t Ht]]; [by left|right; exists t]); by rewrite Ht, append_assoc.
Qed.

Lemma covers_trans d e path : covers d e → covers e path → covers d path.
Proof.
  intros [->|[t ->]]; [done|]. intros [<-|[u ->]]; right.
  - by exists t.
  - exists (t +:+ "/" +:+ u). by rewrite !append_assoc.
Qed.

Lemma covers_refl d : covers d d.
Proof. by left. Qed.

(** ** One rule *)

Lemma first_covering_insert path r l :
  first_covering path (insert_rule r l) =
    if ChildOrMatch r path then Some r else first_covering path l.
Proof.
  unfold first_covering, insert_rule. destruct (ChildOrMatch r path) eqn:Hr.
  - by rewrite filter_cons_True.
  - rewrite filter_cons_False by congruence. f_equal. rewrite list_filter_filter_l; [done|].
    intros x Hx. destruct (ParentOrMatch x (rule_dir r)) eqn:Hp; [|done].
    apply ParentOrMatch_spec in Hp. apply ChildOrMatch_spec in Hx.
    assert (ChildOrMatch r path = true); [|congruence].
    apply ChildOrMatch_spec. by eapply covers_trans.
Qed.

(** The last rule given that covers [path]. *)
Definition last_covering (path : string) (l : list Rule) : option Rule :=
  last (base.filter (λ r, ChildOrMatch r path = true) l).

(** The reference: the rules in the order given, none dropped. *)
Lemma first_covering_history path l :
  first_covering path (foldl (λ acc r, insert_rule r acc) [] l) = last_covering path l.
Proof.
  unfold last_covering. induction l as [|r l IH] using rev_ind; [done|].
  rewrite foldl_app. cbn [foldl]. rewrite first_covering_insert, filter_app, last_app.
  destruct (ChildOrMatch r path) eqn:Hr.
  - by rewrite filter_cons_True.
  - by rewrite filter_cons_False by congruence.
Qed.

(** ** Histories of rules *)

(** The arguments of [AddRule], oldest first. *)
Abbreviation rule_args := (string * string * string * option string)%type.

Definition add_all (hist : list rule_args) : outcome Rules :=
  foldl (λ rs '(rule_string, dependent_dir, source, regexp),
           rs ← rs; AddRule rule_string dependent_dir source regexp rs) (Ok no_rules) hist.

(** A rule string is a prefix and a directory. *)
Definition well_formed (rule_string : string) : Prop :=
  match rule_string with
  | EmptyString => False
  | String c _ => String c "" ∈ [ALLOW; DISALLOW; TEMP_ALLOW]
  end.

#[export] Instance well_formed_dec s : Decision (well_formed s).
Proof. destruct s; cbn; apply _. Defined.

Definition given (a : rule_args) : option string * Rule :=
  let '(rule_string, dependent_dir, source, regexp) := a in
  (group_of regexp,
   match rule_string with
   | EmptyString => MessageRule ""
   | String c dir => mkRule (String c "") dir dependent_dir source
   end).

(** The rules given to one group. *)
Definition given_to (group : option string) (hist : list rule_args) : list Rule :=
  omap (λ a, if decide (fst (given a) = group) then Some (snd (given a)) else None) hist.

Lemma ParseRuleString_well_formed s source :
  well_formed s ↔ ∃ typ dir, ParseRuleString s source = Ok (typ, dir).
Proof.
  destruct s as [|c dir]; cbn; [split; [done|by intros (? & ? & ?)]|].
  case_bool_decide as Hc; split; try done.
  - intros _. by eexists _, _.
  - by intros (? & ? & ?).
Qed.

Lemma AddRule_well_formed a rs :
  let '(rule_string, dependent_dir, source, regexp) := a in
  AddRule rule_string dependent_dir source regexp rs =
    if decide (well_formed rule_string) then
      Ok (set_rules_of rs (fst (given a))
            (insert_rule (snd (given a)) (rules_of rs (fst (given a)))))
    else match ParseRuleString rule_string source with
         | Ok _ => Ok rs | Raise e => Raise e
         end.
Proof.
  destruct a as [[[s d] src] re]. unfold AddRule. case_decide as Hs.
  - destruct s as [|c dir]; [done|]. cbn [ParseRuleString].
    rewrite bool_decide_eq_true_2 by exact Hs. done.
  - destruct s as [|c dir]; [done|]. cbn [ParseRuleString].
    by rewrite bool_decide_eq_false_2 by exact Hs.
Qed.

Lemma add_all_snoc hist a :
  add_all (hist ++ [a]) =
    rs ← add_all hist;
    let '(rule_string, dependent_dir, source, regexp) := a in
    AddRule rule_string dependent_dir source regexp rs.
Proof. unfold add_all. rewrite foldl_app. by destruct a as [[[]]]. Qed.

Lemma rules_of_set rs g g' l :
  rules_of (set_rules_of rs g l) g' = if decide (g = g') then l else rules_of rs g'.
Proof.
  destruct g as [re|], g' as [re'|]; cbn; try by destruct (decide _).
  - destruct (decide (re = re')) as [<-|Hne].
    + by rewrite lookup_insert_eq, decide_True.
    + rewrite lookup_insert_ne by done. rewrite decide_False by congruence. done.
Qed.

Lemma given_to_snoc g hist a :
  given_to g (hist ++ [a]) =
    given_to g hist ++ (if decide (fst (given a) = g) then [snd (given a)] else []).
Proof. unfold given_to. rewrite omap_app. cbn. by destruct (decide _). Qed.

(** Every group holds its rules as if it were alone. *)
Lemma add_all_groups hist :
  match add_all hist with
  | Ok rs =>
      Forall (λ a, well_formed (fst (fst (fst a)))) hist ∧
      (∀ g, rules_of rs g = foldl (λ acc r, insert_rule r acc) [] (given_to g hist)) ∧
      (∀ re, is_Some (specific_rules rs !! re) ↔ ∃ a, a ∈ hist ∧ fst (given a) = Some re)
  | Raise _ => ¬ Forall (λ a, well_formed (fst (fst (fst a)))) hist
  end.
Proof.
  induction hist as [|a hist IH] using rev_ind.
  { cbn. split; [done|]. split; [by intros [re|]|]. intros re. split; [|by intros (? & ?%not_elem_of_nil & _)].
    rewrite lookup_empty. by intros []. }
  rewrite add_all_snoc. destruct (add_all hist) as [rs|e]; cbn [mbind outcome_bind].
  2: { rewrite Forall_app. by intros []. }
  destruct IH as (Hwf & Hgroups & Hdom). pose proof (AddRule_well_formed a rs) as Hadd.
  destruct a as [[[s d] src] re] eqn:Ha. rewrite Hadd. rewrite <- Ha in *.
  case_decide as Hs.
  - split; [|split].
    + rewrite Forall_app, Forall_singleton. by subst a.
    + intros g. rewrite rules_of_set, given_to_snoc, foldl_app, Hgroups.
      case_decide as Hg; [by subst g|done].
    + intros re'. setoid_rewrite elem_of_app. setoid_rewrite list_elem_of_singleton.
      destruct (fst (given a)) as [re1|] eqn:Hg; cbn [set_rules_of specific_rules].
      * rewrite lookup_insert_is_Some. rewrite Hdom.
        split; [intros [->|[Hne (b & Hb & Hr)]]; [exists a|exists b]; naive_solver|].
        intros (b & [Hb| ->] & Hr); [|left; congruence].
        destruct (decide (re1 = re')); [by left|right]. split; [done|]. by exists b.
      * rewrite Hdom. split; [intros (b & Hb & Hr); exists b; naive_solver|].
        intros (b & [Hb| ->] & Hr); [by exists b|congruence].
  - assert (¬ Forall (λ a, well_formed (fst (fst (fst a)))) (hist ++ [a])) as Hn.
    { rewrite Forall_app, Forall_singleton. subst a. by intros []. }
    destruct (ParseRuleString s src) as [[typ dir]|e] eqn:Hp; [|done].
    destruct Hs. apply (ParseRuleString_well_formed s src). by eexists _, _.
Qed.

(** ** Which rule applies *)

Section applying.
Context `{!DictOrder} `{!Regexp}.

Lemma specific_rule_None groups path file :
  specific_rule groups path file = None ↔
    ∀ re l, (re, l) ∈ groups → re_match re file = true → first_covering path l = None.
Proof.
  induction groups as [|[re l] groups IH]; cbn.
  { split; [|done]. by intros _ re l ?%not_elem_of_nil. }
  destruct (if re_match re file then first_covering path l else None) as [r|] eqn:Hr.
  - split; [done|]. intros Hall. destruct (re_match re file) eqn:Hm; [|done].
    by rewrite (Hall re l ltac:(by left) Hm) in Hr.
  - rewrite IH. split; [|intros Hall re' l' ?; apply Hall; by right].
    intros Hall re' l' [[= -> ->]|Hin]%elem_of_cons Hm; [by rewrite Hm in Hr|by eapply Hall].
Qed.

Lemma specific_rule_Some groups path file r :
  specific_rule groups path file = Some r →
  ∃ re l, (re, l) ∈ groups ∧ re_match re file = true ∧ first_covering path l = Some r.
Proof.
  induction groups as [|[re l] groups IH]; cbn; [done|].
  destruct (re_match re file) eqn:Hm; [destruct (first_covering path l) eqn:Hc|].
  - intros [= <-]. exists re, l. split_and!; [by left|done..].
  - intros (re' & l' & Hin & ?)%IH. exists re', l'. split; [by right|done].
  - intros (re' & l' & Hin & ?)%IH. exists re', l'. split; [by right|done].
Qed.

(** C13: The last rule given decides.  A list of rule strings is accepted exactly
    when each begins with one of the three prefixes.  Although a new rule drops
    the older ones at or below its directory, the rule that applies to an include
    is the last one given that covers it: among the rules of a regular expression
    that matches the including file's name, if one of those has any, and else
    among the general rules; when nothing covers it, a rule that says so. *)
Theorem RuleApplyingTo_last hist :
  (Forall (λ a, well_formed (fst (fst (fst a)))) hist ↔ ∃ rs, add_all hist = Ok rs) ∧
  ∀ rs include_path dependee_path,
    add_all hist = Ok rs →
    let matching re := re_match re (basename dependee_path) = true in
    let applying := RuleApplyingTo rs include_path dependee_path in
    (∃ re, matching re ∧ last_covering include_path (given_to (Some re) hist) = Some applying) ∨
    (∀ re, matching re → last_covering include_path (given_to (Some re) hist) = None) ∧
    applying = default (MessageRule "no rule applying.")
                 (last_covering include_path (given_to None hist)).
Proof.
  pose proof (add_all_groups hist) as Hall. split.
  { split; [|intros [rs Hrs]; by rewrite Hrs in Hall; apply Hall].
    intros Hwf. destruct (add_all hist) as [rs|e]; [by exists rs|by destruct Hall]. }
  intros rs path file Hrs. rewrite Hrs in Hall. destruct Hall as (_ & Hgroups & Hdom). cbv zeta.
  assert (∀ g, first_covering path (rules_of rs g) = last_covering path (given_to g hist)) as Hfirst
    by (intros g; by rewrite Hgroups, first_covering_history).
  unfold RuleApplyingTo.
  destruct (specific_rule _ path (basename file)) as [r|] eqn:Hs.
  - left. apply specific_rule_Some in Hs as (re & l & Hin & Hm & Hc).
    apply elem_of_dict_items in Hin. exists re. split; [done|].
    rewrite <- Hfirst. cbn [rules_of]. by rewrite Hin.
  - right. split.
    + intros re Hm. rewrite <- Hfirst. cbn [rules_of].
      destruct (specific_rules rs !! re) as [l|] eqn:Hl; [|done].
      rewrite specific_rule_None in Hs. apply (Hs re l); [|done]. by apply elem_of_dict_items.
    + rewrite <- Hfirst. cbn [rules_of]. by destruct (first_covering _ _).
Qed.

(** ** No dead rules *)

Definition all_alive (l : list Rule) : Prop :=
  ∀ r, r ∈ l → first_covering (rule_dir r) l = Some r.

Lemma insert_alive r l : all_alive l → all_alive (insert_rule r l).
Proof.
  intros Hl x. rewrite first_covering_insert. unfold insert_rule.
  intros [->|Hx]%elem_of_cons.
  - by rewrite (proj2 (ChildOrMatch_spec r _) (covers_refl _)).
  - apply list_elem_of_filter in Hx as [Hp Hx]. destruct (ChildOrMatch r (rule_dir x)) eqn:Hc.
    + apply ChildOrMatch_spec, ParentOrMatch_spec in Hc. congruence.
    + by apply Hl.
Qed.

Lemma insert_nodup r l : NoDup (rule_dir <$> l) → NoDup (rule_dir <$> insert_rule r l).
Proof.
  intros Hl. unfold insert_rule. rewrite fmap_cons. apply NoDup_cons. split.
  - intros (x & Hd & [Hp _]%list_elem_of_filter)%list_elem_of_fmap.
    assert (ParentOrMatch x (rule_dir r) = true); [|congruence].
    apply ParentOrMatch_spec. by left.
  - induction l as [|x l IH]; [done|]. rewrite fmap_cons in Hl.
    apply NoDup_cons in Hl as [Hx Hl]. rewrite filter_cons. case_decide; [|by apply IH].
    rewrite fmap_cons. apply NoDup_cons. split; [|by apply IH].
    intros (y & Hd & [_ Hy]%list_elem_of_filter)%list_elem_of_fmap. apply Hx.
    rewrite Hd. by apply list_elem_of_fmap_2.
Qed.

(** Every rule that is kept is alive: it is the one that applies to its own
    directory within its group.  So no two rules of a group have the same
    directory, and none is kept that another one hides. *)
Theorem kept_rules_alive hist rs g :
  add_all hist = Ok rs →
  all_alive (rules_of rs g) ∧ NoDup (rule_dir <$> rules_of rs g).
Proof.
  intros Hrs. pose proof (add_all_groups hist) as Hall. rewrite Hrs in Hall.
  destruct Hall as (_ & -> & _).
  assert (all_alive (foldl (λ acc r, insert_rule r acc) [] (given_to g hist))) as Halive.
  { induction (given_to g hist) as [|r l IH] using rev_ind; [by intros r ?%not_elem_of_nil|].
    rewrite foldl_app. by apply insert_alive. }
  split; [done|]. clear. induction (given_to g hist) as [|r l IH] using rev_ind; [constructor|].
  rewrite foldl_app. by apply insert_nodup.
Qed.
End applying.
