(* ===== verification/DepsResults.v ===== *)
(** The results of checkdeps, buildtools/checkdeps/results.py: violations, the
    status of a file, and the formatters that collect and report them.

    What a formatter prints and the file it writes are values: the JSON text is
    the standard serialization of the entries given here. *)

From Stdlib Require Import Ascii String.
From stdpp Require Import sorting.
From S2P Require Import Prelude PyPath DepsRules.

#[local] Open Scope string_scope.
#[local] Open Scope list_scope.

Record DependencyViolation := mkViolation {
  include_path : string;
  violated_rule : Rule;
  violation_rules : Rules
}.

Record DependeeStatus := mkStatus {
  dependee_path : string;
  violations : list DependencyViolation
}.

(** [DependeeStatus(path)] *)
Definition new_status (path : string) : DependeeStatus := mkStatus path [].
Definition AddViolation (v : DependencyViolation) (s : DependeeStatus) : DependeeStatus :=
  mkStatus (dependee_path s) (violations s ++ [v]).
Definition HasViolations (s : DependeeStatus) : bool :=
  negb (bool_decide (length (violations s) = 0%nat)).

(** An entry of the JSON results: the file, and per violation the include and the
    rule's tuple. *)
Record json_entry := mkEntry {
  entry_path : string;
  entry_violations : list (string * (string * string * string))
}.

(** The formatters with their attributes. *)
Inductive ResultsFormatter :=
  | NormalResultsFormatter (verbose : bool) (results : list string)
  | JSONResultsFormatter (output_path : string) (wrapped : option ResultsFormatter)
      (results : list json_entry)
  | TemporaryRulesFormatter (paths : gset string)
  | CountViolationsFormatter (count : nat).

Section results.
Context `{!DictOrder}.

Definition FormatViolation (verbose : bool) (v : DependencyViolation) : string :=
  String.concat line_feed
    ((if verbose then ["  For " +:+ Rules_str (violation_rules v)] else []) ++
     ["  Illegal include: " +:+ quote (include_path v) +:+ line_feed +:+
        "    Because of " +:+ Rule_str (violated_rule v)]).

(** What the classes add for a file. *)
Definition normal_error (verbose : bool) (s : DependeeStatus) : string :=
  String.concat line_feed
    ((line_feed +:+ "ERROR in " +:+ dependee_path s)
       :: (FormatViolation verbose <$> violations s)).
Definition json_error (s : DependeeStatus) : json_entry :=
  mkEntry (dependee_path s)
    ((λ v, (include_path v, AsDependencyTuple (violated_rule v))) <$> violations s).
Definition temporary_error (s : DependeeStatus) (paths : gset string) : gset string :=
  foldl (λ acc v, {[include_path v]} ∪ acc) paths (violations s).

Fixpoint AddError (s : DependeeStatus) (f : ResultsFormatter) : ResultsFormatter :=
  match f with
  | NormalResultsFormatter verbose results =>
      NormalResultsFormatter verbose (results ++ [normal_error verbose s])
  | JSONResultsFormatter path wrapped results =>
      JSONResultsFormatter path (AddError s <$> wrapped) (results ++ [json_error s])
  | TemporaryRulesFormatter paths => TemporaryRulesFormatter (temporary_error s paths)
  | CountViolationsFormatter count => CountViolationsFormatter (count + length (violations s))
  end.

(** What [GetResults] returns; the JSON formatter also writes its file. *)
Inductive report :=
  | Lines (l : list string)
  | Entries (output_path : string) (l : list json_entry)
  | Number (s : string).

Definition temporary_rule (path : string) : string :=
  "  " +:+ quote ("!" +:+ path) +:+ ",".

Definition GetResults (f : ResultsFormatter) : report :=
  match f with
  | NormalResultsFormatter _ results => Lines results
  | JSONResultsFormatter path _ results => Entries path results
  | TemporaryRulesFormatter paths => Lines (temporary_rule <$> sorted (elements paths))
  | CountViolationsFormatter count => Number (pretty (N.of_nat count))
  end.

(** A list or a string is true in a condition when it is not empty. *)
Definition truthy (r : report) : bool :=
  match r with
  | Lines l => negb (bool_decide (length l = 0%nat))
  | Entries _ l => negb (bool_decide (length l = 0%nat))
  | Number s => negb (String.eqb s "")
  end.

(** What [PrintResults] prints. *)
Fixpoint PrintResults (f : ResultsFormatter) : report :=
  match f with
  | NormalResultsFormatter _ results =>
      Lines (results ++ match results with
                        | [] => []
                        | _ => [line_feed +:+ "FAILED" +:+ line_feed]
                        end)
  | JSONResultsFormatter path (Some wrapped) _ => PrintResults wrapped
  | JSONResultsFormatter path None results => Entries path results
  | TemporaryRulesFormatter _ => GetResults f
  | CountViolationsFormatter _ => GetResults f
  end.

(** [DepsChecker.Report]: the exit code and what is printed. *)
Definition Report (f : ResultsFormatter) : Z * report :=
  if truthy (GetResults f) then (1%Z, PrintResults f)
  else (0%Z, Lines [line_feed +:+ "SUCCESS" +:+ line_feed]).
End results.
