(* ===== verification/DepsCheckers.v ===== *)
(** The checkers of checkdeps: cpp_checker.py reads the includes of a C++ or
    Objective-C file, java_checker.py the imports of a Java file, and both ask
    the rules.  Verbose output is left out.

    Files are lists of lines, as the file iterator delivers them, of ASCII text;
    the regular expressions are written out as the recognizers they are. *)

From Stdlib Require Import Ascii String.
From S2P Require Import Prelude PyPath DepsRules DepsResults.

#[local] Open Scope string_scope.
#[local] Open Scope list_scope.

(** ** Recognizers *)

Definition is_blank (c : ascii) : bool :=
  (nat_of_ascii c =? 32)%nat || (nat_of_ascii c =? 9)%nat.

(** [\s], and what [strip] removes beside it. *)
Definition is_space (c : ascii) : bool :=
  let n := nat_of_ascii c in ((9 <=? n) && (n <=? 13) || (n =? 32))%nat.
Definition is_strippable (c : ascii) : bool :=
  let n := nat_of_ascii c in is_space c || ((28 <=? n) && (n <=? 31))%nat.

(** [[\w\.]] *)
Definition is_word (c : ascii) : bool :=
  let n := nat_of_ascii c in
  ((97 <=? n) && (n <=? 122) || (65 <=? n) && (n <=? 90) || (48 <=? n) && (n <=? 57)
     || (n =? 95) || (n =? 46))%nat.
Definition is_lower (c : ascii) : bool :=
  let n := nat_of_ascii c in ((97 <=? n) && (n <=? 122))%nat.

(** A repetition of at least one character. *)
Definition span1 (f : ascii → bool) (s : string) : option (string * string) :=
  match span f s with ("", _) => None | r => Some r end.

Definition alternative {A} (x y : option A) : option A :=
  match x with Some a => Some a | None => y end.

(** [s.strip()] *)
Fixpoint rstrip (s : string) : string :=
  match s with
  | EmptyString => ""
  | String c s =>
      match rstrip s with
      | EmptyString => if is_strippable c then "" else String c ""
      | s => String c s
      end
  end.
Definition strip (s : string) : string := rstrip (snd (span is_strippable s)).

(** ** cpp_checker.py *)

Definition CPP_EXTENSIONS : list string := [".h"; ".cc"; ".cpp"; ".m"; ".mm"].
Definition MAX_UNINTERESTING_LINES : nat := 50.

(** A [#], [include] or [import], blanks and a quoted path; the greedy group ends
    at the last quote of the first line. *)
Definition EXTRACT_INCLUDE_PATH (line : string) : option string :=
  s ← strip_prefix "#" (snd (span is_blank line));
  let s := snd (span is_blank s) in
  s ← alternative (strip_prefix "include" s) (strip_prefix "import" s);
  '(_, s) ← span1 is_blank s;
  s ← strip_prefix double_quote s;
  let first_line := fst (span (λ c, negb (nat_of_ascii c =? 10)%nat) s) in
  '(path, _) ← rsplit_on (ascii_of_nat 34) first_line;
  Some path.

Record CppChecker := mkCppChecker {
  cpp_resolve_dotdot : bool;
  cpp_root_dir : string
}.

Section checkers.
Context `{!DictOrder} `{!Regexp}.
(** The working directory of the process. *)
Context (cwd : string).

(** The path the rules are asked about. *)
Definition resolve_include (c : CppChecker) (path dependee_path : string) : outcome string :=
  if cpp_resolve_dotdot c && contains "../" path
  then relpath cwd (path_join (dirname dependee_path) path) (cpp_root_dir c)
  else Ok path.

(** A pair [is_include, dependency_violation]. *)
Definition CheckLine (c : CppChecker) (rules : Rules) (line dependee_path : string)
    (fail_on_temp_allow : bool) : outcome (bool * option DependencyViolation) :=
  match EXTRACT_INCLUDE_PATH line with
  | None => Ok (false, None)
  | Some path =>
      if has_char "\" path then
        Ok (true, Some (mkViolation path
              (MessageRule "Include paths may not include backslashes.") rules))
      else if negb (has_char "/" path) then Ok (true, None)
      else
        path ← resolve_include c path dependee_path;
        let rule := RuleApplyingTo rules path dependee_path in
        if String.eqb (allow rule) DISALLOW
           || (fail_on_temp_allow && String.eqb (allow rule) TEMP_ALLOW)
        then Ok (true, Some (mkViolation path rule rules))
        else Ok (true, None)
  end.

(** The loop over the lines: [last_include] is the number of the last include,
    [in_if0] the depth of conditionals inside an [#if 0]. *)
Fixpoint check_lines (c : CppChecker) (rules : Rules) (filepath : string)
    (line_num last_include in_if0 : nat) (lines : list string) (status : DependeeStatus) :
    outcome DependeeStatus :=
  match lines with
  | [] => Ok status
  | line :: lines =>
      if (MAX_UNINTERESTING_LINES <? line_num - last_include)%nat then Ok status
      else
        let line := strip line in
        if startswith "#if 0" line then
          check_lines c rules filepath (S line_num) last_include (S in_if0) lines status
        else if (0 <? in_if0)%nat then
          check_lines c rules filepath (S line_num) last_include
            (if startswith "#if" line then S in_if0
             else if startswith "#endif" line then pred in_if0 else in_if0) lines status
        else
          r ← CheckLine c rules line filepath false;
          let '(is_include, violation) := (r : bool * option DependencyViolation) in
          check_lines c rules filepath (S line_num)
            (if is_include then line_num else last_include) in_if0 lines
            (match violation with Some v => AddViolation v status | None => status end)
  end.

Definition CppChecker_CheckFile (c : CppChecker) (rules : Rules) (filepath : string)
    (lines : list string) : outcome DependeeStatus :=
  check_lines c rules filepath 0 0 0 lines (new_status filepath).

Definition IsCppFile (file_path : string) : bool :=
  bool_decide (extension file_path ∈ CPP_EXTENSIONS).

(** ** java_checker.py *)

Definition JAVA_EXTENSIONS : list string := [".java"].

Record JavaChecker := mkJavaChecker {
  java_base_directory : string;
  classmap : gmap string string
}.

Definition IgnoreDir (d : string) : bool :=
  startswith "." d || startswith "out" d || bool_decide (d ∈ ["xcodebuild"])
    || bool_decide (d ∈ ["third_party"; "ThirdParty"]).

(** [^package\s+([\w\.]+);] *)
Definition package_of_line (line : string) : option string :=
  s ← strip_prefix "package" line;
  '(_, s) ← span1 is_space s;
  '(name, s) ← span1 is_word s;
  _ ← strip_prefix ";" s;
  Some name.

(** [([\w\.]+)\s*;] *)
Definition imported_class (s : string) : option string :=
  '(name, s) ← span1 is_word s;
  _ ← strip_prefix ";" (snd (span is_space s));
  Some name.

(** [^import\s+(?:static\s+)?([\w\.]+)\s*;]: the optional group is tried first. *)
Definition import_of_line (line : string) : option string :=
  s ← strip_prefix "import" line;
  '(_, s) ← span1 is_space s;
  alternative
    (s ← strip_prefix "static" s; '(_, s) ← span1 is_space s; imported_class s)
    (imported_class s).

Fixpoint first_package (lines : list string) : option string :=
  match lines with
  | [] => None
  | line :: lines => alternative (package_of_line line) (first_package lines)
  end.

(** [_PrescanFile]: the first definition of a class wins. *)
Definition PrescanFile (filepath : string) (lines : list string) (map : gmap string string) :
    gmap string string :=
  match first_package lines with
  | None => map
  | Some package =>
      let full_class_name := package +:+ "." +:+ without_extension (basename filepath) in
      match map !! full_class_name with
      | Some _ => map
      | None => <[full_class_name := filepath]> map
      end
  end.

(** The loop over the imports, up to the first line of code. *)
Fixpoint check_imports (c : JavaChecker) (rules : Rules) (filepath : string)
    (lines : list string) (status : DependeeStatus) : outcome DependeeStatus :=
  match lines with
  | [] => Ok status
  | line :: lines =>
      status ← match import_of_line line ≫= (λ clazz, classmap c !! clazz) with
               | None => Ok status
               | Some path =>
                   include_path ← relpath cwd path (java_base_directory c);
                   let rule := RuleApplyingTo rules include_path filepath in
                   Ok (if String.eqb (allow rule) DISALLOW
                       then AddViolation (mkViolation include_path rule rules) status
                       else status)
               end;
      if has_char "{" line then Ok status
      else check_imports c rules filepath lines status
  end.

Definition JavaChecker_CheckFile (c : JavaChecker) (rules : Rules) (filepath : string)
    (lines : list string) : outcome DependeeStatus :=
  check_imports c rules filepath lines (new_status filepath).
End checkers.
