(* ===== verification/DepsBuilder.v ===== *)
(** The walk of checkdeps over the source tree: builddeps.py combines the DEPS
    files into the rules of each directory, checkdeps.py checks the files of the
    tree, or the includes of a change, against them.

    The tree, the evaluated DEPS files and what git lists are the parameter
    [Repository]: a DEPS file is Python code, of which the three variables the
    builder reads are what matters.  Paths are POSIX paths, on which
    [os.path.normcase] and the replacement of separators change nothing.  Verbose
    output is left out. *)

From Stdlib Require Import Ascii String.
From stdpp Require Import sorting.
From S2P Require Import Prelude PyPath DepsRules DepsResults DepsCheckers.

#[local] Open Scope string_scope.
#[local] Open Scope list_scope.

(** ** The repository *)

(** [include_rules], [specific_include_rules] and [skip_child_includes], with the
    defaults of the ones a file does not define. *)
Record Deps := mkDeps {
  include_rules : list string;
  specific_include_rules : gmap string (list string);
  skip_child_includes : list string
}.
Definition no_deps : Deps := mkDeps [] ∅ [].

Class Repository := {
  (** [execfile] of the DEPS file of a directory, [None] if it has none. *)
  repo_deps : string → option (outcome Deps);
  (** [os.listdir], every name with [os.path.isdir] of it. *)
  repo_listdir : string → list (string * bool);
  (** The lines of a file. *)
  repo_lines : string → list string;
  (** [os.path.exists]. *)
  repo_exists : string → bool;
  (** The output of [git ls-files], a line per file. *)
  repo_ls_files : list string
}.

Definition NormalizePath (path : string) : string := path.

(** ** DepsBuilder *)

Record DepsBuilder := mkBuilder {
  base_directory : string;
  under_test : bool;
  ignore_temp_rules : bool;
  ignore_specific_rules : bool;
  is_git : bool;
  git_source_directories : option (gset string);
  (** [None] for a directory that is skipped. *)
  directory_rules : gmap string (option Rules)
}.

Definition set_git_source_directories (v : option (gset string)) (b : DepsBuilder) : DepsBuilder :=
  mkBuilder (base_directory b) (under_test b) (ignore_temp_rules b) (ignore_specific_rules b)
    (is_git b) v (directory_rules b).
Definition set_directory_rules (v : gmap string (option Rules)) (b : DepsBuilder) : DepsBuilder :=
  mkBuilder (base_directory b) (under_test b) (ignore_temp_rules b) (ignore_specific_rules b)
    (is_git b) (git_source_directories b) v.

Section builder.
Context `{!DictOrder} `{!Regexp} `{!Repository}.
Context (cwd : string).

(** The directory and all its parents up to one already listed; [fuel] bounds
    the length of the path. *)
Fixpoint add_parents (fuel : nat) (dir : string) (dirs : gset string) : gset string :=
  match fuel with
  | O => dirs
  | S fuel =>
      if decide (dir ∈ dirs) then dirs
      else add_parents fuel (dirname dir) ({[dir]} ∪ dirs)
  end.

Definition GitSourceDirectories (base_directory : string) : gset string :=
  foldl (λ dirs line,
           let dir := NormalizePath (path_join base_directory (dirname line)) in
           add_parents (S (String.length dir)) dir dirs)
    {[NormalizePath base_directory]} repo_ls_files.

(** [ApplyOneRule], with the directory of [_ApplyRules]. *)
Definition ApplyOneRule (ignore_temp : bool) (relative_dir : string)
    (dependee_regexp : option string) (rule_str : string) (rules : Rules) : outcome Rules :=
  if ignore_temp && startswith TEMP_ALLOW rule_str then Ok rules
  else
    let rule_block_name :=
      if is_not_none (group_of dependee_regexp) then "specific_include_rules"
      else "include_rules" in
    let rule_description :=
      if String.eqb relative_dir "" then "the top level " +:+ rule_block_name
      else relative_dir +:+ "'s " +:+ rule_block_name in
    AddRule rule_str relative_dir rule_description dependee_regexp rules.

(** [for x in l: s = f(x, s)] of code that may raise. *)
Fixpoint fold_outcome {A S} (f : A → S → outcome S) (l : list A) (s : S) : outcome S :=
  match l with
  | [] => Ok s
  | x :: l => s ← f x s; fold_outcome f l s
  end.

Definition ApplyRules (b : DepsBuilder) (existing_rules : Rules) (deps : Deps)
    (cur_dir_norm : string) : outcome Rules :=
  let base_dir_norm := NormalizePath (base_directory b) in
  if negb (startswith base_dir_norm cur_dir_norm) then
    Raise (PyException ("Internal error: base directory is not at the beginning for" +:+ line_feed
      +:+ "  " +:+ cur_dir_norm +:+ " and base dir" +:+ line_feed +:+ "  " +:+ base_dir_norm))
  else
    relative_dir ← relpath cwd cur_dir_norm base_dir_norm;
    let source := if String.eqb relative_dir "" then "top level" else relative_dir in
    rules ← AddRule ("+" +:+ relative_dir) relative_dir ("Default rule for " +:+ source) None
              existing_rules;
    let apply := ApplyOneRule (ignore_temp_rules b) relative_dir in
    rules ← fold_outcome (apply None) (include_rules deps) rules;
    if ignore_specific_rules b then Ok rules
    else fold_outcome (λ '(regexp, specific_rules), fold_outcome (apply (Some regexp)) specific_rules)
           (dict_items (specific_include_rules deps)) rules.

(** The variables of the DEPS file that counts for a directory. *)
Definition directory_deps (b : DepsBuilder) (dir : string) : outcome Deps :=
  match repo_deps dir with
  | Some deps =>
      if under_test b && String.eqb (basename dir) "checkdeps" then Ok no_deps else deps
  | None => Ok no_deps
  end.

Definition ApplyDirectoryRules (b : DepsBuilder) (existing_rules : Rules) (dir : string) :
    outcome (Rules * list string) :=
  deps ← directory_deps b dir;
  rules ← ApplyRules b existing_rules deps (NormalizePath dir);
  Ok (rules, skip_child_includes deps).

Definition ApplyDirectoryRulesAndSkipSubdirs (parent_rules : Rules) (dir : string) :
    M DepsBuilder unit :=
  b ← gets id;
  '(rules, excluded_subdirs) ← lift (ApplyDirectoryRules b parent_rules dir);
  let dir_path_norm := NormalizePath dir in
  modify (λ b, set_directory_rules (<[dir_path_norm := Some rules]> (directory_rules b)) b);;
  mfor excluded_subdirs (λ subdir,
    modify (λ b, set_directory_rules
      (<[path_join dir_path_norm subdir := None]> (directory_rules b)) b)).

(** [DepsBuilder.__init__] with a base directory; [abs_base] is its absolute path. *)
Definition DepsBuilder_init (base_dir : string)
    (being_tested ignore_temp_rules ignore_specific_rules : bool) : outcome DepsBuilder :=
  let abs_base := abspath cwd base_dir in
  let builder is_git :=
    let b := mkBuilder abs_base being_tested ignore_temp_rules ignore_specific_rules is_git None ∅ in
    match ApplyDirectoryRulesAndSkipSubdirs no_rules abs_base b with
    | (Ok _, b) => Ok b
    | (Raise e, _) => Raise e
    end in
  if repo_exists (path_join base_dir ".git") then builder true
  else if repo_exists (path_join base_dir ".svn") then builder false
  else Raise (PyException (base_dir +:+ " is not a repository root")).

(** [fuel] is the depth of the recursion. *)
Fixpoint GetDirectoryRules (fuel : nat) (dir_path_local : string) :
    M DepsBuilder (option Rules) :=
  match fuel with
  | O => raise recursion_error
  | S fuel =>
      base ← gets base_directory;
      let dir := if isabs dir_path_local then dir_path_local
                 else path_join base dir_path_local in
      let dir_path_norm := NormalizePath dir in
      known ← gets (λ b, directory_rules b !! dir_path_norm);
      match known with
      | Some rules => mret rules
      | None =>
          parent_rules ← GetDirectoryRules fuel (dirname dir);
          known ← gets (λ b, directory_rules b !! dir_path_norm);
          match known with
          | Some rules => mret rules
          | None =>
              match parent_rules with
              | Some parent_rules => ApplyDirectoryRulesAndSkipSubdirs parent_rules dir
              | None => modify (λ b, set_directory_rules
                          (<[dir_path_norm := None]> (directory_rules b)) b)
              end;;
              rules ← gets (λ b, directory_rules b !! dir_path_norm);
              lift (of_option KeyError rules)
          end
      end
  end.

(** A recursion deep enough for every path below the base directory. *)
Definition directory_depth (dir : string) : nat := S (S (String.length dir)).
Definition DirectoryRules (dir : string) : M DepsBuilder (option Rules) :=
  base ← gets base_directory;
  GetDirectoryRules
    (directory_depth (if isabs dir then dir else path_join base dir)) dir.

(** The walk: for each directory of the work list that is part of the repository,
    [yield] of its rules and files. *)
Section walk.
Context {F : Type} (yield : Rules → list string → M F unit).

(** The builder, and the state of the loop the generator feeds. *)
Definition on_builder {A} : M DepsBuilder A → M (DepsBuilder * F) A :=
  zoom fst (λ b s, (b, snd s)).
Definition on_client {A} : M F A → M (DepsBuilder * F) A :=
  zoom snd (λ f s, (fst s, f)).

Definition in_repository (dir : string) (b : DepsBuilder) : bool :=
  if is_git b then bool_decide (NormalizePath dir ∈ default ∅ (git_source_directories b))
  else repo_exists (path_join dir ".svn").

(** The entries of a directory in the order of their names. *)
Definition entry_le (x y : string * bool) : Prop := str_le (fst x) (fst y).
#[export] Instance entry_le_dec x y : Decision (entry_le x y).
Proof. unfold entry_le. apply _. Defined.
Definition sorted_entries (dir : string) : list (string * bool) :=
  merge_sort entry_le (repo_listdir dir).

Fixpoint walk (fuel : nat) (dirs_to_check : list string) :
    M (DepsBuilder * F) unit :=
  match dirs_to_check with
  | [] => mret ()
  | dir :: dirs =>
      match fuel with
      | O => raise recursion_error
      | S fuel =>
          included ← on_builder (gets (in_repository dir));
          if negb included then walk fuel dirs
          else
            rules ← on_builder (DirectoryRules dir);
            match rules with
            | None => walk fuel dirs
            | Some rules =>
                let entries := sorted_entries dir in
                let full x := path_join dir (fst x) in
                let sub_dirs := full <$> base.filter (λ x, snd x = true) entries in
                let file_names := full <$> base.filter (λ x, snd x = false) entries in
                on_client (yield rules file_names);;
                walk fuel (sub_dirs ++ dirs)
            end
      end
  end.

Definition GetAllRulesAndFiles (fuel : nat) (dir_name : option string) :
    M (DepsBuilder * F) unit :=
  b ← on_builder (gets id);
  on_builder (when (is_git b && negb (is_not_none (git_source_directories b)))
    (modify (set_git_source_directories (Some (GitSourceDirectories (base_directory b))))));;
  let start := match dir_name with
               | Some d => if String.eqb d "" then base_directory b
                           else if isabs d then d else path_join (base_directory b) d
               | None => base_directory b
               end in
  walk fuel [start].
End walk.

(** ** DepsChecker *)

(** [(test|mock|dummy)_.*|.*_[a-z]*test\.(cc|mm|java)] at the beginning. *)
Definition test_suffix_here (s : string) : bool :=
  match strip_prefix "_" s with
  | None => false
  | Some s =>
      let '(word, rest) := span is_lower s in
      let n := (String.length word - 4)%nat in
      (4 <=? String.length word)%nat && String.eqb (String.substring n 4 word) "test"
        && (startswith ".cc" rest || startswith ".mm" rest || startswith ".java" rest)
  end.
Fixpoint test_suffix (s : string) : bool :=
  test_suffix_here s ||
  match s with
  | EmptyString => false
  | String c s => negb (nat_of_ascii c =? 10)%nat && test_suffix s
  end.
Definition IsTestFile (filename : string) : bool :=
  startswith "test_" filename || startswith "mock_" filename || startswith "dummy_" filename
    || test_suffix filename.

(** [f.endswith('.java')] *)
Definition extension_is_java (f : string) : bool :=
  match rsplit_on "."%char f with Some (_, e) => String.eqb e "java" | None => false end.

(** [JavaChecker._PrescanFiles] below one directory, [fuel] levels deep. *)
Fixpoint PrescanFiles (fuel : nat) (dir : string) (map : gmap string string) :
    outcome (gmap string string) :=
  match fuel with
  | O => Raise recursion_error
  | S fuel =>
      let entries := repo_listdir dir in
      let files := (λ x, path_join dir (fst x)) <$>
        base.filter (λ x, snd x = false ∧ extension_is_java (fst x) = true) entries in
      let dirs := (λ x, path_join dir (fst x)) <$>
        base.filter (λ x, snd x = true ∧ IgnoreDir (fst x) = false) entries in
      fold_outcome (PrescanFiles fuel) dirs
        (foldl (λ map f, PrescanFile f (repo_lines f) map) map files)
  end.

(** The options of a [DepsChecker] beside the builder's. *)
Record CheckerOptions := mkOptions {
  skip_tests : bool;
  resolve_dotdot : bool
}.

Abbreviation Checker := (DepsBuilder * ResultsFormatter)%type.

(** The checker of an extension, run on a file. *)
Definition check_file (cpp : CppChecker) (java : JavaChecker) (rules : Rules)
    (full_name : string) : option (outcome DependeeStatus) :=
  let file_extension := extension full_name in
  if bool_decide (file_extension ∈ CPP_EXTENSIONS) then
    Some (CppChecker_CheckFile cwd cpp rules full_name (repo_lines full_name))
  else if bool_decide (file_extension ∈ JAVA_EXTENSIONS) then
    Some (JavaChecker_CheckFile cwd java rules full_name (repo_lines full_name))
  else None.

(** The body of the loop of [CheckDirectory] for one file. *)
Definition check_one (o : CheckerOptions) (cpp : CppChecker) (java : JavaChecker) (rules : Rules)
    (full_name : string) : M ResultsFormatter unit :=
  if skip_tests o && IsTestFile (basename full_name) then mret ()
  else
    match check_file cpp java rules full_name with
    | None => mret ()
    | Some status =>
        file_status ← lift status;
        when (HasViolations file_status) (modify (AddError file_status))
    end.

Definition CheckDirectory (fuel : nat) (o : CheckerOptions) (start_dir : string) :
    M Checker unit :=
  base ← gets (λ s, base_directory (fst s));
  classes ← lift (PrescanFiles fuel base ∅);
  let java := mkJavaChecker base classes in
  let cpp := mkCppChecker (resolve_dotdot o) base in
  GetAllRulesAndFiles (λ rules file_names, mfor file_names (check_one o cpp java rules))
    fuel (Some start_dir).

(** One problem: the file, the type of the rule and a description. *)
Abbreviation problem := (string * string * string)%type.

Definition check_added_line (o : CheckerOptions) (rules : Rules) (file_path line : string) :
    outcome (list problem) :=
  r ← CheckLine cwd (mkCppChecker (resolve_dotdot o) "") rules line file_path true;
  Ok (match (snd r : option DependencyViolation) with
      | None => []
      | Some v =>
          let rule_type := allow (violated_rule v) in
          if String.eqb rule_type ALLOW then []
          else [(file_path, rule_type, FormatViolation false v)]
      end).

(** The inner loop, then the outer one; problems in order. *)
Fixpoint check_added_lines (o : CheckerOptions) (rules : Rules) (file_path : string)
    (lines : list string) : outcome (list problem) :=
  match lines with
  | [] => Ok []
  | line :: lines =>
      p ← check_added_line o rules file_path line;
      ps ← check_added_lines o rules file_path lines;
      Ok (p ++ ps)
  end.
Fixpoint CheckAddedCppIncludes (o : CheckerOptions) (added : list (string * list string)) :
    M DepsBuilder (list problem) :=
  match added with
  | [] => mret []
  | (file_path, include_lines) :: added =>
      problems ←
        (if IsCppFile file_path then
           rules ← DirectoryRules (dirname file_path);
           match rules with
           | None => mret []
           | Some rules => lift (check_added_lines o rules file_path include_lines)
           end
         else mret []);
      rest ← CheckAddedCppIncludes o added;
      mret (problems ++ rest)
  end.

(** [DepsGrapher._BuildDepsGraph] of graphdeps.py: the dependency tuples of every
    directory. *)
Definition BuildDepsGraph (fuel : nat) (ignore_specific_rules : bool) :
    M (DepsBuilder * gset (string * string * string)) unit :=
  GetAllRulesAndFiles (λ rules _,
    modify (λ deps, deps ∪ AsDependencyTuples true (negb ignore_specific_rules) rules))
    fuel None.
End builder.
