(* ===== verification/DepsDirectories.v ===== *)
(** The table of directory rules of builddeps.py is a cache: whatever was asked
    before, [GetDirectoryRules] answers what the DEPS files between the base
    directory and the directory say. *)

From Stdlib Require Import Ascii String.
From S2P Require Import Prelude PyPath DepsRules DepsRuleLaws DepsResults DepsCheckers.
From S2P Require Import DepsBuilder.

#[local] Open Scope string_scope.
#[local] Open Scope list_scope.

(** ** Paths by components *)

(** A name without a slash. *)
Definition component (c : string) : Prop := c ≠ "" ∧ has_char slash c = false.

(** A path that does not end in a slash. *)
Fixpoint no_trailing_slash (s : string) : Prop :=
  match s with
  | EmptyString => False
  | String c EmptyString => c ≠ slash
  | String _ s => no_trailing_slash s
  end.

(** The directory below [base] along the components, the innermost first. *)
Fixpoint path_of (base : string) (p : list string) : string :=
  match p with
  | [] => base
  | c :: p => path_of base p +:+ "/" +:+ c
  end.

Lemma no_slash_forall c :
  has_char slash c = false → string_forall (λ d, negb (Ascii.eqb d slash)) c = true.
Proof. unfold has_char. by destruct (string_forall _ _). Qed.

Lemma rsplit_no_slash c : has_char slash c = false → rsplit_on slash c = None.
Proof.
  intros Hc%no_slash_forall. induction c as [|d c IH]; [done|]. cbn in *.
  apply andb_prop in Hc as [Hd Hc]. rewrite IH by done. by destruct (Ascii.eqb d slash).
Qed.

Lemma rsplit_last s c :
  has_char slash c = false → rsplit_on slash (s +:+ "/" +:+ c) = Some (s, c).
Proof.
  intros Hc. induction s as [|d s IH].
  - rewrite append_nil, append_cons, append_nil. cbn [rsplit_on].
    by rewrite rsplit_no_slash.
  - rewrite append_cons. cbn [rsplit_on]. by rewrite IH.
Qed.

Lemma rstrip_slash s : no_trailing_slash s → rstrip_char slash (s +:+ "/") = s.
Proof.
  induction s as [|c s IH]; [done|]. intros Hs. rewrite append_cons. cbn [rstrip_char].
  destruct s as [|d s].
  - cbn in Hs |- *. by destruct (Ascii.eqb_spec c slash).
  - by rewrite IH.
Qed.

Lemma no_trailing_slash_append s c :
  component c → no_trailing_slash (s +:+ c).
Proof.
  intros [Hne Hc%no_slash_forall]. induction s as [|d s IH].
  - rewrite append_nil. induction c as [|d c IH]; [done|]. cbn in Hc.
    apply andb_prop in Hc as [Hd Hc]. destruct c as [|e c].
    + cbn. by destruct (Ascii.eqb_spec d slash).
    + by apply IH.
  - rewrite append_cons. destruct (s +:+ c) as [|e t] eqn:He; [|exact IH].
    by destruct s, c.
Qed.

Lemma path_split_last s c :
  no_trailing_slash s → component c → path_split (s +:+ "/" +:+ c) = (s, c).
Proof.
  intros Hs [_ Hc]. unfold path_split. rewrite rsplit_last by done.
  rewrite rstrip_slash by done. by destruct s.
Qed.

Section paths.
Context (base : string) (base_ok : no_trailing_slash base).

Definition components (p : list string) : Prop := Forall component p.

Lemma path_of_no_slash p : components p → no_trailing_slash (path_of base p).
Proof.
  intros Hp. destruct Hp as [|c p Hc]; [done|]. cbn [path_of].
  rewrite <- append_assoc. by apply no_trailing_slash_append.
Qed.

Lemma path_of_cons_split c p :
  components (c :: p) → path_split (path_of base (c :: p)) = (path_of base p, c).
Proof.
  intros [Hc Hp]%Forall_cons. cbn [path_of]. apply path_split_last; [|done].
  by apply path_of_no_slash.
Qed.

Lemma dirname_path_of c p :
  components (c :: p) → dirname (path_of base (c :: p)) = path_of base p.
Proof. intros. unfold dirname. by rewrite path_of_cons_split. Qed.

Lemma length_path_of p : (String.length base + length p <= String.length (path_of base p))%nat.
Proof.
  induction p as [|c p IH]; cbn [path_of length]; [lia|].
  rewrite !length_append. cbn. lia.
Qed.

Lemma path_of_inj p q : components p → components q → path_of base p = path_of base q → p = q.
Proof.
  intros Hp. revert q. induction Hp as [|c p Hc Hp IH]; intros q Hq Heq.
  - destruct q as [|d q]; [done|]. apply (f_equal String.length) in Heq.
    pose proof (length_path_of (d :: q)). cbn [path_of length] in *. lia.
  - destruct q as [|d q].
    { apply (f_equal String.length) in Heq. pose proof (length_path_of (c :: p)).
      cbn [path_of length] in *. lia. }
    pose proof (f_equal path_split Heq) as Hs.
    rewrite !path_of_cons_split in Hs by (done || by constructor).
    injection Hs as Hs ->. f_equal. apply IH; [|done]. by apply Forall_cons in Hq as [].
Qed.

Lemma path_join_component s c :
  no_trailing_slash s → component c → path_join s c = s +:+ "/" +:+ c.
Proof.
  intros Hs [Hne Hc%no_slash_forall]. destruct c as [|d c]; [done|].
  unfold path_join. cbn in Hc. destruct (Ascii.eqb d slash); [done|].
  assert (String.eqb s "" = false) as -> by by destruct s.
  assert (ends_with_slash s = false) as ->; [|done].
  clear - Hs. induction s as [|e s IH]; [done|]. destruct s as [|f s].
  - cbn in *. by destruct (Ascii.eqb_spec e slash).
  - by apply IH.
Qed.
End paths.

(** ** The reference *)

Section rules.
Context `{!DictOrder} `{!Regexp} `{!Repository} (cwd : string).
Implicit Types b : DepsBuilder.

(** The rules of a directory, from the base directory down: nothing is kept
    between two questions. *)
Fixpoint rules_at b (p : list string) : outcome (option Rules) :=
  let here rules :=
    '(rules, _) ← ApplyDirectoryRules cwd b rules (path_of (base_directory b) p);
    Ok (Some rules) in
  match p with
  | [] => here no_rules
  | c :: up =>
      parent ← rules_at b up;
      match parent with
      | None => Ok None
      | Some parent =>
          deps ← directory_deps b (path_of (base_directory b) up);
          if bool_decide (c ∈ skip_child_includes deps) then Ok None else here parent
      end
  end.

(** Every list of skipped subdirectories names subdirectories. *)
Definition skips_components b : Prop := ∀ p deps,
  directory_deps b (path_of (base_directory b) p) = Ok deps →
  Forall component (skip_child_includes deps).

(** The table of a builder is right: its entries are the reference's, and those
    of the subdirectories an entry excludes are there. *)
Definition sound_table b : Prop := ∀ p v, components p →
  directory_rules b !! path_of (base_directory b) p = Some v → rules_at b p = Ok v.
Definition exclusions_entered b : Prop := ∀ p r deps c, components (c :: p) →
  directory_rules b !! path_of (base_directory b) p = Some (Some r) →
  directory_deps b (path_of (base_directory b) p) = Ok deps →
  c ∈ skip_child_includes deps →
  directory_rules b !! path_of (base_directory b) (c :: p) = Some None.

Record consistent b : Prop := {
  c_base : no_trailing_slash (base_directory b);
  c_absolute : isabs (base_directory b) = true;
  c_skips : skips_components b;
  c_root : is_Some (directory_rules b !! base_directory b);
  c_sound : sound_table b;
  c_excluded : exclusions_entered b
}.

(** Only the table may differ. *)
Definition same_settings b b' : Prop := b' = set_directory_rules (directory_rules b') b.

#[export] Instance same_settings_preorder : PreOrder same_settings.
Proof.
  split; [by intros []|]. unfold same_settings. intros b1 b2 b3 -> ->. done.
Qed.

Lemma rules_at_settings b b' p : same_settings b b' → rules_at b' p = rules_at b p.
Proof.
  unfold same_settings. intros ->. induction p as [|c p IH]; [done|].
  cbn [rules_at]. by rewrite IH.
Qed.

(** Entering the rules of a directory and its exclusions. *)
Definition entered (p : list string) (rules : Rules) (excluded : list string) b : DepsBuilder :=
  set_directory_rules
    (foldl (λ t c, <[path_join (path_of (base_directory b) p) c := None]> t)
       (<[path_of (base_directory b) p := Some rules]> (directory_rules b)) excluded) b.

Lemma mfor_exclude base (excluded : list string) b :
  mfor excluded (λ subdir, modify (λ b, set_directory_rules
    (<[path_join base subdir := None]> (directory_rules b)) b)) b =
  (Ok (), set_directory_rules
    (foldl (λ t c, <[path_join base c := None]> t) (directory_rules b) excluded) b).
Proof.
  revert b. induction excluded as [|c l IH]; intros b; [by destruct b|].
  cbn [mfor]. rewrite bind_modify, IH. done.
Qed.

Lemma enter_run parent_rules p b :
  ApplyDirectoryRulesAndSkipSubdirs cwd parent_rules (path_of (base_directory b) p) b =
    match ApplyDirectoryRules cwd b parent_rules (path_of (base_directory b) p) with
    | Ok (rules, excluded) => (Ok (), entered p rules excluded b)
    | Raise e => (Raise e, b)
    end.
Proof.
  unfold ApplyDirectoryRulesAndSkipSubdirs. rewrite bind_gets. cbn [id].
  destruct (ApplyDirectoryRules _ _ _ _) as [[rules excluded]|e]; run_steps; [|done].
  by rewrite mfor_exclude.
Qed.

(** The entries after an entering: the directory, its exclusions, and the rest. *)
Lemma entered_lookup p rules excluded b q :
  no_trailing_slash (base_directory b) → components p → components q →
  Forall component excluded →
  directory_rules (entered p rules excluded b) !! path_of (base_directory b) q =
    if decide (q = p) then Some (Some rules)
    else match q with
         | c :: up => if decide (up = p ∧ c ∈ excluded) then Some None
                      else directory_rules b !! path_of (base_directory b) q
         | [] => directory_rules b !! path_of (base_directory b) q
         end.
Proof.
  intros Hb Hp Hq Hex. unfold entered. cbn [directory_rules set_directory_rules].
  set (base := base_directory b) in *.
  induction excluded as [|c excluded IH] using rev_ind.
  - cbn [foldl]. destruct (decide (q = p)) as [->|Hne]; [by rewrite lookup_insert_eq|].
    rewrite lookup_insert_ne by (intros Heq; apply Hne; symmetry; by eapply path_of_inj).
    destruct q as [|c up]; [done|]. rewrite decide_False; [done|].
    by intros [_ ?%not_elem_of_nil].
  - apply Forall_app in Hex as [Hex [Hc _]%Forall_cons].
    rewrite foldl_app. cbn [foldl].
    rewrite path_join_component by (done || by apply path_of_no_slash).
    change (path_of base p +:+ "/" +:+ c) with (path_of base (c :: p)).
    assert (components (c :: p)) as Hcp by by constructor.
    destruct (decide (q = c :: p)) as [->|Hne].
    + rewrite lookup_insert_eq. rewrite decide_False.
      * rewrite decide_True; [done|]. split; [done|]. apply elem_of_app. right. by left.
      * intros Heq. apply (f_equal length) in Heq. cbn in Heq. lia.
    + rewrite lookup_insert_ne by (intros Heq; apply Hne; symmetry; by eapply path_of_inj).
      rewrite IH by done. destruct q as [|d up]; [done|].
      destruct (decide (d :: up = p)); [done|].
      destruct (decide (up = p ∧ d ∈ excluded)) as [[]|Hn1];
        destruct (decide (up = p ∧ d ∈ excluded ++ [c])) as [[-> Hin]|Hn2]; try done.
      * destruct Hn2. split; [done|]. apply elem_of_app. by left.
      * apply elem_of_app in Hin as [?|?%list_elem_of_singleton]; [by destruct Hn1|].
        by subst d.
Qed.

Lemma entered_sound p rules deps b :
  no_trailing_slash (base_directory b) → components p → skips_components b →
  directory_deps b (path_of (base_directory b) p) = Ok deps →
  rules_at b p = Ok (Some rules) → sound_table b → exclusions_entered b →
  sound_table (entered p rules (skip_child_includes deps) b) ∧
  exclusions_entered (entered p rules (skip_child_includes deps) b).
Proof.
  intros Hb Hp Hskips Hdeps Hrules Hsound Hex. pose proof (Hskips _ _ Hdeps) as Hc.
  set (b' := entered p rules (skip_child_includes deps) b).
  assert (same_settings b b') as Hs by done.
  split.
  - intros q v Hq. rewrite (rules_at_settings b b' q Hs).
    change (base_directory b') with (base_directory b). subst b'.
    rewrite entered_lookup by done. case_decide as Hqp.
    + intros [= <-]. by subst q.
    + destruct q as [|c up]; [by apply Hsound|].
      case_decide as Hup; [|by apply Hsound]. intros [= <-]. destruct Hup as [-> Hin].
      cbn [rules_at]. rewrite Hrules. cbn [mbind outcome_bind]. rewrite Hdeps.
      cbn [mbind outcome_bind]. by rewrite bool_decide_eq_true_2.
  - intros q r deps' c Hcq. pose proof Hcq as [Hcc Hq]%Forall_cons.
    change (directory_deps b') with (directory_deps b).
    change (base_directory b') with (base_directory b). subst b'.
    rewrite !entered_lookup by done.
    destruct (decide (q = p)) as [->|Hqp].
    + intros _ Hdeps' Hin. rewrite Hdeps in Hdeps'. injection Hdeps' as <-.
      rewrite decide_False by (intros Heq; apply (f_equal length) in Heq; cbn in Heq; lia).
      by rewrite decide_True.
    + intros Hlook Hdeps' Hin.
      assert (directory_rules b !! path_of (base_directory b) q = Some (Some r)) as Hold
        by (destruct q; [done|]; by case_decide).
      pose proof (Hex q r deps' c Hcq Hold Hdeps' Hin) as Hchild.
      case_decide as Hcp; [|by case_decide as Hd; [destruct Hd|]].
      subst p. pose proof (Hsound _ _ Hcq Hchild). congruence.
Qed.

Lemma entered_consistent p rules deps b :
  no_trailing_slash (base_directory b) → isabs (base_directory b) = true →
  skips_components b → (p = [] ∨ is_Some (directory_rules b !! base_directory b)) →
  components p → directory_deps b (path_of (base_directory b) p) = Ok deps →
  rules_at b p = Ok (Some rules) → sound_table b → exclusions_entered b →
  consistent (entered p rules (skip_child_includes deps) b).
Proof.
  intros Hb Habs Hskips Hroot Hp Hdeps Hrules Hsound Hex.
  destruct (entered_sound p rules deps b) as [Hs He]; try done. split; try done.
  change (base_directory (entered _ _ _ b)) with (path_of (base_directory b) []).
  rewrite entered_lookup by (done || constructor || by eapply Hskips).
  case_decide as Hn; [by eexists|]. destruct Hroot as [->|]; done.
Qed.

(** Skipping a directory whose parent is skipped. *)
Definition skipped (p : list string) b : DepsBuilder :=
  set_directory_rules (<[path_of (base_directory b) p := None]> (directory_rules b)) b.

Lemma skipped_lookup p b q :
  no_trailing_slash (base_directory b) → components p → components q →
  directory_rules (skipped p b) !! path_of (base_directory b) q =
    if decide (q = p) then Some None else directory_rules b !! path_of (base_directory b) q.
Proof.
  intros. cbn. destruct (decide (q = p)) as [->|Hne]; [by rewrite lookup_insert_eq|].
  rewrite lookup_insert_ne; [done|]. intros Heq. apply Hne. symmetry. by eapply path_of_inj.
Qed.

Lemma skipped_consistent p b :
  consistent b → components p → p ≠ [] → rules_at b p = Ok None → consistent (skipped p b).
Proof.
  intros [Hb Habs Hskips [v Hroot] Hsound Hex] Hp Hne Hrules.
  set (b' := skipped p b). assert (same_settings b b') as Hs by done.
  split; try done.
  - exists v. change (base_directory b') with (path_of (base_directory b) []). subst b'.
    rewrite skipped_lookup by (done || constructor). by rewrite decide_False.
  - intros q w Hq. rewrite (rules_at_settings b b' q Hs).
    change (base_directory b') with (base_directory b). subst b'.
    rewrite skipped_lookup by done. case_decide as Hqp; [|by apply Hsound].
    intros [= <-]. by subst q.
  - intros q r deps' c Hcq. pose proof Hcq as [Hcc Hq]%Forall_cons.
    change (directory_deps b') with (directory_deps b).
    change (base_directory b') with (base_directory b). subst b'.
    rewrite !skipped_lookup by done. case_decide; [done|]. intros Hold Hdeps' Hin.
    case_decide; [done|]. by eapply Hex.
Qed.

Lemma Apply_settings b b' r dir :
  same_settings b b' → ApplyDirectoryRules cwd b' r dir = ApplyDirectoryRules cwd b r dir.
Proof. by intros ->. Qed.

Lemma Apply_deps b r dir rules excluded :
  ApplyDirectoryRules cwd b r dir = Ok (rules, excluded) →
  ∃ deps, directory_deps b dir = Ok deps ∧ excluded = skip_child_includes deps.
Proof.
  unfold ApplyDirectoryRules. destruct (directory_deps b dir) as [deps|]; [|done].
  cbn [mbind outcome_bind]. destruct (ApplyRules _ _ _ _ _); [|done].
  intros [= <- <-]. by exists deps.
Qed.

Lemma isabs_path_of b p : isabs (base_directory b) = true → isabs (path_of (base_directory b) p) = true.
Proof.
  intros Ha. induction p as [|c p IH]; [done|]. cbn [path_of]. unfold isabs in *.
  apply startswith_spec in IH as [t ->]. apply startswith_spec. exists (t +:+ "/" +:+ c).
  by rewrite !append_assoc.
Qed.

(** What a question about the directory at [p] answers, and the builder after it. *)
Definition answers (p : list string) b (r : outcome (option Rules) * DepsBuilder) : Prop :=
  fst r = rules_at b p ∧ consistent (snd r) ∧ same_settings b (snd r) ∧
  ∀ v, fst r = Ok v → directory_rules (snd r) !! path_of (base_directory b) p = Some v.

(** The step below an answered parent. *)
Lemma child_answer c up r1 b b1 :
  components (c :: up) → same_settings b b1 → consistent b1 → rules_at b up = Ok r1 →
  directory_rules b1 !! path_of (base_directory b) up = Some r1 →
  directory_rules b1 !! path_of (base_directory b) (c :: up) = None →
  answers (c :: up) b
    ((match r1 with
      | Some r => ApplyDirectoryRulesAndSkipSubdirs cwd r (path_of (base_directory b) (c :: up))
      | None => modify (λ b', set_directory_rules
                  (<[path_of (base_directory b) (c :: up) := None]> (directory_rules b')) b')
      end;;
      rules ← gets (λ b', directory_rules b' !! path_of (base_directory b) (c :: up));
      lift (of_option KeyError rules)) b1).
Proof.
  intros Hcup Hs Hb1 Hup Hpar Hnone. pose proof Hcup as [Hc Hupc]%Forall_cons.
  assert (base_directory b1 = base_directory b) as Hbase by by rewrite Hs.
  assert (∀ d, directory_deps b1 d = directory_deps b d) as Hdd by (intros; by rewrite Hs).
  pose proof (c_base _ Hb1) as Hbok. rewrite Hbase in Hbok. unfold answers.
  rewrite <- Hbase in *. destruct r1 as [r|].
  - pose proof (enter_run r (c :: up) b1) as Hrun.
    rewrite (Apply_settings b b1) in Hrun by done.
    assert (∃ deps, directory_deps b (path_of (base_directory b1) up) = Ok deps) as [deps Hdeps].
    { destruct up as [|d up]; cbn [rules_at] in Hup.
      - destruct (ApplyDirectoryRules _ _ _ _) as [[rs ex]|] eqn:Ha; [|done].
        apply Apply_deps in Ha as (deps & Hd & _). exists deps. by rewrite Hbase.
      - destruct (rules_at b up) as [[r2|]|]; [|done..]. cbn [mbind outcome_bind] in Hup.
        destruct (directory_deps b _) as [deps2|]; [|done]. cbn [mbind outcome_bind] in Hup.
        case_bool_decide; [done|]. rewrite Hbase.
        destruct (ApplyDirectoryRules _ _ _ _) as [[rs ex]|] eqn:Ha; [|done].
        apply Apply_deps in Ha as (deps & Hd & _). by exists deps. }
    assert (c ∉ skip_child_includes deps) as Hnin.
    { intros Hin. pose proof (c_excluded _ Hb1 up r deps c Hcup Hpar) as Hex.
      rewrite Hdd in Hex. specialize (Hex Hdeps Hin). congruence. }
    assert (rules_at b (c :: up) =
      '(rules, _) ← ApplyDirectoryRules cwd b r (path_of (base_directory b1) (c :: up));
      Ok (Some rules)) as Hat.
    { cbn [rules_at]. rewrite Hup. cbn [mbind outcome_bind]. rewrite <- Hbase, Hdeps.
      cbn [mbind outcome_bind]. by rewrite bool_decide_eq_false_2. }
    rewrite Hat.
    destruct (ApplyDirectoryRules cwd b r _) as [[rules excluded]|e] eqn:Ha.
    + rewrite (M_bind_run _ _ _ _ _ Hrun), bind_gets.
      apply Apply_deps in Ha as (deps' & Hd' & ->).
      assert (directory_rules (entered (c :: up) rules (skip_child_includes deps') b1)
                !! path_of (base_directory b1) (c :: up) = Some (Some rules)) as Hentry.
      { rewrite entered_lookup; try done; [by rewrite decide_True|].
        apply (c_skips _ Hb1 (c :: up)). by rewrite Hdd. }
      rewrite Hentry. cbn [of_option]. unfold lift. cbn [fst snd mbind outcome_bind].
      assert (same_settings b (entered (c :: up) rules (skip_child_includes deps') b1)) as Hs'
        by by etrans; [exact Hs|].
      split; [done|]. split; [|split; [done|]].
      * pose proof Hb1 as [? ? ? ? ? ?].
        apply entered_consistent; try done; [by right| |].
        -- by rewrite Hdd.
        -- rewrite (rules_at_settings b b1) by done. by rewrite Hat.
      * by intros v [= <-].
    + rewrite (M_bind_run_raise _ _ _ _ _ Hrun). done.
  - rewrite bind_modify, bind_gets.
    change (set_directory_rules _ b1) with (skipped (c :: up) b1).
    rewrite skipped_lookup by done. rewrite decide_True by done.
    cbn [of_option]. unfold lift. cbn [fst snd].
    assert (rules_at b (c :: up) = Ok None) as Hat by (cbn [rules_at]; by rewrite Hup).
    split; [done|]. split; [|split].
    + apply skipped_consistent; [done..|]. by rewrite (rules_at_settings b b1).
    + by etrans; [exact Hs|].
    + intros v [= <-]. rewrite skipped_lookup by done. by rewrite decide_True.
Qed.

(** Enough recursion for the depth of the directory gives the reference's answer. *)
Lemma GetDirectoryRules_answers p fuel b :
  consistent b → components p → (length p < fuel)%nat →
  answers p b (GetDirectoryRules cwd fuel (path_of (base_directory b) p) b).
Proof.
  revert fuel b. induction p as [|c up IH]; intros fuel b Hb Hp Hfuel;
    (destruct fuel as [|fuel]; [lia|]); cbn [GetDirectoryRules]; rewrite bind_gets;
    rewrite isabs_path_of by apply Hb; unfold NormalizePath; rewrite bind_gets.
  - destruct (directory_rules b !! path_of (base_directory b) []) as [v|] eqn:Hv.
    + split; [|split; [done|split; [done|by intros w [= <-]]]]. symmetry. by apply (c_sound _ Hb).
    + destruct (c_root _ Hb) as [v Hr]. cbn in Hv. congruence.
  - destruct (directory_rules b !! path_of (base_directory b) (c :: up)) as [v|] eqn:Hv.
    + split; [|split; [done|split; [done|by intros w [= <-]]]]. symmetry. by apply (c_sound _ Hb).
    + rewrite dirname_path_of by (done || apply Hb).
      pose proof Hp as [Hc Hup]%Forall_cons.
      destruct (IH fuel b Hb Hup ltac:(cbn in Hfuel; lia)) as (Ho & Hb1 & Hs & Hentry).
      destruct (GetDirectoryRules cwd fuel (path_of (base_directory b) up) b)
        as [[r1|e] b1] eqn:Hrun; cbn [fst snd] in *.
      * rewrite (M_bind_run _ _ _ _ _ Hrun), bind_gets.
        destruct (directory_rules b1 !! path_of (base_directory b) (c :: up)) as [v|] eqn:Hv1.
        -- split; [|split; [done|split; [done|by intros w [= <-]]]]. symmetry. cbn [fst mret M_ret].
           rewrite <- (rules_at_settings b b1) by done. apply (c_sound _ Hb1); [done|].
           by rewrite Hs.
        -- by apply child_answer; [..|apply Hentry|].
      * rewrite (M_bind_run_raise _ _ _ _ _ Hrun). split; [|done].
        cbn [fst rules_at]. by rewrite <- Ho.
Qed.

(** A new builder has entered the base directory. *)
Lemma init_consistent base_dir t i s b :
  DepsBuilder_init cwd base_dir t i s = Ok b →
  no_trailing_slash (base_directory b) → isabs (base_directory b) = true → skips_components b →
  consistent b.
Proof.
  unfold DepsBuilder_init. set (abs_base := abspath cwd base_dir).
  assert (∀ git, let b0 := mkBuilder abs_base t i s git None ∅ in
    match ApplyDirectoryRulesAndSkipSubdirs cwd no_rules abs_base b0 with
    | (Ok _, b1) => Ok b1 | (Raise e, _) => Raise e end = Ok b →
    no_trailing_slash (base_directory b) → isabs (base_directory b) = true →
    skips_components b → consistent b) as Hb.
  { intros git b0 Hrun Hb Habs Hskips. pose proof (enter_run no_rules [] b0) as Henter.
    change (path_of (base_directory b0) []) with abs_base in Henter.
    rewrite Henter in Hrun. clear Henter.
    destruct (ApplyDirectoryRules _ _ _ _) as [[rules ex]|e] eqn:Ha; [|done].
    apply Ok_inj in Hrun as <-. pose proof Ha as (deps & Hdeps & ->)%Apply_deps.
    assert (rules_at b0 [] = Ok (Some rules)) as Hat.
    { cbn [rules_at]. change (path_of (base_directory b0) []) with abs_base. by rewrite Ha. }
    apply (entered_consistent [] rules deps b0);
      [done|done|done|by left|constructor|done|done|..].
    - intros p v _. cbn. by rewrite lookup_empty.
    - intros p r d c _. cbn. by rewrite lookup_empty. }
  destruct (repo_exists _); [apply Hb|]. by destruct (repo_exists _); [apply Hb|].
Qed.

(** Questions, in any order. *)
Inductive asked : DepsBuilder → DepsBuilder → Prop :=
  | asked_none b : asked b b
  | asked_more b b' p :
      asked b b' → components p →
      asked b (snd (DirectoryRules cwd (path_of (base_directory b) p) b')).

Lemma DirectoryRules_answers p b :
  consistent b → components p →
  answers p b (DirectoryRules cwd (path_of (base_directory b) p) b).
Proof.
  intros Hb Hp. unfold DirectoryRules. rewrite bind_gets, isabs_path_of by apply Hb.
  apply GetDirectoryRules_answers; [done..|]. unfold directory_depth.
  pose proof (length_path_of (base_directory b) p). lia.
Qed.

Lemma asked_consistent b b' : consistent b → asked b b' → consistent b' ∧ same_settings b b'.
Proof.
  intros Hb Hh. induction Hh as [b|b b' p Hh IH Hp]; [done|].
  destruct (IH Hb) as [Hb' Hs]. assert (base_directory b = base_directory b') as -> by by rewrite Hs.
  destruct (DirectoryRules_answers p b' Hb' Hp) as (_ & Hc & Hs' & _). split; [done|].
  by etrans.
Qed.

(** C4: The table of directory rules is a cache.  Whatever directories a builder
    was asked about before, and however it fared, its answer for a directory, given
    by its absolute path or relative to the base directory, is the reference's: the
    rules of the DEPS files on the way down from the base directory, or nothing if
    one of them skips a directory on the way, or the error of the first one that
    has an error.  The recursion is always deep enough. *)
Theorem directory_rules_cache base_dir t i s b b' p dir :
  DepsBuilder_init cwd base_dir t i s = Ok b →
  no_trailing_slash (base_directory b) → isabs (base_directory b) = true → skips_components b →
  asked b b' → components p →
  (if isabs dir then dir else path_join (base_directory b) dir) = path_of (base_directory b) p →
  fst (DirectoryRules cwd dir b') = rules_at b p.
Proof.
  intros Hinit Hbase Habs Hskips Hh Hp Hdir.
  pose proof (init_consistent _ _ _ _ _ Hinit Hbase Habs Hskips) as Hb.
  destruct (asked_consistent b b' Hb Hh) as [Hb' Hs].
  assert (base_directory b = base_directory b') as Heq by by rewrite Hs.
  rewrite Heq in Hdir.
  assert (DirectoryRules cwd dir b' =
          DirectoryRules cwd (path_of (base_directory b') p) b') as ->.
  { unfold DirectoryRules. rewrite !bind_gets, isabs_path_of, Hdir by apply Hb'.
    cbn [directory_depth GetDirectoryRules]. rewrite !bind_gets, Hdir.
    by rewrite isabs_path_of by apply Hb'. }
  destruct (DirectoryRules_answers p b' Hb' Hp) as (-> & _). by apply rules_at_settings.
Qed.

(** ** Trees without errors *)

(** Every DEPS file can be evaluated and has well-formed rules. *)
Definition well_formed_deps (deps : Deps) : Prop :=
  Forall well_formed (include_rules deps) ∧
  ∀ re l, specific_include_rules deps !! re = Some l → Forall well_formed l.
Definition well_formed_repository : Prop := ∀ dir o,
  repo_deps dir = Some o → ∃ deps, o = Ok deps ∧ well_formed_deps deps.

Lemma AddRule_Ok s dep src re rs : well_formed s → ∃ rs', AddRule s dep src re rs = Ok rs'.
Proof.
  intros Hs. pose proof (AddRule_well_formed (s, dep, src, re) rs) as Ha. cbv beta iota in Ha.
  rewrite Ha, decide_True by done. by eexists.
Qed.

Lemma ApplyOneRule_Ok t dir re s rs :
  well_formed s → ∃ rs', ApplyOneRule t dir re s rs = Ok rs'.
Proof.
  intros Hs. unfold ApplyOneRule. destruct (_ && _); [by eexists|]. by apply AddRule_Ok.
Qed.

Lemma fold_outcome_Ok {A S} (f : A → S → outcome S) (l : list A) s :
  (∀ x s, x ∈ l → ∃ s', f x s = Ok s') → ∃ s', fold_outcome f l s = Ok s'.
Proof.
  revert s. induction l as [|x l IH]; intros s Hf; [by eexists|]. cbn [fold_outcome].
  destruct (Hf x s ltac:(by left)) as [s' ->]. cbn [mbind outcome_bind].
  apply IH. intros y s2 Hy. apply Hf. by right.
Qed.

Lemma relpath_Ok path start : path ≠ "" → ∃ r, relpath cwd path start = Ok r.
Proof.
  intros Hne. unfold relpath. destruct (String.eqb_spec path ""); [done|]. by eexists.
Qed.

Lemma startswith_path_of base p : startswith base (path_of base p) = true.
Proof.
  apply startswith_spec. induction p as [|c p [t IH]]; [exists ""; by rewrite append_empty_r|].
  cbn [path_of]. exists (t +:+ "/" +:+ c). by rewrite IH, !append_assoc.
Qed.

Lemma ApplyRules_Ok b rs deps p :
  no_trailing_slash (base_directory b) → components p → well_formed_deps deps →
  ∃ rs', ApplyRules cwd b rs deps (path_of (base_directory b) p) = Ok rs'.
Proof.
  intros Hb Hp [Hinc Hspec]. unfold ApplyRules, NormalizePath.
  rewrite startswith_path_of. cbn [negb].
  destruct (relpath_Ok (path_of (base_directory b) p) (base_directory b)) as [dir ->].
  { pose proof (path_of_no_slash _ Hb p Hp) as Hs. by intros Heq; rewrite Heq in Hs. }
  cbn [mbind outcome_bind].
  destruct (AddRule_Ok ("+" +:+ dir) dir
    ("Default rule for " +:+ (if String.eqb dir "" then "top level" else dir)) None rs) as [rs1 ->].
  { rewrite append_cons. cbn. by left. }
  cbn [mbind outcome_bind].
  destruct (fold_outcome_Ok (ApplyOneRule (ignore_temp_rules b) dir None) (include_rules deps) rs1)
    as [rs2 ->].
  { intros s rs' Hs. apply ApplyOneRule_Ok. rewrite Forall_forall in Hinc. by apply Hinc. }
  cbn [mbind outcome_bind]. destruct (ignore_specific_rules b); [by eexists|].
  apply fold_outcome_Ok. intros [re l] rs' Hin%elem_of_dict_items.
  apply fold_outcome_Ok. intros s rs3 Hs. apply ApplyOneRule_Ok.
  pose proof (Hspec _ _ Hin) as Hl. rewrite Forall_forall in Hl. by apply Hl.
Qed.

Lemma rules_at_Ok b p :
  no_trailing_slash (base_directory b) → well_formed_repository → components p →
  ∃ v, rules_at b p = Ok v.
Proof.
  intros Hb Hrepo Hp.
  assert (∀ dir, ∃ deps, directory_deps b dir = Ok deps ∧ well_formed_deps deps) as Hdeps.
  { assert (well_formed_deps no_deps) as Hno 
      by (split; [apply Forall_nil_2|intros re l Hl; cbn in Hl; by rewrite lookup_empty in Hl]).
    intros dir. unfold directory_deps. destruct (repo_deps dir) as [o|] eqn:Ho; [|by eexists].
    destruct (Hrepo dir o Ho) as (deps & -> & Hd). destruct (_ && _); by eexists. }
  assert (∀ p rs, components p → ∃ rs' ex, ApplyDirectoryRules cwd b rs
    (path_of (base_directory b) p) = Ok (rs', ex)) as Happly.
  { intros q rs Hq. unfold ApplyDirectoryRules, NormalizePath.
    destruct (Hdeps (path_of (base_directory b) q)) as (deps & -> & Hd). cbn [mbind outcome_bind].
    destruct (ApplyRules_Ok b rs deps q Hb Hq Hd) as [rs' ->]. by eexists _, _. }
  induction Hp as [|c p Hc Hp IH]; cbn [rules_at].
  - destruct (Happly [] no_rules ltac:(constructor)) as (rs' & ex & ->). by eexists.
  - destruct IH as [[r|] ->]; cbn [mbind outcome_bind]; [|by eexists].
    destruct (Hdeps (path_of (base_directory b) p)) as (deps & -> & _). cbn [mbind outcome_bind].
    case_bool_decide; [by eexists|].
    destruct (Happly (c :: p) r ltac:(by constructor)) as (rs' & ex & ->). by eexists.
Qed.

(** ** The implicit rule of the base directory *)

(** Its relative path is a dot, which no include begins with: the rule that should
    allow the base directory and all below it allows nothing. *)
Lemma relpath_self path : path ≠ "" → relpath cwd path path = Ok ".".
Proof.
  intros Hne. unfold relpath. destruct (String.eqb_spec path ""); [done|]. f_equal.
  assert (∀ l, common_prefix l l = length l) as ->.
  { induction l as [|x l IH]; [done|]. cbn. by rewrite String.eqb_refl, IH. }
  by rewrite Nat.sub_diag, drop_all.
Qed.

Lemma base_rule_allows_nothing b file include :
  no_trailing_slash (base_directory b) → include ≠ "." → startswith "./" include = false →
  ∃ rs, ApplyRules cwd b no_rules no_deps (base_directory b) = Ok rs ∧
    RuleApplyingTo rs include file = MessageRule "no rule applying.".
Proof.
  intros Hb Hdot Hslash. unfold ApplyRules, NormalizePath.
  pose proof (startswith_path_of (base_directory b) []) as Hs. cbn [path_of] in Hs. rewrite Hs.
  cbn [negb]. rewrite relpath_self by (intros Heq; by rewrite Heq in Hb).
  cbn [mbind outcome_bind]. eexists. split.
  { cbn. destruct (ignore_specific_rules b); [reflexivity|].
    pose proof (dict_items_perm (∅ : gmap string (list string))) as Hp.
    rewrite map_to_list_empty in Hp. apply Permutation_nil_r in Hp. by rewrite Hp. }
  unfold RuleApplyingTo. cbn [specific_rules general_rules].
  pose proof (dict_items_perm (∅ : gmap string (list Rule))) as Hp.
  rewrite map_to_list_empty in Hp. apply Permutation_nil_r in Hp.
  cbn [set_rules_of rules_of no_rules group_of specific_rules general_rules]. rewrite Hp.
  cbn [specific_rule]. unfold first_covering, insert_rule. rewrite filter_cons_False; [done|].
  intros Hc%ChildOrMatch_spec. destruct Hc as [Heq|[t Heq]]; [by apply Hdot|].
  assert (startswith "./" include = true); [|congruence].
  apply startswith_spec. exists t. exact Heq.
Qed.
End rules.
