(* ===== verification/DepsWalk.v ===== *)
(** The walk of builddeps.py over the tree: it visits every directory of the
    repository that is not skipped, exactly in preorder with the names sorted, and
    stops. *)

From Stdlib Require Import Ascii String.
From stdpp Require Import sorting.
From S2P Require Import Prelude PyPath DepsRules DepsResults DepsCheckers DepsBuilder.
From S2P Require Import DepsDirectories.

#[local] Open Scope string_scope.
#[local] Open Scope list_scope.

Section walk.
Context `{!DictOrder} `{!Regexp} `{!Repository} (cwd : string).
Context {F : Type} (yield : Rules → list string → M F unit).
Implicit Types b : DepsBuilder.

(** The subdirectories and the files of a directory, by name. *)
Definition sub_names (dir : string) : list string :=
  (base.filter (λ x, snd x = true) (sorted_entries dir)).*1.
Definition files_of (dir : string) : list string :=
  (λ x, path_join dir (fst x)) <$> base.filter (λ x, snd x = false) (sorted_entries dir).

(** The tree below a directory is less than [d] deep, with proper names. *)
Fixpoint bounded (base : string) (d : nat) (p : list string) : Prop :=
  match d with
  | O => False
  | S d => ∀ c, c ∈ sub_names (path_of base p) → component c ∧ bounded base d (c :: p)
  end.

(** The number of directories in it. *)
Fixpoint directories (base : string) (d : nat) (p : list string) : nat :=
  match d with
  | O => O
  | S d => S (sum_list ((λ c, directories base d (c :: p)) <$> sub_names (path_of base p)))
  end.

(** The reference: the directories of the repository below [p] that have rules,
    parents before children and siblings by name. *)
Fixpoint visits b (d : nat) (p : list string) : list (Rules * list string) :=
  match d with
  | O => []
  | S d =>
      if in_repository (path_of (base_directory b) p) b then
        match rules_at cwd b p with
        | Ok (Some rules) =>
            (rules, files_of (path_of (base_directory b) p))
              :: concat ((λ c, visits b d (c :: p)) <$> sub_names (path_of (base_directory b) p))
        | _ => []
        end
      else []
  end.

Lemma visits_settings b b' d p : same_settings b b' → visits b' d p = visits b d p.
Proof.
  intros Hs. assert (base_directory b' = base_directory b) as Hbase by by rewrite Hs.
  assert (∀ dir, in_repository dir b' = in_repository dir b) as Hin by (intros; by rewrite Hs).
  revert p. induction d as [|d IH]; intros p; [done|]. cbn [visits].
  rewrite (rules_at_settings cwd b b') by done. rewrite Hbase, Hin.
  destruct (in_repository _ b); [|done].
  destruct (rules_at cwd b p) as [[r|]|]; [|done..]. do 2 f_equal.
  by apply list_fmap_ext.
Qed.

Lemma on_client_run (m : M F unit) b (f : F) :
  on_client m (b, f) = (fst (m f), (b, snd (m f))).
Proof. unfold on_client, zoom. cbn. by destruct (m f). Qed.

Lemma on_builder_run {A} (m : M DepsBuilder A) b (f : F) :
  on_builder m (b, f) = (fst (m b), (snd (m b), f)).
Proof. unfold on_builder, zoom. cbn. by destruct (m b). Qed.

(** The work list, as pairs of a bound and a directory. *)
Abbreviation work := (list (nat * list string)).
Definition work_paths (base : string) (ws : work) : list string := path_of base ∘ snd <$> ws.
Definition work_bounded (base : string) (ws : work) : Prop :=
  Forall (λ w, components (snd w) ∧ bounded base (fst w) (snd w)) ws.
Definition work_directories (base : string) (ws : work) : nat :=
  sum_list ((λ w, directories base (fst w) (snd w)) <$> ws).
Definition work_visits b (ws : work) : list (Rules * list string) :=
  concat ((λ w, visits b (fst w) (snd w)) <$> ws).

Lemma work_app base ws ws' :
  work_directories base (ws ++ ws') = (work_directories base ws + work_directories base ws')%nat.
Proof.
  unfold work_directories. rewrite fmap_app. induction (_ <$> ws) as [|n l IH]; [done|].
  cbn. rewrite IH. lia.
Qed.

(** The children of a directory, as work. *)
Definition children (base : string) (d : nat) (p : list string) : work :=
  (λ c, (d, c :: p)) <$> sub_names (path_of base p).

Lemma children_directories base d p :
  directories base (S d) p = S (work_directories base (children base d p)).
Proof. unfold work_directories, children. by rewrite <- list_fmap_compose. Qed.

Lemma children_paths base d p :
  no_trailing_slash base → components p → bounded base (S d) p →
  work_paths base (children base d p) =
    (λ x, path_join (path_of base p) (fst x)) <$>
      base.filter (λ x, snd x = true) (sorted_entries (path_of base p)).
Proof.
  intros Hb Hp Hbound. unfold work_paths, children. rewrite <- list_fmap_compose.
  cbn [bounded] in Hbound. unfold sub_names in *. rewrite <- list_fmap_compose.
  apply list_fmap_ext. intros i x Hx. cbn.
  rewrite path_join_component; [done|by apply path_of_no_slash|].
  apply Hbound. apply list_elem_of_fmap. exists x. split; [done|].
  by eapply list_elem_of_lookup_2.
Qed.

Lemma children_bounded base d p :
  components p → bounded base (S d) p → work_bounded base (children base d p).
Proof.
  intros Hp Hb. unfold work_bounded, children. apply Forall_fmap, Forall_forall.
  intros c Hc. destruct (Hb c Hc). split; [by constructor|done].
Qed.

Lemma work_paths_app base ws ws' :
  work_paths base (ws ++ ws') = work_paths base ws ++ work_paths base ws'.
Proof. apply fmap_app. Qed.

Lemma work_visits_app b ws ws' :
  work_visits b (ws ++ ws') = work_visits b ws ++ work_visits b ws'.
Proof. unfold work_visits. by rewrite fmap_app, concat_app. Qed.

Lemma children_visits b d p :
  work_visits b (children (base_directory b) d p) =
    concat ((λ c, visits b d (c :: p)) <$> sub_names (path_of (base_directory b) p)).
Proof. unfold work_visits, children. by rewrite <- list_fmap_compose. Qed.

(** No directory on the way has an error. *)
Definition errorless b : Prop := ∀ p, components p → ∃ v, rules_at cwd b p = Ok v.

Lemma work_step base d p ws :
  work_directories base ((S d, p) :: ws) =
    S (work_directories base (children base d p) + work_directories base ws).
Proof.
  change ((S d, p) :: ws) with ([(S d, p)] ++ ws). rewrite work_app.
  unfold work_directories at 1. cbn [fmap list_fmap fst snd].
  rewrite children_directories. cbn. lia.
Qed.

Lemma errorless_settings b b' : same_settings b b' → errorless b → errorless b'.
Proof.
  intros Hs Hok q Hq. destruct (Hok q Hq) as [u Hu]. exists u.
  by rewrite (rules_at_settings cwd b b').
Qed.

Lemma work_visits_settings b b' ws :
  same_settings b b' → work_visits b' ws = work_visits b ws.
Proof.
  intros Hs. unfold work_visits. f_equal. apply list_fmap_ext. intros i [d p] _.
  by apply visits_settings.
Qed.

(** What the walk has done, seen from an earlier builder. *)
Lemma walked_from b b1 (r : outcome unit * (DepsBuilder * F)) vs :
  same_settings b b1 →
  (let '(o, (b', f')) := r in (o, f') = vs ∧ consistent cwd b' ∧ same_settings b1 b') →
  let '(o, (b', f')) := r in (o, f') = vs ∧ consistent cwd b' ∧ same_settings b b'.
Proof.
  intros Hs. destruct r as [o [b' f']]. intros (? & ? & ?). split_and!; [done..|by etrans].
Qed.

(** C24: The walk runs the loop's body on exactly the directories of the reference,
    in its order: those of the repository that no DEPS file skips, a directory
    before its subdirectories, which come by name, each once and with its rules and
    its files by name.  It stops: the number of directories is enough steps.  An
    exception of the body ends it. *)
Theorem walk_visits fuel ws b (f : F) :
  consistent cwd b → errorless b → work_bounded (base_directory b) ws →
  (work_directories (base_directory b) ws <= fuel)%nat →
  let '(o, (b', f')) := walk cwd yield fuel (work_paths (base_directory b) ws) (b, f) in
  (o, f') = mfor (work_visits b ws) (λ '(rules, files), yield rules files) f ∧
  consistent cwd b' ∧ same_settings b b'.
Proof.
  revert ws b f. induction fuel as [|fuel IH]; intros ws b f Hb Hok Hws Hfuel;
    (destruct ws as [|[d p] ws]; [by split; [|split]|]);
    apply Forall_cons in Hws as [[Hp Hd] Hws]; cbn [fst snd] in Hp, Hd;
    (destruct d as [|d]; [done|]).
  { rewrite work_step in Hfuel. lia. }
  rewrite work_step in Hfuel.
  unfold work_paths. cbn [fmap list_fmap walk compose snd]. fold (work_paths (base_directory b) ws).
  rewrite (M_bind_run (on_builder (gets _)) _ (b, f) _ _ eq_refl). cbn [snd].
  unfold work_visits. cbn [fmap list_fmap concat fst snd visits]. fold (work_visits b ws).
  destruct (in_repository _ b) eqn:Hin; cbn [negb].
  2: { apply IH; [done..|]. lia. }
  destruct (DirectoryRules_answers cwd p b Hb Hp) as (Ho & Hb1 & Hs1 & _).
  destruct (Hok p Hp) as [v Hv]. rewrite Hv in Ho.
  pose proof (on_builder_run (DirectoryRules cwd (path_of (base_directory b) p)) b f) as Hrun.
  rewrite Ho in Hrun. rewrite (M_bind_run _ _ _ _ _ Hrun). clear Hrun Ho. rewrite Hv.
  set (b1 := snd (DirectoryRules cwd (path_of (base_directory b) p) b)) in *.
  assert (base_directory b1 = base_directory b) as Hbase by by rewrite Hs1.
  pose proof (errorless_settings b b1 Hs1 Hok) as Hok1.
  pose proof (work_visits_settings b b1 ws Hs1) as Hws1.
  destruct v as [rules|]; cbn [snd].
  - fold (files_of (path_of (base_directory b) p)). cbn [app mfor].
    set (files := files_of _).
    pose proof (on_client_run (yield rules files) b1 f) as Hyield.
    destruct (yield rules files f) as [[[]|e] f1] eqn:Hy; cbn [fst snd] in Hyield.
    + rewrite (M_bind_run _ _ _ _ _ Hyield), (M_bind_run _ _ _ _ _ Hy).
      rewrite <- (children_paths (base_directory b) d p) by (done || apply Hb).
      specialize (IH (children (base_directory b) d p ++ ws) b1 f1 Hb1 Hok1).
      rewrite Hbase, work_visits_settings with (1 := Hs1), work_paths_app, work_visits_app,
        children_visits in IH.
      apply (walked_from b b1 _ _ Hs1), IH.
      * apply Forall_app. split; [by apply children_bounded|done].
      * rewrite work_app. lia.
    + rewrite (M_bind_run_raise _ _ _ _ _ Hyield), (M_bind_run_raise _ _ _ _ _ Hy). done.
  - specialize (IH ws b1 f Hb1 Hok1). rewrite Hbase, Hws1 in IH.
    apply (walked_from b b1 _ _ Hs1), IH; [done|lia].
Qed.
End walk.
