(* ===== verification/DepsChecks.v ===== *)
(** What checkdeps reports about a file and a tree: which includes of a C++ file
    are checked, what the temporary rules it prints do, and its exit code. *)

From Stdlib Require Import Ascii String.
From stdpp Require Import sorting.
From S2P Require Import Prelude PyPath DepsRules DepsRuleLaws DepsResults DepsCheckers.

#[local] Open Scope string_scope.
#[local] Open Scope list_scope.

(** ** The includes of a C++ file *)

(** The lines outside [#if 0] blocks, with their numbers, stripped. *)
Fixpoint visible_lines (depth line_num : nat) (lines : list string) : list (nat * string) :=
  match lines with
  | [] => []
  | line :: lines =>
      let line := strip line in
      if startswith "#if 0" line then visible_lines (S depth) (S line_num) lines
      else match depth with
           | O => (line_num, line) :: visible_lines O (S line_num) lines
           | S depth' =>
               visible_lines
                 (if startswith "#if" line then S depth
                  else if startswith "#endif" line then depth' else depth) (S line_num) lines
           end
  end.

Definition is_include (line : string) : bool := is_not_none (EXTRACT_INCLUDE_PATH line).

(** The includes up to the first that is more than fifty lines after its
    predecessor. *)
Fixpoint near_includes (last : nat) (includes : list (nat * string)) : list string :=
  match includes with
  | [] => []
  | (n, line) :: includes =>
      if (MAX_UNINTERESTING_LINES <? n - last)%nat then []
      else line :: near_includes n includes
  end.

Definition includes_from (depth line_num : nat) (lines : list string) : list (nat * string) :=
  base.filter (λ x, is_include (snd x) = true) (visible_lines depth line_num lines).
Definition checked_includes (lines : list string) : list string :=
  near_includes 0 (includes_from 0 0 lines).

Lemma includes_from_ge depth line_num lines n line :
  (n, line) ∈ includes_from depth line_num lines → (line_num <= n)%nat.
Proof.
  unfold includes_from. intros [_ Hin]%list_elem_of_filter. revert depth line_num Hin.
  induction lines as [|l lines IH]; intros depth line_num Hin; cbn in Hin.
  { by apply not_elem_of_nil in Hin. }
  destruct (startswith _ _); [apply IH in Hin; lia|].
  destruct depth as [|depth].
  - apply elem_of_cons in Hin as [[= -> _]|Hin]; [lia|]. apply IH in Hin. lia.
  - apply IH in Hin. lia.
Qed.

Lemma near_includes_far last includes :
  (∀ n line, (n, line) ∈ includes → (last + MAX_UNINTERESTING_LINES < n)%nat) →
  near_includes last includes = [].
Proof.
  destruct includes as [|[n line] includes]; [done|]. intros Hfar. cbn [near_includes].
  specialize (Hfar n line ltac:(by left)). by rewrite (proj2 (Nat.ltb_lt _ _)) by lia.
Qed.

Section cpp.
Context `{!DictOrder} `{!Regexp} (cwd : string).

Lemma relpath_total path start : path ≠ "" → ∃ r, relpath cwd path start = Ok r.
Proof.
  intros Hne. unfold relpath. destruct (String.eqb_spec path ""); [done|]. by eexists.
Qed.

Lemma path_join_not_empty a b : b ≠ "" → path_join a b ≠ "".
Proof.
  intros Hb. destruct b as [|c b]; [done|]. unfold path_join.
  destruct (Ascii.eqb c slash); [done|]. destruct (_ || _).
  - by destruct a.
  - by destruct a.
Qed.

(** Checking a line does not raise, and says whether it is an include. *)
Lemma CheckLine_total c rules line path temp :
  ∃ v, CheckLine cwd c rules line path temp = Ok (is_include line, v).
Proof.
  unfold CheckLine, is_include. destruct (EXTRACT_INCLUDE_PATH line) as [p|]; [|by exists None].
  cbn [is_not_none].
  destruct (has_char "\" p); [by eexists|].
  destruct (has_char "/" p) eqn:Hp; cbn [negb]; [|by eexists].
  assert (∃ q, resolve_include cwd c p path = Ok q) as [q ->].
  { unfold resolve_include. destruct (_ && _); [|by eexists]. apply relpath_total.
    apply path_join_not_empty. by intros ->. }
  cbn [mbind outcome_bind]. destruct (_ || _); by eexists.
Qed.

(** The violation of a line, if it has one. *)
Definition line_violation c rules path (line : string) : option DependencyViolation :=
  match CheckLine cwd c rules line path false with
  | Ok (_, v) => v
  | Raise _ => None
  end.

Lemma check_lines_includes c rules path n last depth lines status :
  dependee_path status = path →
  check_lines cwd c rules path n last depth lines status =
    Ok (mkStatus path (violations status ++
          omap (line_violation c rules path) (near_includes last (includes_from depth n lines)))).
Proof.
  revert n last depth status. induction lines as [|line lines IH]; intros n last depth status Hs.
  { cbn. rewrite app_nil_r. destruct status. cbn in *. by subst. }
  cbn [check_lines].
  destruct (Nat.ltb_spec MAX_UNINTERESTING_LINES (n - last)) as [Hfar|Hnear].
  { rewrite near_includes_far.
    - cbn. rewrite app_nil_r. destruct status. cbn in *. by subst.
    - intros k l Hin%includes_from_ge. lia. }
  unfold includes_from in *. cbn [visible_lines].
  destruct (startswith "#if 0" (strip line)); [by apply IH|].
  destruct depth as [|depth]; cbn [Nat.ltb Nat.leb]; [|by apply IH].
  destruct (CheckLine_total c rules (strip line) path false) as [v Hv].
  rewrite Hv. cbn [mbind outcome_bind].
  assert (line_violation c rules path (strip line) = v) as Hlv by (unfold line_violation; by rewrite Hv).
  rewrite IH by by destruct v.
  destruct (is_include (strip line)) eqn:Hi.
  - rewrite filter_cons_True by done. cbn [near_includes].
    rewrite (proj2 (Nat.ltb_ge _ _)) by lia. cbn [omap list_omap].
    rewrite Hlv. destruct v; [|done]. cbn. by rewrite <- app_assoc.
  - rewrite filter_cons_False by (cbn; congruence).
    destruct v; [|done]. exfalso. unfold is_include, CheckLine in *.
    by destruct (EXTRACT_INCLUDE_PATH _).
Qed.

(** C3: The report on a C++ file.  Checking never fails, and the violations are, in
    order, those of its include lines outside [#if 0] blocks, blocks nested in them
    included, up to the first such include that comes more than fifty lines after
    the one before it. *)
Theorem CppChecker_CheckFile_includes c rules path lines :
  CppChecker_CheckFile cwd c rules path lines =
    Ok (mkStatus path (omap (line_violation c rules path) (checked_includes lines))).
Proof. unfold CppChecker_CheckFile. by rewrite check_lines_includes. Qed.
End cpp.

(** ** Temporary rules *)

Section temporary.
Context `{!DictOrder} `{!Regexp} (cwd : string).

(** The rules after the lines the formatter prints were pasted into a DEPS file. *)
Definition paste (dependent_dir source : string) (paths : list string) (rs : Rules) :
    outcome Rules :=
  foldl (λ rs p, rs ← rs; AddRule (TEMP_ALLOW +:+ p) dependent_dir source None rs) (Ok rs) paths.

Definition temporary (dependent_dir source p : string) : Rule :=
  mkRule TEMP_ALLOW p dependent_dir source.

Lemma paste_rules dep src paths rs :
  paste dep src paths rs =
    Ok (mkRules (foldl (λ l p, insert_rule (temporary dep src p) l) (general_rules rs) paths)
          (specific_rules rs)).
Proof.
  unfold paste. induction paths as [|p paths IH] using rev_ind; [by destruct rs|].
  rewrite !foldl_app. cbn [foldl]. rewrite IH. done.
Qed.

Lemma first_covering_pasted dep src paths path l :
  let l' := foldl (λ l p, insert_rule (temporary dep src p) l) l paths in
  (∃ p, p ∈ paths ∧ covers p path) ∧
    (∃ p, p ∈ paths ∧ first_covering path l' = Some (temporary dep src p)) ∨
  (¬ ∃ p, p ∈ paths ∧ covers p path) ∧ first_covering path l' = first_covering path l.
Proof.
  cbv zeta. induction paths as [|p paths IH] using rev_ind.
  { right. split; [|done]. by intros (p & ?%not_elem_of_nil & _). }
  rewrite foldl_app. cbn [foldl]. rewrite first_covering_insert.
  destruct (ChildOrMatch (temporary dep src p) path) eqn:Hc.
  - apply ChildOrMatch_spec in Hc. left.
    split; exists p; (split; [apply elem_of_app; right; by left|done]).
  - assert (¬ covers p path) as Hn.
    { intros Hcov. apply (ChildOrMatch_spec (temporary dep src p)) in Hcov. congruence. }
    destruct IH as [[(q & Hq & Hcov) (r & Hr & Hf)]|[Hno Hf]].
    + left. split; [exists q|exists r]; (split; [apply elem_of_app; by left|done]).
    + right. split; [|done]. intros (q & [Hq| ->%list_elem_of_singleton]%elem_of_app & Hcov);
        [apply Hno; by exists q|done].
Qed.

(** The paths of violations, as the formatter collects them. *)
Definition violation_paths (statuses : list DependeeStatus) : gset string :=
  list_to_set (include_path <$> concat (violations <$> statuses)).

Definition add_errors (statuses : list DependeeStatus) (f : ResultsFormatter) : ResultsFormatter :=
  foldl (λ f s, AddError s f) f statuses.

Lemma temporary_paths statuses X :
  add_errors statuses (TemporaryRulesFormatter X) =
    TemporaryRulesFormatter (X ∪ violation_paths statuses).
Proof.
  unfold add_errors, violation_paths. revert X. induction statuses as [|s statuses IH]; intros X.
  { cbn. f_equal. set_solver. }
  cbn [foldl AddError fmap list_fmap concat]. rewrite IH. f_equal. unfold temporary_error.
  rewrite fmap_app, list_to_set_app_L.
  assert (∀ vs X, foldl (λ acc v, {[include_path v]} ∪ acc) X vs =
                  X ∪ list_to_set (include_path <$> vs)) as ->; [|set_solver].
  clear. induction vs as [|v vs IH]; intros X; [cbn; set_solver|].
  cbn [foldl]. rewrite IH. rewrite fmap_cons, list_to_set_cons. set_solver.
Qed.

(** Temporary rules.  The formatter prints one rule per path in violation,
    sorted and without repetition.  Pasted into the general rules of a DEPS file,
    they are accepted, an include at or below one of those paths is then
    temporarily allowed, unless a specific rule decides it, and no other include
    is decided differently than before. *)
Theorem temporary_rules_allow statuses dep src rs :
  ∃ paths rs',
    GetResults (add_errors statuses (TemporaryRulesFormatter ∅)) =
      Lines (temporary_rule <$> paths) ∧
    (∀ p, p ∈ paths ↔ ∃ s v, s ∈ statuses ∧ v ∈ violations s ∧ include_path v = p) ∧
    NoDup paths ∧ Sorted str_le paths ∧
    paste dep src paths rs = Ok rs' ∧
    ∀ path file,
      specific_rule (dict_items (specific_rules rs)) path (basename file) = None →
      ((∃ p, p ∈ paths ∧ covers p path) → allow (RuleApplyingTo rs' path file) = TEMP_ALLOW) ∧
      ((¬ ∃ p, p ∈ paths ∧ covers p path) →
         RuleApplyingTo rs' path file = RuleApplyingTo rs path file).
Proof.
  rewrite temporary_paths, (left_id_L ∅ (∪)).
  exists (sorted (elements (violation_paths statuses))). eexists.
  split; [done|]. assert (∀ p, p ∈ sorted (elements (violation_paths statuses)) ↔
    p ∈ violation_paths statuses) as Hin.
  { intros p. unfold sorted. by rewrite merge_sort_Permutation, elem_of_elements. }
  split; [|split; [|split; [|split; [apply paste_rules|]]]].
  - intros p. rewrite Hin. unfold violation_paths.
    rewrite elem_of_list_to_set, list_elem_of_fmap. split.
    + intros (v & -> & Hv). apply elem_of_concat in Hv as (vs & Hv & Hvs).
      apply list_elem_of_fmap in Hvs as (s & -> & Hs). by exists s, v.
    + intros (s & v & Hs & Hv & <-). exists v. split; [done|].
      apply elem_of_concat. exists (violations s). split; [done|]. by apply list_elem_of_fmap_2.
  - unfold sorted. rewrite merge_sort_Permutation. apply NoDup_elements.
  - apply Sorted_merge_sort, _.
  - intros path file Hs. unfold RuleApplyingTo. cbn [specific_rules general_rules]. rewrite Hs.
    destruct (first_covering_pasted dep src (sorted (elements (violation_paths statuses))) path
                (general_rules rs)) as [[Hcov (p & _ & ->)]|[Hno ->]].
    + split; [done|]. intros Hn. by destruct Hn.
    + split; [intros Hcov; by destruct Hno|done].
Qed.
End temporary.

(** ** The exit code *)

Section exit_code.
Context `{!DictOrder}.

Definition exit_code (failed : bool) : Z := if failed then 1 else 0.
Definition empty {A} (l : list A) : bool := bool_decide (length l = 0%nat).

Lemma add_normal statuses verbose results :
  ∃ more, add_errors statuses (NormalResultsFormatter verbose results) =
            NormalResultsFormatter verbose (results ++ more) ∧ length more = length statuses.
Proof.
  unfold add_errors. revert results. induction statuses as [|s statuses IH]; intros results.
  { exists []. by rewrite app_nil_r. }
  cbn [foldl AddError]. edestruct IH as (more & Heq & Hlen). rewrite Heq.
  eexists. rewrite <- app_assoc. split; [reflexivity|]. cbn. by rewrite Hlen.
Qed.

Lemma add_json statuses path wrapped results :
  ∃ wrapped' more, add_errors statuses (JSONResultsFormatter path wrapped results) =
    JSONResultsFormatter path wrapped' (results ++ more) ∧ length more = length statuses.
Proof.
  unfold add_errors. revert wrapped results.
  induction statuses as [|s statuses IH]; intros wrapped results.
  { exists wrapped, []. by rewrite app_nil_r. }
  cbn [foldl AddError]. edestruct IH as (w & more & Heq & Hlen). rewrite Heq.
  exists w. eexists. rewrite <- app_assoc. split; [reflexivity|]. cbn. by rewrite Hlen.
Qed.

Lemma add_count statuses n :
  add_errors statuses (CountViolationsFormatter n) =
    CountViolationsFormatter (n + length (concat (violations <$> statuses))).
Proof.
  unfold add_errors. revert n. induction statuses as [|s statuses IH]; intros n.
  { cbn. by rewrite Nat.add_0_r. }
  cbn [foldl AddError]. rewrite IH. cbn. by rewrite length_app, Nat.add_assoc.
Qed.

Lemma pretty_N_not_empty (n : N) : pretty n ≠ "".
Proof.
  assert (∀ m c s, pretty_N_go m (String c s) ≠ "") as Hgo.
  { intros m. induction (N.lt_wf_0 m) as [m _ IH]. intros c s.
    destruct (decide (m = 0)%N) as [->|Hm]; [by rewrite pretty_N_go_0|].
    rewrite pretty_N_go_step by lia. apply IH. apply N.div_lt; lia. }
  unfold pretty, pretty_N. case_decide as Hn; [done|].
  rewrite pretty_N_go_step by lia. apply Hgo.
Qed.

Lemma empty_elements (X : gset string) (l : list string) :
  X = list_to_set l → empty (temporary_rule <$> sorted (elements X)) = empty l.
Proof.
  intros ->. unfold empty. rewrite length_fmap. unfold sorted.
  rewrite (Permutation_length (merge_sort_Permutation _ _)).
  apply bool_decide_ext. destruct l as [|x l]; cbn; [by rewrite elements_empty|].
  split; [|done]. intros Hl%nil_length_inv%elements_empty_inv. set_solver.
Qed.

(** The exit code.  The normal and JSON formatters make the program exit with 1
    exactly when a file was reported, the formatter of temporary rules exactly when
    a violation was.  The counting formatter always makes it exit with 1: it
    reports the number of violations as text, and zero is a text too. *)
Theorem Report_exit_code statuses :
  (∀ verbose, fst (Report (add_errors statuses (NormalResultsFormatter verbose []))) =
     exit_code (negb (empty statuses))) ∧
  (∀ path wrapped, fst (Report (add_errors statuses (JSONResultsFormatter path wrapped []))) =
     exit_code (negb (empty statuses))) ∧
  fst (Report (add_errors statuses (TemporaryRulesFormatter ∅))) =
    exit_code (negb (empty (concat (violations <$> statuses)))) ∧
  Report (add_errors statuses (CountViolationsFormatter 0)) =
    (1%Z, Number (pretty (N.of_nat (length (concat (violations <$> statuses)))))).
Proof.
  assert (∀ {A B} (l : list A) (k : list B), length l = length k → empty l = empty k) as Hempty.
  { intros A B l k Hl. unfold empty. by rewrite Hl. }
  split; [|split; [|split]].
  - intros v. destruct (add_normal statuses v []) as (more & -> & Hlen).
    unfold Report. cbn [GetResults truthy app]. fold (empty more).
    rewrite (Hempty _ _ more statuses Hlen). by destruct (empty statuses).
  - intros path w. destruct (add_json statuses path w []) as (w' & more & -> & Hlen).
    unfold Report. cbn [GetResults truthy app]. fold (empty more).
    rewrite (Hempty _ _ more statuses Hlen). by destruct (empty statuses).
  - rewrite temporary_paths, (left_id_L ∅ (∪)). unfold Report. cbn [GetResults truthy].
    fold (empty (temporary_rule <$> sorted (elements (violation_paths statuses)))).
    rewrite (empty_elements _ (include_path <$> concat (violations <$> statuses))) by done.
    rewrite (Hempty _ _ (include_path <$> concat (violations <$> statuses))
               (concat (violations <$> statuses))) by apply length_fmap.
    by destruct (empty _).
  - rewrite add_count. unfold Report. cbn [GetResults truthy PrintResults Nat.add].
    destruct (String.eqb_spec (pretty (N.of_nat (length (concat (violations <$> statuses))))) "")
      as [He|He]; [by apply pretty_N_not_empty in He|done].
Qed.
End exit_code.
