(* ===== verification/DepsExample.v ===== *)
(** A small repository, on which the theorems about checkdeps are instantiated. *)

From Stdlib Require Import Ascii String.
From S2P Require Import Prelude PyPath DepsRules DepsRuleLaws DepsResults DepsCheckers.
From S2P Require Import DepsBuilder DepsDirectories DepsWalk DepsChecks.

#[local] Open Scope string_scope.
#[local] Open Scope list_scope.

#[local] Existing Instance canonical_order.

(** One regular expression, that of unit tests. *)
#[export] Instance example_regexp : Regexp := {|
  re_match regexp filename :=
    String.eqb regexp ".*_unittest\.cc" && contains "_unittest.cc" filename
|}.

Definition root_deps : Deps :=
  mkDeps ["+base"; "-base/evil"; "+base/evil/not"; "!base/evil/ok.h"]
    {[".*_unittest\.cc" := ["+testing"]]} ["third_party"].
Definition ui_deps : Deps := mkDeps ["+gfx"; "-base"] ∅ [].

#[export] Instance example_repository : Repository := {|
  repo_deps dir :=
    if String.eqb dir "/r" then Some (Ok root_deps)
    else if String.eqb dir "/r/ui" then Some (Ok ui_deps) else None;
  repo_listdir dir :=
    if String.eqb dir "/r" then [("ui", true); ("third_party", true); ("a.cc", false)]
    else if String.eqb dir "/r/ui" then [("b.h", false)] else [];
  repo_lines path := [];
  repo_exists path := String.eqb path "/r/.git";
  repo_ls_files := ["a.cc"; "ui/b.h"; "third_party/x.c"]
|}.

Definition hist : list rule_args :=
  [("+base/a", ".", "s", None); ("-base", ".", "s", None); ("+base/a/b", ".", "s", None)].

Definition rules_after (hist : list rule_args) : Rules :=
  match add_all hist with Ok rs => rs | Raise _ => no_rules end.

Lemma RuleApplyingTo_last_witness :
  RuleApplyingTo (rules_after hist) "base/a/x.h" "ui/v.cc" = mkRule "-" "base" "." "s".
Proof.
  destruct (RuleApplyingTo_last hist) as [_ Hlast].
  destruct (Hlast (rules_after hist) "base/a/x.h" "ui/v.cc") as [(re & Hm & Hl)|[_ Hr]].
  - reflexivity.
  - exfalso. revert Hm. cbn. by rewrite andb_false_r.
  - exact Hr.
Defined.

Lemma kept_rules_alive_witness :
  all_alive (general_rules (rules_after hist)) ∧
  NoDup (rule_dir <$> general_rules (rules_after hist)) ∧
  rule_dir <$> general_rules (rules_after hist) = ["base/a/b"; "base"].
Proof.
  destruct (kept_rules_alive hist (rules_after hist) None) as [Ha Hn]; [reflexivity|].
  split; [exact Ha|]. split; [exact Hn|reflexivity].
Defined.

Definition example_builder : DepsBuilder :=
  match DepsBuilder_init "/" "/r" false false false with
  | Ok b => b
  | Raise _ => mkBuilder "" false false false false None ∅
  end.

Lemma example_init : DepsBuilder_init "/" "/r" false false false = Ok example_builder.
Proof. vm_compute. reflexivity. Qed.

Lemma example_settings :
  base_directory example_builder = "/r" ∧ under_test example_builder = false ∧
  is_git example_builder = true.
Proof. vm_compute. done. Qed.

Lemma is_component c : (negb (String.eqb c "") && negb (has_char slash c)) = true → component c.
Proof.
  intros [Hne Hc]%andb_prop. split; [by intros ->|]. by destruct (has_char slash c).
Qed.

Lemma example_skips : skips_components example_builder.
Proof.
  intros p deps. unfold directory_deps. rewrite (proj1 (proj2 example_settings)). cbn [andb].
  cbn [repo_deps example_repository].
  destruct (String.eqb _ "/r"); [|destruct (String.eqb _ "/r/ui")]; intros [= <-];
    repeat constructor; discriminate.
Qed.

Lemma directory_rules_cache_witness :
  fst (DirectoryRules "/" "ui" example_builder) = rules_at "/" example_builder ["ui"] ∧
  fst (DirectoryRules "/" "third_party/x" (snd (DirectoryRules "/" "/r/ui" example_builder))) =
    rules_at "/" example_builder ["x"; "third_party"] ∧
  rules_at "/" example_builder ["x"; "third_party"] = Ok None.
Proof.
  assert (component "ui" ∧ component "x" ∧ component "third_party") as (Hui & Hx & Htp)
    by (split_and!; by apply is_component).
  pose proof example_settings as (Hbase & _).
  assert (no_trailing_slash (base_directory example_builder)) as Hb by (rewrite Hbase; discriminate).
  assert (isabs (base_directory example_builder) = true) as Ha by (rewrite Hbase; reflexivity).
  split; [|split].
  - refine (directory_rules_cache "/" "/r" false false false example_builder example_builder
              ["ui"] "ui" example_init Hb Ha example_skips (asked_none _ _) _ _).
    + repeat constructor; apply Hui.
    + rewrite Hbase. reflexivity.
  - refine (directory_rules_cache "/" "/r" false false false example_builder _
              ["x"; "third_party"] "third_party/x" example_init Hb Ha example_skips _ _ _).
    + change "/r/ui" with (path_of "/r" ["ui"]). rewrite <- Hbase.
      apply asked_more; [apply asked_none|repeat constructor; apply Hui].
    + repeat constructor; apply Hx || apply Htp.
    + rewrite Hbase. reflexivity.
  - vm_compute. reflexivity.
Defined.

Lemma temporary_rules_allow_witness :
  let v := mkViolation "base/evil/x.h" (MessageRule "") no_rules in
  ∃ paths rs',
    GetResults (add_errors [mkStatus "ui/v.cc" [v; v]] (TemporaryRulesFormatter ∅)) =
      Lines (temporary_rule <$> paths) ∧
    paste "." "s" paths (rules_after hist) = Ok rs' ∧
    allow (RuleApplyingTo rs' "base/evil/x.h" "ui/v.cc") = TEMP_ALLOW.
Proof.
  intros v.
  destruct (temporary_rules_allow [mkStatus "ui/v.cc" [v; v]] "." "s" (rules_after hist))
    as (paths & rs' & Hres & Hin & _ & _ & Hpaste & Hdecide).
  exists paths, rs'. split; [exact Hres|]. split; [exact Hpaste|].
  apply (Hdecide "base/evil/x.h" "ui/v.cc"); [reflexivity|].
  exists "base/evil/x.h". split; [|by left].
  apply Hin. exists (mkStatus "ui/v.cc" [v; v]), v. split; [by left|]. split; [by left|done].
Defined.

(** ** The walk *)

Lemma set_git_consistent v b :
  consistent "/" b → consistent "/" (set_git_source_directories v b).
Proof.
  intros [Hb Ha Hskips Hroot Hsound Hex].
  assert (∀ p, rules_at "/" (set_git_source_directories v b) p = rules_at "/" b p) as Hat.
  { induction p as [|c p IH]; [done|]. cbn [rules_at]. by rewrite IH. }
  split; try done. intros p w Hp Hw. rewrite Hat. by apply Hsound.
Qed.

Definition listed_builder : DepsBuilder :=
  set_git_source_directories (Some (GitSourceDirectories "/r")) example_builder.

Lemma listed_settings : base_directory listed_builder = "/r".
Proof. apply example_settings. Qed.

Lemma listed_consistent : consistent "/" listed_builder.
Proof.
  pose proof example_settings as (Hbase & _).
  apply set_git_consistent. apply (init_consistent "/" "/r" false false false _ example_init).
  - rewrite Hbase. discriminate.
  - rewrite Hbase. reflexivity.
  - exact example_skips.
Qed.

Lemma example_well_formed : well_formed_repository.
Proof.
  intros dir o. cbn [repo_deps example_repository].
  destruct (String.eqb dir "/r"); [|destruct (String.eqb dir "/r/ui"); [|done]]; intros [= <-];
    eexists; (split; [reflexivity|]); split.
  1, 3: repeat constructor.
  - intros re l. cbn. intros [<- <-]%lookup_singleton_Some.
    repeat constructor.
  - intros re l. cbn. by rewrite lookup_empty.
Qed.

Lemma listed_errorless : errorless "/" listed_builder.
Proof.
  intros p Hp. apply rules_at_Ok; [|exact example_well_formed|exact Hp].
  rewrite listed_settings. discriminate.
Qed.

Lemma example_bounded : work_bounded (base_directory listed_builder) [(3%nat, [])].
Proof.
  rewrite listed_settings. apply Forall_singleton. split; [by apply Forall_nil_2|]. cbn [fst snd].
  assert (sub_names (path_of "/r" []) = ["third_party"; "ui"]) as Hsub by reflexivity.
  intros c Hc. rewrite Hsub in Hc.
  apply elem_of_cons in Hc as [->|Hc]; [|apply list_elem_of_singleton in Hc as ->];
    (split; [by apply is_component|]); intros d Hd; exfalso; revert Hd.
  - assert (sub_names (path_of "/r" ["third_party"]) = []) as -> by reflexivity.
    apply not_elem_of_nil.
  - assert (sub_names (path_of "/r" ["ui"]) = []) as -> by reflexivity.
    apply not_elem_of_nil.
Qed.

Definition collect (rules : Rules) (files : list string) : M (list (list string)) unit :=
  modify (λ l, l ++ [files]).

(** The skipped directory is not visited, and the files come by name. *)
Lemma walk_visits_witness : ∃ b',
  walk "/" collect 5 ["/r"] (listed_builder, []) = (Ok (), (b', [["/r/a.cc"]; ["/r/ui/b.h"]])) ∧
  consistent "/" b'.
Proof.
  pose proof (walk_visits "/" collect 5 [(3%nat, [])] listed_builder [] listed_consistent
                listed_errorless example_bounded) as Hwalk.
  unfold work_paths in Hwalk. cbn [fmap list_fmap compose snd path_of] in Hwalk.
  rewrite listed_settings in Hwalk.
  assert (work_directories "/r" [(3%nat, [])] <= 5)%nat as Hfuel.
  { apply Nat.leb_le. vm_compute. reflexivity. }
  specialize (Hwalk Hfuel).
  destruct (walk "/" collect 5 ["/r"] (listed_builder, [])) as [o [b' f']].
  destruct Hwalk as (Heq & Hb' & _). exists b'. split; [|exact Hb'].
  assert (mfor (work_visits "/" listed_builder [(3%nat, [])])
            (λ '(rules, files), collect rules files) [] = (Ok (), [["/r/a.cc"]; ["/r/ui/b.h"]])) as Hrun.
  { vm_compute. reflexivity. }
  rewrite Hrun in Heq. injection Heq as -> ->. reflexivity.
Defined.
