(* ===== verification/DepsGraph.v ===== *)
(** The rendering of graphdeps.py, src/src/buildtools/checkdeps/graphdeps.py: from
    the set of dependency tuples to the text of the graph.

    The regular expressions of the command line are the parameter
    [RegexpSearch].  The graph goes to a file or a pipe, of which the commands are
    given; what they do is not modelled. *)

From Stdlib Require Import Ascii String.
From stdpp Require Import sorting.
From S2P Require Import Prelude PyPath DepsRules.

#[local] Open Scope string_scope.
#[local] Open Scope list_scope.

(** [re.search(regexp, s)] is not [None]. *)
Class RegexpSearch := { re_search : string → string → bool }.

(** The options of a [DepsGrapher] beside the builder's. *)
Record GraphOptions := mkGraphOptions {
  ignore_temp_rules : bool;
  hide_disallowed_deps : bool;
  out_format : string;
  layout_engine : string;
  unflatten_graph : bool;
  incl : string;
  excl : string;
  hilite_fanins : string;
  hilite_fanouts : string
}.

(** The nodes with the rules of each, a target and what is allowed. *)
Abbreviation deps_graph := (gmap string (list (string * string))).
Abbreviation dep := (string * string * string)%type.

(** [_DumpDependencies]: the commands the text goes through, none for a plain
    file. *)
Definition pipe_commands (o : GraphOptions) : list string :=
  (if unflatten_graph o then ["unflatten -l 2 -c 3"] else []) ++
  (if String.eqb (out_format o) "dot" && String.eqb (layout_engine o) "" then []
   else ["dot -T" +:+ out_format o
           +:+ (if String.eqb (layout_engine o) "" then "" else " -K" +:+ layout_engine o)]).

(** The attributes of a node. *)
Record node_prop := mkNode { hilite : option string; degree : Z }.
Abbreviation node_props := (gmap string node_prop).

Section graph.
Context `{!DictOrder} `{!RegexpSearch} (o : GraphOptions).

(** ** The nodes *)

(** The loop over the parents of a node; [fuel] runs out when it does not end, at a
    path that begins with a slash. *)
Fixpoint add_parent_srcs (fuel : nat) (parent_src : string) (g : deps_graph) : outcome deps_graph :=
  if String.eqb parent_src "" then Ok g
  else match fuel with
       | O => Raise recursion_error
       | S fuel =>
           add_parent_srcs fuel (dirname parent_src)
             (match g !! parent_src with Some _ => g | None => <[parent_src := []]> g end)
       end.

(** The body of the first loop, over the tuples. *)
Definition add_dep (d : dep) (s : deps_graph * gset string) : outcome (deps_graph * gset string) :=
  let '(allow, src, dst) := d in
  let '(g, deps_srcs) := s in
  if String.eqb allow TEMP_ALLOW && ignore_temp_rules o then Ok s
  else
    g ← add_parent_srcs (String.length src) (dirname src)
          (<[src := default [] (g !! src) ++ [(dst, allow)]]> g);
    Ok (g, {[src]} ∪ deps_srcs).

Fixpoint add_deps (l : list dep) (s : deps_graph * gset string) :
    outcome (deps_graph * gset string) :=
  match l with
  | [] => Ok s
  | d :: l => s ← add_dep d s; add_deps l s
  end.

(** A node takes over a rule of its parent unless it has one for the target. *)
Definition inherit (rules : list (string * string)) (rule : string * string) :
    list (string * string) :=
  let '(dst, _) := rule in
  if bool_decide ((dst, ALLOW) ∉ rules ∧ (dst, TEMP_ALLOW) ∉ rules ∧ (dst, DISALLOW) ∉ rules)
  then rules ++ [rule] else rules.

Definition propagate_src (src : string) (g : deps_graph) : outcome deps_graph :=
  let parent_src := dirname src in
  if String.eqb parent_src "" then Ok g
  else
    parent_rules ← of_option AssertionError (g !! parent_src);
    rules ← of_option KeyError (g !! src);
    Ok (<[src := foldl inherit rules parent_rules]> g).

Fixpoint propagate (deps_srcs : list string) (g : deps_graph) : outcome deps_graph :=
  match deps_srcs with
  | [] => Ok g
  | src :: deps_srcs => g ← propagate_src src g; propagate deps_srcs g
  end.

(** Both loops. *)
Definition build_graph (deps : gset dep) : outcome deps_graph :=
  '(g, deps_srcs) ← add_deps (set_items deps) (∅, ∅);
  propagate (sorted (set_items deps_srcs)) g.

(** ** The edges *)

(** [if node not in node_props: node_props[node] = {...}] *)
Definition touch (node : string) (props : node_props) : node_props :=
  match props !! node with Some _ => props | None => <[node := mkNode None 0]> props end.
Definition set_hilite (color node : string) (props : node_props) : node_props :=
  alter (λ p, mkNode (Some color) (degree p)) node props.
Definition add_degree (node : string) (props : node_props) : node_props :=
  alter (λ p, mkNode (hilite p) (degree p + 1)) node props.

Definition edge_wanted (src dst allow : string) : bool :=
  negb (String.eqb allow DISALLOW && hide_disallowed_deps o)
  && negb (String.eqb allow ALLOW && String.eqb src dst)
  && re_search (incl o) (src +:+ "->" +:+ dst)
  && negb (re_search (excl o) (src +:+ "->" +:+ dst)).

(** [self.hilite_fanouts and re.search(self.hilite_fanouts, src)] *)
Definition hilited (regexp node : string) : bool :=
  negb (String.eqb regexp "") && re_search regexp node.

Definition edge_weight (src dst : string) : Z :=
  1 + (if hilited (hilite_fanouts o) src then 1 else 0)
    + (if hilited (hilite_fanins o) dst then 1 else 0).

Definition edge_line (src dst allow : string) : string :=
  let weight := edge_weight src dst in
  let color := if String.eqb allow ALLOW || String.eqb allow TEMP_ALLOW
               then (if (1 <? weight)%Z then "blue" else "green") else "red" in
  let style := if String.eqb allow ALLOW then "solid" else "dashed" in
  "    " +:+ quote src +:+ " -> " +:+ quote dst +:+ " [style=" +:+ style +:+ ",color=" +:+ color
    +:+ ",penwidth=" +:+ pretty weight +:+ "];".

(** The body of the loop over the rules of a node. *)
Definition add_edge (src : string) (s : node_props * list string) (rule : string * string) :
    node_props * list string :=
  let '(dst, allow) := rule in
  let '(props, edges) := s in
  if negb (edge_wanted src dst allow) then s
  else
    let props := touch dst (touch src props) in
    let props := if hilited (hilite_fanouts o) src
                 then add_degree dst (set_hilite "lightblue" dst (set_hilite "lightgreen" src props))
                 else props in
    let props := if hilited (hilite_fanins o) dst
                 then add_degree src (set_hilite "lightgreen" dst (set_hilite "lightblue" src props))
                 else props in
    (props, edges ++ [edge_line src dst allow]).

Definition add_edges (g : deps_graph) : node_props * list string :=
  foldl (λ s '(src, rules), foldl (add_edge src) s rules) (∅, []) (dict_items g).

(** ** The text *)

Definition node_line (node : string) (attrs : node_prop) : string :=
  let penwidth := if (degree attrs =? 0)%Z then 1%Z else degree attrs in
  "    " +:+ quote node +:+ " ["
    +:+ String.concat ","
          (match hilite attrs with
           | Some color => ["style=filled,fillcolor=" +:+ color]
           | None => []
           end ++ ["penwidth=" +:+ pretty penwidth])
    +:+ "];".

Definition graph_text (nodes edges : list string) : string :=
  "digraph DEPS {" +:+ line_feed +:+ "    fontsize=8;" +:+ line_feed
    +:+ String.concat line_feed nodes +:+ line_feed +:+ line_feed
    +:+ String.concat line_feed edges +:+ line_feed +:+ "}" +:+ line_feed.

(** [_DumpDependenciesImpl]: the sorted node and edge lines. *)
Definition graph_lines (deps : gset dep) : outcome (list string * list string) :=
  g ← build_graph deps;
  let '(props, edges) := add_edges g in
  Ok (sorted ((λ '(node, attrs), node_line node attrs) <$> dict_items props), sorted edges).
Definition DumpDependenciesImpl (deps : gset dep) : outcome string :=
  '(nodes, edges) ← graph_lines deps; Ok (graph_text nodes edges).
End graph.
