(* ===== verification/DepsGraphLaws.v ===== *)
(** What the graph of graphdeps.py shows: the rule of a node for a target is its
    own, or that of the nearest directory above it that has one, as long as every
    directory on the way has rules. *)

From Stdlib Require Import Ascii String.
From stdpp Require Import sorting.
From S2P Require Import Prelude PyPath DepsRules DepsGraph.

#[local] Open Scope string_scope.
#[local] Open Scope list_scope.

(** ** Parents of relative paths *)

Definition relative (s : string) : Prop := s ≠ "" ∧ startswith "/" s = false.

Lemma rsplit_on_spec c s h t : rsplit_on c s = Some (h, t) → s = h +:+ String c t.
Proof.
  revert h. induction s as [|d s IH]; intros h; [done|]. cbn [rsplit_on].
  destruct (rsplit_on c s) as [[h' t']|].
  - intros [= <- ->]. by rewrite append_cons, (IH h').
  - destruct (Ascii.eqb_spec d c) as [->|]; [|done]. by intros [= <- ->].
Qed.

Lemma rstrip_char_snoc c s : rstrip_char c (s +:+ String c "") = rstrip_char c s.
Proof.
  induction s as [|d s IH]; [rewrite append_nil; cbn; by rewrite Ascii.eqb_refl|].
  rewrite append_cons. cbn [rstrip_char]. by rewrite IH.
Qed.

Lemma rstrip_char_prefix c s : ∃ t, s = rstrip_char c s +:+ t.
Proof.
  induction s as [|d s [t IH]]; [by exists ""|]. cbn [rstrip_char].
  destruct (rstrip_char c s) as [|e r].
  - destruct (Ascii.eqb d c); [by exists (String d s)|by exists s].
  - exists t. by rewrite append_cons, <- IH.
Qed.

Lemma rstrip_char_empty c s : rstrip_char c s = "" → s = "" ∨ ∃ t, s = String c t.
Proof.
  destruct s as [|d s]; [auto|]. cbn [rstrip_char]. destruct (rstrip_char c s); [|done].
  destruct (Ascii.eqb_spec d c) as [->|]; [eauto|done].
Qed.

(** The parent of a relative path is a proper beginning of it. *)
Lemma dirname_relative s :
  relative s → (dirname s = "" ∨ relative (dirname s)) ∧
    (∃ t, t ≠ "" ∧ s = dirname s +:+ t).
Proof.
  intros [Hne Hrel]. unfold dirname, path_split.
  destruct (rsplit_on slash s) as [[h t]|] eqn:Hsplit; cbn [fst].
  2: { split; [by left|by exists s]. }
  apply rsplit_on_spec in Hsplit. rewrite rstrip_char_snoc. fold slash.
  destruct (String.eqb_spec (rstrip_char slash h) "") as [He|He].
  { exfalso. assert (startswith "/" s = true) as Habs; [|congruence]. apply startswith_spec.
    apply rstrip_char_empty in He as [->|[u ->]]; rewrite Hsplit; [by exists t|].
    by exists (u +:+ String slash t). }
  destruct (rstrip_char_prefix slash h) as [u Hu]. rewrite Hu, append_assoc in Hsplit.
  cbv iota. split.
  - right. split; [done|]. apply not_true_is_false. intros [v Hv]%startswith_spec.
    assert (startswith "/" s = true) as Habs; [|congruence]. apply startswith_spec.
    exists (v +:+ (u +:+ String slash t)). by rewrite Hsplit, Hv, append_assoc.
  - exists (u +:+ String slash t). split; [by destruct u|done].
Qed.

Lemma dirname_shorter s :
  relative s → (String.length (dirname s) < String.length s)%nat.
Proof.
  intros Hs. destruct (dirname_relative s Hs) as (_ & [|c t] & Hne & Heq); [done|].
  rewrite Heq at 2. rewrite length_append. cbn. lia.
Qed.

Lemma dirname_le s : relative s → str_le (dirname s) s ∧ dirname s ≠ s.
Proof.
  intros Hs. split.
  - destruct (dirname_relative s Hs) as (_ & t & _ & Heq). rewrite Heq at 2. apply str_le_app.
  - intros H. pose proof (dirname_shorter s Hs). rewrite H in *. lia.
Qed.

(** ** The first loop *)

Section first_loop.
Context `{!DictOrder} `{!RegexpSearch} (o : GraphOptions).

(** A tuple that takes part. *)
Definition active (a : string) : Prop := ¬ (a = TEMP_ALLOW ∧ ignore_temp_rules o = true).
#[export] Instance active_dec a : Decision (active a).
Proof. unfold active. apply _. Defined.

Definition own (l : list dep) (src : string) : list (string * string) :=
  (λ '(a, _, dst), (dst, a)) <$> base.filter (λ '(a, s, _), s = src ∧ active a) l.

Lemma elem_of_own l src dst a : (dst, a) ∈ own l src ↔ (a, src, dst) ∈ l ∧ active a.
Proof.
  unfold own. rewrite list_elem_of_fmap. split.
  - intros ([[a' s] d] & [= -> ->] & [[-> ?] ?]%list_elem_of_filter). done.
  - intros [Hl Ha]. exists (a, src, dst). split; [done|]. by apply list_elem_of_filter.
Qed.

Lemma add_parent_srcs_spec fuel p g :
  (p = "" ∨ relative p) → (String.length p <= fuel)%nat →
  ∃ g', add_parent_srcs fuel p g = Ok g' ∧
    (∀ s r, g !! s = Some r → g' !! s = Some r) ∧
    (∀ s r, g' !! s = Some r → g !! s = Some r ∨ g !! s = None ∧ r = []) ∧
    (p = "" ∨ is_Some (g' !! p)).
Proof.
  revert p g. induction fuel as [|fuel IH]; intros p g Hp Hfuel; cbn [add_parent_srcs];
    (destruct (String.eqb_spec p "") as [->|Hne]; [exists g; auto 10|]).
  { destruct p; [done|cbn in Hfuel; lia]. }
  destruct Hp as [|Hp]; [done|]. pose proof (dirname_shorter p Hp).
  set (g1 := match g !! p with Some _ => g | None => <[p := []]> g end).
  destruct (IH (dirname p) g1) as (g' & -> & Hkeep & Hnew & _);
    [apply dirname_relative, Hp|lia|].
  assert (is_Some (g1 !! p)) as [r0 Hr0].
  { unfold g1. destruct (g !! p) eqn:E; [by rewrite E|by rewrite lookup_insert_eq]. }
  exists g'. split_and!; [done| | |right; eauto].
  - intros s r Hs. apply Hkeep. unfold g1. destruct (g !! p) eqn:E; [done|].
    rewrite lookup_insert_ne; [done|congruence].
  - intros s r [Hs|[Hs ->]]%Hnew; unfold g1 in Hs; destruct (g !! p) eqn:E; auto.
    + destruct (decide (p = s)) as [->|Hps].
      * rewrite lookup_insert_eq in Hs. injection Hs as <-. by right.
      * rewrite lookup_insert_ne in Hs by done. by left.
    + destruct (decide (p = s)) as [->|Hps]; [by rewrite lookup_insert_eq in Hs|].
      rewrite lookup_insert_ne in Hs by done. by right.
Qed.

(** The graph and the sources after the tuples [l]. *)
Definition collected (l : list dep) (s : deps_graph * gset string) : Prop :=
  (∀ src, src ∈ snd s ↔ own l src ≠ []) ∧
  (∀ src r, fst s !! src = Some r → r = own l src) ∧
  (∀ src, src ∈ snd s →
     is_Some (fst s !! src) ∧ (dirname src = "" ∨ is_Some (fst s !! dirname src))).

Lemma own_snoc l a src dst s :
  own (l ++ [(a, src, dst)]) s =
    own l s ++ (if decide (src = s ∧ active a) then [(dst, a)] else []).
Proof.
  unfold own. rewrite filter_app, fmap_app. f_equal. rewrite filter_cons, filter_nil.
  by destruct (decide (src = s ∧ active a)).
Qed.

Lemma add_dep_inactive l a src dst s :
  ¬ active a → collected l s →
  add_dep o (a, src, dst) s = Ok s ∧ collected (l ++ [(a, src, dst)]) s.
Proof.
  destruct s as [g srcs]. intros Ha (Hsrcs & Hg & Hp). cbn [fst snd] in *. unfold add_dep.
  destruct (String.eqb_spec a TEMP_ALLOW); [|exfalso; apply Ha; intros [? ?]; congruence].
  destruct (ignore_temp_rules o) eqn:E; [|exfalso; apply Ha; intros [? ?]; congruence].
  split; [done|].
  assert (∀ s, own (l ++ [(a, src, dst)]) s = own l s) as Heq.
  { intros s. rewrite own_snoc, decide_False by tauto. apply app_nil_r. }
  split_and!; cbn; [intros; by rewrite Heq|intros ?? ?; rewrite Heq; by apply Hg|done].
Qed.

Lemma add_dep_spec l a src dst s :
  relative src → collected l s →
  ∃ s', add_dep o (a, src, dst) s = Ok s' ∧ collected (l ++ [(a, src, dst)]) s'.
Proof.
  intros Hsrc Hc. destruct (decide (active a)) as [Ha|Ha]; [|eexists; by apply add_dep_inactive].
  destruct s as [g srcs]. destruct Hc as (Hsrcs & Hg & Hp). cbn [fst snd] in *. unfold add_dep.
  assert (String.eqb a TEMP_ALLOW && ignore_temp_rules o = false) as ->.
  { apply andb_false_iff. destruct (String.eqb_spec a TEMP_ALLOW); [right|by left].
    destruct (ignore_temp_rules o) eqn:E; [|done]. by destruct Ha. }
  set (g1 := <[src := default [] (g !! src) ++ [(dst, a)]]> g).
  assert (default [] (g !! src) = own l src) as Hdef.
  { destruct (g !! src) as [r|] eqn:E; cbn; [by apply Hg|].
    destruct (decide (own l src = [])) as [|Hne]; [done|]. apply Hsrcs, Hp in Hne as [[r Hr] _].
    congruence. }
  destruct (add_parent_srcs_spec (String.length src) (dirname src) g1) as (g' & -> & Hkeep & Hnew & Hpar).
  { apply dirname_relative, Hsrc. }
  { pose proof (dirname_shorter src Hsrc). lia. }
  exists (g', {[src]} ∪ srcs). split; [done|].
  assert (∀ s, own (l ++ [(a, src, dst)]) s =
    own l s ++ (if decide (src = s) then [(dst, a)] else [])) as Hown.
  { intros s. rewrite own_snoc. destruct (decide (src = s)).
    - by rewrite decide_True by tauto.
    - by rewrite decide_False by tauto. }
  assert (∀ s r, g !! s = Some r → is_Some (g' !! s)) as Hmono.
  { intros s r Hs. destruct (decide (src = s)) as [->|Hne].
    - eexists. apply Hkeep. unfold g1. by rewrite lookup_insert_eq.
    - exists r. apply Hkeep. unfold g1. by rewrite lookup_insert_ne. }
  assert (g' !! src = Some (own l src ++ [(dst, a)])) as Hsrc'.
  { apply Hkeep. unfold g1. by rewrite lookup_insert_eq, Hdef. }
  split_and!; cbn [fst snd].
  - intros s. rewrite Hown, elem_of_union, elem_of_singleton, Hsrcs.
    destruct (decide (src = s)) as [->|Hne].
    + split; [by intros _ ?%app_eq_nil; naive_solver|by left].
    + rewrite app_nil_r. split; [intros [->|]; done|by right].
  - intros s r Hr. rewrite Hown. destruct (decide (src = s)) as [->|Hne]; [congruence|].
    rewrite app_nil_r. apply Hnew in Hr as [Hr|[Hr ->]]; unfold g1 in Hr;
      rewrite lookup_insert_ne in Hr by done; [by apply Hg|].
    destruct (decide (own l s = [])) as [|Hne']; [done|]. apply Hsrcs, Hp in Hne' as [[r Hr'] _].
    congruence.
  - intros s [->%elem_of_singleton|Hs]%elem_of_union; [eauto|].
    destruct (Hp s Hs) as [[r Hr] Hpar']. split; [by eapply Hmono|].
    destruct Hpar' as [|[r' Hr']]; [by left|right; by eapply Hmono].
Qed.

Lemma add_deps_spec l : Forall (λ '(_, src, _), relative src) l →
  ∃ s, add_deps o l (∅, ∅) = Ok s ∧ collected l s.
Proof.
  intros Hl. assert (∀ k s, collected k s →
    ∃ s', add_deps o l s = Ok s' ∧ collected (k ++ l) s') as Hfold.
  { induction Hl as [|[[a src] dst] l Hsrc _ IH]; intros k s Hs; cbn [add_deps].
    { exists s. by rewrite app_nil_r. }
    destruct (add_dep_spec k a src dst s Hsrc Hs) as (s' & -> & Hs').
    destruct (IH _ _ Hs') as (s'' & Heq & Hs''). exists s''. split; [exact Heq|].
    by rewrite <- app_assoc in Hs''. }
  apply (Hfold []). split_and!; cbn; [|by intros ? ?|]; set_solver.
Qed.
End first_loop.

(** ** Propagation *)

Definition kind (a : string) : Prop := a = ALLOW ∨ a = TEMP_ALLOW ∨ a = DISALLOW.

(** The rules of a node: one for each target, of one of the three kinds. *)
Definition rules_ok (rules : list (string * string)) : Prop :=
  NoDup rules.*1 ∧ Forall (λ r, kind (snd r)) rules.

Lemma inherit_cases rules dst a :
  rules_ok rules →
  inherit rules (dst, a) = if decide (dst ∈ rules.*1) then rules else rules ++ [(dst, a)].
Proof.
  intros [_ Hkind]. unfold inherit. destruct (decide (dst ∈ rules.*1)) as [Hin|Hin].
  - rewrite bool_decide_eq_false_2; [done|]. intros (H1 & H2 & H3).
    apply list_elem_of_fmap in Hin as ([d k] & -> & Hd). rewrite Forall_forall in Hkind.
    destruct (Hkind _ Hd) as [Hk|[Hk|Hk]]; cbn in Hk; subst k; done.
  - rewrite bool_decide_eq_true_2; [done|]. split_and!; intros Hd; apply Hin;
      apply list_elem_of_fmap; by eexists (dst, _).
Qed.

Lemma inherit_ok rules dst a : rules_ok rules → kind a → rules_ok (inherit rules (dst, a)).
Proof.
  intros Hok Ha. rewrite inherit_cases by done. destruct (decide (dst ∈ rules.*1)) as [|Hin]; [done|].
  destruct Hok as [Hdup Hkind]. split.
  - rewrite fmap_app. apply NoDup_app. split_and!; [done|set_solver|apply NoDup_singleton].
  - apply Forall_app. split; [done|]. constructor; [exact Ha|constructor].
Qed.

Lemma inherit_all rules parent :
  rules_ok rules → rules_ok parent →
  rules_ok (foldl inherit rules parent) ∧
  ∀ dst a, (dst, a) ∈ foldl inherit rules parent ↔
    (dst, a) ∈ rules ∨ dst ∉ rules.*1 ∧ (dst, a) ∈ parent.
Proof.
  intros Hrules [Hdup Hkind]. revert rules Hrules.
  induction parent as [|[d k] parent IH]; intros rules Hrules.
  { split; [done|]. intros dst a. cbn [foldl]. rewrite elem_of_nil. tauto. }
  cbn [foldl]. rewrite fmap_cons in Hdup. apply NoDup_cons in Hdup as [Hd Hdup].
  apply Forall_cons in Hkind as [Hk Hkind]. cbn in Hk, Hd.
  destruct (IH Hdup Hkind (inherit rules (d, k)) (inherit_ok _ _ _ Hrules Hk)) as [Hok Hin].
  split; [done|]. intros dst a. rewrite Hin, inherit_cases by done. clear IH Hin Hok.
  rewrite elem_of_cons. destruct (decide (d ∈ rules.*1)) as [Hdr|Hdr].
  - split.
    + intros [?|[? ?]]; [by left|right; auto].
    + intros [?|(Hn & [[= -> ->]|?])]; [by left|by destruct Hn|by right].
  - rewrite fmap_app, !elem_of_app, !list_elem_of_singleton. cbn.
    destruct (decide (dst = d)) as [->|Hne].
    + split.
      * intros [[?|[= ->]]|[Hn _]]; [by left|right; auto|]. exfalso. apply Hn. right. set_solver.
      * intros [?|(_ & [[= ->]|Hp])]; [by left; left|by left; right|].
        exfalso. apply Hd. apply list_elem_of_fmap. by exists (d, a).
    + split.
      * intros [[?|[= ? ?]]|[Hn Hp]]; [by left|done|]. right. split; [|by right].
        intros Hin. apply Hn. by left.
      * intros [?|(Hn & [[= ? ?]|Hp])]; [by left; left|done|]. right. split; [|done].
        rewrite list_elem_of_singleton. tauto.
Qed.

Section propagation.
Context (rules_of : string → list (string * string)).
Context (Hok : ∀ src, rules_ok (rules_of src)).

(** The reference: what a node has once its parents are done. *)
Fixpoint node_rules (depth : nat) (src : string) : list (string * string) :=
  match depth with
  | O => rules_of src
  | S depth =>
      if decide (rules_of src = [] ∨ dirname src = "") then rules_of src
      else foldl inherit (rules_of src) (node_rules depth (dirname src))
  end.

Lemma node_rules_ok depth src : rules_ok (node_rules depth src).
Proof.
  revert src. induction depth as [|depth IH]; intros src; cbn [node_rules]; [apply Hok|].
  case_decide; [apply Hok|]. by apply inherit_all.
Qed.

Lemma node_rules_deep depth depth' src :
  relative src → (String.length src <= depth)%nat → (String.length src <= depth')%nat →
  node_rules depth src = node_rules depth' src.
Proof.
  revert depth' src. induction depth as [|depth IH]; intros [|depth'] src Hsrc Hd Hd';
    try (destruct Hsrc, src; [done|cbn in *; lia]); cbn [node_rules].
  case_decide as Hcase; [done|]. f_equal.
  pose proof (dirname_shorter src Hsrc). destruct (dirname_relative src Hsrc) as [[?|?] _]; [tauto|].
  apply IH; [done|lia..].
Qed.

Definition final_rules (src : string) : list (string * string) :=
  node_rules (String.length src) src.

Lemma final_rules_step src :
  relative src →
  final_rules src = if decide (rules_of src = [] ∨ dirname src = "") then rules_of src
                    else foldl inherit (rules_of src) (final_rules (dirname src)).
Proof.
  intros Hsrc. unfold final_rules.
  rewrite (node_rules_deep _ (S (String.length src))) by (done || lia).
  cbn [node_rules]. case_decide as Hcase; [done|]. f_equal.
  destruct (dirname_relative src Hsrc) as [[?|?] _]; [tauto|].
  pose proof (dirname_shorter src Hsrc). apply node_rules_deep; [done|lia..].
Qed.

(** The graph after the nodes [l], those of [todo] being left. *)
Definition propagated (todo : list string) (g : deps_graph) : Prop :=
  ∀ s r, g !! s = Some r → r = if decide (s ∈ todo) then rules_of s else final_rules s.

Lemma propagate_spec todo g :
  Sorted str_le todo → NoDup todo →
  (∀ s, s ∈ todo → relative s ∧ rules_of s ≠ [] ∧ is_Some (g !! s) ∧
     (dirname s = "" ∨ is_Some (g !! dirname s))) →
  propagated todo g →
  ∃ g', propagate todo g = Ok g' ∧ propagated [] g' ∧ ∀ s, is_Some (g !! s) → is_Some (g' !! s).
Proof.
  intros Hsort%Sorted_StronglySorted; [|apply _]. revert g.
  induction Hsort as [|src todo Hsort IH Hle]; intros g Hdup Htodo Hg; [by exists g|].
  apply NoDup_cons in Hdup as [Hsrc Hdup].
  destruct (Htodo src ltac:(set_solver)) as (Hrel & Hne & [rs Hrs] & Hpar).
  assert (rs = rules_of src) as -> by (rewrite (Hg _ _ Hrs), decide_True; [done|set_solver]).
  assert (∃ g1, propagate_src src g = Ok g1 ∧ g1 = <[src := final_rules src]> g) as (g1 & Hg1 & ->).
  { eexists. split; [|reflexivity]. unfold propagate_src. rewrite final_rules_step by done.
    destruct (String.eqb_spec (dirname src) "") as [He|He].
    - rewrite decide_True by auto. by rewrite insert_id.
    - rewrite decide_False by tauto. destruct Hpar as [|[pr Hpr]]; [done|].
      rewrite Hpr, Hrs. cbn. do 3 f_equal. rewrite (Hg _ _ Hpr), decide_False; [done|].
      destruct (dirname_le src Hrel) as [Hle' Hneq].
      intros [?|Hin]%elem_of_cons; [done|]. rewrite Forall_forall in Hle.
      apply Hneq, (anti_symm str_le); [done|by apply Hle]. }
  cbn [propagate]. rewrite Hg1. cbn [mbind outcome_bind].
  destruct (IH (<[src := final_rules src]> g)) as (g' & -> & Hg' & Hmono); [done| | |].
  - intros s Hs. destruct (Htodo s ltac:(set_solver)) as (? & ? & Hs1 & Hs2).
    split_and!; [done..| |].
    + apply lookup_insert_is_Some. destruct (decide (src = s)); auto.
    + destruct Hs2; [by left|right]. apply lookup_insert_is_Some.
      destruct (decide (src = dirname s)); auto.
  - intros s r. destruct (decide (src = s)) as [->|Hns].
    + rewrite lookup_insert_eq, decide_False by done. by intros [= <-].
    + rewrite lookup_insert_ne by done. intros Hr. rewrite (Hg _ _ Hr).
      destruct (decide (s ∈ todo)); [rewrite decide_True by set_solver; done|].
      rewrite decide_False by set_solver. done.
  - exists g'. split_and!; [done..|]. intros s Hs. apply Hmono, lookup_insert_is_Some.
    destruct (decide (src = s)); auto.
Qed.
End propagation.

(** ** The rules of the graph *)

Section graph_rules.
Context `{!DictOrder} `{!RegexpSearch} (o : GraphOptions) (deps : gset dep).
Context (Hrelative : ∀ a src dst, (a, src, dst) ∈ deps → relative src)
  (Hkind : ∀ a src dst, (a, src, dst) ∈ deps → kind a)
  (Hunique : ∀ a a' src dst, (a, src, dst) ∈ deps → (a', src, dst) ∈ deps → a = a').

(** A rule of a node for a target, by the directory it comes from. *)
Inductive governs : string → string → string → Prop :=
  | governs_own src dst a : (a, src, dst) ∈ deps → active o a → governs src dst a
  | governs_parent src dst a a' dst' :
      (a', src, dst') ∈ deps → active o a' →
      (∀ k, (k, src, dst) ∈ deps → ¬ active o k) →
      governs (dirname src) dst a → governs src dst a.

Lemma governs_relative src dst a : governs src dst a → relative src.
Proof. by destruct 1; eapply Hrelative. Qed.

Let own_of := own o (set_items deps).

Lemma elem_of_own_of src dst a : (dst, a) ∈ own_of src ↔ (a, src, dst) ∈ deps ∧ active o a.
Proof. unfold own_of. by rewrite elem_of_own, elem_of_set_items. Qed.

Lemma own_of_ok src : rules_ok (own_of src).
Proof.
  split.
  - apply NoDup_fmap_fst.
    + intros dst a a' [H1 _]%elem_of_own_of [H2 _]%elem_of_own_of. by eapply Hunique.
    + unfold own_of, own. apply NoDup_fmap_2_strong; [|apply NoDup_filter, NoDup_set_items].
      intros [[a s] d] [[a' s'] d'] [[-> _] _]%list_elem_of_filter [[-> _] _]%list_elem_of_filter.
      by intros [= -> ->].
  - apply Forall_forall. intros [dst a] [Hd _]%elem_of_own_of. by eapply Hkind.
Qed.

Lemma own_of_nil src : own_of src = [] ↔ ∀ a dst, (a, src, dst) ∈ deps → ¬ active o a.
Proof.
  split.
  - intros Hnil a dst Hd Ha. assert ((dst, a) ∈ own_of src) as Hin by by apply elem_of_own_of.
    rewrite Hnil in Hin. by apply elem_of_nil in Hin.
  - intros Hno. destruct (own_of src) as [|[dst a] l] eqn:E; [done|].
    assert ((dst, a) ∈ own_of src) as [Hd Ha]%elem_of_own_of by (rewrite E; left).
    by destruct (Hno a dst Hd).
Qed.

Lemma not_own src dst : dst ∉ (own_of src).*1 ↔ ∀ k, (k, src, dst) ∈ deps → ¬ active o k.
Proof.
  split.
  - intros Hn k Hd Hk. apply Hn, list_elem_of_fmap. exists (dst, k).
    split; [done|]. by apply elem_of_own_of.
  - intros Hno ([d k] & -> & [Hd Hk]%elem_of_own_of)%list_elem_of_fmap. by eapply Hno.
Qed.

Lemma governs_inv src dst a : governs src dst a →
  ((a, src, dst) ∈ deps ∧ active o a) ∨
  ((∀ k, (k, src, dst) ∈ deps → ¬ active o k) ∧ governs (dirname src) dst a).
Proof. destruct 1; auto. Qed.

Lemma governs_own_rules src dst a : governs src dst a → own_of src ≠ [].
Proof.
  destruct 1 as [? ? ? Hd Ha|? ? ? a' dst' Hd Ha _ _]; intros Hnil;
    exact (proj1 (own_of_nil _) Hnil _ _ Hd Ha).
Qed.

Lemma final_rules_governs src dst a :
  relative src → (dst, a) ∈ final_rules own_of src ↔ governs src dst a.
Proof.
  remember (String.length src) as n eqn:Hn. revert src dst a Hn.
  induction (lt_wf n) as [n _ IH]. intros src dst a -> Hsrc.
  rewrite final_rules_step by (done || apply own_of_ok).
  destruct (decide (own_of src = [] ∨ dirname src = "")) as [Hcase|Hcase].
  - rewrite elem_of_own_of. split; [intros [? ?]; by apply governs_own|].
    intros Hgov. pose proof (governs_own_rules _ _ _ Hgov).
    destruct (governs_inv _ _ _ Hgov) as [|[_ Hup]]; [done|].
    apply governs_relative in Hup as [Hne _]. tauto.
  - assert (relative (dirname src)) as Hpar.
    { destruct (dirname_relative src Hsrc) as [[?|?] _]; tauto. }
    destruct (inherit_all (own_of src) (final_rules own_of (dirname src))) as [_ ->];
      [apply own_of_ok|apply node_rules_ok, own_of_ok|].
    rewrite elem_of_own_of, not_own.
    rewrite (IH (String.length (dirname src))) by (done || by apply dirname_shorter).
    split.
    + intros [[? ?]|[Hno Hgov]]; [by apply governs_own|].
      destruct (own_of src) as [|[dst' a'] l] eqn:E; [tauto|].
      assert ((dst', a') ∈ own_of src) as [Hd Ha]%elem_of_own_of by (rewrite E; left).
      by eapply governs_parent.
    + apply governs_inv.
Qed.

(** The graph the two loops build. *)
Lemma build_graph_spec :
  ∃ g, build_graph o deps = Ok g ∧
    (∀ src rules, g !! src = Some rules → rules_ok rules ∧
       ∀ dst a, (dst, a) ∈ rules ↔ governs src dst a) ∧
    (∀ src dst a, governs src dst a → is_Some (g !! src)).
Proof.
  destruct (add_deps_spec o (set_items deps)) as ([g srcs] & Hadd & Hsrcs & Hg & Hpar).
  { apply Forall_forall. intros [[a src] dst] Hd%elem_of_set_items. by eapply Hrelative. }
  cbn [fst snd] in *.
  assert (∀ s, s ∈ srcs → relative s) as Hsrel.
  { intros s Hs%Hsrcs. destruct (own o (set_items deps) s) as [|[dst a] l] eqn:E; [done|].
    assert ((dst, a) ∈ own_of s) as [Hd _]%elem_of_own_of by (unfold own_of; rewrite E; left).
    by eapply Hrelative. }
  assert (∀ s, s ∈ sorted (set_items srcs) ↔ s ∈ srcs) as Hsorted.
  { intros s. unfold sorted. by rewrite merge_sort_Permutation, elem_of_set_items. }
  destruct (propagate_spec own_of own_of_ok (sorted (set_items srcs)) g) as (g' & Hprop & Hg' & Hmono).
  - apply Sorted_merge_sort. apply _.
  - unfold sorted. rewrite merge_sort_Permutation. apply NoDup_set_items.
  - intros s Hs%Hsorted. split; [by apply Hsrel|]. split; [by apply Hsrcs|]. by apply Hpar.
  - intros s r Hr. rewrite (Hg _ _ Hr). case_decide as Hs; [done|].
    rewrite Hsorted, Hsrcs in Hs. fold (own_of s) in *.
    assert (own_of s = []) as Hnil by by destruct (decide (own_of s = [])).
    unfold final_rules. destruct (String.length s); cbn [node_rules]; [done|].
    rewrite decide_True by auto. done.
  - exists g'. unfold build_graph. rewrite Hadd. cbn [mbind outcome_bind]. split; [done|].
    assert (∀ src rules, g' !! src = Some rules → rules = final_rules own_of src) as Hfinal.
    { intros src rules Hr. rewrite (Hg' _ _ Hr), decide_False; [done|]. apply not_elem_of_nil. }
    assert (∀ src dst a, governs src dst a → is_Some (g' !! src)) as Hsome.
    { intros src dst a Hgov. eapply Hmono, Hpar, Hsrcs, governs_own_rules, Hgov. }
    split; [|exact Hsome]. intros src rules Hr. rewrite (Hfinal _ _ Hr).
    split; [apply node_rules_ok, own_of_ok|]. intros dst a.
    destruct (decide (own_of src = [])) as [Hnil|Hne].
    + assert (final_rules own_of src = []) as ->.
      { unfold final_rules. destruct (String.length src); cbn [node_rules]; [done|].
        by rewrite decide_True by auto. }
      rewrite elem_of_nil. split; [done|]. by intros Hgov%governs_own_rules.
    + apply final_rules_governs, Hsrel, Hsrcs, Hne.
Qed.
End graph_rules.

(** ** The rules the comments promise *)

Section inheritance.
Context `{!DictOrder} `{!RegexpSearch} (o : GraphOptions) (deps : gset dep).

(** The nodes: the directories with rules and all directories above them. *)
Inductive node : string → Prop :=
  | node_source a src dst : (a, src, dst) ∈ deps → active o a → node src
  | node_above src : node src → dirname src ≠ "" → node (dirname src).

(** The rule of a node for a target: its own, or else that of its parent, through
    nodes with rules and without. *)
Inductive inherits : string → string → string → Prop :=
  | inherits_own src dst a : (a, src, dst) ∈ deps → active o a → inherits src dst a
  | inherits_parent src dst a :
      node src → (∀ k, (k, src, dst) ∈ deps → ¬ active o k) →
      inherits (dirname src) dst a → inherits src dst a.

(** Every directory above one with rules has rules of its own. *)
Definition no_gaps : Prop := ∀ a src dst, (a, src, dst) ∈ deps → active o a →
  dirname src = "" ∨ ∃ a' dst', (a', dirname src, dst') ∈ deps ∧ active o a'.

Lemma node_has_rules src :
  no_gaps → node src → ∃ a dst, (a, src, dst) ∈ deps ∧ active o a.
Proof.
  intros Hgap. induction 1 as [a src dst Hd Ha|src _ (a & dst & Hd & Ha) Hne]; [by exists a, dst|].
  by destruct (Hgap a src dst Hd Ha).
Qed.

(** Without gaps the code's rules are those. *)
Lemma governs_inherits src dst a :
  no_gaps → governs o deps src dst a ↔ inherits src dst a.
Proof.
  intros Hgap. split.
  - induction 1 as [|src dst a a' dst' Hd Ha Hno _ IH]; [by apply inherits_own|].
    apply inherits_parent; [by eapply node_source|done|done].
  - induction 1 as [|src dst a Hnode Hno _ IH]; [by apply governs_own|].
    destruct (node_has_rules src Hgap Hnode) as (a' & dst' & Hd & Ha).
    by eapply governs_parent.
Qed.
End inheritance.

(** ** The lines of the graph *)

Section lines.
Context `{!RegexpSearch} (o : GraphOptions).
Abbreviation triple := (string * string * string)%type.

Definition wanted (t : triple) : Prop := let '(src, dst, a) := t in edge_wanted o src dst a = true.
#[export] Instance wanted_dec t : Decision (wanted t).
Proof. unfold wanted. destruct t as [[src dst] a]. apply _. Defined.

Definition line_of (t : triple) : string := let '(src, dst, a) := t in edge_line o src dst a.
Definition endpoint (n : string) (t : triple) : Prop := let '(src, dst, _) := t in n = src ∨ n = dst.

(** How often a node is marked: as the target of an edge from a highlighted fan-out
    and as the source of one to a highlighted fan-in. *)
Definition marks (n : string) (t : triple) : Z :=
  let '(src, dst, _) := t in
  (if hilited (hilite_fanouts o) src then if String.eqb dst n then 1 else 0 else 0) +
  (if hilited (hilite_fanins o) dst then if String.eqb src n then 1 else 0 else 0).
Definition degree_of (n : string) (ts : list triple) : Z := py_sum (marks n <$> ts).

Definition step (s : node_props * list string) (t : triple) : node_props * list string :=
  let '(src, dst, a) := t in add_edge o src s (dst, a).

Definition rendered (ts : list triple) (s : node_props * list string) : Prop :=
  snd s = line_of <$> ts ∧
  ∀ n, (is_Some (fst s !! n) ↔ ∃ t, t ∈ ts ∧ endpoint n t) ∧
       ∀ p, fst s !! n = Some p → degree p = degree_of n ts.

(** An alteration that keeps the nodes and adds [k n] to the degree of [n]. *)
Definition adds (k : string → Z) (f : node_props → node_props) : Prop :=
  ∀ props n, match props !! n, f props !! n with
             | Some p, Some q => degree q = (degree p + k n)%Z
             | None, None => True
             | _, _ => False
             end.

Lemma adds_id : adds (λ _, 0%Z) id.
Proof. intros props n. unfold id. destruct (props !! n); lia || done. Qed.

Lemma adds_compose k k' f f' : adds k f → adds k' f' → adds (λ n, k n + k' n)%Z (λ p, f' (f p)).
Proof.
  intros Hf Hf' props n. specialize (Hf props n). specialize (Hf' (f props) n).
  destruct (props !! n), (f props !! n), (f' (f props) !! n); try done. lia.
Qed.

Lemma adds_hilite color node : adds (λ _, 0%Z) (set_hilite color node).
Proof.
  intros props n. unfold set_hilite. destruct (decide (node = n)) as [->|Hne].
  - rewrite lookup_alter_eq. destruct (props !! n); cbn; [lia|done].
  - rewrite lookup_alter_ne by done. destruct (props !! n); cbn; [lia|done].
Qed.

Lemma adds_degree node : adds (λ n, if String.eqb node n then 1 else 0)%Z (add_degree node).
Proof.
  intros props n. unfold add_degree. destruct (String.eqb_spec node n) as [->|Hne].
  - rewrite lookup_alter_eq. destruct (props !! n); cbn; [lia|done].
  - rewrite lookup_alter_ne by done. destruct (props !! n); cbn; [lia|done].
Qed.

Lemma adds_ext k k' f : (∀ n, k n = k' n) → adds k f → adds k' f.
Proof. intros Hk Hf props n. specialize (Hf props n). by rewrite Hk in Hf. Qed.

Lemma touch_lookup node props n :
  touch node props !! n = if decide (node = n) then Some (default (mkNode None 0) (props !! n))
                          else props !! n.
Proof.
  unfold touch. destruct (decide (node = n)) as [->|Hne].
  - destruct (props !! n) eqn:E; [by rewrite E|by rewrite lookup_insert_eq].
  - destruct (props !! node); [done|]. by rewrite lookup_insert_ne.
Qed.

(** The two highlights of an edge. *)
Definition mark (src dst : string) (props : node_props) : node_props :=
  let props := if hilited (hilite_fanouts o) src
               then add_degree dst (set_hilite "lightblue" dst (set_hilite "lightgreen" src props))
               else props in
  if hilited (hilite_fanins o) dst
  then add_degree src (set_hilite "lightgreen" dst (set_hilite "lightblue" src props))
  else props.

Lemma adds_mark src dst a : adds (λ n, marks n (src, dst, a)) (mark src dst).
Proof.
  unfold mark, marks. eapply (adds_compose
    (λ n, if hilited (hilite_fanouts o) src then if String.eqb dst n then 1 else 0 else 0)%Z
    (λ n, if hilited (hilite_fanins o) dst then if String.eqb src n then 1 else 0 else 0)%Z
    (λ props, if hilited (hilite_fanouts o) src
      then add_degree dst (set_hilite "lightblue" dst (set_hilite "lightgreen" src props)) else props)
    (λ props, if hilited (hilite_fanins o) dst
      then add_degree src (set_hilite "lightgreen" dst (set_hilite "lightblue" src props)) else props)).
  - destruct (hilited _ src); [|apply adds_id]. eapply adds_ext;
      [|apply adds_compose, adds_degree; apply adds_compose; apply adds_hilite]. cbn. lia.
  - destruct (hilited _ dst); [|apply adds_id]. eapply adds_ext;
      [|apply adds_compose, adds_degree; apply adds_compose; apply adds_hilite]. cbn. lia.
Qed.

Lemma degree_of_snoc n ts t : degree_of n (ts ++ [t]) = (degree_of n ts + marks n t)%Z.
Proof. unfold degree_of. rewrite fmap_app, py_sum_app. cbn. lia. Qed.

Lemma degree_of_none n ts : (∀ t, t ∈ ts → ¬ endpoint n t) → degree_of n ts = 0%Z.
Proof.
  unfold degree_of. induction ts as [|[[src dst] a] ts IH]; intros Hno; [done|].
  rewrite fmap_cons. change (py_sum (?x :: ?l)) with (x + py_sum l)%Z. rewrite IH by set_solver.
  specialize (Hno (src, dst, a) ltac:(set_solver)). cbn in *.
  destruct (String.eqb_spec dst n), (String.eqb_spec src n); subst; try tauto.
  by destruct (hilited _ src), (hilited _ dst).
Qed.

Lemma step_rendered ts s t :
  rendered ts s → rendered (ts ++ base.filter wanted [t]) (step s t).
Proof.
  destruct t as [[src dst] a], s as [props edges]. intros [Hedges Hprops]. cbn in Hedges, Hprops.
  rewrite filter_cons, filter_nil. unfold step, add_edge.
  destruct (decide (wanted (src, dst, a))) as [Hw|Hw]; cbn in Hw.
  2: { apply not_true_is_false in Hw. rewrite Hw, app_nil_r. done. }
  rewrite Hw. cbn [negb]. fold (mark src dst (touch dst (touch src props))).
  split; cbn [fst snd]; [by rewrite fmap_app, Hedges|]. intros n.
  pose proof (adds_mark src dst a (touch dst (touch src props)) n) as Hm.
  rewrite !touch_lookup in Hm. specialize (Hprops n) as [Hin Hdeg].
  assert ((∃ t, t ∈ ts ++ [(src, dst, a)] ∧ endpoint n t) ↔
    n = src ∨ n = dst ∨ ∃ t, t ∈ ts ∧ endpoint n t) as ->.
  { split.
    - intros (t & [Ht| ->%list_elem_of_singleton]%elem_of_app & Hn); [eauto|].
      destruct Hn; auto.
    - intros [->|[->|(t & Ht & Hn)]]; [exists (src, dst, a)..|exists t]; set_solver. }
  rewrite degree_of_snoc. split.
  - rewrite <- Hin. destruct (mark _ _ _ !! n) as [q|] eqn:Hq;
      destruct (decide (dst = n)), (decide (src = n)), (props !! n); cbn in Hm; try done; naive_solver.
  - intros q Hq. rewrite Hq in Hm.
    destruct (props !! n) as [p|] eqn:Hp.
    + rewrite <- (Hdeg p) by done.
      destruct (decide (dst = n)), (decide (src = n)); cbn in Hm; done.
    + rewrite degree_of_none.
      * destruct (decide (dst = n)), (decide (src = n)); cbn in Hm; done.
      * intros t Ht Hn. assert (is_Some (None : option node_prop)) as [? ?]; [|done].
        apply Hin. eauto.
Qed.

Lemma steps_rendered ts : rendered (base.filter wanted ts) (foldl step (∅, []) ts).
Proof.
  induction ts as [|t ts IH] using rev_ind.
  - split; [done|]. intros n. cbn. rewrite lookup_empty. split; [|done].
    split; [by intros []|by intros (t & []%elem_of_nil & _)].
  - rewrite foldl_app, filter_app. by apply step_rendered.
Qed.
End lines.

(** ** The whole text *)

Section text.
Context `{!DictOrder} `{!RegexpSearch} (o : GraphOptions).

(** The rules of a graph as triples. *)
Definition node_triples (node : string * list (string * string)) : list (string * string * string) :=
  (λ '(dst, a), (fst node, dst, a)) <$> snd node.
Definition triples (g : deps_graph) : list (string * string * string) :=
  concat (node_triples <$> dict_items g).

Lemma add_edges_triples g : add_edges o g = foldl (step o) (∅, []) (triples g).
Proof.
  unfold add_edges, triples. generalize (∅ : gmap string node_prop, [] : list string).
  induction (dict_items g) as [|[src rules] l IH]; intros s; [done|].
  rewrite fmap_cons. cbn [concat foldl]. rewrite foldl_app, IH. f_equal.
  unfold node_triples. cbn [fst snd]. generalize s. clear.
  induction rules as [|[dst a] rules IH]; intros s; [done|]. rewrite fmap_cons. cbn [foldl]. by rewrite IH.
Qed.

Lemma elem_of_triples g src dst a :
  (src, dst, a) ∈ triples g ↔ ∃ rules, g !! src = Some rules ∧ (dst, a) ∈ rules.
Proof.
  unfold triples. rewrite elem_of_concat. split.
  - intros (l & Hin & ([s rules] & -> & Hnode)%list_elem_of_fmap).
    apply list_elem_of_fmap in Hin as ([d k] & [= -> -> ->] & Hd).
    exists rules. split; [by apply elem_of_dict_items|done].
  - intros (rules & Hg & Hr). exists (node_triples (src, rules)). split.
    + apply list_elem_of_fmap. by exists (dst, a).
    + apply list_elem_of_fmap. exists (src, rules). split; [done|]. by apply elem_of_dict_items.
Qed.

Lemma NoDup_triples g : (∀ src rules, g !! src = Some rules → NoDup rules) → NoDup (triples g).
Proof.
  intros Hg. unfold triples.
  assert (∀ x, x ∈ dict_items g → NoDup (snd x)) as Hrules.
  { intros [src rules] Hx%elem_of_dict_items. by eapply Hg. }
  pose proof (NoDup_dict_keys g) as Hkeys.
  induction (dict_items g) as [|[src rules] l IH]; [constructor|].
  rewrite fmap_cons in *. apply NoDup_cons in Hkeys as [Hsrc Hkeys]. cbn [concat].
  apply NoDup_app. split_and!.
  - unfold node_triples. cbn [fst snd]. apply NoDup_fmap_2_strong; [|apply (Hrules (src, rules)); left].
    by intros [d k] [d' k'] _ _ [= -> ->].
  - intros [[s d] k] Hx (l' & Hx' & ([s' r'] & -> & Hl)%list_elem_of_fmap)%elem_of_concat.
    apply list_elem_of_fmap in Hx as ([? ?] & [= -> _ _] & _).
    apply list_elem_of_fmap in Hx' as ([? ?] & [= -> _ _] & _).
    apply Hsrc, list_elem_of_fmap. by exists (s', r').
  - apply IH; [|done]. intros x Hx. apply Hrules. by right.
Qed.

(** The graph as the code builds it: an edge stands for the node's own rule, or for
    that of the nearest directory above it that has one, which is inherited only as
    long as every directory in between has rules of its own.  (The comment of the
    first loop promises inheritance through directories without rules: see
    [gap_in_graph].) *)
Lemma graph_lines_rules deps :
  (∀ a src dst, (a, src, dst) ∈ deps → relative src ∧ kind a) →
  (∀ a a' src dst, (a, src, dst) ∈ deps → (a', src, dst) ∈ deps → a = a') →
  ∃ edges (props : gmap string node_prop),
    NoDup edges ∧
    (∀ src dst a, (src, dst, a) ∈ edges ↔
       governs o deps src dst a ∧ edge_wanted o src dst a = true) ∧
    (∀ n, is_Some (props !! n) ↔ ∃ e, e ∈ edges ∧ endpoint n e) ∧
    (∀ n p, props !! n = Some p → degree p = degree_of o n edges) ∧
    graph_lines o deps =
      Ok (sorted ((λ '(node, attrs), node_line node attrs) <$> map_to_list props),
          sorted (line_of o <$> edges)).
Proof.
  intros Hdeps Hunique.
  destruct (build_graph_spec o deps) as (g & Hbuild & Hg & Hsome).
  { intros a src dst Hd. apply (Hdeps a src dst Hd). }
  { intros a src dst Hd. apply (Hdeps a src dst Hd). }
  { exact Hunique. }
  pose proof (steps_rendered o (triples g)) as [Hedges Hprops].
  rewrite <- add_edges_triples in Hedges, Hprops.
  exists (base.filter (wanted o) (triples g)), (fst (add_edges o g)). split_and!.
  - apply NoDup_filter, NoDup_triples. intros src rules Hr.
    destruct (Hg src rules Hr) as [[Hdup _] _]. by eapply NoDup_fmap_1.
  - intros src dst a. rewrite list_elem_of_filter, elem_of_triples. cbn [wanted].
    split.
    + intros [Hw (rules & Hr & Hin)]. split; [|done]. by apply (Hg src rules Hr).
    + intros [Hgov Hw]. split; [done|]. destruct (Hsome _ _ _ Hgov) as [rules Hr].
      exists rules. split; [done|]. by apply (Hg src rules Hr).
  - intros n. apply (Hprops n).
  - intros n p Hp. by apply (Hprops n).
  - unfold graph_lines. rewrite Hbuild. cbn [mbind outcome_bind].
    destruct (add_edges o g) as [props edges]. cbn [fst snd] in *. rewrite Hedges.
    do 2 f_equal. apply sorted_perm, fmap_Permutation, dict_items_perm.
Qed.

End text.

(** ** Example *)

Definition example_options : GraphOptions :=
  mkGraphOptions false false "dot" "" false "^.*$" "^$" "" "".
(** The default filters of the command line: everything, and nothing but the empty
    string. *)
Definition example_search : RegexpSearch := {| re_search r s := String.eqb r "^.*$" |}.
Definition example_deps : gset dep :=
  {[ ("+", "a", "x"); ("-", "a/b", "y"); ("!", "a/c/d", "z") ]}.

(** The directory [a/b] takes over the rule of [a]; [a/c/d] does not, since [a/c]
    has no rules and the second loop goes over the sources of rules alone. *)
Lemma gap_in_graph :
  let _ := canonical_order in let _ := example_search in
  snd <$> graph_lines example_options example_deps =
    Ok ["    " +:+ quote "a" +:+ " -> " +:+ quote "x" +:+ " [style=solid,color=green,penwidth=1];";
        "    " +:+ quote "a/b" +:+ " -> " +:+ quote "x" +:+ " [style=solid,color=green,penwidth=1];";
        "    " +:+ quote "a/b" +:+ " -> " +:+ quote "y" +:+ " [style=dashed,color=red,penwidth=1];";
        "    " +:+ quote "a/c/d" +:+ " -> " +:+ quote "z" +:+ " [style=dashed,color=green,penwidth=1];"].
Proof. vm_compute. reflexivity. Qed.

(** The same without the gap. *)
Definition closed_deps : gset dep := {[ ("+", "a", "x"); ("-", "a/b", "y") ]}.

Lemma closed_deps_ok :
  (∀ a src dst, (a, src, dst) ∈ closed_deps → relative src ∧ kind a) ∧
  (∀ a a' src dst, (a, src, dst) ∈ closed_deps → (a', src, dst) ∈ closed_deps → a = a') ∧
  no_gaps example_options closed_deps.
Proof.
  split; [|split].
  - intros a src dst [H|H]%elem_of_union; apply elem_of_singleton in H;
      injection H as -> -> ->; (split; [by split|unfold kind; auto]).
  - intros a a' src dst [H|H]%elem_of_union [H'|H']%elem_of_union;
      apply elem_of_singleton in H, H'; congruence.
  - intros a src dst [H|H]%elem_of_union _; apply elem_of_singleton in H;
      injection H as -> -> ->; [by left|right]. exists "+", "x". split; [set_solver|by intros []].
Qed.

