(* ===== verification/GnHelpers.v ===== *)
(** gn_helpers.py, src/src/build/gn_helpers.py: Python values printed as GN
    values, and the parser of GN values and of lists of GN arguments.

    Strings are Python's byte strings; the [unicode] branch of [ToGNString] is
    never reached, a [unicode] object being a [basestring].  The parser keeps the
    input and a position in it, as the class does; the depth of the recursion and
    the rounds of the loops are bounded by fuel. *)

From Stdlib Require Import Ascii String.
From stdpp Require Import sorting.
From S2P Require Import Prelude PyPath.

#[local] Open Scope string_scope.
#[local] Open Scope list_scope.

(** ** Values *)

(** The keys of a dict that is printed: a string, or a number, which no GN scope
    has as a name. *)
Inductive GNKey := KeyStr (s : string) | KeyInt (z : Z).

(** A Python value: the types that are printed, with a dict as its items, and any
    other object. *)
Inductive GNValue :=
  | GString (s : string)
  | GBool (b : bool)
  | GInt (z : Z)
  | GList (l : list GNValue)
  | GDict (items : list (GNKey * GNValue))
  | GOther.

(** [isinstance(value, int)] of a number: one outside the machine word is a
    [long]. *)
Definition is_int (z : Z) : bool := bool_decide (- 2 ^ 63 <= z < 2 ^ 63)%Z.

(** The order of keys: numbers come before strings. *)
Definition key_le (j k : GNKey) : Prop :=
  match j, k with
  | KeyInt y, KeyInt z => (y <= z)%Z
  | KeyInt _, KeyStr _ => True
  | KeyStr _, KeyInt _ => False
  | KeyStr s, KeyStr t => str_le s t
  end.
#[export] Instance key_le_dec j k : Decision (key_le j k).
Proof. destruct j, k; cbn; apply _. Defined.
Definition item_le {A} (x y : GNKey * A) : Prop := key_le (fst x) (fst y).
#[export] Instance item_le_dec {A} (x y : GNKey * A) : Decision (item_le x y).
Proof. unfold item_le. apply _. Defined.

(** ** Printing *)

(** [s.replace(c, t)] for a single character [c]. *)
Fixpoint replace_char (c : ascii) (t s : string) : string :=
  match s with
  | EmptyString => EmptyString
  | String d s =>
      if Ascii.eqb d c then t +:+ replace_char c t s else String d (replace_char c t s)
  end.

Definition dollar : ascii := "$"%char.
Definition escaped (c : ascii) : string := String backslash (String c "").

Definition escape (value : string) : string :=
  replace_char dollar (escaped dollar)
    (replace_char quote_char (escaped quote_char)
       (replace_char backslash (escaped backslash) value)).

(** A line of a printed dict, once its value has been printed. *)
Definition dict_line (item : GNKey * outcome string) : outcome string :=
  match item with
  | (KeyInt _, _) => Raise (GNException "Dictionary key is not a string.")
  | (KeyStr key, value) =>
      value ← value; Ok (key +:+ " = " +:+ value +:+ line_feed)
  end.

Fixpoint ToGNString (value : GNValue) (allow_dicts : bool) : outcome string :=
  match value with
  | GString s =>
      if contains line_feed s
      then Raise (GNException "Trying to print a string with a newline in it.")
      else Ok (quote (escape s))
  | GBool b => Ok (if b then "true" else "false")
  | GList l =>
      strs ← mapM (λ v, ToGNString v true) l;
      Ok ("[ " +:+ String.concat ", " strs +:+ " ]")
  | GDict items =>
      if negb allow_dicts
      then Raise (GNException "Attempting to recursively print a dictionary.")
      else
        lines ← mapM dict_line
          (merge_sort item_le ((λ '(key, v), (key, ToGNString v false)) <$> items));
        Ok (String.concat EmptyString lines)
  | GInt z =>
      if is_int z then Ok (pretty z)
      else Raise (GNException "Unsupported type when printing to GN.")
  | GOther => Raise (GNException "Unsupported type when printing to GN.")
  end.

(** ** Unescaping *)

Fixpoint UnescapeGNString (value : string) : string :=
  match value with
  | EmptyString => EmptyString
  | String c rest =>
      if Ascii.eqb c backslash then
        match rest with
        | EmptyString => EmptyString
        | String next_char rest' =>
            if Ascii.eqb next_char dollar || Ascii.eqb next_char quote_char
               || Ascii.eqb next_char backslash
            then String next_char (UnescapeGNString rest')
            else String backslash (UnescapeGNString rest)
        end
      else String c (UnescapeGNString rest)
  end.

(** ** Parsing *)

Definition isdigit (c : ascii) : bool := has_char c "0123456789".
Definition IsDigitOrMinus (c : ascii) : bool := has_char c "-0123456789".
Definition isalpha (c : ascii) : bool :=
  let n := nat_of_ascii c in
  ((97 <=? n) && (n <=? 122) || (65 <=? n) && (n <=? 90))%nat.
Definition is_space (c : ascii) : bool :=
  Ascii.eqb c " "%char || Ascii.eqb c (ascii_of_nat 9) || Ascii.eqb c (ascii_of_nat 10).

(** [int(s)] of a string of digits that may begin with a minus sign. *)
Definition digit_value (c : ascii) : Z := Z.of_nat (nat_of_ascii c) - 48.
Fixpoint digits_value (n : Z) (s : string) : Z :=
  match s with
  | EmptyString => n
  | String c s => digits_value (10 * n + digit_value c) s
  end%Z.
Definition int_of (s : string) : Z :=
  match s with
  | String c digits =>
      if Ascii.eqb c "-"%char then - digits_value 0 digits else digits_value 0 s
  | EmptyString => 0
  end%Z.

Record GNValueParser := mkParser { input : string; cur : nat }.
Abbreviation P := (M GNValueParser).

(** [GNValueParser(string)] *)
Definition GNValueParser_init (string : string) : GNValueParser := mkParser string 0.

Definition IsDone : P bool := gets (λ p, Nat.eqb (cur p) (String.length (input p))).

(** [self.input[self.cur]], [self.input[self.cur:]] and [self.cur += 1]. *)
Definition char_here : P ascii :=
  c ← gets (λ p, String.get (cur p) (input p)); lift (of_option IndexError c).
Definition slice (from to : nat) (p : GNValueParser) : string :=
  String.substring from (to - from) (input p).
Definition input_here : P string := gets (λ p, slice (cur p) (String.length (input p)) p).
Definition advance : P unit := modify (λ p, mkParser (input p) (S (cur p))).

(** A loop that advances has at most this many rounds. *)
Definition loop_fuel (p : GNValueParser) : nat := S (String.length (input p)).

(** [while not self.IsDone() and f(self.input[self.cur]): self.cur += 1] *)
Definition advance_while (f : ascii → bool) : P unit :=
  fuel ← gets loop_fuel;
  while fuel
    (andM (done ← IsDone; mret (negb done)) (c ← char_here; mret (f c)))
    advance.

Definition ConsumeWhitespace : P unit := advance_while is_space.

Definition ConstantFollows (constant : string) : P bool :=
  p ← gets id;
  let end_ := (cur p + String.length constant)%nat in
  if (String.length (input p) <? end_)%nat then mret false
  else if String.eqb (slice (cur p) end_ p) constant
  then modify (λ p, mkParser (input p) end_);; mret true
  else mret false.

Definition raise_here {A} (message : string) : P A :=
  s ← input_here; raise (GNException (message +:+ s)).

(** [_ParseIdent]: the loop reads the next character without asking whether there
    is one. *)
Definition ParseIdent : P string :=
  next_char ← char_here;
  if negb (isalpha next_char) && negb (Ascii.eqb next_char "_"%char)
  then raise_here "Expected an identifier: "
  else
    begin ← gets cur;
    advance;;
    fuel ← gets loop_fuel;
    while fuel
      (c ← char_here; mret (isalpha c || isdigit c || Ascii.eqb c "_"%char))
      advance;;
    gets (λ p, slice begin (cur p) p).

Definition ParseNumber : P Z :=
  ConsumeWhitespace;;
  done ← IsDone;
  if (done : bool) then raise (GNException "Expected number but got nothing.")
  else
    begin ← gets cur;
    c ← char_here;
    when (IsDigitOrMinus c) advance;;
    advance_while isdigit;;
    number_string ← gets (λ p, slice begin (cur p) p);
    if String.eqb number_string "" || String.eqb number_string "-"
    then raise (GNException "Not a valid number.")
    else mret (int_of number_string).

(** The loop of [ParseString]: to the quote that ends the string, two characters
    at a time at a backslash. *)
Definition string_end : P unit :=
  fuel ← gets loop_fuel;
  while fuel
    (andM (done ← IsDone; mret (negb done))
          (c ← char_here; mret (negb (Ascii.eqb c quote_char))))
    (c ← char_here;
     when (Ascii.eqb c backslash)
       (advance;;
        done ← IsDone;
        all ← gets input;
        when done (raise (GNException
          ("String ends in a backslash in:" +:+ line_feed +:+ "  " +:+ all))));;
     advance).

Definition ParseString : P string :=
  ConsumeWhitespace;;
  done ← IsDone;
  if (done : bool) then raise (GNException "Expected string but got nothing.")
  else
    c ← char_here;
    if negb (Ascii.eqb c quote_char) then
      raise_here ("Expected string beginning in a " +:+ double_quote +:+ " but got:"
                    +:+ line_feed +:+ "  ")
    else
      advance;;
      begin ← gets cur;
      string_end;;
      done ← IsDone;
      p ← gets id;
      if (done : bool) then
        raise (GNException ("Unterminated string:" +:+ line_feed +:+ "  "
                              +:+ slice begin (String.length (input p)) p))
      else
        advance;;
        mret (UnescapeGNString (slice begin (cur p) p)).

Definition unterminated_list {A} : P A :=
  all ← gets input;
  raise (GNException ("Unterminated list:" +:+ line_feed +:+ "  " +:+ all)).

(** [_ParseAllowTrailing], [ParseList] and the loop of the latter. *)
Fixpoint ParseAllowTrailing (fuel : nat) : P GNValue :=
  match fuel with
  | O => raise recursion_error
  | S fuel =>
      ConsumeWhitespace;;
      done ← IsDone;
      if (done : bool) then raise (GNException "Expected input to parse.")
      else
        next_char ← char_here;
        if Ascii.eqb next_char "["%char then ParseList fuel
        else if IsDigitOrMinus next_char then z ← ParseNumber; mret (GInt z)
        else if Ascii.eqb next_char quote_char then s ← ParseString; mret (GString s)
        else
          is_true ← ConstantFollows "true";
          if (is_true : bool) then mret (GBool true)
          else
            is_false ← ConstantFollows "false";
            if (is_false : bool) then mret (GBool false)
            else raise_here "Unexpected token: "
  end
with ParseList (fuel : nat) : P GNValue :=
  match fuel with
  | O => raise recursion_error
  | S fuel =>
      ConsumeWhitespace;;
      done ← IsDone;
      if (done : bool) then raise (GNException "Expected list but got nothing.")
      else
        c ← char_here;
        if negb (Ascii.eqb c "["%char) then
          raise_here ("Expected [ for list but got:" +:+ line_feed +:+ "  ")
        else
          advance;;
          ConsumeWhitespace;;
          done ← IsDone;
          if (done : bool) then unterminated_list
          else list_result ← list_loop fuel [] true; mret (GList list_result)
  end
with list_loop (fuel : nat) (list_result : list GNValue)
    (previous_had_trailing_comma : bool) : P (list GNValue) :=
  match fuel with
  | O => raise recursion_error
  | S fuel =>
      done ← IsDone;
      if (done : bool) then unterminated_list
      else
        c ← char_here;
        if Ascii.eqb c "]"%char then advance;; mret list_result
        else if negb previous_had_trailing_comma
        then raise (GNException "List items not separated by comma.")
        else
          item ← ParseAllowTrailing fuel;
          ConsumeWhitespace;;
          done ← IsDone;
          if (done : bool) then unterminated_list
          else
            c ← char_here;
            if Ascii.eqb c ","%char
            then advance;; ConsumeWhitespace;; list_loop fuel (list_result ++ [item]) true
            else list_loop fuel (list_result ++ [item]) false
  end.

(** A bound on the depth of the recursion: a value, its list and the loop of the
    list for every character. *)
Definition value_fuel (p : GNValueParser) : nat := 3 * S (String.length (input p)).
Definition ParseValue : P GNValue := fuel ← gets value_fuel; ParseAllowTrailing fuel.

Definition Parse : P GNValue :=
  result ← ParseValue;
  ConsumeWhitespace;;
  done ← IsDone;
  if negb done then raise_here ("Trailing input after parsing:" +:+ line_feed +:+ "  ")
  else mret result.

(** [ParseArgs]; [fuel] bounds the rounds of its loop. *)
Fixpoint args_loop (fuel : nat) (d : gmap string GNValue) : P (gmap string GNValue) :=
  match fuel with
  | O => raise recursion_error
  | S fuel =>
      done ← IsDone;
      if (done : bool) then mret d
      else
        ident ← ParseIdent;
        ConsumeWhitespace;;
        c ← char_here;
        if negb (Ascii.eqb c "="%char) then raise_here "Unexpected token: "
        else
          advance;;
          ConsumeWhitespace;;
          val ← ParseValue;
          ConsumeWhitespace;;
          args_loop fuel (<[ident := val]> d)
  end.
Definition ParseArgs : P (gmap string GNValue) :=
  ConsumeWhitespace;; fuel ← gets loop_fuel; args_loop fuel ∅.

Definition FromGNString (input : string) : outcome GNValue :=
  fst (Parse (GNValueParser_init input)).
Definition FromGNArgs (input : string) : outcome (gmap string GNValue) :=
  fst (ParseArgs (GNValueParser_init input)).
