(* ===== verification/GnRuns.v ===== *)
(** Runs of the parser of gn_helpers.py, from its single steps to the literals.

    The parser is looked at between two characters: [at_ pre rest] is the parser
    that has read [pre] and has [rest] before it. *)

From Stdlib Require Import Ascii String.
From stdpp Require Import sorting.
From S2P Require Import Prelude PyPath GnHelpers.

#[local] Open Scope string_scope.
#[local] Open Scope list_scope.

Definition at_ (pre rest : string) : GNValueParser :=
  mkParser (pre +:+ rest) (String.length pre).

(** ** Single steps *)

Lemma at_start s : GNValueParser_init s = at_ "" s.
Proof. done. Qed.

Lemma at_assoc pre s rest : at_ pre (s +:+ rest) =
  mkParser ((pre +:+ s) +:+ rest) (String.length pre).
Proof. unfold at_. by rewrite append_assoc. Qed.

Lemma get_append pre rest : String.get (String.length pre) (pre +:+ rest) = String.get 0 rest.
Proof. induction pre as [|c pre IH]; [done|]. rewrite append_cons. exact IH. Qed.

Lemma slice_at pre s rest :
  slice (String.length pre) (cur (at_ (pre +:+ s) rest)) (at_ (pre +:+ s) rest) = s.
Proof.
  unfold slice, at_. cbn [cur input]. rewrite length_append, append_assoc.
  replace (String.length pre + String.length s - String.length pre)%nat
    with (String.length s) by lia.
  apply substring_append.
Qed.

Lemma IsDone_at pre rest : IsDone (at_ pre rest) = (Ok (String.eqb rest ""), at_ pre rest).
Proof.
  unfold IsDone, gets, at_. cbn [cur input]. rewrite length_append. do 2 f_equal.
  destruct rest; cbn [String.length String.eqb].
  - apply Nat.eqb_eq. lia.
  - apply Nat.eqb_neq. lia.
Qed.

Lemma char_here_at pre c rest :
  char_here (at_ pre (String c rest)) = (Ok c, at_ pre (String c rest)).
Proof. unfold char_here, at_. run_steps. cbn [cur input]. by rewrite get_append. Qed.
Lemma char_here_end pre : char_here (at_ pre "") = (Raise IndexError, at_ pre "").
Proof. unfold char_here, at_. run_steps. cbn [cur input]. by rewrite get_append. Qed.

Lemma at_step pre c rest : mkParser (pre +:+ String c rest) (S (String.length pre)) =
  at_ (pre +:+ String c "") rest.
Proof.
  unfold at_. rewrite append_assoc, length_append. cbn. f_equal. lia.
Qed.

Lemma advance_at pre c rest :
  advance (at_ pre (String c rest)) = (Ok (), at_ (pre +:+ String c "") rest).
Proof. unfold advance, modify. by rewrite <- at_step. Qed.

Lemma input_here_at pre rest : input_here (at_ pre rest) = (Ok rest, at_ pre rest).
Proof.
  unfold input_here, gets. do 2 f_equal. unfold slice, at_. cbn [cur input].
  rewrite length_append.
  replace (String.length pre + String.length rest - String.length pre)%nat
    with (String.length rest) by lia.
  rewrite <- (append_empty_r rest) at 2. apply substring_append.
Qed.

Lemma loop_fuel_at pre rest : (String.length rest < loop_fuel (at_ pre rest))%nat.
Proof. unfold loop_fuel, at_. cbn [input]. rewrite length_append. lia. Qed.

Lemma raise_here_raises {A} message p :
  ∃ s, raise_here (A:=A) message p = (Raise (GNException s), p).
Proof. unfold raise_here, input_here. run_steps. by eexists. Qed.

#[export] Hint Rewrite IsDone_at char_here_at char_here_end advance_at input_here_at : run.

Lemma run_bind {S A B} (m : M S A) (k : A → M S B) s :
  (m ≫= k) s = match m s with (Ok a, s') => k a s' | (Raise e, s') => (Raise e, s') end.
Proof. done. Qed.

(** ** Runs of characters *)

(** Nothing that satisfies [f] comes next. *)
Definition stops (f : ascii → bool) (s : string) : Prop :=
  match s with EmptyString => True | String c _ => f c = false end.

Lemma span_append f s : s = fst (span f s) +:+ snd (span f s).
Proof.
  induction s as [|c s IH]; [done|]. cbn. destruct (f c); [|done].
  cbn [fst snd]. by rewrite append_cons, <- IH.
Qed.
Lemma span_forall f s : string_forall f (fst (span f s)) = true.
Proof. induction s as [|c s IH]; [done|]. cbn. destruct (f c) eqn:E; [|done]. cbn. by rewrite E. Qed.
Lemma span_stops f s : stops f (snd (span f s)).
Proof. induction s as [|c s IH]; [done|]. cbn. destruct (f c) eqn:E; [exact IH|exact E]. Qed.
Lemma span_app f w s : string_forall f w = true → stops f s → span f (w +:+ s) = (w, s).
Proof.
  intros Hw Hs. induction w as [|c w IH]; [rewrite append_nil; destruct s as [|c s]; [done|]; cbn in *; by rewrite Hs|].
  rewrite append_cons. cbn in *. apply andb_prop in Hw as [-> Hw]. by rewrite IH.
Qed.
Lemma span_none f s : stops f s → span f s = ("", s).
Proof. intros Hs. exact (span_app f "" s eq_refl Hs). Qed.

Lemma stops_app f s t : s ≠ "" → stops f s → stops f (s +:+ t).
Proof. by destruct s. Qed.

(** ** The loops *)

Lemma cond_at f pre rest :
  andM (done ← IsDone; mret (negb done)) (c ← char_here; mret (f c)) (at_ pre rest) =
    (Ok (match rest with EmptyString => false | String c _ => f c end), at_ pre rest).
Proof.
  unfold andM. rewrite !run_bind, IsDone_at. destruct rest as [|c rest]; cbn; [done|].
  by rewrite !run_bind, char_here_at.
Qed.

Lemma while_span f fuel pre rest :
  (String.length rest < fuel)%nat →
  while fuel (andM (done ← IsDone; mret (negb done)) (c ← char_here; mret (f c)))
    advance (at_ pre rest) =
    (Ok (), at_ (pre +:+ fst (span f rest)) (snd (span f rest))).
Proof.
  revert fuel pre. induction rest as [|c rest IH]; intros [|fuel] pre Hfuel; cbn in Hfuel;
    try lia; cbn [while]; rewrite run_bind, cond_at.
  { cbn. by rewrite append_empty_r. }
  cbn [span]. destruct (f c); cbn [fst snd].
  - rewrite run_bind, advance_at, IH by lia. by rewrite append_assoc.
  - by rewrite append_empty_r.
Qed.

Lemma advance_while_at f pre rest :
  advance_while f (at_ pre rest) =
    (Ok (), at_ (pre +:+ fst (span f rest)) (snd (span f rest))).
Proof.
  unfold advance_while. rewrite bind_gets. apply while_span, loop_fuel_at.
Qed.

Lemma ConsumeWhitespace_at pre rest :
  ConsumeWhitespace (at_ pre rest) =
    (Ok (), at_ (pre +:+ fst (span is_space rest)) (snd (span is_space rest))).
Proof. apply advance_while_at. Qed.

Lemma ConsumeWhitespace_app pre w rest :
  string_forall is_space w = true → stops is_space rest →
  ConsumeWhitespace (at_ pre (w +:+ rest)) = (Ok (), at_ (pre +:+ w) rest).
Proof. intros Hw Hrest. by rewrite ConsumeWhitespace_at, span_app. Qed.

Lemma ConsumeWhitespace_none pre rest :
  stops is_space rest → ConsumeWhitespace (at_ pre rest) = (Ok (), at_ pre rest).
Proof. intros Hrest. rewrite ConsumeWhitespace_at, span_none by done. by rewrite append_empty_r. Qed.

Lemma ConstantFollows_at k pre rest :
  ConstantFollows k (at_ pre rest) =
    match strip_prefix k rest with
    | Some rest' => (Ok true, at_ (pre +:+ k) rest')
    | None => (Ok false, at_ pre rest)
    end.
Proof.
  unfold ConstantFollows. rewrite bind_gets. unfold id. cbv zeta.
  destruct (strip_prefix k rest) as [rest'|] eqn:Hk.
  - apply strip_prefix_spec in Hk as ->. unfold at_ at 1 2. cbn [cur input].
    rewrite (proj2 (Nat.ltb_ge _ _)) by (rewrite !length_append; lia).
    replace (slice _ _ _) with k; [rewrite String.eqb_refl|].
    + unfold modify, at_. rewrite run_bind. cbn [input]. by rewrite append_assoc, length_append.
    + symmetry. unfold slice, at_. cbn [cur input].
      replace (_ + _ - _)%nat with (String.length k) by lia. apply substring_append.
  - destruct (Nat.ltb _ _) eqn:Hlen; [done|].
    destruct (String.eqb_spec (slice (cur (at_ pre rest))
      (cur (at_ pre rest) + String.length k) (at_ pre rest)) k) as [Heq|]; [|done].
    exfalso. revert Heq. unfold slice, at_. cbn [cur input].
    replace (_ + _ - _)%nat with (String.length k) by lia. intros Heq.
    assert (∀ pre, String.substring (String.length pre) (String.length k) (pre +:+ rest) =
      String.substring 0 (String.length k) rest) as Hsub.
    { intros p. induction p as [|c p IH]; [done|exact IH]. }
    rewrite Hsub in Heq. clear -Heq Hk. revert rest Heq Hk.
    induction k as [|c k IH]; intros [|d rest] Heq Hk; try done. cbn in *.
    injection Heq as -> Heq. rewrite Ascii.eqb_refl in Hk. by eapply IH.
Qed.

Definition string_loop (fuel : nat) : P unit :=
  while fuel
    (andM (done ← IsDone; mret (negb done))
          (c ← char_here; mret (negb (Ascii.eqb c quote_char))))
    (c ← char_here;
     when (Ascii.eqb c backslash)
       (advance;;
        done ← IsDone;
        all ← gets input;
        when done (raise (GNException
          ("String ends in a backslash in:" +:+ line_feed +:+ "  " +:+ all))));;
     advance).

(** A run that raises an exception of the parser. *)
Definition refuses {A} (r : outcome A * GNValueParser) : Prop :=
  ∃ s, fst r = Raise (GNException s).

Lemma refuses_bind {A B} (m : P A) (k : A → P B) p : refuses (m p) → refuses ((m ≫= k) p).
Proof. intros [s Hs]. rewrite (M_bind_run_raise _ _ _ _ _ (run_fst _ _ _ Hs)). by exists s. Qed.

Lemma refuses_raise {A} s p : refuses (raise (A:=A) (GNException s) p).
Proof. by exists s. Qed.
Lemma refuses_here {A} s p : refuses (raise_here (A:=A) s p).
Proof. destruct (raise_here_raises (A:=A) s p) as [t ->]. by exists t. Qed.
Lemma refuses_list {A} p : refuses (unterminated_list (A:=A) p).
Proof. unfold unterminated_list. run_steps. by eexists. Qed.

Lemma string_loop_at fuel pre rest :
  (String.length rest < fuel)%nat →
  match string_span rest with
  | Some (b, r) => string_loop fuel (at_ pre rest) = (Ok (), at_ (pre +:+ b) r)
  | None => refuses (string_loop fuel (at_ pre rest))
  end.
Proof.
  revert fuel pre. induction rest as [|c rest IH IH2] using string_ind2;
    intros [|fuel] pre Hfuel; cbn in Hfuel; try lia; unfold string_loop; cbn [while string_span];
    rewrite run_bind, cond_at.
  { cbn. by rewrite append_empty_r. }
  destruct (Ascii.eqb_spec c quote_char) as [->|Hq]; cbn [negb].
  { by rewrite append_empty_r. }
  rewrite M_bind_assoc, run_bind, char_here_at. destruct (Ascii.eqb_spec c backslash) as [->|Hb].
  - cbn [when]. rewrite !M_bind_assoc, run_bind, advance_at, !M_bind_assoc, run_bind, IsDone_at.
    rewrite M_bind_assoc, bind_gets. destruct rest as [|d rest]; cbn [String.eqb when].
    { apply refuses_bind, refuses_raise. }
    rewrite bind_ret, run_bind, advance_at.
    specialize (IH2 d rest eq_refl fuel ((pre +:+ String backslash "") +:+ String d "")).
    destruct (string_span rest) as [[b r]|]; cbn in Hfuel; [|apply IH2; lia].
    fold (string_loop fuel). rewrite IH2 by lia. cbn. by rewrite !append_assoc.
  - cbn [when]. rewrite M_bind_assoc, bind_ret, run_bind, advance_at.
    specialize (IH fuel (pre +:+ String c "")).
    destruct (string_span rest) as [[b r]|]; [|apply IH; lia].
    fold (string_loop fuel). rewrite IH by lia. cbn. by rewrite append_assoc.
Qed.

Lemma string_end_at pre rest :
  match string_span rest with
  | Some (b, r) => string_end (at_ pre rest) = (Ok (), at_ (pre +:+ b) r)
  | None => refuses (string_end (at_ pre rest))
  end.
Proof. apply (string_loop_at (loop_fuel _)), loop_fuel_at. Qed.

(** ** Numbers and strings *)

(** Digits, perhaps after a minus sign. *)
Definition number (s : string) : Prop :=
  match s with
  | EmptyString => False
  | String c digits =>
      IsDigitOrMinus c = true ∧ string_forall isdigit digits = true ∧ s ≠ "-"
  end.

Lemma digit_or_minus_not_space c : IsDigitOrMinus c = true → is_space c = false.
Proof. intros H. by destruct c as [[] [] [] [] [] [] [] []]. Qed.

Lemma ParseNumber_at pre rest :
  match rest with
  | String c rest' =>
      IsDigitOrMinus c = true →
      let s := String c (fst (span isdigit rest')) in
      if String.eqb s "-" then refuses (ParseNumber (at_ pre rest))
      else ParseNumber (at_ pre rest) =
             (Ok (int_of s), at_ (pre +:+ s) (snd (span isdigit rest')))
  | EmptyString => True
  end.
Proof.
  destruct rest as [|c rest]; [done|]. intros Hc s. unfold ParseNumber.
  rewrite run_bind, ConsumeWhitespace_none by by apply digit_or_minus_not_space.
  rewrite run_bind, IsDone_at. cbn [String.eqb]. rewrite bind_gets, run_bind, char_here_at, Hc.
  cbn [when]. rewrite run_bind, advance_at, run_bind, advance_while_at, bind_gets.
  replace ((pre +:+ String c "") +:+ fst (span isdigit rest)) with (pre +:+ s)
    by by rewrite append_assoc.
  change (cur (at_ pre (String c rest))) with (String.length pre). rewrite slice_at.
  destruct (String.eqb_spec s "-") as [->|]; [apply refuses_raise|]. done.
Qed.

Lemma ParseString_at pre rest :
  match string_span rest with
  | Some (b, String _ r) =>
      ParseString (at_ pre (String quote_char rest)) =
        (Ok (UnescapeGNString b), at_ (pre +:+ String quote_char (b +:+ double_quote)) r)
  | _ => refuses (ParseString (at_ pre (String quote_char rest)))
  end.
Proof.
  unfold ParseString. rewrite run_bind, ConsumeWhitespace_none by done.
  rewrite run_bind, IsDone_at. cbn [String.eqb]. rewrite run_bind, char_here_at.
  rewrite Ascii.eqb_refl. cbn [negb]. rewrite run_bind, advance_at, bind_gets.
  set (pre' := pre +:+ String quote_char ""). pose proof (string_end_at pre' rest) as Hend.
  destruct (string_span rest) as [[b r]|] eqn:Hspan; [|by apply refuses_bind].
  rewrite run_bind, Hend, run_bind, IsDone_at, bind_gets. unfold id.
  apply string_span_spec in Hspan as (_ & _ & [->|[t ->]]); cbn [String.eqb].
  { apply refuses_raise. }
  rewrite run_bind, advance_at. unfold mret, M_ret. f_equal.
  - do 2 f_equal. apply slice_at.
  - unfold pre'. by rewrite !append_assoc.
Qed.
