(* ===== verification/GnGrammar.v ===== *)
(** The grammar of GN values that the parser of gn_helpers.py accepts: the parser
    is sound and complete for it, and always stops. *)

From Stdlib Require Import Ascii String.
From S2P Require Import Prelude PyPath GnHelpers GnRuns.

#[local] Open Scope string_scope.
#[local] Open Scope list_scope.

Definition whitespace (w : string) : Prop := string_forall is_space w = true.

(** The characters a backslash goes before. *)
Definition special (c : ascii) : bool :=
  Ascii.eqb c dollar || Ascii.eqb c quote_char || Ascii.eqb c backslash.

(** [string_text b s]: [b] between quotes is the string [s].  A backslash before
    any other character stands for itself. *)
Inductive string_text : string → string → Prop :=
  | body_end : string_text "" ""
  | body_char c b s :
      c ≠ quote_char → c ≠ backslash → string_text b s → string_text (String c b) (String c s)
  | body_escape c b s :
      special c = true → string_text b s →
      string_text (String backslash (String c b)) (String c s)
  | body_backslash c b s :
      special c = false → string_text b s →
      string_text (String backslash (String c b)) (String backslash (String c s)).

(** [gn_text t v]: the text [t], without blanks around it, is a value [v].
    [gn_items t vs]: the text [t] is what stands between the first item and the
    closing bracket of the list [vs]; a comma may follow the last item. *)
Inductive gn_text : string → GNValue → Prop :=
  | text_true : gn_text "true" (GBool true)
  | text_false : gn_text "false" (GBool false)
  | text_number s : number s → gn_text s (GInt (int_of s))
  | text_string b s : string_text b s → gn_text (quote b) (GString s)
  | text_list w items vs :
      whitespace w → gn_items items vs →
      gn_text ("[" +:+ w +:+ items +:+ "]") (GList vs)
with gn_items : string → list GNValue → Prop :=
  | items_nil : gn_items "" []
  | items_last t v w : gn_text t v → whitespace w → gn_items (t +:+ w) [v]
  | items_cons t v w w' items vs :
      gn_text t v → whitespace w → whitespace w' → gn_items items vs →
      gn_items (t +:+ w +:+ "," +:+ w' +:+ items) (v :: vs).

Scheme gn_text_ind2 := Induction for gn_text Sort Prop
  with gn_items_ind2 := Induction for gn_items Sort Prop.
Combined Scheme gn_text_items_ind from gn_text_ind2, gn_items_ind2.

(** ** Strings *)

Lemma special_cases c : special c = true → c = dollar ∨ c = quote_char ∨ c = backslash.
Proof.
  unfold special. intros [[H|H]%orb_prop|H]%orb_prop; apply Ascii.eqb_eq in H; auto.
Qed.

Lemma not_special c :
  special c = false → Ascii.eqb c quote_char = false ∧ Ascii.eqb c backslash = false.
Proof. unfold special. by intros [[_ ?]%orb_false_iff ?]%orb_false_iff. Qed.

(** The loop to the closing quote and the unescaping read such a body. *)
Lemma string_text_spec b s : string_text b s ↔ string_body b = true ∧ UnescapeGNString b = s.
Proof.
  split.
  - induction 1 as [|c b s Hq Hb _ [Hbody <-]|c b s Hc _ [Hbody <-]|c b s Hc _ [Hbody <-]]; [done|..].
    + apply Ascii.eqb_neq in Hq, Hb. cbn [string_body UnescapeGNString]. by rewrite Hq, Hb.
    + cbn. unfold special in Hc. by rewrite Hc.
    + destruct (not_special c Hc) as [Hq Hb]. cbn. unfold special in Hc. by rewrite Hc, Hb.
  - intros [Hbody <-]. remember (String.length b) as n eqn:Hn.
    assert (String.length b <= n)%nat as Hlen by lia. clear Hn. revert b Hbody Hlen.
    induction n as [|n IH]; intros [|c b] Hbody Hlen; cbn in Hlen; try lia; try constructor.
    cbn in Hbody |- *. destruct (Ascii.eqb_spec c quote_char) as [|Hq]; [done|].
    destruct (Ascii.eqb_spec c backslash) as [->|Hb].
    2: { constructor; [done..|]. apply IH; [done|lia]. }
    destruct b as [|d b]; [done|]. cbn in Hlen. fold (special d).
    destruct (special d) eqn:Hd; [constructor; [done|apply IH; [done|lia]]|].
    destruct (not_special d Hd) as [_ Hb]. cbn [UnescapeGNString]. rewrite Hb.
    constructor; [done|]. apply IH; [done|lia].
Qed.

(** ** First characters *)

Lemma is_space_digit c : is_space c = true → isdigit c = false.
Proof. intros H. by destruct c as [[] [] [] [] [] [] [] []]. Qed.
Lemma isdigit_or_minus c : isdigit c = true → IsDigitOrMinus c = true.
Proof. intros H. by destruct c as [[] [] [] [] [] [] [] []]. Qed.

(** A value begins with a character that is no blank and no closing bracket. *)
Lemma gn_text_head t v :
  gn_text t v → ∃ c s, t = String c s ∧ is_space c = false ∧ Ascii.eqb c "]"%char = false.
Proof.
  destruct 1 as [| |[|c s] Hs|b s|w items vs]; [by do 2 eexists..|done| | |].
  - destruct Hs as [Hc _]. exists c, s. split; [done|].
    by destruct c as [[] [] [] [] [] [] [] []].
  - by exists quote_char, (b +:+ double_quote).
  - by exists "["%char, (w +:+ items +:+ "]").
Qed.

Lemma gn_items_stops items vs : gn_items items vs → stops is_space (items +:+ "]").
Proof.
  destruct 1 as [|t v w Ht|t v w w' items vs Ht]; [done|..];
    destruct (gn_text_head t v Ht) as (c & s & -> & Hc & _); exact Hc.
Qed.

Lemma whitespace_stops w rest :
  whitespace w → stops isdigit rest → stops isdigit (w +:+ rest).
Proof.
  destruct w as [|c w]; [done|]. intros [Hc _]%andb_prop _. by apply is_space_digit.
Qed.

(** ** Soundness and termination *)

(** What the parser may do at [rest]: it reads a value and the blanks before it,
    or raises its own exception. *)
Definition reads_value (pre rest : string) (r : outcome GNValue * GNValueParser) : Prop :=
  match r with
  | (Ok v, p) => ∃ w t rest', rest = w +:+ t +:+ rest' ∧ whitespace w ∧ gn_text t v ∧
                   p = at_ (pre +:+ w +:+ t) rest'
  | (Raise e, _) => ∃ message, e = GNException message
  end.

Definition reads_items (acc : list GNValue) (prev : bool) (pre rest : string)
    (r : outcome (list GNValue) * GNValueParser) : Prop :=
  match r with
  | (Ok l, p) => ∃ items vs rest', rest = items +:+ "]" +:+ rest' ∧ l = acc ++ vs ∧
                   (if prev then gn_items items vs else items = "" ∧ vs = []) ∧
                   p = at_ (pre +:+ items +:+ "]") rest'
  | (Raise e, _) => ∃ message, e = GNException message
  end.

Lemma refuses_value pre rest r : refuses r → reads_value pre rest r.
Proof. destruct r. intros [s Hs]. cbn in Hs. subst. by exists s. Qed.
Lemma refuses_items acc prev pre rest r : refuses r → reads_items acc prev pre rest r.
Proof. destruct r. intros [s Hs]. cbn in Hs. subst. by exists s. Qed.

Lemma reads_value_blanks pre w rest r :
  whitespace w → reads_value (pre +:+ w) rest r →
  (match r with (Ok _, _) => stops is_space rest | _ => True end) →
  reads_value pre (w +:+ rest) r.
Proof.
  intros Hw. destruct r as [[v|e] p]; [|done].
  intros (w' & t & rest' & -> & Hw' & Ht & ->) Hstop.
  assert (w' = "") as ->.
  { destruct w' as [|c w']; [done|]. apply andb_prop in Hw' as [Hc _].
    cbn in Hstop. congruence. }
  exists w, t, rest'. by rewrite append_assoc.
Qed.

Section sound.
Context (n : nat)
  (IHv : ∀ fuel pre rest, (String.length rest < n)%nat →
    (3 * S (String.length rest) <= fuel)%nat →
    reads_value pre rest (ParseAllowTrailing fuel (at_ pre rest))).

Lemma list_loop_reads m : (m <= n)%nat →
  ∀ fuel acc prev pre rest, (String.length rest < m)%nat → stops is_space rest →
    (3 * S (String.length rest) + 1 <= fuel)%nat →
    reads_items acc prev pre rest (list_loop fuel acc prev (at_ pre rest)).
Proof.
  induction m as [|m IH]; [lia|]. intros Hm fuel acc prev pre rest Hlen Hstop Hfuel.
  destruct fuel as [|fuel]; [lia|]. cbn [list_loop]. rewrite run_bind, IsDone_at.
  destruct rest as [|c rest]; cbn [String.eqb]; [apply refuses_items, refuses_list|].
  rewrite run_bind, char_here_at. destruct (Ascii.eqb_spec c "]"%char) as [->|Hc].
  { rewrite run_bind, advance_at. exists "", [], rest. rewrite app_nil_r.
    split_and!; [done..| |done]. destruct prev; [constructor|done]. }
  destruct prev; cbn [negb]; [|apply refuses_items, refuses_raise].
  pose proof (IHv fuel pre (String c rest)) as Hv. rewrite run_bind.
  destruct (ParseAllowTrailing _ _) as [[v|e] p]; [|apply Hv; lia].
  destruct Hv as (w & t & rest1 & Hrest & Hw & Ht & ->); [lia..|].
  assert (w = "") as ->.
  { destruct w as [|d w]; [done|]. apply andb_prop in Hw as [Hd _].
    rewrite append_cons in Hrest. injection Hrest as -> ->. cbn in Hstop. congruence. }
  rewrite append_nil in *. destruct (gn_text_head t v Ht) as (d & t' & -> & Hd & _).
  rewrite Hrest in *. rewrite append_cons in *. cbn [String.length] in *.
  rewrite length_append in *. clear c rest Hc Hrest.
  rewrite run_bind, ConsumeWhitespace_at.
  pose proof (span_append is_space rest1) as Hsplit.
  pose proof (span_forall is_space rest1) as Hw1.
  pose proof (span_stops is_space rest1) as Hstop1.
  destruct (span is_space rest1) as [w1 rest2]; cbn [fst snd] in *. subst rest1.
  rewrite length_append in *. rewrite run_bind, IsDone_at.
  destruct rest2 as [|c rest2]; cbn [String.eqb String.length] in *;
    [apply refuses_items, refuses_list|].
  rewrite run_bind, char_here_at. destruct (Ascii.eqb_spec c ","%char) as [->|Hc].
  - rewrite run_bind, advance_at, run_bind, ConsumeWhitespace_at.
    pose proof (span_append is_space rest2) as Hsplit.
    pose proof (span_forall is_space rest2) as Hw2.
    pose proof (span_stops is_space rest2) as Hstop2.
    destruct (span is_space rest2) as [w2 rest3]; cbn [fst snd] in *. subst rest2.
    rewrite length_append in *.
    specialize (IH ltac:(lia) fuel (acc ++ [v]) true
      ((((pre +:+ String d t') +:+ w1) +:+ String "," "") +:+ w2) rest3
      ltac:(lia) Hstop2 ltac:(lia)).
    destruct (list_loop _ _ _ _) as [[l|e] p]; [|done].
    destruct IH as (items & vs & rest' & -> & -> & Hitems & ->).
    exists (String d t' +:+ w1 +:+ "," +:+ w2 +:+ items), (v :: vs), rest'.
    split_and!.
    + by str_simp.
    + by rewrite <- app_assoc.
    + by constructor.
    + by str_simp.
  - specialize (IH ltac:(lia) fuel (acc ++ [v]) false ((pre +:+ String d t') +:+ w1)
      (String c rest2) ltac:(cbn; lia) Hstop1 ltac:(cbn; lia)).
    destruct (list_loop _ _ _ _) as [[l|e] p]; [|done].
    destruct IH as (items & vs & rest' & Hrest & -> & [-> ->] & ->).
    rewrite append_nil in Hrest. rewrite app_nil_r.
    exists (String d t' +:+ w1), [v], rest'. split_and!.
    + rewrite Hrest. by str_simp.
    + done.
    + by constructor.
    + by str_simp.
Qed.
End sound.

Lemma ParseList_reads n fuel pre rest :
  (∀ fuel pre rest, (String.length rest < n)%nat → (3 * S (String.length rest) <= fuel)%nat →
    reads_value pre rest (ParseAllowTrailing fuel (at_ pre rest))) →
  (String.length rest < n)%nat → (3 * S (String.length rest) + 2 <= fuel)%nat →
  reads_value pre (String "[" rest) (ParseList fuel (at_ pre (String "[" rest))).
Proof.
  intros IHv Hlen Hfuel. destruct fuel as [|fuel]; [lia|]. cbn [ParseList].
  rewrite run_bind, ConsumeWhitespace_none by done. rewrite run_bind, IsDone_at.
  cbn [String.eqb]. rewrite run_bind, char_here_at. rewrite Ascii.eqb_refl. cbn [negb].
  rewrite run_bind, advance_at, run_bind, ConsumeWhitespace_at.
  pose proof (span_append is_space rest) as Hsplit.
  pose proof (span_forall is_space rest) as Hw.
  pose proof (span_stops is_space rest) as Hstop.
  destruct (span is_space rest) as [w rest1]; cbn [fst snd] in *. subst rest.
  rewrite length_append in *. rewrite run_bind, IsDone_at.
  destruct (String.eqb rest1 ""); [apply refuses_value, refuses_list|].
  pose proof (list_loop_reads n IHv n ltac:(lia) fuel [] true ((pre +:+ String "[" "") +:+ w) rest1
    ltac:(lia) Hstop ltac:(lia)) as Hl.
  rewrite run_bind. destruct (list_loop _ _ _ _) as [[l|e] p]; [|done].
  destruct Hl as (items & vs & rest' & -> & -> & Hitems & ->).
  exists "", ("[" +:+ w +:+ items +:+ "]"), rest'. split_and!; [|done|by constructor|].
  - by str_simp.
  - by str_simp.
Qed.

Lemma ParseAllowTrailing_literal fuel pre c rest :
  is_space c = false → Ascii.eqb c "["%char = false →
  reads_value pre (String c rest) (ParseAllowTrailing (S fuel) (at_ pre (String c rest))).
Proof.
  intros Hspace Hlist. cbn [ParseAllowTrailing].
  rewrite run_bind, ConsumeWhitespace_none by done. rewrite run_bind, IsDone_at.
  cbn [String.eqb]. rewrite run_bind, char_here_at, Hlist.
  destruct (IsDigitOrMinus c) eqn:Hdigit.
  { rewrite run_bind. pose proof (ParseNumber_at pre (String c rest) Hdigit) as Hn.
    cbv zeta in Hn. destruct (String.eqb_spec (String c (fst (span isdigit rest))) "-") as [|Hne].
    - destruct Hn as [s Hn]. rewrite (run_fst _ _ _ Hn). by exists s.
    - rewrite Hn. pose proof (span_append isdigit rest) as Hsplit.
      pose proof (span_forall isdigit rest) as Hd.
      exists "", (String c (fst (span isdigit rest))), (snd (span isdigit rest)).
      split_and!; [|done| |done].
      + rewrite append_nil, append_cons. by f_equal.
      + by apply text_number. }
  destruct (Ascii.eqb_spec c quote_char) as [->|Hquote].
  { rewrite run_bind. pose proof (ParseString_at pre rest) as Hs.
    destruct (string_span rest) as [[b [|d r]]|] eqn:Hspan.
    1,3: destruct Hs as [s Hs]; rewrite (run_fst _ _ _ Hs); by exists s.
    rewrite Hs. apply string_span_spec in Hspan as (-> & Hb & [|[t [= -> ->]]]); [done|].
    exists "", (quote b), t. split_and!; [|done|by constructor; apply string_text_spec|done].
    unfold quote, double_quote. by str_simp. }
  rewrite run_bind, ConstantFollows_at. destruct (strip_prefix "true" _) as [r|] eqn:Ht.
  { apply strip_prefix_spec in Ht. exists "", "true", r. by repeat constructor. }
  rewrite run_bind, ConstantFollows_at. destruct (strip_prefix "false" _) as [r|] eqn:Hf.
  { apply strip_prefix_spec in Hf. exists "", "false", r. by repeat constructor. }
  apply refuses_value, refuses_here.
Qed.

(** Only the fuel of the blanks differs between a value with and without them. *)
Lemma ParseAllowTrailing_blanks fuel pre w rest :
  whitespace w → stops is_space rest →
  ParseAllowTrailing (S fuel) (at_ pre (w +:+ rest)) =
    ParseAllowTrailing (S fuel) (at_ (pre +:+ w) rest).
Proof.
  intros Hw Hrest. cbn [ParseAllowTrailing]. rewrite !run_bind.
  by rewrite ConsumeWhitespace_app, ConsumeWhitespace_none.
Qed.

Lemma ParseAllowTrailing_reads n : ∀ fuel pre rest,
  (String.length rest < n)%nat → (3 * S (String.length rest) <= fuel)%nat →
  reads_value pre rest (ParseAllowTrailing fuel (at_ pre rest)).
Proof.
  induction n as [|n IH]; [lia|]. intros fuel pre rest Hlen Hfuel.
  destruct fuel as [|fuel]; [lia|].
  pose proof (span_append is_space rest) as Hsplit.
  pose proof (span_forall is_space rest) as Hw.
  pose proof (span_stops is_space rest) as Hstop.
  destruct (span is_space rest) as [w rest1]; cbn [fst snd] in *. subst rest.
  rewrite length_append in *.
  apply reads_value_blanks; [done| |by case_match; case_match].
  rewrite ParseAllowTrailing_blanks by done. set (pre' := pre +:+ w).
  destruct rest1 as [|c rest1].
  { cbn [ParseAllowTrailing]. rewrite run_bind, ConsumeWhitespace_none by done.
    rewrite run_bind, IsDone_at. apply refuses_value, refuses_raise. }
  destruct (Ascii.eqb_spec c "["%char) as [->|Hlist].
  - cbn [ParseAllowTrailing]. rewrite run_bind, ConsumeWhitespace_none by done.
    rewrite run_bind, IsDone_at. cbn [String.eqb]. rewrite run_bind, char_here_at.
    rewrite Ascii.eqb_refl. cbn [String.length] in *.
    apply (ParseList_reads n); [done|lia..].
  - apply ParseAllowTrailing_literal; [done|by apply Ascii.eqb_neq].
Qed.

(** ** Completeness *)

(** Evaluate the tests of a character that is known. *)
Ltac known_char :=
  repeat match goal with
  | |- context [if ?b then _ else _] =>
      let v := eval vm_compute in b in
      lazymatch v with
      | true => change b with true
      | false => change b with false
      end; cbv iota
  end.

Lemma span_digits s rest :
  string_forall isdigit s = true → stops isdigit rest → span isdigit (s +:+ rest) = (s, rest).
Proof. apply span_app. Qed.

Lemma ParseAllowTrailing_number fuel pre s rest :
  number s → stops isdigit rest →
  ParseAllowTrailing (S fuel) (at_ pre (s +:+ rest)) =
    (Ok (GInt (int_of s)), at_ (pre +:+ s) rest).
Proof.
  destruct s as [|c s]; [done|]. intros (Hc & Hs & Hne) Hrest. rewrite append_cons.
  cbn [ParseAllowTrailing].
  rewrite run_bind, ConsumeWhitespace_none by by apply digit_or_minus_not_space.
  rewrite run_bind, IsDone_at. cbn [String.eqb]. rewrite run_bind, char_here_at.
  assert (Ascii.eqb c "["%char = false) as -> by by destruct c as [[] [] [] [] [] [] [] []].
  rewrite Hc. rewrite run_bind.
  pose proof (ParseNumber_at pre (String c (s +:+ rest)) Hc) as Hn. cbv zeta in Hn.
  rewrite span_digits in Hn by done. cbn [fst snd] in Hn.
  apply String.eqb_neq in Hne. rewrite Hne in Hn. by rewrite Hn.
Qed.

Lemma ParseAllowTrailing_string fuel pre b rest :
  string_body b = true →
  ParseAllowTrailing (S fuel) (at_ pre (quote b +:+ rest)) =
    (Ok (GString (UnescapeGNString b)), at_ (pre +:+ quote b) rest).
Proof.
  intros Hb. unfold quote, double_quote. rewrite !append_assoc, append_cons, append_nil.
  cbn [ParseAllowTrailing]. rewrite run_bind, ConsumeWhitespace_none by done.
  rewrite run_bind, IsDone_at. cbn [String.eqb]. rewrite run_bind, char_here_at. known_char.
  rewrite run_bind. pose proof (ParseString_at pre (b +:+ String quote_char "" +:+ rest)) as Hs.
  rewrite append_cons, append_nil in *.
  rewrite string_span_body in Hs by done. by rewrite Hs.
Qed.

Lemma list_step fuel acc pre t v rest c rest' w :
  gn_text t v → whitespace w → rest = w +:+ String c rest' → stops is_space (String c rest') →
  ParseAllowTrailing fuel (at_ pre (t +:+ rest)) = (Ok v, at_ (pre +:+ t) rest) →
  list_loop (S fuel) acc true (at_ pre (t +:+ rest)) =
    (if Ascii.eqb c ","%char
     then advance;; ConsumeWhitespace;; list_loop fuel (acc ++ [v]) true
     else list_loop fuel (acc ++ [v]) false)
      (at_ ((pre +:+ t) +:+ w) (String c rest')).
Proof.
  intros Ht Hw -> Hc Hv. cbn [list_loop].
  destruct (gn_text_head t v Ht) as (d & t' & -> & Hd & Hbracket). rewrite append_cons in *.
  rewrite run_bind, IsDone_at. cbn [String.eqb]. rewrite run_bind, char_here_at, Hbracket.
  cbn [negb]. rewrite run_bind, Hv, run_bind, ConsumeWhitespace_app by done.
  rewrite run_bind, IsDone_at. cbn [String.eqb]. by rewrite run_bind, char_here_at.
Qed.

Lemma list_end fuel acc prev pre rest :
  list_loop (S fuel) acc prev (at_ pre ("]" +:+ rest)) = (Ok acc, at_ (pre +:+ "]") rest).
Proof.
  cbn [list_loop]. rewrite append_cons, append_nil.
  rewrite run_bind, IsDone_at. cbn [String.eqb]. rewrite run_bind, char_here_at.
  rewrite Ascii.eqb_refl. by rewrite run_bind, advance_at.
Qed.

Lemma parser_complete :
  (∀ t v, gn_text t v → ∀ fuel pre rest,
     stops isdigit rest → (3 * S (String.length t) <= fuel)%nat →
     ParseAllowTrailing fuel (at_ pre (t +:+ rest)) = (Ok v, at_ (pre +:+ t) rest)) ∧
  (∀ items vs, gn_items items vs → ∀ fuel acc pre rest,
     (3 * S (String.length items) + 1 <= fuel)%nat →
     list_loop fuel acc true (at_ pre (items +:+ "]" +:+ rest)) =
       (Ok (acc ++ vs), at_ (pre +:+ items +:+ "]") rest)).
Proof.
  apply gn_text_items_ind.
  - intros [|fuel] pre rest _ Hfuel; [lia|]. cbn [ParseAllowTrailing].
    rewrite !append_cons, append_nil.
    rewrite run_bind, ConsumeWhitespace_none by done. rewrite run_bind, IsDone_at.
    cbn [String.eqb]. rewrite run_bind, char_here_at. known_char.
    by rewrite run_bind, ConstantFollows_at.
  - intros [|fuel] pre rest _ Hfuel; [lia|]. cbn [ParseAllowTrailing].
    rewrite !append_cons, append_nil.
    rewrite run_bind, ConsumeWhitespace_none by done. rewrite run_bind, IsDone_at.
    cbn [String.eqb]. rewrite run_bind, char_here_at. known_char.
    rewrite run_bind, ConstantFollows_at.
    change (strip_prefix "true" _) with (@None string). cbv iota.
    by rewrite run_bind, ConstantFollows_at.
  - intros s Hs [|fuel] pre rest Hrest Hfuel; [lia|]. by apply ParseAllowTrailing_number.
  - intros b s [Hb <-]%string_text_spec [|fuel] pre rest Hrest Hfuel; [lia|].
    by apply ParseAllowTrailing_string.
  - intros w items vs Hw Hitems IH [|[|fuel]] pre rest Hrest Hfuel; cbn in Hfuel; [lia..|].
    pose proof (gn_items_stops _ _ Hitems) as Hstop.
    rewrite !append_assoc, (append_cons "["), append_nil.
    cbn [ParseAllowTrailing]. rewrite run_bind, ConsumeWhitespace_none by done.
    rewrite run_bind, IsDone_at. cbn [String.eqb]. rewrite run_bind, char_here_at, Ascii.eqb_refl.
    cbn [ParseList]. rewrite run_bind, ConsumeWhitespace_none by done.
    rewrite run_bind, IsDone_at. cbn [String.eqb]. rewrite run_bind, char_here_at, Ascii.eqb_refl.
    cbn [negb]. rewrite run_bind, advance_at, run_bind, ConsumeWhitespace_app; [|done|].
    2: { rewrite <- append_assoc. apply stops_app; [by destruct items|done]. }
    rewrite run_bind, IsDone_at.
    replace (String.eqb (items +:+ "]" +:+ rest) "") with false by by destruct items.
    rewrite !length_append in Hfuel. rewrite run_bind, IH by (cbn in Hfuel; lia).
    cbn [app]. by str_simp.
  - intros [|fuel] acc pre rest Hfuel; [lia|]. rewrite app_nil_r, !append_nil. apply list_end.
  - intros t v w Ht IH Hw [|fuel] acc pre rest Hfuel; [lia|].
    rewrite length_append in Hfuel. rewrite !append_assoc.
    rewrite (list_step _ acc pre t v _ "]"%char rest w) by
      (done || (apply IH; [by apply whitespace_stops|lia])).
    destruct fuel as [|fuel]; [lia|]. known_char.
    change (String "]" rest) with ("]" +:+ rest). rewrite list_end. by rewrite !append_assoc.
  - intros t v w w' items vs Ht IHt Hw Hw' Hitems IH [|fuel] acc pre rest Hfuel; [lia|].
    rewrite !length_append in Hfuel. cbn in Hfuel. rewrite !append_assoc.
    pose proof (gn_items_stops _ _ Hitems) as Hstop.
    rewrite (list_step _ acc pre t v _ ","%char (w' +:+ items +:+ "]" +:+ rest) w) by
      (done || (apply IHt; [by apply whitespace_stops|lia])).
    rewrite Ascii.eqb_refl. rewrite run_bind, advance_at, run_bind, ConsumeWhitespace_app; [|done|].
    2: { rewrite <- append_assoc. apply stops_app; [by destruct items|done]. }
    rewrite IH by lia. rewrite <- app_assoc. by str_simp.
Qed.

(** ** The parser of a whole input *)

Lemma value_fuel_at pre rest : (3 * S (String.length rest) <= value_fuel (at_ pre rest))%nat.
Proof. unfold value_fuel, at_. cbn [input]. rewrite length_append. lia. Qed.

Lemma ParseValue_reads pre rest : reads_value pre rest (ParseValue (at_ pre rest)).
Proof.
  apply (ParseAllowTrailing_reads (S (String.length rest))); [lia|apply value_fuel_at].
Qed.

Lemma ParseValue_complete pre w t v rest :
  whitespace w → gn_text t v → stops isdigit rest →
  ParseValue (at_ pre (w +:+ t +:+ rest)) = (Ok v, at_ (pre +:+ w +:+ t) rest).
Proof.
  intros Hw Ht Hrest. pose proof (value_fuel_at pre (w +:+ t +:+ rest)) as Hfuel.
  unfold ParseValue. rewrite bind_gets. destruct (value_fuel _) as [|fuel]; [lia|].
  rewrite ParseAllowTrailing_blanks; [|done|].
  2: { destruct (gn_text_head t v Ht) as (c & s & -> & Hc & _). exact Hc. }
  rewrite (proj1 parser_complete t v Ht); [by rewrite append_assoc|done|].
  rewrite !length_append in Hfuel. lia.
Qed.

(** C5: The parser of values and its grammar.  [FromGNString] answers [v] exactly
    when its input is a text of [v] between blanks; on every other input it stops
    and raises [GNException], whatever brackets, quotes or signs are missing. *)
Theorem FromGNString_grammar s :
  (∀ v, FromGNString s = Ok v ↔
     ∃ w t w', s = w +:+ t +:+ w' ∧ whitespace w ∧ whitespace w' ∧ gn_text t v) ∧
  ((∃ v, FromGNString s = Ok v) ∨ ∃ message, FromGNString s = Raise (GNException message)).
Proof.
  assert (∀ w t w' v, whitespace w → whitespace w' → gn_text t v →
    FromGNString (w +:+ t +:+ w') = Ok v) as Hcomplete.
  { intros w t w' v Hw Hw' Ht. unfold FromGNString, Parse. rewrite at_start, run_bind.
    rewrite (ParseValue_complete "" w t v w' Hw Ht).
    2: { rewrite <- (append_empty_r w'). by apply whitespace_stops. }
    rewrite append_nil, run_bind. rewrite <- (append_empty_r w') at 1.
    rewrite ConsumeWhitespace_app by done. by rewrite run_bind, IsDone_at. }
  assert (match FromGNString s with
          | Ok v => ∃ w t w', s = w +:+ t +:+ w' ∧ whitespace w ∧ whitespace w' ∧ gn_text t v
          | Raise e => ∃ message, e = GNException message end) as Hsound.
  { unfold FromGNString, Parse. rewrite at_start, run_bind.
    pose proof (ParseValue_reads "" s) as Hv. destruct (ParseValue _) as [[v|e] p]; [|exact Hv].
    destruct Hv as (w & t & rest & -> & Hw & Ht & ->). rewrite run_bind, ConsumeWhitespace_at.
    rewrite run_bind, IsDone_at. destruct (String.eqb_spec (snd (span is_space rest)) "") as [Hr|Hr];
      cbn [negb].
    - exists w, t, rest. split_and!; [done..| |done]. unfold whitespace.
      rewrite (span_append is_space rest), Hr, append_empty_r. apply span_forall.
    - destruct (refuses_here (A:=GNValue) ("Trailing input after parsing:" +:+ line_feed +:+ "  ")
        (at_ ((("" +:+ w +:+ t) +:+ fst (span is_space rest))) (snd (span is_space rest))))
        as [m ->]. by exists m. }
  split.
  - intros v. split; [by intros Hv; rewrite Hv in Hsound|].
    intros (w & t & w' & -> & Hw & Hw' & Ht). by apply Hcomplete.
  - destruct (FromGNString s) as [v|e]; [eauto|]. destruct Hsound as [m ->]. eauto.
Qed.
