(* ===== verification/GnRoundTrip.v ===== *)
(** What [ToGNString] of gn_helpers.py prints is read back by [FromGNString] and
    [FromGNArgs]. *)

From Stdlib Require Import Ascii String.
From stdpp Require Import sorting.
From S2P Require Import Prelude PyPath GnHelpers GnRuns GnGrammar.

#[local] Open Scope string_scope.
#[local] Open Scope list_scope.

(** ** Strings *)

(** The three replacements, as one pass. *)
Fixpoint escape_once (s : string) : string :=
  match s with
  | EmptyString => ""
  | String c s => if special c then escaped c +:+ escape_once s else String c (escape_once s)
  end.

Lemma replace_char_app c t s u :
  replace_char c t (s +:+ u) = replace_char c t s +:+ replace_char c t u.
Proof.
  induction s as [|d s IH]; [done|]. rewrite append_cons. cbn [replace_char].
  destruct (Ascii.eqb d c); rewrite IH; by str_simp.
Qed.

Lemma escape_is_once s : escape s = escape_once s.
Proof.
  unfold escape. induction s as [|c s IH]; [done|]. cbn [replace_char escape_once].
  unfold special.
  destruct (Ascii.eqb_spec c backslash) as [->|Hb].
  { rewrite !replace_char_app, IH. done. }
  cbn [replace_char]. destruct (Ascii.eqb_spec c quote_char) as [->|Hq].
  { rewrite replace_char_app, IH. done. }
  cbn [replace_char]. destruct (Ascii.eqb_spec c dollar) as [->|Hd]; by rewrite IH.
Qed.

Lemma escape_text s : string_text (escape s) s.
Proof.
  rewrite escape_is_once. induction s as [|c s IH]; cbn [escape_once]; [constructor|].
  destruct (special c) eqn:Hc; [by apply body_escape|].
  destruct (not_special c Hc) as [?%Ascii.eqb_neq ?%Ascii.eqb_neq]. by apply body_char.
Qed.

(** ** Numbers *)

Lemma digit_char n : (n < 10)%N →
  isdigit (pretty_N_char n) = true ∧ digit_value (pretty_N_char n) = Z.of_N n.
Proof.
  intros Hn. assert (n = 0 ∨ n = 1 ∨ n = 2 ∨ n = 3 ∨ n = 4 ∨ n = 5 ∨ n = 6 ∨ n = 7 ∨ n = 8
    ∨ n = 9)%N as H by lia.
  repeat destruct H as [->|H]; try done. by subst.
Qed.

(** [pretty_N_go] writes the digits of [n] in front of [s]. *)
Lemma pretty_N_go_spec n s :
  ∃ digits, pretty_N_go n s = digits +:+ s ∧ string_forall isdigit digits = true ∧
    digits_value 0 (pretty_N_go n s) = digits_value (Z.of_N n) s ∧ (n ≠ 0%N → digits ≠ "").
Proof.
  revert s. induction (N.lt_wf_0 n) as [n _ IH]. intros s.
  destruct (decide (n = 0%N)) as [->|Hn].
  { exists "". by rewrite pretty_N_go_0. }
  rewrite pretty_N_go_step by lia.
  destruct (IH (n `div` 10)%N ltac:(apply N.div_lt; lia)
    (String (pretty_N_char (n `mod` 10)) s)) as (ds & -> & Hds & Hv & _).
  destruct (digit_char (n `mod` 10)) as [Hdigit Hvalue]; [by apply N.mod_lt|].
  exists (ds +:+ String (pretty_N_char (n `mod` 10)) ""). split_and!.
  - by str_simp.
  - rewrite string_forall_app, Hds. cbn. by rewrite Hdigit.
  - rewrite Hv. cbn [digits_value]. rewrite Hvalue. f_equal.
    rewrite (N.div_mod' n 10) at 3. lia.
  - intros _ H. by destruct ds.
Qed.

Lemma pretty_N_digits n :
  ∃ c s, pretty n = String c s ∧ string_forall isdigit (pretty n) = true ∧
    digits_value 0 (pretty n) = Z.of_N n.
Proof.
  unfold pretty, pretty_N. destruct (decide (n = 0%N)) as [->|Hn]; [by do 2 eexists|].
  destruct (pretty_N_go_spec n "") as (ds & Heq & Hds & Hv & Hne). rewrite Hv, Heq.
  rewrite append_empty_r. destruct ds as [|c ds]; [by destruct (Hne Hn)|]. by exists c, ds.
Qed.

Lemma pretty_number z : number (pretty z) ∧ int_of (pretty z) = z.
Proof.
  unfold pretty at 1 2, pretty_Z. assert (∀ n, number (pretty n) ∧ int_of (pretty n) = Z.of_N n)
    as Hpos.
  { intros n. destruct (pretty_N_digits n) as (c & s & Heq & Hd & Hv). rewrite Heq in *.
    cbn in Hd. apply andb_prop in Hd as [Hc Hs]. split.
    - split; [by apply isdigit_or_minus|]. split; [done|]. intros [= -> ->]. done.
    - unfold int_of. destruct (Ascii.eqb_spec c "-"%char) as [->|]; done. }
  destruct z as [|p|p]; [done| |].
  - exact (Hpos (N.pos p)).
  - destruct (pretty_N_digits (N.pos p)) as (c & s & Heq & Hd & Hv).
    rewrite append_cons, append_nil. change (pretty p) with (pretty (N.pos p)). split.
    + split; [done|]. split; [done|]. intros [= H]. by rewrite H in Heq.
    + cbn [int_of]. rewrite Ascii.eqb_refl, Hv. lia.
Qed.

(** ** Values *)

(** Values without dicts and other objects, and those of them that can be
    printed. *)
Fixpoint simple (v : GNValue) : bool :=
  match v with
  | GList l => forallb simple l
  | GDict _ | GOther => false
  | _ => true
  end.
Fixpoint printable (v : GNValue) : bool :=
  match v with
  | GString s => negb (contains line_feed s)
  | GBool _ => true
  | GInt z => is_int z
  | GList l => forallb printable l
  | GDict _ | GOther => false
  end.

Section value_ind.
Context (Q : GNValue → Prop)
  (Hstring : ∀ s, Q (GString s)) (Hbool : ∀ b, Q (GBool b)) (Hint : ∀ z, Q (GInt z))
  (Hlist : ∀ l, Forall Q l → Q (GList l)) (Hdict : ∀ items, Q (GDict items))
  (Hother : Q GOther).

Fixpoint GNValue_ind2 (v : GNValue) : Q v :=
  match v with
  | GString s => Hstring s
  | GBool b => Hbool b
  | GInt z => Hint z
  | GList l => Hlist l ((fix go l := match l return Forall Q l with
                         | [] => Forall_nil_2 Q
                         | v :: l => Forall_cons_2 Q v l (GNValue_ind2 v) (go l)
                         end) l)
  | GDict items => Hdict items
  | GOther => Hother
  end.
End value_ind.

(** The printed items of a list, between its blanks. *)
Lemma printed_items strs vs :
  Forall2 gn_text strs vs → vs ≠ [] → gn_items (String.concat ", " strs +:+ " ") vs.
Proof.
  induction 1 as [|t v strs vs Ht Hts IH]; [done|]. intros _.
  destruct Hts as [|t' v' strs vs Ht' Hts].
  - by constructor.
  - change (String.concat ", " (t :: t' :: strs)) with (t +:+ ", " +:+ String.concat ", " (t' :: strs)).
    replace ((t +:+ ", " +:+ String.concat ", " (t' :: strs)) +:+ " ")
      with (t +:+ "" +:+ "," +:+ " " +:+ (String.concat ", " (t' :: strs) +:+ " ")) by by str_simp.
    apply items_cons; [done..|]. by apply IH.
Qed.

Lemma printed_list strs vs :
  Forall2 gn_text strs vs → gn_text ("[ " +:+ String.concat ", " strs +:+ " ]") (GList vs).
Proof.
  intros Hvs. destruct (decide (vs = [])) as [->|Hne].
  - apply Forall2_nil_inv_r in Hvs as ->. exact (text_list "  " "" [] eq_refl items_nil).
  - replace ("[ " +:+ String.concat ", " strs +:+ " ]")
      with ("[" +:+ " " +:+ (String.concat ", " strs +:+ " ") +:+ "]") by by str_simp.
    apply text_list; [done|]. by apply printed_items.
Qed.

(** A list of values is printed item by item or not at all. *)
Lemma print_list l :
  Forall (λ v, simple v = true → ∀ b,
    match ToGNString v b with
    | Ok s => printable v = true ∧ gn_text s v
    | Raise e => printable v = false ∧ ∃ message, e = GNException message
    end) l → forallb simple l = true →
  match mapM (λ v, ToGNString v true) l with
  | Ok strs => forallb printable l = true ∧ Forall2 gn_text strs l
  | Raise e => forallb printable l = false ∧ ∃ message, e = GNException message
  end.
Proof.
  induction 1 as [|v l Hv _ IH]; [by repeat constructor|].
  cbn [forallb]. intros [Hsv Hsl]%andb_prop. rewrite mapM_outcome_cons.
  specialize (Hv Hsv true). destruct (ToGNString v true) as [s|e]; cbn [mbind outcome_bind].
  - destruct Hv as [-> Hs]. specialize (IH Hsl). destruct (mapM _ l) as [strs|e]; cbn; [|done].
    destruct IH as [-> Hstrs]. by repeat constructor.
  - destruct Hv as [-> He]. done.
Qed.

Lemma print_value v : simple v = true → ∀ b,
  match ToGNString v b with
  | Ok s => printable v = true ∧ gn_text s v
  | Raise e => printable v = false ∧ ∃ message, e = GNException message
  end.
Proof.
  induction v as [s|b'|z|l IH|items|] using GNValue_ind2; intros Hv b; try discriminate Hv;
    cbn [ToGNString printable].
  - destruct (contains line_feed s); [by split; [|eexists]|]. split; [done|].
    apply text_string, escape_text.
  - destruct b'; split; constructor.
  - destruct (is_int z); [|by split; [|eexists]]. split; [done|].
    destruct (pretty_number z) as [Hn Hz]. pose proof (text_number _ Hn) as Ht. by rewrite Hz in Ht.
  - pose proof (print_list l IH Hv) as Hl. destruct (mapM _ l) as [strs|e]; cbn; [|done].
    destruct Hl as [-> Hstrs]. split; [done|]. by apply printed_list.
Qed.

(** Printing and parsing a value.  A value made of strings, booleans, numbers
    and lists is printed exactly when no string in it has a newline and every
    number fits the machine word; what is printed parses back to the value, with
    any blanks around it, and otherwise [GNException] is raised. *)
Theorem ToGNString_FromGNString v allow_dicts :
  simple v = true →
  match ToGNString v allow_dicts with
  | Ok s => printable v = true ∧
      ∀ w w', whitespace w → whitespace w' → FromGNString (w +:+ s +:+ w') = Ok v
  | Raise e => printable v = false ∧ ∃ message, e = GNException message
  end.
Proof.
  intros Hv. pose proof (print_value v Hv allow_dicts) as Hp.
  destruct (ToGNString v allow_dicts) as [s|e]; [|exact Hp]. destruct Hp as [Hp Hs].
  split; [done|]. intros w w' Hw Hw'. apply FromGNString_grammar. eauto 10.
Qed.
