(* ===== verification/GnArgs.v ===== *)
(** Lists of GN arguments: [FromGNArgs] of gn_helpers.py always stops, and reads
    back the dicts that [ToGNString] prints. *)

From Stdlib Require Import Ascii String.
From stdpp Require Import sorting.
From S2P Require Import Prelude PyPath GnHelpers GnRuns GnGrammar GnRoundTrip.

#[local] Open Scope string_scope.
#[local] Open Scope list_scope.

(** ** Identifiers *)

Definition ident_start (c : ascii) : bool := isalpha c || Ascii.eqb c "_"%char.
Definition ident_char (c : ascii) : bool := isalpha c || isdigit c || Ascii.eqb c "_"%char.
Definition identifier (s : string) : bool :=
  match s with
  | EmptyString => false
  | String c s => ident_start c && string_forall ident_char s
  end.

Lemma ident_start_not_space c : ident_start c = true → is_space c = false.
Proof. intros H. by destruct c as [[] [] [] [] [] [] [] []]. Qed.
Lemma ident_not_start c :
  ident_start c = negb (negb (isalpha c) && negb (Ascii.eqb c "_"%char)).
Proof. unfold ident_start. by rewrite negb_andb, !negb_involutive. Qed.

Lemma ident_loop f fuel pre rest :
  (String.length rest < fuel)%nat →
  while fuel (c ← char_here; mret (f c)) advance (at_ pre rest) =
    match snd (span f rest) with
    | EmptyString => (Raise IndexError, at_ (pre +:+ rest) "")
    | _ => (Ok (), at_ (pre +:+ fst (span f rest)) (snd (span f rest)))
    end.
Proof.
  revert fuel pre. induction rest as [|c rest IH]; intros [|fuel] pre Hfuel; cbn in Hfuel;
    try lia; cbn [while]; rewrite M_bind_assoc, run_bind.
  { rewrite char_here_end. by rewrite append_empty_r. }
  rewrite char_here_at, bind_ret. cbn [span]. destruct (f c); cbn [fst snd].
  - rewrite run_bind, advance_at, IH by lia. by destruct (snd _); str_simp.
  - by rewrite append_empty_r.
Qed.

(** An identifier at the end of the input raises [IndexError]. *)
Lemma ParseIdent_at pre rest :
  match rest with
  | EmptyString => ParseIdent (at_ pre rest) = (Raise IndexError, at_ pre rest)
  | String c rest' =>
      if ident_start c then
        let s := String c (fst (span ident_char rest')) in
        match snd (span ident_char rest') with
        | EmptyString => fst (ParseIdent (at_ pre rest)) = Raise IndexError
        | rest'' => ParseIdent (at_ pre rest) = (Ok s, at_ (pre +:+ s) rest'')
        end
      else refuses (ParseIdent (at_ pre rest))
  end.
Proof.
  destruct rest as [|c rest]; unfold ParseIdent; rewrite run_bind;
    [by rewrite char_here_end|rewrite char_here_at].
  rewrite ident_not_start. destruct (negb (isalpha c) && _); cbn [negb]; [apply refuses_here|].
  cbv zeta. rewrite bind_gets, run_bind, advance_at, bind_gets.
  pose proof (ident_loop ident_char (loop_fuel (at_ (pre +:+ String c "") rest))
    (pre +:+ String c "") rest (loop_fuel_at _ _)) as Hloop.
  rewrite run_bind. unfold ident_char in Hloop at 1. rewrite Hloop.
  destruct (snd (span ident_char rest)) as [|d rest'] eqn:Hrest; [done|].
  unfold gets. f_equal; [|by str_simp]. f_equal.
  replace ((pre +:+ String c "") +:+ fst (span ident_char rest))
    with (pre +:+ String c (fst (span ident_char rest))) by by str_simp.
  apply slice_at.
Qed.

Lemma ParseIdent_identifier pre k rest :
  identifier k = true → stops ident_char rest → rest ≠ "" →
  ParseIdent (at_ pre (k +:+ rest)) = (Ok k, at_ (pre +:+ k) rest).
Proof.
  destruct k as [|c k]; [done|]. intros [Hc Hk]%andb_prop Hrest Hne.
  rewrite append_cons. pose proof (ParseIdent_at pre (String c (k +:+ rest))) as H.
  cbn in H. rewrite Hc, (span_app ident_char k rest) in H by done. by destruct rest.
Qed.

(** ** The loop *)

(** What [FromGNArgs] may raise. *)
Definition args_error (e : exn) : Prop := e = IndexError ∨ ∃ message, e = GNException message.

Lemma args_error_refuses {A} (r : outcome A * GNValueParser) e :
  refuses r → fst r = Raise e → args_error e.
Proof. intros [s ->] [= <-]. right. by eexists. Qed.

Lemma args_loop_stops fuel d pre rest :
  (String.length rest < fuel)%nat →
  match args_loop fuel d (at_ pre rest) with
  | (Ok _, _) => True
  | (Raise e, _) => args_error e
  end.
Proof.
  revert d pre rest. induction fuel as [|fuel IH]; intros d pre rest Hfuel; [lia|].
  cbn [args_loop]. rewrite run_bind, IsDone_at.
  destruct rest as [|c rest]; cbn [String.eqb]; [done|].
  pose proof (ParseIdent_at pre (String c rest)) as Hident. rewrite run_bind.
  cbv beta iota zeta in Hident.
  destruct (ident_start c).
  2: { destruct Hident as [s Hs]. rewrite (run_fst _ _ _ Hs). right. by eexists. }
  pose proof (span_append ident_char rest) as Hsplit.
  destruct (snd (span ident_char rest)) as [|d' rest'].
  { rewrite (run_fst _ _ _ Hident). by left. }
  rewrite Hident, run_bind, ConsumeWhitespace_at.
  pose proof (span_append is_space (String d' rest')) as Hsplit1.
  destruct (snd (span is_space (String d' rest'))) as [|e rest1].
  { rewrite run_bind, char_here_end. by left. }
  rewrite run_bind, char_here_at. destruct (negb _).
  { destruct (refuses_here (A:=gmap string GNValue) "Unexpected token: "
      (at_ ((pre +:+ String c (fst (span ident_char rest)))
              +:+ fst (span is_space (String d' rest'))) (String e rest1))) as [s Hs].
    rewrite (run_fst _ _ _ Hs). right. by eexists. }
  rewrite run_bind, advance_at, run_bind, ConsumeWhitespace_at.
  pose proof (span_append is_space rest1) as Hsplit2.
  rewrite run_bind. match goal with |- context [ParseValue (at_ ?p ?r)] =>
    pose proof (ParseValue_reads p r) as Hv end.
  destruct (ParseValue _) as [[v|err] p']; [|by right].
  destruct Hv as (w & t & rest2 & Hrest2 & _ & _ & ->). rewrite run_bind, ConsumeWhitespace_at.
  pose proof (span_append is_space rest2) as Hsplit3. apply IH.
  apply (f_equal String.length) in Hsplit, Hsplit1, Hsplit2, Hsplit3, Hrest2.
  rewrite ?length_append in *. cbn in *. lia.
Qed.

Lemma ConsumeWhitespace_char pre c rest :
  is_space c = true → stops is_space rest →
  ConsumeWhitespace (at_ pre (String c rest)) = (Ok (), at_ (pre +:+ String c "") rest).
Proof.
  intros Hc Hrest. apply (ConsumeWhitespace_app pre (String c "")); [|done].
  cbn. by rewrite Hc.
Qed.

(** A printed line. *)
Definition line (key text : string) : string := key +:+ " = " +:+ text +:+ line_feed.

Lemma args_loop_lines fuel d pre (lines : list (string * string * GNValue)) :
  Forall (λ '(k, t, v), identifier k = true ∧ gn_text t v) lines →
  (length lines < fuel)%nat →
  fst (args_loop fuel d
    (at_ pre (String.concat "" ((λ '(k, t, _), line k t) <$> lines)))) =
    Ok (foldl (λ d '(k, _, v), <[k := v]> d) d lines).
Proof.
  intros Hlines. revert fuel d pre. induction Hlines as [|[[k t] v] lines [Hk Ht] Hlines IH];
    intros [|fuel] d pre Hfuel; cbn in Hfuel; try lia; cbn [args_loop]; rewrite run_bind, IsDone_at.
  { done. }
  set (more := String.concat "" ((λ '(k, t, _), line k t) <$> lines)).
  assert (String.concat "" ((λ '(k, t, _), line k t) <$> (k, t, v) :: lines) =
    k +:+ String " " (String "=" (String " " (t +:+ String (ascii_of_nat 10) more)))) as ->.
  { unfold more. rewrite fmap_cons. unfold line, line_feed. destruct lines as [|[[k' t'] v'] lines].
    - cbn. by str_simp.
    - rewrite !fmap_cons. cbn [String.concat]. by str_simp. }
  assert (stops is_space more) as Hmore.
  { unfold more. destruct Hlines as [|[[[|c k'] t'] v'] lines [Hk' _] _]; [done..|].
    apply andb_prop in Hk' as [Hc _]. rewrite fmap_cons. apply ident_start_not_space in Hc.
    cbn. destruct (_ <$> lines); exact Hc. }
  destruct (String.eqb_spec (k +:+ String " " (String "=" (String " "
    (t +:+ String (ascii_of_nat 10) more)))) "") as [Hempty|_]; [by destruct k|].
  rewrite run_bind, ParseIdent_identifier by done.
  rewrite run_bind, (ConsumeWhitespace_char _ " "%char) by done.
  rewrite run_bind, char_here_at. rewrite Ascii.eqb_refl. cbn [negb].
  destruct (gn_text_head t v Ht) as (c & t' & Heq & Hc & _).
  rewrite run_bind, advance_at, run_bind, (ConsumeWhitespace_char _ " "%char) by (done || by rewrite Heq).
  pose proof (ParseValue_complete ((((pre +:+ k) +:+ " ") +:+ String "=" "") +:+ " ") "" t v
    (String (ascii_of_nat 10) more) eq_refl Ht eq_refl) as Hv.
  rewrite append_nil in Hv. rewrite run_bind, Hv.
  rewrite run_bind, ConsumeWhitespace_char by done. apply IH. lia.
Qed.

(** ** Dicts *)

(** The dict as [ToGNString] takes it. *)
Definition as_items (items : list (string * GNValue)) : list (GNKey * GNValue) :=
  (λ '(key, v), (KeyStr key, v)) <$> items.

Lemma dict_lines (items : list (string * GNValue)) :
  Forall (λ '(key, v), simple v = true ∧ printable v = true) items →
  ∃ lines : list (string * string * GNValue),
    mapM dict_line ((λ '(key, v), (KeyStr key, ToGNString v false)) <$> items) =
      Ok ((λ '(k, t, _), line k t) <$> lines) ∧
    (λ '(k, _, v), (k, v)) <$> lines = items ∧
    Forall (λ '(_, t, v), gn_text t v) lines.
Proof.
  induction 1 as [|[k v] items [Hs Hp] _ (lines & IH & Hkeys & Htexts)]; [by exists []|].
  pose proof (print_value v Hs false) as Hv. rewrite fmap_cons, mapM_outcome_cons.
  destruct (ToGNString v false) as [t|e]; [|destruct Hv; congruence].
  exists ((k, t, v) :: lines). rewrite IH, !fmap_cons, Hkeys. cbn. split_and!; [|done|].
  - done.
  - constructor; [apply Hv|done].
Qed.

Lemma foldl_insert_lines (lines : list (string * string * GNValue)) (items : list (string * GNValue)) :
  (λ '(k, _, v), (k, v)) <$> lines ≡ₚ items → NoDup items.*1 →
  foldl (λ d '(k, _, v), <[k := v]> d) ∅ lines = (list_to_map items : gmap string GNValue).
Proof.
  intros Hperm Hdup.
  assert (∀ d : gmap string GNValue, foldl (λ d '(k, _, v), <[k := v]> d) d lines =
    list_to_map (rev ((λ '(k, _, v), (k, v)) <$> lines)) ∪ d) as ->.
  { clear. induction lines as [|[[k t] v] lines IH]; intros d; [cbn; by rewrite (left_id_L ∅ (∪))|].
    cbn [foldl]. rewrite fmap_cons, IH. cbn [rev]. rewrite list_to_map_app.
    cbn. by rewrite <- map_union_assoc, <- insert_union_l, (left_id_L ∅ (∪)). }
  rewrite (right_id_L ∅ (∪)). apply list_to_map_proper.
  - by rewrite <- Permutation_rev, Hperm.
  - by rewrite <- Permutation_rev.
Qed.

Lemma length_concat x (l : list string) :
  (String.length x + String.length (String.concat "" l) <= String.length (String.concat "" (x :: l)))%nat.
Proof. destruct l as [|y l]; cbn [String.concat]; rewrite ?length_append; cbn; lia. Qed.

(** A line has a character at least. *)
Lemma length_lines (lines : list (string * string * GNValue)) :
  (length lines <= String.length (String.concat "" ((λ '(k, t, _), line k t) <$> lines)))%nat.
Proof.
  induction lines as [|[[k t] v] lines IH]; [cbn; lia|]. rewrite fmap_cons.
  pose proof (length_concat (line k t) ((λ '(k, t, _), line k t) <$> lines)) as Hconcat.
  change (line k t) with (k +:+ " = " +:+ t +:+ line_feed) in Hconcat at 1.
  rewrite !length_append in Hconcat. cbn in *. lia.
Qed.

(** C31: Printing a dict and parsing it as arguments.  A dict whose keys are
    identifiers and whose values can be printed is printed as one line per key, in
    the order of the keys, and [FromGNArgs] reads the same dict back.  On any other
    input [FromGNArgs] stops too: it raises [GNException], or [IndexError] where
    the code indexes the input at its end. *)
Theorem FromGNArgs_ToGNString :
  (∀ items : list (string * GNValue),
     NoDup items.*1 →
     Forall (λ '(key, v), identifier key = true ∧ simple v = true ∧ printable v = true) items →
     ∃ s, ToGNString (GDict (as_items items)) true = Ok s ∧
       FromGNArgs s = Ok (list_to_map items)) ∧
  (∀ input, (∃ d, FromGNArgs input = Ok d) ∨ ∃ e, FromGNArgs input = Raise e ∧ args_error e).
Proof.
  split.
  - intros items Hdup Hitems. cbn [ToGNString negb].
    set (L := _ <$> as_items items).
    assert (L = (λ '(key, v), (KeyStr key, ToGNString v false)) <$> items) as HL.
    { unfold L, as_items. rewrite <- list_fmap_compose. apply list_fmap_ext. by intros ? []. }
    assert (merge_sort item_le L ≡ₚ map (λ '(key, v), (KeyStr key, ToGNString v false)) items)
      as Hperm by by rewrite merge_sort_Permutation, HL.
    apply Permutation_map_inv in Hperm as (sorted_items & Hsorted & Hperm).
    rewrite Hsorted. change (map ?f ?l) with (f <$> l).
    rewrite Hperm in Hitems.
    destruct (dict_lines sorted_items) as (lines & -> & Hkeys & Htexts).
    { eapply Forall_impl; [exact Hitems|]. by intros [? ?] (_ & ? & ?). }
    eexists. split; [reflexivity|]. unfold FromGNArgs, ParseArgs. rewrite at_start.
    rewrite run_bind, ConsumeWhitespace_none.
    2: { rewrite <- Hkeys in Hitems. destruct lines as [|[[[|c k] t] v] lines]; [done|..];
           rewrite fmap_cons in *; apply Forall_cons in Hitems as [[Hk _] _]; [done|].
         apply andb_prop in Hk as [Hc _]. apply ident_start_not_space in Hc.
         cbn. destruct (_ <$> lines); exact Hc. }
    rewrite bind_gets, args_loop_lines.
    + f_equal. apply foldl_insert_lines; [|done]. by rewrite Hkeys, Hperm.
    + rewrite <- Hkeys in Hitems. apply Forall_fmap in Hitems.
      eapply Forall_impl; [exact (proj2 (Forall_and _ _) (conj Hitems Htexts))|].
      intros [[k t] v] [(? & _ & _) ?]. done.
    + unfold loop_fuel, at_. cbn [input]. pose proof (length_lines lines). rewrite append_nil. lia.
  - intros input. unfold FromGNArgs, ParseArgs. rewrite at_start, run_bind, ConsumeWhitespace_at.
    rewrite bind_gets.
    pose proof (args_loop_stops (loop_fuel (at_ ("" +:+ fst (span is_space input))
      (snd (span is_space input)))) ∅ ("" +:+ fst (span is_space input))
      (snd (span is_space input)) (loop_fuel_at _ _)) as Hstop.
    destruct (args_loop _ _ _) as [[d|e] p]; eauto.
Qed.

(** ** Findings *)

(** The end of the input inside an assignment is not an error of the parser. *)
Lemma FromGNArgs_cut_off :
  FromGNArgs "foo" = Raise IndexError ∧ FromGNArgs "foo " = Raise IndexError.
Proof. split; reflexivity. Qed.

(** A dict inside a list is printed, and the text is no value. *)
Lemma nested_scope_printed :
  ∃ s message,
    ToGNString (GList [GDict [(KeyStr "a", GInt 1)]]) true = Ok s ∧
    FromGNString s = Raise (GNException message).
Proof. do 2 eexists. split; reflexivity. Qed.

(** ** The examples of gn_helpers_unittest.py *)

Lemma test_ToGNString :
  ToGNString (GList [GInt 1; GString "two";
                     GList [GString (double_quote +:+ "thr$\"); GBool true; GBool false; GList []]])
    true =
  Ok ("[ 1, " +:+ quote "two" +:+ ", [ " +:+ quote ("\" +:+ double_quote +:+ "thr\$\\")
        +:+ ", true, false, [  ] ] ]").
Proof. vm_compute. reflexivity. Qed.

Lemma test_UnescapeGNString :
  UnescapeGNString ("\as\$\\asd\" +:+ double_quote) = "\as$\asd" +:+ double_quote.
Proof. reflexivity. Qed.

Lemma test_FromGNString :
  FromGNString ("[1, -20, true, false,[" +:+ quote ("as\" +:+ double_quote) +:+ ", []]]") =
    Ok (GList [GInt 1; GInt (-20); GBool true; GBool false;
               GList [GString ("as" +:+ double_quote); GList []]]) ∧
  FromGNString "123 456" =
    Raise (GNException ("Trailing input after parsing:" +:+ line_feed +:+ "  456")) ∧
  FromGNString "[1,]" = Ok (GList [GInt 1]) ∧
  FromGNString "[1 2]" = Raise (GNException "List items not separated by comma.").
Proof. split_and!; vm_compute; reflexivity. Qed.

Lemma test_FromGNArgs :
  FromGNArgs ("foo = true" +:+ line_feed +:+ "bar = 1" +:+ line_feed) =
    Ok {["foo" := GBool true; "bar" := GInt 1]} ∧
  FromGNArgs "foo=[1, 2, 3]" = Ok {["foo" := GList [GInt 1; GInt 2; GInt 3]]} ∧
  FromGNArgs "foo = bar" = Raise (GNException "Unexpected token: bar") ∧
  FromGNArgs "_foo = true" = Ok {["_foo" := GBool true]}.
Proof. split_and!; vm_compute; reflexivity. Qed.

(** ** Witnesses *)

Lemma ToGNString_FromGNString_witness :
  ToGNString (GList [GString "a$b"; GInt (-7); GList []]) true =
    Ok ("[ " +:+ quote "a\$b" +:+ ", -7, [  ] ]") ∧
  FromGNString (" " +:+ ("[ " +:+ quote "a\$b" +:+ ", -7, [  ] ]") +:+ "") =
    Ok (GList [GString "a$b"; GInt (-7); GList []]).
Proof.
  split; [reflexivity|].
  exact (proj2 (ToGNString_FromGNString (GList [GString "a$b"; GInt (-7); GList []]) true eq_refl)
    " " "" eq_refl eq_refl).
Defined.

Lemma FromGNArgs_ToGNString_witness :
  let items := [("b", GInt 1); ("a_2", GList [GString "x"])] in
  ToGNString (GDict (as_items items)) true =
    Ok ("a_2 = [ " +:+ quote "x" +:+ " ]" +:+ line_feed +:+ "b = 1" +:+ line_feed) ∧
  ∃ s, ToGNString (GDict (as_items items)) true = Ok s ∧ FromGNArgs s = Ok (list_to_map items).
Proof.
  intros items. split; [reflexivity|].
  refine (proj1 FromGNArgs_ToGNString items _ _).
  - apply (bool_decide_unpack _). vm_compute. exact I.
  - repeat (constructor; [by split_and!|]). constructor.
Defined.
