(* ===== verification/DataPack.v ===== *)
(** data_pack.py, src/src/tools/grit/grit/format/data_pack.py: the files that
    hold the resources of a program, a version, an index of offsets and the data.

    The contents of a file are a byte string; what [Format] collects from the tree
    of resources is the list of identifiers and values its nodes answer. *)

From stdpp Require Import sorting fin_map_dom.
From S2P Require Import Prelude PyStruct.

#[local] Open Scope Z_scope.

Definition PACK_FILE_VERSION : Z := 4.
Definition HEADER_LENGTH : Z := 2 * 4 + 1.
Definition BINARY : Z := 0.
Definition UTF8 : Z := 1.
Definition UTF16 : Z := 2.

Record DataPackContents := mkContents { resources : gmap Z bytes; encoding : Z }.

(** [l[a:b]] for positions that are not negative. *)
Definition py_slice {A} (a b : Z) (l : list A) : list A :=
  take (Z.to_nat b - Z.to_nat a) (drop (Z.to_nat a) l).

(** ** Writing *)

Definition sorted_ids (r : gmap Z bytes) : list Z := merge_sort (≤) (map_to_list r).*1.

(** The loop over the index: its bytes, and the offset behind the data. *)
Fixpoint write_index (r : gmap Z bytes) (ids : list Z) (data_offset : Z) :
    outcome (bytes * Z) :=
  match ids with
  | [] => Ok ([], data_offset)
  | id :: ids =>
      entry ← struct_pack "<HI" [VInt id; VInt data_offset];
      '(entries, end_offset) ←
        write_index r ids (data_offset + py_len (default [] (r !! id)));
      Ok (entry ++ entries, end_offset)
  end.

Definition WriteDataPackToString (r : gmap Z bytes) (encoding : Z) : outcome bytes :=
  let ids := sorted_ids r in
  header ← struct_pack "<IIB" [VInt PACK_FILE_VERSION; VInt (py_len ids); VInt encoding];
  let index_length := (py_len ids + 1) * (2 + 4) in
  '(index, data_offset) ← write_index r ids (HEADER_LENGTH + index_length);
  last_entry ← struct_pack "<HI" [VInt 0; VInt data_offset];
  Ok (header ++ index ++ last_entry ++ concat ((λ id, default [] (r !! id)) <$> ids)).

(** ** Reading *)

Definition kIndexEntrySize : Z := 2 + 4.

(** The two numbers of an entry of the index. *)
Definition read_entry (data : bytes) : outcome (Z * Z) :=
  fields ← struct_unpack "<HI" (py_prefix kIndexEntrySize data);
  match fields with
  | [VInt id; VInt offset] => Ok (id, offset)
  | _ => Raise StructError
  end.

Fixpoint read_index (num_entries : nat) (original_data data : bytes) (r : gmap Z bytes) :
    outcome (gmap Z bytes) :=
  match num_entries with
  | O => Ok r
  | S num_entries =>
      '(id, offset) ← read_entry data;
      let data := drop (Z.to_nat kIndexEntrySize) data in
      '(next_id, next_offset) ← read_entry data;
      read_index num_entries original_data data
        (<[id := py_slice offset next_offset original_data]> r)
  end.

Definition ReadDataPack (data : bytes) : outcome DataPackContents :=
  header ← struct_unpack "<IIB" (py_prefix HEADER_LENGTH data);
  match header with
  | [VInt version; VInt num_entries; VInt encoding] =>
      if negb (version =? PACK_FILE_VERSION) then Raise WrongFileVersion
      else if num_entries =? 0 then Ok (mkContents ∅ encoding)
      else
        r ← read_index (Z.to_nat num_entries) data (drop (Z.to_nat HEADER_LENGTH) data) ∅;
        Ok (mkContents r encoding)
  | _ => Raise StructError
  end.

(** ** Combining *)

(** The resources of a pack a whitelist keeps; no whitelist and an empty one keep
    all. *)
Definition kept (whitelist : option (gset Z)) (r : gmap Z bytes) : gmap Z bytes :=
  match whitelist with
  | None => r
  | Some w => if decide (w = ∅) then r else filter (λ x, fst x ∈ w) r
  end.

(** The loop, over the resources and the encoding collected so far. *)
Fixpoint repack_loop (whitelist : option (gset Z)) (inputs : list DataPackContents)
    (r : gmap Z bytes) (encoding_ : option Z) : outcome (gmap Z bytes * option Z) :=
  match inputs with
  | [] => Ok (r, encoding_)
  | content :: inputs =>
      if negb (bool_decide (dom (resources content) ∩ dom r = ∅)) then Raise KeyError
      else
        encoding_ ←
          match encoding_ with
          | None => Ok (encoding content)
          | Some e =>
              if e =? BINARY then Ok (encoding content)
              else if negb (encoding content =? BINARY) && negb (encoding content =? e)
              then Raise KeyError
              else Ok e
          end;
        repack_loop whitelist inputs (kept whitelist (resources content) ∪ r) (Some encoding_)
  end.

Definition RePackFromDataPackStrings (inputs : list DataPackContents)
    (whitelist : option (gset Z)) : outcome DataPackContents :=
  '(r, e) ← repack_loop whitelist inputs ∅ None;
  Ok (mkContents r (default BINARY e)).

(** [RePack], from the contents of the input files and the numbers of the
    whitelist file to the contents of the output file. *)
Definition RePack (input_files : list bytes) (whitelist : option (list Z)) : outcome bytes :=
  input_data_packs ← mapM ReadDataPack input_files;
  contents ← RePackFromDataPackStrings input_data_packs (list_to_set <$> whitelist);
  WriteDataPackToString (resources contents) (encoding contents).

(** [Format]: the pairs that the include, message and structure nodes answer to
    [GetDataPackPair], in the order of the walk. *)
Definition Format (pairs : list (Z * option bytes)) : outcome bytes :=
  WriteDataPackToString
    (foldl (λ data '(id, value),
              match value with Some value => <[id := value]> data | None => data end)
       ∅ pairs) UTF8.
