(* ===== verification/DataPackLaws.v ===== *)
(** What data_pack.py guarantees: a pack that is written reads back, and packs
    combine to the union of their resources. *)

From stdpp Require Import sorting fin_map_dom.
From S2P Require Import Prelude PyStruct DataPack.

#[local] Open Scope Z_scope.

Abbreviation value_of r id := (default [] (r !! id)) (only parsing).

(** ** Entries *)

Definition in_width (n : nat) (z : Z) : Prop := 0 <= z < 256 ^ Z.of_nat n.

Lemma pack_uint_cases n z :
  (pack_uint n z = Ok (le_split n z) ∧ in_width n z) ∨
  (pack_uint n z = Raise StructError ∧ ¬ in_width n z).
Proof.
  unfold pack_uint, in_width.
  destruct (Z.leb_spec 0 z); destruct (Z.ltb_spec z (256 ^ Z.of_nat n)); cbn; naive_solver lia.
Qed.

Lemma pack_HI id offset :
  (struct_pack "<HI" [VInt id; VInt offset] = Ok (le_split 2 id ++ le_split 4 offset) ∧
     in_width 2 id ∧ in_width 4 offset) ∨
  (struct_pack "<HI" [VInt id; VInt offset] = Raise StructError ∧
     ¬ (in_width 2 id ∧ in_width 4 offset)).
Proof.
  change (struct_pack "<HI" [VInt id; VInt offset]) with
    (x ← pack_uint 2 id; y ← (z ← pack_uint 4 offset; w ← Ok []; Ok (z ++ w)); Ok (x ++ y)).
  destruct (pack_uint_cases 2 id) as [[-> ?]|[-> ?]]; cbn [mbind outcome_bind]; [|naive_solver].
  destruct (pack_uint_cases 4 offset) as [[-> ?]|[-> ?]]; cbn [mbind outcome_bind]; [|naive_solver].
  left. by rewrite app_nil_r.
Qed.

Lemma pack_IIB a b c :
  (struct_pack "<IIB" [VInt a; VInt b; VInt c] =
     Ok (le_split 4 a ++ le_split 4 b ++ le_split 1 c) ∧
     in_width 4 a ∧ in_width 4 b ∧ in_width 1 c) ∨
  (struct_pack "<IIB" [VInt a; VInt b; VInt c] = Raise StructError ∧
     ¬ (in_width 4 a ∧ in_width 4 b ∧ in_width 1 c)).
Proof.
  change (struct_pack "<IIB" [VInt a; VInt b; VInt c]) with
    (x ← pack_uint 4 a;
     y ← (x ← pack_uint 4 b; y ← (x ← pack_uint 1 c; y ← Ok []; Ok (x ++ y)); Ok (x ++ y));
     Ok (x ++ y)).
  destruct (pack_uint_cases 4 a) as [[-> ?]|[-> ?]]; cbn [mbind outcome_bind]; [|naive_solver].
  destruct (pack_uint_cases 4 b) as [[-> ?]|[-> ?]]; cbn [mbind outcome_bind]; [|naive_solver].
  destruct (pack_uint_cases 1 c) as [[-> ?]|[-> ?]]; cbn [mbind outcome_bind]; [|naive_solver].
  left. by rewrite app_nil_r.
Qed.

Lemma read_entry_packed id offset rest :
  in_width 2 id → in_width 4 offset →
  read_entry ((le_split 2 id ++ le_split 4 offset) ++ rest) = Ok (id, offset).
Proof.
  intros Hid Hoff. unfold read_entry, kIndexEntrySize, py_prefix. cbn [Z.ltb].
  change (2 + 4 <? 0) with false. cbv iota.
  rewrite take_app_length' by by rewrite length_app, !length_le_split.
  erewrite (struct_unpack_pack "<HI" [C_H; C_I] [VInt id; VInt offset]); [done|done|done|].
  destruct (pack_HI id offset) as [[-> _]|[_ []]]; done.
Qed.

(** ** The index *)

Definition data_size (r : gmap Z bytes) (ids : list Z) : Z :=
  py_sum ((λ id, py_len (value_of r id)) <$> ids).

Lemma data_size_nonneg r ids : 0 <= data_size r ids.
Proof.
  unfold data_size, py_sum. induction ids as [|id ids IH]; [done|].
  cbn. pose proof (py_len_nonneg (value_of r id)). cbn in IH. lia.
Qed.

Lemma write_index_cases r ids offset :
  0 <= offset →
  match write_index r ids offset with
  | Ok (entries, end_offset) =>
      end_offset = offset + data_size r ids ∧ Forall (in_width 2) ids ∧
      length entries = (6 * length ids)%nat
  | Raise e => e = StructError ∧
      ¬ (Forall (in_width 2) ids ∧ offset + data_size r ids < 256 ^ 4)
  end.
Proof.
  revert offset. induction ids as [|id ids IH]; intros offset Hoff; cbn [write_index].
  { split_and!; [|constructor|done]. change (data_size r []) with 0. lia. }
  change (data_size r (id :: ids)) with (py_len (value_of r id) + data_size r ids).
  pose proof (data_size_nonneg r ids). pose proof (py_len_nonneg (value_of r id)).
  destruct (pack_HI id offset) as [[-> [Hid Hoff']]|[-> Hn]]; cbn [mbind outcome_bind].
  - assert (0 <= offset + py_len (value_of r id)) as Hoff2 by lia. specialize (IH _ Hoff2).
    destruct (write_index r ids _) as [[entries end_offset]|e]; cbn [mbind outcome_bind].
    + destruct IH as (-> & Hids & Hlen). split_and!; [lia|by constructor|].
      rewrite !length_app, !length_le_split, Hlen. cbn [length]. lia.
    + destruct IH as [-> IH]. split; [done|]. intros [Hids Hsize].
      apply Forall_cons in Hids as [_ Hids]. apply IH. split; [done|lia].
  - split; [done|]. intros [Hids Hsize]. apply Forall_cons in Hids as [Hid _].
    apply Hn. split; [done|]. unfold in_width. change (Z.of_nat 4) with 4. lia.
Qed.

Section read_back.
Context (r : gmap Z bytes) (data tail rest : bytes) (last_id end_offset : Z)
  (Hlast : in_width 2 last_id) (Hend : in_width 4 end_offset).
Let last_entry : bytes := le_split 2 last_id ++ le_split 4 end_offset.

(** The first entry of what remains of the index has the current offset. *)
Lemma first_entry ids offset entries :
  write_index r ids offset = Ok (entries, end_offset) →
  ∃ id, read_entry (entries ++ last_entry ++ rest) = Ok (id, offset).
Proof.
  destruct ids as [|id ids]; cbn [write_index].
  - intros [= <- ->]. exists last_id. by apply read_entry_packed.
  - destruct (pack_HI id offset) as [[-> [Hid Hoff]]|[-> _]]; [|done].
    cbn [mbind outcome_bind]. destruct (write_index r ids _) as [[es e]|]; [|done].
    intros [<- _]%Ok_inj%pair_equal_spec. exists id. rewrite <- app_assoc. by apply read_entry_packed.
Qed.

Lemma read_index_written ids offset entries acc :
  0 <= offset → write_index r ids offset = Ok (entries, end_offset) →
  drop (Z.to_nat offset) data = concat ((λ id, value_of r id) <$> ids) ++ tail →
  read_index (length ids) data (entries ++ last_entry ++ rest) acc =
    Ok (foldl (λ m id, <[id := value_of r id]> m) acc ids).
Proof.
  revert offset entries acc. induction ids as [|id ids IH]; intros offset entries acc Hoff; [done|].
  cbn [write_index length read_index]. destruct (pack_HI id offset) as [[-> [Hid Hoff']]|[-> _]];
    [|done].
  cbn [mbind outcome_bind]. set (offset' := offset + py_len (value_of r id)).
  destruct (write_index r ids offset') as [[entries' e]|] eqn:Hrest; [|done].
  cbn [outcome_bind mbind]. intros [<- ->]%Ok_inj%pair_equal_spec Hdata.
  rewrite <- (app_assoc (_ ++ _)), read_entry_packed by done. cbn [outcome_bind mbind].
  rewrite drop_app_length' by by rewrite length_app, !length_le_split.
  destruct (first_entry ids offset' entries' Hrest) as [id' ->]. cbn [outcome_bind mbind foldl].
  rewrite fmap_cons in Hdata. cbn [concat] in Hdata. rewrite <- app_assoc in Hdata.
  assert (Z.to_nat offset' = Z.to_nat offset + length (value_of r id))%nat as Hnat.
  { unfold offset', py_len. lia. }
  assert (py_slice offset offset' data = value_of r id) as ->.
  { unfold py_slice. rewrite Hdata, Hnat. rewrite take_app_length'; [done|lia]. }
  apply (IH offset'); [unfold offset'; pose proof (py_len_nonneg (value_of r id)); lia|done|].
  by rewrite Hnat, <- drop_drop, Hdata, drop_app_length.
Qed.
End read_back.

(** ** A whole pack *)

Lemma elem_of_sorted_ids r id : id ∈ sorted_ids r ↔ is_Some (r !! id).
Proof.
  unfold sorted_ids. rewrite merge_sort_Permutation, list_elem_of_fmap. split.
  - intros ([k v] & -> & Hkv%elem_of_map_to_list). by exists v.
  - intros [v Hv%elem_of_map_to_list]. by exists (id, v).
Qed.

Lemma length_sorted_ids r : length (sorted_ids r) = size r.
Proof. unfold sorted_ids. by rewrite merge_sort_Permutation, length_fmap, length_map_to_list. Qed.

Lemma insert_all_lookup (r acc : gmap Z bytes) ids k :
  foldl (λ m id, <[id := value_of r id]> m) acc ids !! k =
    if decide (k ∈ ids) then Some (value_of r k) else acc !! k.
Proof.
  revert acc. induction ids as [|id ids IH]; intros acc; [done|]. cbn [foldl]. rewrite IH.
  destruct (decide (k ∈ ids)) as [Hk|Hk].
  - by rewrite decide_True by set_solver.
  - destruct (decide (id = k)) as [->|Hne].
    + rewrite lookup_insert_eq, decide_True; [done|set_solver].
    + rewrite lookup_insert_ne, decide_False; [done|set_solver|done].
Qed.

Lemma insert_sorted_ids (r : gmap Z bytes) :
  foldl (λ m id, <[id := value_of r id]> m) ∅ (sorted_ids r) = r.
Proof.
  apply map_eq. intros k. rewrite insert_all_lookup, lookup_empty.
  destruct (decide (k ∈ sorted_ids r)) as [[v Hv]%elem_of_sorted_ids|Hk].
  - by rewrite Hv.
  - rewrite elem_of_sorted_ids, <- eq_None_not_Some in Hk. done.
Qed.

(** The size of the file of a pack, and what a file can hold: identifiers of
    sixteen bits, offsets of thirty-two, an encoding of eight. *)
Definition pack_size (r : gmap Z bytes) : Z :=
  9 + (Z.of_nat (size r) + 1) * 6 + data_size r (sorted_ids r).
Definition representable (r : gmap Z bytes) (encoding : Z) : Prop :=
  (∀ id, is_Some (r !! id) → 0 <= id < 2 ^ 16) ∧ pack_size r < 2 ^ 32 ∧ 0 <= encoding < 2 ^ 8.

Lemma sorted_ids_width r :
  Forall (in_width 2) (sorted_ids r) ↔ ∀ id, is_Some (r !! id) → 0 <= id < 2 ^ 16.
Proof.
  rewrite Forall_forall. split.
  - intros H id Hid. apply (H id), elem_of_sorted_ids, Hid.
  - intros H id Hid%elem_of_sorted_ids. exact (H id Hid).
Qed.

Lemma length_concat_values (r : gmap Z bytes) ids :
  py_len (concat ((λ id, value_of r id) <$> ids)) = data_size r ids.
Proof.
  induction ids as [|id ids IH]; [done|]. rewrite fmap_cons. cbn [concat].
  rewrite py_len_app, IH. done.
Qed.

Lemma read_header a b c rest :
  in_width 4 a → in_width 4 b → in_width 1 c →
  struct_unpack "<IIB"
    (py_prefix HEADER_LENGTH ((le_split 4 a ++ le_split 4 b ++ le_split 1 c) ++ rest)) =
    Ok [VInt a; VInt b; VInt c].
Proof.
  intros Ha Hb Hc. unfold py_prefix, HEADER_LENGTH. change (2 * 4 + 1 <? 0) with false. cbv iota.
  rewrite take_app_length' by by rewrite !length_app, !length_le_split.
  erewrite (struct_unpack_pack "<IIB" [C_I; C_I; C_B]); [done|done|done|].
  destruct (pack_IIB a b c) as [[-> _]|[_ []]]; done.
Qed.

Lemma write_cases r e :
  (∃ entries,
     let ids := sorted_ids r in let n := py_len ids in
     write_index r ids (9 + (n + 1) * 6) = Ok (entries, pack_size r) ∧
     length entries = (6 * length ids)%nat ∧ representable r e ∧
     WriteDataPackToString r e =
       Ok ((le_split 4 4 ++ le_split 4 n ++ le_split 1 e) ++ entries ++
           (le_split 2 0 ++ le_split 4 (pack_size r)) ++ concat ((λ id, value_of r id) <$> ids))) ∨
  (WriteDataPackToString r e = Raise StructError ∧ ¬ representable r e).
Proof.
  pose proof (data_size_nonneg r (sorted_ids r)) as Hnonneg.
  unfold WriteDataPackToString, representable, pack_size. rewrite <- sorted_ids_width.
  unfold py_len. rewrite <- length_sorted_ids. set (ids := sorted_ids r) in *.
  set (n := Z.of_nat (length ids)).
  change (HEADER_LENGTH + (n + 1) * (2 + 4)) with (9 + (n + 1) * 6).
  change PACK_FILE_VERSION with 4. cbv zeta.
  destruct (pack_IIB 4 n e) as [[-> (_ & Hn & He)]|[-> Hno]]; cbn [mbind outcome_bind].
  2: { right. split; [done|]. intros (_ & Hsize & He). apply Hno. unfold in_width.
       change (256 ^ Z.of_nat 4) with (2 ^ 32). change (256 ^ Z.of_nat 1) with (2 ^ 8).
       subst ids. lia. }
  pose proof (write_index_cases r ids (9 + (n + 1) * 6) ltac:(lia)) as Hi.
  destruct (write_index r ids _) as [[entries end_offset]|x]; cbn [mbind outcome_bind].
  2: { right. destruct Hi as [-> Hi]. split; [done|]. intros (Hids & Hsize & _). by apply Hi. }
  destruct Hi as (-> & Hids & Hlen).
  destruct (pack_HI 0 (9 + (n + 1) * 6 + data_size r ids)) as [[-> (_ & Hend)]|[-> Hno]];
    cbn [mbind outcome_bind].
  - left. exists entries. split_and!;
      [done|done|by apply sorted_ids_width|apply Hend|apply He|apply He|done].
  - right. split; [done|]. intros (_ & Hsize & _). apply Hno. unfold in_width.
    change (256 ^ Z.of_nat 4) with (2 ^ 32). change (256 ^ Z.of_nat 2) with 65536. lia.
Qed.

Lemma read_written r e b :
  WriteDataPackToString r e = Ok b →
  representable r e ∧ py_len b = pack_size r ∧ ReadDataPack b = Ok (mkContents r e).
Proof.
  destruct (write_cases r e) as [(entries & Hw & Hlen & Hrep & ->)|[-> _]]; [|done].
  cbv zeta in *. set (n := py_len (sorted_ids r)) in *. intros <-%Ok_inj.
  destruct Hrep as (Hids & Hsize & He). split; [done|].
  assert (n = Z.of_nat (size r)) as Hn by (unfold n, py_len; by rewrite length_sorted_ids).
  pose proof (data_size_nonneg r (sorted_ids r)) as Hnonneg.
  assert (in_width 4 n) as Hn4.
  { unfold in_width, pack_size in *. change (256 ^ Z.of_nat 4) with (2 ^ 32). lia. }
  assert (in_width 4 (pack_size r)) as Hsize4.
  { unfold in_width, pack_size in *. change (256 ^ Z.of_nat 4) with (2 ^ 32). lia. }
  split.
  { rewrite !py_len_app, length_concat_values. unfold py_len at 1 2 3 4 5 6.
    rewrite !length_le_split, Hlen. unfold pack_size. rewrite <- length_sorted_ids. lia. }
  unfold ReadDataPack. rewrite read_header by done. cbn [mbind outcome_bind].
  change (4 =? PACK_FILE_VERSION) with true. cbn [negb].
  destruct (Z.eqb_spec n 0) as [H0|H0].
  { rewrite H0 in Hn. symmetry in Hn. do 2 f_equal. symmetry. apply map_size_empty_inv. lia. }
  rewrite drop_app_length' by by rewrite !length_app, !length_le_split.
  assert (Z.to_nat n = length (sorted_ids r)) as -> by (unfold n, py_len; lia).
  rewrite (read_index_written r _ [] (concat ((λ id, value_of r id) <$> sorted_ids r)) 0 (pack_size r)
    ltac:(done) Hsize4 _ (9 + (n + 1) * 6)); [|lia|done|].
  - cbn [mbind outcome_bind]. by rewrite insert_sorted_ids.
  - rewrite app_nil_r, app_assoc, app_assoc, app_assoc, <- (app_assoc _ entries).
    rewrite drop_app_length'; [done|]. rewrite !length_app, !length_le_split, Hlen.
    unfold n, py_len. lia.
Qed.

(** C17: A data pack reads back.  Resources are written exactly when their
    identifiers fit sixteen bits, the encoding eight and the size of the file
    thirty-two; the file has that size, and reading it gives the resources and the
    encoding.  Otherwise writing raises [struct.error]. *)
Theorem data_pack_roundtrip r e :
  match WriteDataPackToString r e with
  | Ok b => representable r e ∧ py_len b = pack_size r ∧ ReadDataPack b = Ok (mkContents r e)
  | Raise x => x = StructError ∧ ¬ representable r e
  end.
Proof.
  destruct (WriteDataPackToString r e) as [b|x] eqn:Hw; [by apply read_written|].
  destruct (write_cases r e) as [(? & _ & _ & _ & Hw')|[Hw' Hno]]; rewrite Hw in Hw'; [done|].
  by injection Hw' as ->.
Qed.

(** ** Combining packs *)

Lemma kept_subseteq w r : kept w r ⊆ r.
Proof. destruct w as [w|]; [|done]. cbn. case_decide; [done|]. apply map_filter_subseteq. Qed.

Section repack.
Context (w : option (gset Z)).
Implicit Types (p q : DataPackContents) (ps : list DataPackContents).

(** A resource the earlier pack contributes is in the later one too. *)
Definition clash ps : Prop := ∃ l p l' q l'' id,
  ps = l ++ p :: l' ++ q :: l'' ∧
  is_Some (kept w (resources p) !! id) ∧ is_Some (resources q !! id).

(** Two packs are text in different encodings. *)
Definition mixed ps : Prop := ∃ p q, p ∈ ps ∧ q ∈ ps ∧
  encoding p ≠ BINARY ∧ encoding q ≠ BINARY ∧ encoding p ≠ encoding q.

(** The packs' contributions together, and their common encoding. *)
Definition union_of ps (r : gmap Z bytes) : Prop :=
  ∀ id v, r !! id = Some v ↔ ∃ p, p ∈ ps ∧ kept w (resources p) !! id = Some v.
Definition encoding_of ps (e : Z) : Prop :=
  (∀ p, p ∈ ps → encoding p = BINARY ∨ encoding p = e) ∧
  (e = BINARY ∨ ∃ p, p ∈ ps ∧ encoding p = e).

Lemma clash_snoc ps q :
  clash (ps ++ [q]) ↔
    clash ps ∨ ∃ p id, p ∈ ps ∧ is_Some (kept w (resources p) !! id) ∧ is_Some (resources q !! id).
Proof.
  split.
  - intros (l & p & l' & q' & l'' & id & Heq & Hp & Hq).
    destruct l'' as [|x l''] using rev_ind.
    + rewrite app_comm_cons, app_assoc in Heq. apply app_inj_tail in Heq as [-> ->].
      right. exists p, id. split; [set_solver|done].
    + left. replace (l ++ p :: l' ++ q' :: l'' ++ [x]) with ((l ++ p :: l' ++ q' :: l'') ++ [x]) in Heq
        by by rewrite <- app_assoc; cbn; rewrite <- app_assoc.
      apply app_inj_tail in Heq as [-> _]. by exists l, p, l', q', l'', id.
  - intros [(l & p & l' & q' & l'' & id & -> & Hp & Hq)|(p & id & Hp & Hid & Hq)].
    + exists l, p, l', q', (l'' ++ [q]), id. split; [|done].
      by rewrite <- app_assoc; cbn; rewrite <- app_assoc.
    + apply list_elem_of_split in Hp as (l & l' & ->). exists l, p, l', q, [], id.
      split; [|done]. by rewrite <- app_assoc.
Qed.

Lemma mixed_mono ps ps' : mixed ps → mixed (ps ++ ps').
Proof. intros (p & q & ? & ? & ?). exists p, q. set_solver. Qed.

Lemma clash_mono ps ps' : clash ps → clash (ps ++ ps').
Proof.
  intros (l & p & l' & q & l'' & id & -> & H). exists l, p, l', q, (l'' ++ ps'), id.
  split; [|done]. by rewrite <- app_assoc; cbn; rewrite <- app_assoc.
Qed.

Lemma union_of_snoc ps q r :
  union_of ps r → dom (resources q) ∩ dom r = ∅ →
  union_of (ps ++ [q]) (kept w (resources q) ∪ r).
Proof.
  intros Hr Hd id v. rewrite lookup_union_Some_raw.
  assert (∀ x, kept w (resources q) !! id = Some x → r !! id = None) as Hno.
  { intros x Hx. pose proof (lookup_weaken _ _ _ _ Hx (kept_subseteq w _)) as Hq%elem_of_dom_2.
    apply not_elem_of_dom. set_solver. }
  split.
  - intros [Hq|[_ Hr']]; [exists q; set_solver|].
    apply Hr in Hr' as (p & Hp & Hv). exists p. set_solver.
  - intros (p & [Hp|Hp]%elem_of_app & Hv).
    + right. assert (r !! id = Some v) as Hv' by (apply Hr; eauto). split; [|done].
      apply eq_None_not_Some. intros [x Hx]. rewrite (Hno x Hx) in Hv'. done.
    + apply list_elem_of_singleton in Hp as ->. by left.
Qed.

Lemma not_mixed_snoc ps q :
  ¬ mixed ps → (∀ p, p ∈ ps → encoding p ≠ BINARY → encoding q = BINARY ∨ encoding q = encoding p) →
  ¬ mixed (ps ++ [q]).
Proof.
  intros Hps Hq (p & q' & [Hp| ->%list_elem_of_singleton]%elem_of_app
    & [Hq'| ->%list_elem_of_singleton]%elem_of_app & Hpb & Hqb & Hne).
  - apply Hps. by exists p, q'.
  - destruct (Hq p Hp Hpb); congruence.
  - destruct (Hq q' Hq' Hqb); congruence.
  - done.
Qed.

(** The state of the loop after the packs [ps]. *)
Definition repacked ps (r : gmap Z bytes) (e : option Z) : Prop :=
  union_of ps r ∧ ¬ clash ps ∧ ¬ mixed ps ∧
  match e with None => ps = [] | Some e => encoding_of ps e end.

Lemma repacked_encoding ps q r e :
  repacked ps r e →
  match (match e with
         | None => Ok (encoding q)
         | Some e =>
             if e =? BINARY then Ok (encoding q)
             else if negb (encoding q =? BINARY) && negb (encoding q =? e)
             then Raise KeyError else Ok e
         end) with
  | Ok e' => encoding_of (ps ++ [q]) e' ∧ ¬ mixed (ps ++ [q])
  | Raise x => x = KeyError ∧ mixed (ps ++ [q])
  end.
Proof.
  intros (_ & _ & Hmixed & He). destruct e as [e|].
  2: { subst ps. split; [split; [set_solver|right; exists q; set_solver]|].
       intros (p & q' & ->%list_elem_of_singleton & ->%list_elem_of_singleton & _ & _ & Hne). done. }
  destruct He as [Hall Hsome].
  assert (∀ p q', p ∈ ps → q' ∈ ps → encoding p ≠ BINARY → encoding q' ≠ BINARY →
    encoding p = encoding q') as Hagree.
  { intros p q' Hp Hq Hpb Hqb. destruct (Hall p Hp), (Hall q' Hq); congruence. }
  destruct (Z.eqb_spec e BINARY) as [->|Hb].
  { split; [split|].
    - intros p [Hp| ->%list_elem_of_singleton]%elem_of_app; [|by right].
      destruct (Hall p Hp); by left.
    - right. exists q. set_solver.
    - apply not_mixed_snoc; [done|]. intros p Hp Hpb. destruct (Hall p Hp); done. }
  destruct Hsome as [|(p0 & Hp0 & He0)]; [done|].
  assert (encoding q = BINARY ∨ encoding q = e → encoding_of (ps ++ [q]) e ∧ ¬ mixed (ps ++ [q]))
    as Hsame.
  { intros Hq. split; [split|].
    - intros p [Hp| ->%list_elem_of_singleton]%elem_of_app; [by apply Hall|done].
    - right. exists p0. set_solver.
    - apply not_mixed_snoc; [done|]. intros p Hp Hpb. destruct (Hall p Hp) as [|Hpe]; [done|].
      destruct Hq; [by left|right; congruence]. }
  destruct (Z.eqb_spec (encoding q) BINARY) as [Hq|Hq]; cbn [negb andb]; [auto|].
  destruct (Z.eqb_spec (encoding q) e) as [Hqe|Hqe]; cbn [negb]; [auto|].
  split; [done|]. exists p0, q. set_solver.
Qed.

Lemma repack_loop_spec ps todo r e :
  repacked ps r e →
  match repack_loop w todo r e with
  | Ok (r', e') => repacked (ps ++ todo) r' e'
  | Raise x => x = KeyError ∧ (clash (ps ++ todo) ∨ mixed (ps ++ todo))
  end.
Proof.
  revert ps r e. induction todo as [|q todo IH]; intros ps r e Hps; [by rewrite app_nil_r|].
  cbn [repack_loop]. replace (ps ++ q :: todo) with ((ps ++ [q]) ++ todo) by by rewrite <- app_assoc.
  pose proof (repacked_encoding ps q r e Hps) as He.
  destruct Hps as (Hr & Hclash & _ & _).
  destruct (bool_decide_reflect (dom (resources q) ∩ dom r = ∅)) as [Hd|Hd]; cbn [negb].
  - destruct (match e with None => _ | Some _ => _ end) as [e'|x]; cbn [mbind outcome_bind].
    + destruct He as [He Hm]. apply IH. split_and!; [by apply union_of_snoc| |done|done].
      rewrite clash_snoc. intros [|(p & id & Hp & [v Hv] & Hq)]; [done|].
      assert (r !! id = Some v) as Hrv by (apply Hr; eauto).
      apply elem_of_dom_2 in Hrv. apply elem_of_dom in Hq. set_solver.
    + destruct He as [-> Hm]. split; [done|]. right. by apply mixed_mono.
  - split; [done|]. left. apply clash_mono, clash_snoc. right.
    apply set_choose_L in Hd as [id [Hq Hid]%elem_of_intersection].
    apply elem_of_dom in Hid as [v Hv]. apply Hr in Hv as (p & Hp & Hv).
    exists p, id. split_and!; [done|by exists v|by apply elem_of_dom].
Qed.

Lemma RePackFromDataPackStrings_spec ps :
  match RePackFromDataPackStrings ps w with
  | Ok c => union_of ps (resources c) ∧ encoding_of ps (encoding c) ∧ ¬ clash ps ∧ ¬ mixed ps
  | Raise x => x = KeyError ∧ (clash ps ∨ mixed ps)
  end.
Proof.
  unfold RePackFromDataPackStrings.
  assert (repacked [] ∅ None) as H0.
  { split_and!; [|intros (l & p & l' & q & l'' & id & H & _); by destruct l| |done].
    - intros id v. rewrite lookup_empty. split; [done|]. by intros (p & []%elem_of_nil & _).
    - by intros (p & q & []%elem_of_nil & _). }
  pose proof (repack_loop_spec [] ps ∅ None H0) as H. cbn [app] in H.
  destruct (repack_loop w ps ∅ None) as [[r e]|x]; cbn; [|done].
  destruct H as (Hr & Hc & Hm & He). split_and!; [done| |done|done].
  destruct e as [e|]; [done|]. subst ps. split; [by intros p []%elem_of_nil|by left].
Qed.
End repack.

(** C36: Combining data packs.  From files that were written, [RePack] writes the
    pack of the resources the whitelist keeps, each from the file it comes from, in
    the encoding the files agree on, binary ones aside.  It raises [KeyError] exactly
    when a resource that one file contributes is also in a later one, or when two
    files are text in different encodings.  This is what the code does, and less than
    its docstring says in three respects: an identifier that is repeated does not
    raise [KeyError] when the whitelist drops it ([dropped_repeat]); an empty whitelist keeps everything, like none
    ([empty_whitelist_keeps]; a whitelist file is never read as empty); and a binary
    file is inconsistent with no encoding. *)
Theorem repack_written (packs : list DataPackContents) (files : list bytes)
    (whitelist : option (list Z)) :
  Forall2 (λ p b, WriteDataPackToString (resources p) (encoding p) = Ok b) packs files →
  let w := list_to_set <$> whitelist in
  (¬ clash w packs ∧ ¬ mixed packs ∧
     ∃ r e, union_of w packs r ∧ encoding_of packs e ∧
       RePack files whitelist = WriteDataPackToString r e) ∨
  ((clash w packs ∨ mixed packs) ∧ RePack files whitelist = Raise KeyError).
Proof.
  intros Hfiles w. unfold RePack.
  assert (mapM ReadDataPack files = Ok packs) as ->.
  { apply mapM_outcome_Ok. apply Forall2_flip. eapply Forall2_impl; [exact Hfiles|].
    intros [r e] b Hb. by apply read_written in Hb as (_ & _ & ?). }
  cbn [mbind outcome_bind]. fold w. pose proof (RePackFromDataPackStrings_spec w packs) as H.
  destruct (RePackFromDataPackStrings packs w) as [[r e]|x]; cbn [mbind outcome_bind].
  - left. destruct H as (Hr & He & Hc & Hm). eauto 10.
  - right. destruct H as [-> H]. done.
Qed.

(** ** The example of data_pack_unittest.py *)

Definition example_resources : gmap Z bytes :=
  {[1 := []; 4 := bytes_of "this is id 4"; 6 := bytes_of "this is id 6"; 10 := []]}.

Lemma testPackUnpack :
  match WriteDataPackToString example_resources UTF8 with
  | Ok b =>
      b = (byte_of_Z <$> [4; 0; 0; 0; 4; 0; 0; 0; 1;
                          1; 0; 39; 0; 0; 0; 4; 0; 39; 0; 0; 0; 6; 0; 51; 0; 0; 0;
                          10; 0; 63; 0; 0; 0; 0; 0; 63; 0; 0; 0])
            ++ bytes_of "this is id 4this is id 6" ∧
      ReadDataPack b = Ok (mkContents example_resources UTF8)
  | Raise _ => False
  end.
Proof. vm_compute. split; reflexivity. Qed.

(** An identifier in two packs that the whitelist drops does not raise [KeyError]. *)
Lemma dropped_repeat :
  let p := mkContents {[1 := bytes_of "one"; 2 := bytes_of "two"]} UTF8 in
  let q := mkContents {[2 := bytes_of "zwei"]} UTF8 in
  RePackFromDataPackStrings [p; q] (Some {[1]}) =
    Ok (mkContents {[1 := bytes_of "one"]} UTF8) ∧
  RePackFromDataPackStrings [p; q] None = Raise KeyError.
Proof. split; vm_compute; reflexivity. Qed.

(** An empty whitelist keeps every resource. *)
Lemma empty_whitelist_keeps :
  let p := mkContents {[1 := bytes_of "one"]} UTF8 in
  RePackFromDataPackStrings [p] (Some ∅) = Ok p.
Proof. vm_compute. reflexivity. Qed.

Definition file_of (p : DataPackContents) : bytes :=
  match WriteDataPackToString (resources p) (encoding p) with Ok b => b | Raise _ => [] end.

Lemma repack_written_witness :
  let packs := [mkContents {[1 := bytes_of "one"]} UTF8; mkContents {[4 := []; 6 := []]} BINARY] in
  let files := file_of <$> packs in
  ∃ r e, union_of None packs r ∧ encoding_of packs e ∧
    RePack files None = WriteDataPackToString r e.
Proof.
  intros packs files.
  destruct (repack_written packs files None) as [(_ & _ & r & e & Hr & He & H)|[_ H]].
  - repeat (constructor; [vm_compute; reflexivity|]). constructor.
  - exists r, e. split; [exact Hr|]. split; [exact He|exact H].
  - exfalso. revert H. vm_compute. discriminate.
Defined.
