(* ===== verification/LoadingGraph.v ===== *)
(** graph.py, src/src/tools/android/loading/graph.py: directed graphs of the
    requests of a page load, with costs on nodes and edges.

    Nodes and edges are objects with an identity: numbers that refer to them, and
    [Objects] says what the objects hold.  Costs are exact numbers; the rounding
    of floating point is left out. *)

From stdpp Require Import functions.
From S2P Require Import Prelude.

#[local] Open Scope Z_scope.

(** ** Objects *)

Abbreviation node := positive.
Abbreviation edge := positive.

(** [Edge]: its ends and its cost. *)
Record Edge := mkEdge { from_node : node; to_node : node; edge_cost : Z }.

(** What the objects hold, and the number of the next one. *)
Record Objects := mkObjects {
  node_cost : node → Z;
  edge_of : edge → Edge;
  next_object : positive
}.
Definition from_of (h : Objects) (e : edge) : node := from_node (edge_of h e).
Definition to_of (h : Objects) (e : edge) : node := to_node (edge_of h e).
Definition cost_of (h : Objects) (e : edge) : Z := edge_cost (edge_of h e).

Definition set_node_cost (n : node) (c : Z) (h : Objects) : Objects :=
  mkObjects (<[n := c]> (node_cost h)) (edge_of h) (next_object h).
Definition set_edge (e : edge) (x : Edge) (h : Objects) : Objects :=
  mkObjects (node_cost h) (<[e := x]> (edge_of h)) (next_object h).

(** [Node()] and [Edge(from_node, to_node)]. *)
Definition new_node : M Objects node := λ h,
  let n := next_object h in
  (Ok n, mkObjects (<[n := 0]> (node_cost h)) (edge_of h) (Pos.succ n)).
Definition new_edge (from to : node) : M Objects edge := λ h,
  let e := next_object h in
  (Ok e, mkObjects (node_cost h) (<[e := mkEdge from to 0]> (edge_of h)) (Pos.succ e)).

(** [DirectedGraph] *)
Record DirectedGraph := mkGraph {
  g_nodes : gset node;
  g_edges : gset edge;
  in_edges : gmap node (list edge);
  out_edges : gmap node (list edge)
}.

(** What is iterated over: a list, or a generator, which is empty the second
    time. *)
Inductive Iterable (A : Type) := IterList (l : list A) | IterGenerator (l : list A).
Arguments IterList {_} _.
Arguments IterGenerator {_} _.
Definition first_iteration {A} (i : Iterable A) : list A :=
  match i with IterList l | IterGenerator l => l end.
Definition second_iteration {A} (i : Iterable A) : list A :=
  match i with IterList l => l | IterGenerator _ => [] end.

(** [d[k]] and [d[k].append(x)] *)
Definition dict_get {A} (d : gmap node A) (k : node) : outcome A := of_option KeyError (d !! k).
Definition dict_append (d : gmap node (list edge)) (k : node) (x : edge) :
    outcome (gmap node (list edge)) :=
  l ← dict_get d k; Ok (<[k := l ++ [x]]> d).

(** [l.remove(x)]: the first occurrence; and [d[k].remove(x)]. *)
Fixpoint list_remove (x : edge) (l : list edge) : option (list edge) :=
  match l with
  | [] => None
  | y :: l => if decide (x = y) then Some l else cons y <$> list_remove x l
  end.
Definition dict_remove (d : gmap node (list edge)) (k : node) (x : edge) :
    outcome (gmap node (list edge)) :=
  l ← dict_get d k;
  l ← of_option (ValueError "list.remove(x): x not in list") (list_remove x l);
  Ok (<[k := l]> d).

(** [max(l)] *)
Definition py_max (l : list Z) : outcome Z :=
  match l with
  | [] => Raise (ValueError "max() arg is an empty sequence")
  | x :: l => Ok (foldl Z.max x l)
  end.

Section graph.
Context `{!DictOrder}.

(** ** Construction *)

(** The loop over the edges. *)
Fixpoint link_edges (h : Objects) (es : list edge) (ins outs : gmap node (list edge)) :
    outcome (gmap node (list edge) * gmap node (list edge)) :=
  match es with
  | [] => Ok (ins, outs)
  | e :: es =>
      outs ← dict_append outs (from_of h e) e;
      ins ← dict_append ins (to_of h e) e;
      link_edges h es ins outs
  end.

Definition DirectedGraph_init (h : Objects) (nodes : list node) (edges : list edge) :
    outcome DirectedGraph :=
  let nodes : gset node := list_to_set nodes in
  let edges : gset edge :=
    list_to_set (base.filter (λ e, from_of h e ∈ nodes ∧ to_of h e ∈ nodes) edges) in
  let empty := gset_to_gmap ([] : list edge) nodes in
  '(ins, outs) ← link_edges h (set_items edges) empty empty;
  Ok (mkGraph nodes edges ins outs).

Definition OutEdges (g : DirectedGraph) (n : node) : outcome (list edge) := dict_get (out_edges g) n.
Definition InEdges (g : DirectedGraph) (n : node) : outcome (list edge) := dict_get (in_edges g) n.
Definition Nodes (g : DirectedGraph) : gset node := g_nodes g.
Definition Edges (g : DirectedGraph) : gset edge := g_edges g.

Definition RootNodes (g : DirectedGraph) : outcome (list node) :=
  l ← mapM (λ n, es ← InEdges g n; Ok (n, es)) (set_items (g_nodes g));
  Ok (base.filter (λ x, snd x = []) l).*1.

(** ** Updates *)

(** [UpdateEdge]: an exception between the changes leaves those made. *)
Definition UpdateEdge (e : edge) (new_from_node new_to_node : node) :
    M (Objects * DirectedGraph) unit :=
  let set_in ins := modify (λ '(h, g), (h, mkGraph (g_nodes g) (g_edges g) ins (out_edges g))) in
  let set_out outs := modify (λ '(h, g), (h, mkGraph (g_nodes g) (g_edges g) (in_edges g) outs)) in
  '(h, g) ← gets id;
  lift (assert_ (bool_decide (e ∈ g_edges g)));;
  lift (assert_ (bool_decide (new_from_node ∈ g_nodes g)));;
  lift (assert_ (bool_decide (new_to_node ∈ g_nodes g)));;
  ins ← lift (dict_remove (in_edges g) (to_of h e) e);
  set_in ins;;
  outs ← lift (dict_remove (out_edges g) (from_of h e) e);
  set_out outs;;
  modify (λ '(h, g), (set_edge e (mkEdge new_from_node new_to_node (cost_of h e)) h, g));;
  ins ← lift (dict_append ins new_to_node e);
  set_in ins;;
  outs ← lift (dict_append outs new_from_node e);
  set_out outs.

(** ** Exploration *)

(** The body of the inner loop of [_ExploreFrom]: [n] is seen for the first time or
    skipped.  The list begins with the end the loop pops from. *)
Definition explore_node (should_stop : node → bool) (s : list node * gset node) (n : node) :
    list node * gset node :=
  let '(fifo, visited) := s in
  if bool_decide (n ∉ visited) && negb (should_stop n)
  then (fifo ++ [n], {[n]} ∪ visited) else s.

Fixpoint explore (fuel : nat) (expand : node → outcome (list node)) (should_stop : node → bool)
    (fifo : list node) (visited : gset node) : outcome (gset node) :=
  match fifo with
  | [] => Ok visited
  | n :: fifo =>
      match fuel with
      | O => Raise recursion_error
      | S fuel =>
          if should_stop n then explore fuel expand should_stop fifo visited
          else
            ns ← expand n;
            let '(fifo, visited) :=
              foldl (explore_node should_stop) (fifo, {[n]} ∪ visited) ns in
            explore fuel expand should_stop fifo visited
      end
  end.

(** [_ExploreFrom]; every node is added at most once to those at the start. *)
Definition ExploreFrom (g : DirectedGraph) (initial : list node)
    (expand : node → outcome (list node)) (should_stop : node → bool) : outcome (gset node) :=
  explore (length initial + size (g_nodes g)) expand should_stop
    (reverse (base.filter (λ n, should_stop n = false) initial)) ∅.

(** The two ways to go on from a node. *)
Definition successors (h : Objects) (g : DirectedGraph) (n : node) : outcome (list node) :=
  es ← OutEdges g n; Ok (map (to_of h) es).
Definition predecessors (h : Objects) (g : DirectedGraph) (n : node) : outcome (list node) :=
  es ← InEdges g n; Ok (map (from_of h) es).

Definition ReachableNodes (h : Objects) (g : DirectedGraph) (roots : list node)
    (should_stop : node → bool) : outcome (gset node) :=
  ExploreFrom g roots (successors h g) should_stop.

Definition AncestorNodes (h : Objects) (g : DirectedGraph) (descendants : Iterable node) :
    outcome (gset node) :=
  visited ← ExploreFrom g (first_iteration descendants) (predecessors h g) (λ _, false);
  Ok (visited ∖ list_to_set (second_iteration descendants)).

(** ** Sorting *)

(** The count of the edges into each node of the subset from within it. *)
Fixpoint count_edges (h : Objects) (subset : gset node) (es : list edge)
    (remaining : gmap node Z) : outcome (gmap node Z) :=
  match es with
  | [] => Ok remaining
  | e :: es =>
      if decide (from_of h e ∈ subset ∧ to_of h e ∈ subset)
      then
        count ← dict_get remaining (to_of h e);
        count_edges h subset es (<[to_of h e := count + 1]> remaining)
      else count_edges h subset es remaining
  end.

(** The inner loop, over the edges out of the node that was taken. *)
Fixpoint relax_edges (h : Objects) (subset : gset node) (es : list edge)
    (remaining : gmap node Z) (sources : list node) : outcome (gmap node Z * list node) :=
  match es with
  | [] => Ok (remaining, sources)
  | e :: es =>
      let successor := to_of h e in
      if decide (successor ∈ subset) then
        count ← dict_get remaining successor;
        assert_ (0 <? count);;
        relax_edges h subset es (<[successor := count - 1]> remaining)
          (if count - 1 =? 0 then sources ++ [successor] else sources)
      else relax_edges h subset es remaining sources
  end.

Fixpoint sort_loop (fuel : nat) (h : Objects) (g : DirectedGraph) (subset : gset node)
    (remaining : gmap node Z) (sources sorted_nodes : list node) : outcome (list node) :=
  match sources with
  | [] => Ok sorted_nodes
  | n :: sources =>
      match fuel with
      | O => Raise recursion_error
      | S fuel =>
          es ← OutEdges g n;
          '(remaining, sources) ← relax_edges h subset es remaining sources;
          sort_loop fuel h g subset remaining sources (sorted_nodes ++ [n])
      end
  end.

Definition TopologicalSort (h : Objects) (g : DirectedGraph) (roots : option (list node)) :
    outcome (list node) :=
  subset ← match roots with
           | None => Ok (g_nodes g)
           | Some roots => ReachableNodes h g roots (λ _, false)
           end;
  remaining ← count_edges h subset (set_items (g_edges g)) (gset_to_gmap 0 subset);
  let sources := (base.filter (λ x, snd x = 0) (dict_items remaining)).*1 in
  sort_loop (size subset) h g subset remaining sources [].

(** ** Cost *)

(** The loop over the sorted nodes. *)
Fixpoint node_costs (h : Objects) (g : DirectedGraph) (ns : list node) (costs : gmap node Z) :
    outcome (gmap node Z) :=
  match ns with
  | [] => Ok costs
  | n :: ns =>
      es ← InEdges g n;
      cost ← match es with
             | [] => Ok 0
             | _ => l ← mapM (λ e, c ← dict_get costs (from_of h e); Ok (c + cost_of h e)) es;
                    py_max l
             end;
      node_costs h g ns (<[n := cost + node_cost h n]> costs)
  end.

(** [reduce] over the predecessors: the first of greatest cost. *)
Fixpoint costliest (costs : gmap node Z) (best : node) (ns : list node) : outcome node :=
  match ns with
  | [] => Ok best
  | n :: ns =>
      c ← dict_get costs n;
      b ← dict_get costs best;
      costliest costs (if b <? c then n else best) ns
  end.

(** The loop from the costliest node back to one without predecessors; on a cycle
    it has no end. *)
Fixpoint path_back (fuel : nat) (h : Objects) (g : DirectedGraph) (costs : gmap node Z)
    (n : node) (path : list node) : outcome (list node) :=
  ps ← predecessors h g n;
  match ps with
  | [] => Ok path
  | p :: ps =>
      match fuel with
      | O => Raise recursion_error
      | S fuel =>
          n ← costliest costs p ps;
          path_back fuel h g costs n (n :: path)
      end
  end.

(** [next()] of the nodes of greatest cost. *)
Definition first_costliest (g : DirectedGraph) (costs : gmap node Z) (max_cost : Z) : outcome node :=
  ns ← mapM (λ n, c ← dict_get costs n; Ok (n, c)) (set_items (g_nodes g));
  of_option StopIteration (fst <$> head (base.filter (λ x, snd x = max_cost) ns)).

(** [Cost]: [path_list] and [costs_out] are the lists the caller passes, and come
    back as the method leaves them. *)
Definition Cost (h : Objects) (g : DirectedGraph) (roots : option (list node))
    (path_list costs_out : option (list node)) :
    outcome (Z * option (list node) * option (list node)) :=
  if decide (g_nodes g = ∅) then Ok (0, path_list, costs_out)
  else
    sorted_nodes ← TopologicalSort h g roots;
    costs ← node_costs h g sorted_nodes (gset_to_gmap 0 (g_nodes g));
    max_cost ← py_max (dict_items costs).*2;
    path_list ← match path_list with
                | None => Ok None
                | Some _ =>
                    n ← first_costliest g costs max_cost;
                    Some <$> path_back (size (g_nodes g)) h g costs n [n]
                end;
    Ok (max_cost, path_list, (λ _, (dict_items costs).*1) <$> costs_out).

(** ** JSON *)

(** The dict of a node and that of an edge.  The latter keeps the node objects
    themselves beside their indices. *)
Record NodeDict := mkNodeDict { nd_cost : Z; graph_node_index : Z }.
Record EdgeDict := mkEdgeDict {
  ed_from_node : node;
  ed_to_node : node;
  ed_cost : Z;
  from_node_index : Z;
  to_node_index : Z
}.
Record GraphDict := mkGraphDict { gd_nodes : list NodeDict; gd_edges : list EdgeDict }.

Definition ToJsonDict (h : Objects) (g : DirectedGraph) : outcome GraphDict :=
  let node_to_index : gmap node Z :=
    list_to_map (imap (λ i n, (n, Z.of_nat i)) (set_items (g_nodes g))) in
  let node_dicts := (λ '(n, i), mkNodeDict (node_cost h n) i) <$> dict_items node_to_index in
  edge_dicts ← mapM (λ e,
    to_index ← dict_get node_to_index (to_of h e);
    from_index ← dict_get node_to_index (from_of h e);
    Ok (mkEdgeDict (from_of h e) (to_of h e) (cost_of h e) from_index to_index))
    (set_items (g_edges g));
  Ok (mkGraphDict node_dicts edge_dicts).

(** [Node.FromJsonDict] and [Edge.FromJsonDict] *)
Definition Node_FromJsonDict (d : NodeDict) : M Objects node :=
  n ← new_node; modify (set_node_cost n (nd_cost d));; mret n.
Definition Edge_FromJsonDict (d : EdgeDict) : M Objects edge :=
  e ← new_edge (ed_from_node d) (ed_to_node d);
  modify (λ h, set_edge e (mkEdge (ed_from_node d) (ed_to_node d) (ed_cost d)) h);; mret e.

Fixpoint read_nodes (ds : list NodeDict) (index_to_node : gmap Z node) : M Objects (gmap Z node) :=
  match ds with
  | [] => mret index_to_node
  | d :: ds =>
      n ← Node_FromJsonDict d;
      read_nodes ds (<[graph_node_index d := n]> index_to_node)
  end.
(** The body of the loop over the edges, and the loop. *)
Definition read_edge (index_to_node : gmap Z node) (d : EdgeDict) : M Objects edge :=
  e ← Edge_FromJsonDict d;
  from ← lift (of_option KeyError (index_to_node !! from_node_index d));
  modify (λ h, set_edge e (mkEdge from (to_of h e) (cost_of h e)) h);;
  to ← lift (of_option KeyError (index_to_node !! to_node_index d));
  modify (λ h, set_edge e (mkEdge (from_of h e) to (cost_of h e)) h);;
  mret e.
Fixpoint read_edges (index_to_node : gmap Z node) (ds : list EdgeDict) (edges : list edge) :
    M Objects (list edge) :=
  match ds with
  | [] => mret edges
  | d :: ds =>
      e ← read_edge index_to_node d;
      read_edges index_to_node ds (edges ++ [e])
  end.

Definition FromJsonDict (d : GraphDict) : M Objects DirectedGraph :=
  index_to_node ← read_nodes (gd_nodes d) ∅;
  edges ← read_edges index_to_node (gd_edges d) [];
  h ← gets id;
  lift (DirectedGraph_init h (dict_items index_to_node).*2 edges).
End graph.
