(* ===== verification/LoadingLinks.v ===== *)
(** The links of a graph of graph.py: the lists of edges kept at the nodes are the
    edges of the graph, through construction and updates. *)

From stdpp Require Import functions.
From S2P Require Import Prelude LoadingGraph.

(** The edges of [es] with the end [n], by [key]. *)
Definition edges_at (key : edge → node) (es : list edge) (n : node) : list edge :=
  base.filter (λ e, key e = n) es.

(** A dict of lists indexes the edges [es] of the nodes [N] by [key]. *)
Definition indexes (key : edge → node) (N : gset node) (es : list edge)
    (d : gmap node (list edge)) : Prop :=
  dom d = N ∧ ∀ n l, d !! n = Some l → l ≡ₚ edges_at key es n.

(** The lists at the nodes are the edges of the graph, in some order, and the
    edges join nodes of the graph. *)
Record linked (h : Objects) (g : DirectedGraph) : Prop := mkLinked {
  linked_ends : ∀ e, e ∈ g_edges g → from_of h e ∈ g_nodes g ∧ to_of h e ∈ g_nodes g;
  linked_out : indexes (from_of h) (g_nodes g) (elements (g_edges g)) (out_edges g);
  linked_in : indexes (to_of h) (g_nodes g) (elements (g_edges g)) (in_edges g)
}.

Lemma edges_at_ext key key' es n :
  (∀ e, e ∈ es → key' e = key e) → edges_at key' es n = edges_at key es n.
Proof.
  intros Hes. apply filter_ext_elem. intros e He. by rewrite Hes.
Qed.

Section links.
Context `{!DictOrder}.

(** ** Reading *)

Lemma dict_get_Some {A} (d : gmap node A) k x : d !! k = Some x → dict_get d k = Ok x.
Proof. unfold dict_get. by intros ->. Qed.

Lemma indexes_get key N es d n :
  indexes key N es d → n ∈ N → ∃ l, d !! n = Some l ∧ l ≡ₚ edges_at key es n.
Proof.
  intros [Hdom Hd] Hn. rewrite <- Hdom in Hn. apply elem_of_dom in Hn as [l Hl]. eauto.
Qed.

Lemma OutEdges_linked h g n : linked h g → n ∈ g_nodes g →
  ∃ l, OutEdges g n = Ok l ∧ l ≡ₚ edges_at (from_of h) (elements (g_edges g)) n.
Proof.
  intros Hg Hn. destruct (indexes_get _ _ _ _ n (linked_out h g Hg) Hn) as (l & Hl & ?).
  exists l. split; [by apply dict_get_Some|done].
Qed.

Lemma InEdges_linked h g n : linked h g → n ∈ g_nodes g →
  ∃ l, InEdges g n = Ok l ∧ l ≡ₚ edges_at (to_of h) (elements (g_edges g)) n.
Proof.
  intros Hg Hn. destruct (indexes_get _ _ _ _ n (linked_in h g Hg) Hn) as (l & Hl & ?).
  exists l. split; [by apply dict_get_Some|done].
Qed.

Lemma elem_of_edges_at key g e n :
  e ∈ edges_at key (elements (g_edges g)) n ↔ e ∈ g_edges g ∧ key e = n.
Proof. unfold edges_at. rewrite list_elem_of_filter, elem_of_elements. naive_solver. Qed.

(** ** Construction *)

Lemma dict_append_lookup d k l x :
  d !! k = Some l → dict_append d k x = Ok (<[k := l ++ [x]]> d).
Proof. intros Hl. unfold dict_append. by rewrite (dict_get_Some d k l). Qed.

Lemma link_edges_spec h es ins outs :
  (∀ e, e ∈ es → is_Some (outs !! from_of h e) ∧ is_Some (ins !! to_of h e)) →
  ∃ ins' outs', link_edges h es ins outs = Ok (ins', outs') ∧
    (∀ n, ins' !! n = (λ l, l ++ edges_at (to_of h) es n) <$> ins !! n) ∧
    (∀ n, outs' !! n = (λ l, l ++ edges_at (from_of h) es n) <$> outs !! n).
Proof.
  revert ins outs. induction es as [|e es IH]; intros ins outs Hes.
  { exists ins, outs. split; [done|]. split; intros n; cbn; [destruct (ins !! n)|destruct (outs !! n)];
      cbn; by rewrite ?app_nil_r. }
  destruct (Hes e) as [[lo Ho] [li Hi]]; [by left|]. cbn [link_edges].
  rewrite (dict_append_lookup _ _ _ _ Ho). cbn [mbind outcome_bind].
  rewrite (dict_append_lookup _ _ _ _ Hi). cbn [mbind outcome_bind].
  destruct (IH (<[to_of h e := li ++ [e]]> ins) (<[from_of h e := lo ++ [e]]> outs))
    as (ins' & outs' & Heq & Hins & Houts).
  { intros e' He'. destruct (Hes e') as [? ?]; [by right|]. split; apply lookup_insert_is_Some';
      by right. }
  exists ins', outs'. split; [done|]. unfold edges_at in *.
  split; intros n; rewrite ?Hins, ?Houts, filter_cons.
  - destruct (decide (to_of h e = n)) as [<-|Hn].
    + rewrite lookup_insert_eq, Hi. cbn. by rewrite <- app_assoc.
    + by rewrite lookup_insert_ne.
  - destruct (decide (from_of h e = n)) as [<-|Hn].
    + rewrite lookup_insert_eq, Ho. cbn. by rewrite <- app_assoc.
    + by rewrite lookup_insert_ne.
Qed.

Lemma DirectedGraph_init_linked h nodes edges :
  ∃ g, DirectedGraph_init h nodes edges = Ok g ∧ linked h g ∧
    (∀ n, n ∈ g_nodes g ↔ n ∈ nodes) ∧
    (∀ e, e ∈ g_edges g ↔ e ∈ edges ∧ from_of h e ∈ nodes ∧ to_of h e ∈ nodes).
Proof.
  unfold DirectedGraph_init. set (N := list_to_set nodes : gset node).
  set (E := list_to_set _ : gset edge).
  assert (∀ e, e ∈ E ↔ e ∈ edges ∧ from_of h e ∈ nodes ∧ to_of h e ∈ nodes) as HE.
  { intros e. unfold E, N. rewrite elem_of_list_to_set, list_elem_of_filter, !elem_of_list_to_set.
    naive_solver. }
  assert (∀ n, n ∈ N ↔ n ∈ nodes) as HN by (intros n; apply elem_of_list_to_set).
  assert (∀ n, n ∈ nodes → (gset_to_gmap [] N : gmap node (list edge)) !! n = Some []) as Hempty.
  { intros n Hn. apply lookup_gset_to_gmap_Some. by rewrite HN. }
  destruct (link_edges_spec h (set_items E) (gset_to_gmap [] N) (gset_to_gmap [] N))
    as (ins & outs & -> & Hins & Houts).
  { intros e. rewrite elem_of_set_items, HE. intros (_ & Hf & Ht). by rewrite !Hempty. }
  eexists. split; [reflexivity|]. split; [|by split].
  assert (∀ (d : gmap node (list edge)) key,
    (∀ n, d !! n = (λ l, l ++ edges_at key (set_items E) n) <$>
            (gset_to_gmap [] N : gmap node (list edge)) !! n) →
    indexes key N (elements E) d) as Hdict.
  { intros d key Hd. split.
    - apply set_eq. intros n. rewrite elem_of_dom, Hd, fmap_is_Some.
      rewrite <- elem_of_dom, dom_gset_to_gmap. done.
    - intros n l. rewrite Hd, fmap_Some. intros (l' & [_ <-]%lookup_gset_to_gmap_Some & ->).
      by apply filter_Permutation, set_items_perm. }
  split; cbn [g_nodes g_edges in_edges out_edges]; [|by apply Hdict..].
  intros e. rewrite HE, !HN. naive_solver.
Qed.

(** ** Updates *)

Lemma list_remove_elem x l : x ∈ l → ∃ l', list_remove x l = Some l' ∧ l ≡ₚ x :: l'.
Proof.
  induction l as [|y l IH]; [by intros ?%not_elem_of_nil|]. cbn. intros Hx.
  destruct (decide (x = y)) as [->|Hne]; [by exists l|].
  destruct IH as (l' & -> & Hl); [by apply elem_of_cons in Hx as [|]|].
  exists (y :: l'). split; [done|]. rewrite Hl. apply Permutation_swap.
Qed.

(** One edge moves from the list of its old end to that of its new one. *)
Lemma indexes_move key key' N es e d :
  indexes key N (e :: es) d → (∀ x, x ∈ es → key' x = key x) → key e ∈ N → key' e ∈ N →
  ∃ d1 d2, dict_remove d (key e) e = Ok d1 ∧ dict_append d1 (key' e) e = Ok d2 ∧
    indexes key' N (e :: es) d2.
Proof.
  intros Hd Hkey Hold Hnew. destruct (indexes_get _ _ _ _ _ Hd Hold) as (l & Hl & Hperm).
  unfold edges_at in Hperm. rewrite filter_cons_True in Hperm by done.
  destruct (list_remove_elem e l) as (l1 & Hrem & Hl1); [rewrite Hperm; by left|].
  rewrite Hl1 in Hperm. apply (inj (cons e)) in Hperm.
  unfold dict_remove. rewrite (dict_get_Some _ _ _ Hl). cbn [mbind outcome_bind].
  rewrite Hrem. cbn [of_option]. set (d1 := <[key e := l1]> d).
  assert (indexes key N es d1) as Hd1.
  { destruct Hd as [Hdom Hd]. split.
    - unfold d1. rewrite dom_insert_L, Hdom. set_solver.
    - intros n l'. unfold d1. destruct (decide (n = key e)) as [->|Hne].
      + rewrite lookup_insert_eq. by intros [= <-].
      + rewrite lookup_insert_ne by done. intros Hl'%Hd. unfold edges_at in Hl'.
        by rewrite filter_cons_False in Hl'. }
  destruct (indexes_get _ _ _ _ _ Hd1 Hnew) as (l2 & Hl2 & Hperm2).
  exists d1, (<[key' e := l2 ++ [e]]> d1). split; [done|]. split; [by apply dict_append_lookup|].
  assert (∀ n, edges_at key' es n = edges_at key es n) as Hsame.
  { intros n. by apply edges_at_ext. }
  destruct Hd1 as [Hdom1 Hd1]. split; [rewrite dom_insert_L, Hdom1; set_solver|].
  intros n l'. destruct (decide (n = key' e)) as [->|Hne].
  - rewrite lookup_insert_eq. intros [= <-]. unfold edges_at at 1.
    rewrite filter_cons_True by done. fold (edges_at key' es (key' e)).
    rewrite Hsame, Hperm2. symmetry. apply Permutation_cons_append.
  - rewrite lookup_insert_ne by done. intros Hl'%Hd1. unfold edges_at at 1.
    rewrite filter_cons_False by done. by rewrite Hl', <- Hsame.
Qed.

(** What an update may do: move the edge, or refuse because it or a node is not in
    the graph. *)
Definition updated (e : edge) (a b : node) (h : Objects) (g : DirectedGraph)
    (r : outcome unit * (Objects * DirectedGraph)) : Prop :=
  let known := e ∈ g_edges g ∧ a ∈ g_nodes g ∧ b ∈ g_nodes g in
  match r with
  | (Ok _, (h', g')) =>
      known ∧ linked h' g' ∧ g_nodes g' = g_nodes g ∧ g_edges g' = g_edges g ∧
      h' = set_edge e (mkEdge a b (cost_of h e)) h
  | (Raise x, s') => x = AssertionError ∧ s' = (h, g) ∧ ¬ known
  end.

Lemma UpdateEdge_updated e a b h g : linked h g → updated e a b h g (UpdateEdge e a b (h, g)).
Proof.
  intros [Hends Hout Hin]. unfold UpdateEdge. rewrite bind_gets. cbn [id]. cbv beta iota zeta.
  destruct (decide (e ∈ g_edges g)) as [He|He].
  2: { rewrite (bool_decide_false (e ∈ g_edges g)) by done. cbn [assert_]. rewrite bind_lift_Raise.
       split; [done|]. split; [done|]. by intros (? & ? & ?). }
  rewrite (bool_decide_true (e ∈ g_edges g)) by done. cbn [assert_]. rewrite bind_lift_Ok.
  destruct (decide (a ∈ g_nodes g)) as [Ha|Ha].
  2: { rewrite (bool_decide_false (a ∈ g_nodes g)) by done. cbn [assert_]. rewrite bind_lift_Raise.
       split; [done|]. split; [done|]. by intros (? & ? & ?). }
  rewrite (bool_decide_true (a ∈ g_nodes g)) by done. cbn [assert_]. rewrite bind_lift_Ok.
  destruct (decide (b ∈ g_nodes g)) as [Hb|Hb].
  2: { rewrite (bool_decide_false (b ∈ g_nodes g)) by done. cbn [assert_]. rewrite bind_lift_Raise.
       split; [done|]. split; [done|]. by intros (? & ? & ?). }
  rewrite (bool_decide_true (b ∈ g_nodes g)) by done. cbn [assert_]. rewrite bind_lift_Ok.
  set (h' := set_edge e (mkEdge a b (cost_of h e)) h).
  set (es := elements (g_edges g ∖ {[e]})).
  assert (elements (g_edges g) ≡ₚ e :: es) as Hes.
  { unfold es. rewrite <- elements_union_singleton by set_solver.
    by rewrite <- union_difference_singleton_L. }
  assert (∀ x, x ∈ es → from_of h' x = from_of h x ∧ to_of h' x = to_of h x) as Hsame.
  { intros x. unfold es. rewrite elem_of_elements. intros Hx. unfold from_of, to_of, h'. cbn.
    rewrite fn_lookup_insert_ne by set_solver. done. }
  assert (from_of h' e = a ∧ to_of h' e = b) as [Hfrom Hto].
  { unfold from_of, to_of, h'. cbn. by rewrite fn_lookup_insert. }
  assert (∀ key d, indexes key (g_nodes g) (elements (g_edges g)) d ↔
            indexes key (g_nodes g) (e :: es) d) as Hidx.
  { intros key d. unfold indexes, edges_at. by setoid_rewrite Hes. }
  apply Hidx in Hin, Hout.
  destruct (indexes_move _ (to_of h') _ _ _ _ Hin) as (i1 & i2 & Hi1 & Hi2 & Hin');
    [by intros x [_ ?]%Hsame|by apply Hends|by rewrite Hto|].
  destruct (indexes_move _ (from_of h') _ _ _ _ Hout) as (o1 & o2 & Ho1 & Ho2 & Hout');
    [by intros x [? _]%Hsame|by apply Hends|by rewrite Hfrom|].
  rewrite Hto in Hi2. rewrite Hfrom in Ho2.
  rewrite Hi1, bind_lift_Ok, bind_modify, Ho1, bind_lift_Ok, bind_modify, bind_modify.
  cbn [g_nodes g_edges in_edges out_edges].
  rewrite Hi2, bind_lift_Ok, bind_modify, Ho2, bind_lift_Ok. unfold modify, updated.
  cbn [g_nodes g_edges in_edges out_edges]. fold h'. apply Hidx in Hin', Hout'.
  split; [done|]. split; [|done]. split; cbn [g_nodes g_edges in_edges out_edges]; [|done..].
  intros x Hx. destruct (decide (x = e)) as [->|Hne]; [by rewrite Hfrom, Hto|].
  destruct (Hsame x) as [-> ->]; [|by apply Hends]. unfold es. set_solver.
Qed.

(** The graphs a program reaches: made from nodes and edges, edges moved, costs
    assigned. *)
Inductive reached : Objects → DirectedGraph → Prop :=
  | reached_init h nodes edges g : DirectedGraph_init h nodes edges = Ok g → reached h g
  | reached_update e a b h g r h' g' :
      reached h g → UpdateEdge e a b (h, g) = (r, (h', g')) → reached h' g'
  | reached_node_cost n c h g : reached h g → reached (set_node_cost n c h) g
  | reached_edge_cost e c h g :
      reached h g → reached (set_edge e (mkEdge (from_of h e) (to_of h e) c) h) g.

Lemma edge_cost_ends e c h x :
  let h' := set_edge e (mkEdge (from_of h e) (to_of h e) c) h in
  from_of h' x = from_of h x ∧ to_of h' x = to_of h x.
Proof.
  unfold from_of, to_of. cbn. destruct (decide (x = e)) as [->|Hne].
  - by rewrite fn_lookup_insert.
  - by rewrite fn_lookup_insert_ne.
Qed.

Lemma linked_ext h h' g :
  (∀ e, from_of h' e = from_of h e ∧ to_of h' e = to_of h e) → linked h g → linked h' g.
Proof.
  intros Hsame [Hends [Hod Hout] [Hid Hin]]. split.
  - intros e He. destruct (Hsame e) as [-> ->]. by apply Hends.
  - split; [done|]. intros n l Hl. rewrite (edges_at_ext (from_of h)); [by apply Hout|].
    intros e _. apply Hsame.
  - split; [done|]. intros n l Hl. rewrite (edges_at_ext (to_of h)); [by apply Hin|].
    intros e _. apply Hsame.
Qed.

(** C20: The lists of edges at the nodes are right.  However a graph is made, its
    edges moved and its costs changed, refused updates included, every edge joins
    nodes of the graph and is exactly once in the list of its start and in the list
    of its end.  An update moves the edge when it and both nodes are in the graph,
    and otherwise raises and changes nothing. *)
Theorem reached_linked h g :
  reached h g → linked h g ∧ ∀ e a b, updated e a b h g (UpdateEdge e a b (h, g)).
Proof.
  intros Hr. assert (linked h g) as Hg; [|split; [done|]; intros; by apply UpdateEdge_updated].
  induction Hr as [h nodes edges g Hinit|e a b h g r h' g' _ IH Hrun|n c h g _ IH|e c h g _ IH].
  - destruct (DirectedGraph_init_linked h nodes edges) as (g' & Hg' & ? & _). congruence.
  - pose proof (UpdateEdge_updated e a b h g IH) as Hu. rewrite Hrun in Hu.
    destruct r as [[]|x]; [by destruct Hu as (_ & ? & _)|]. by destruct Hu as (_ & [= -> ->] & _).
  - by apply (linked_ext h).
  - apply (linked_ext h); [|done]. intros x. apply edge_cost_ends.
Qed.
End links.
