(* ===== verification/LoadingSort.v ===== *)
(** Exploration and topological sorting of the graphs of graph.py: which nodes are
    reached, which are sorted, in what order, and that both loops end. *)

From stdpp Require Import functions relations fin_sets gmap.
From S2P Require Import Prelude LoadingGraph LoadingLinks.

#[local] Open Scope Z_scope.

(** An edge of the graph leads from [m] to [n]. *)
Definition joined (h : Objects) (g : DirectedGraph) (m n : node) : Prop :=
  ∃ e, e ∈ g_edges g ∧ from_of h e = m ∧ to_of h e = n.

Lemma size_difference_insert (N V : gset node) n :
  n ∈ N → n ∉ V → S (size (N ∖ ({[n]} ∪ V))) = size (N ∖ V).
Proof.
  intros Hn HV. replace (N ∖ V) with ({[n]} ∪ (N ∖ ({[n]} ∪ V))).
  - etrans; [|symmetry; apply size_union; set_solver]. by rewrite size_singleton.
  - apply set_eq. intros m. rewrite elem_of_union, !elem_of_difference, elem_of_union.
    rewrite elem_of_singleton. destruct (decide (m = n)) as [->|]; naive_solver.
Qed.

(** ** Exploration *)

Section explore.
Context (N : gset node) (R : relation node) (expand : node → outcome (list node))
  (should_stop : node → bool)
  (R_in : ∀ n m, R n m → m ∈ N)
  (expand_spec : ∀ n, n ∈ N → ∃ ns, expand n = Ok ns ∧ ∀ m, m ∈ ns ↔ R n m).

(** A step of the exploration. *)
Definition goes_to (n m : node) : Prop := R n m ∧ should_stop m = false.

Lemma explore_nodes ns F V : (∀ m, m ∈ ns → m ∈ N) →
  ∃ new V', foldl (explore_node should_stop) (F, V) ns = (F ++ new, V') ∧
    (∀ m, m ∈ V' ↔ m ∈ V ∨ m ∈ new) ∧
    (∀ m, m ∈ new → m ∈ ns ∧ should_stop m = false) ∧
    (∀ m, m ∈ ns → should_stop m = false → m ∈ V') ∧
    (length new + size (N ∖ V') <= size (N ∖ V))%nat.
Proof.
  revert F V. induction ns as [|n ns IH]; intros F V Hns.
  { exists [], V. cbn. rewrite app_nil_r. set_solver. }
  cbn [foldl]. unfold explore_node at 2.
  destruct (bool_decide_reflect (n ∉ V)) as [Hn|Hn%dec_stable]; cbn [andb].
  2: { destruct (IH F V) as (new & V' & -> & HV & Hnew & Hall & Hsize); [set_solver|].
       exists new, V'. set_solver. }
  destruct (should_stop n) eqn:Hstop; cbn [negb].
  { destruct (IH F V) as (new & V' & -> & HV & Hnew & Hall & Hsize); [set_solver|].
    exists new, V'. split_and!; [done..|set_solver| |done].
    intros m [->|?]%elem_of_cons ?; [congruence|auto]. }
  destruct (IH (F ++ [n]) ({[n]} ∪ V)) as (new & V' & -> & HV & Hnew & Hall & Hsize);
    [set_solver|].
  exists (n :: new), V'. rewrite <- app_assoc. split_and!; [done|set_solver| | |].
  - intros m [->|[? ?]%Hnew]%elem_of_cons; [by split; [left|]|by split; [right|]].
  - intros m [->|?]%elem_of_cons ?; [apply HV; set_solver|auto].
  - cbn [length]. rewrite <- (size_difference_insert N V n); [lia| |done]. apply Hns. by left.
Qed.

Lemma explore_spec fuel F V :
  (length F + size (N ∖ V) <= fuel)%nat →
  (∀ n, n ∈ F → n ∈ N ∧ should_stop n = false) →
  (∀ n, n ∈ V → n ∈ F ∨ ∀ m, goes_to n m → m ∈ V) →
  ∃ V', explore fuel expand should_stop F V = Ok V' ∧
    (∀ n, n ∈ V ∨ n ∈ F → n ∈ V') ∧
    (∀ n m, n ∈ V' → goes_to n m → m ∈ V') ∧
    (∀ m, m ∈ V' → m ∈ V ∨ ∃ n, n ∈ F ∧ rtc goes_to n m).
Proof.
  revert F V. induction fuel as [|fuel IH]; intros [|n F] V Hfuel HF HV; cbn in Hfuel.
  1,3: exists V; set_solver.
  1: lia.
  cbn [explore]. destruct (HF n) as [Hn ->]; [by left|].
  destruct (expand_spec n Hn) as (ns & -> & Hns). cbn [mbind outcome_bind].
  destruct (explore_nodes ns F ({[n]} ∪ V)) as (new & V1 & -> & HV1 & Hnew & Hall & Hsize).
  { intros m ?%Hns. by eapply R_in. }
  assert (size (N ∖ ({[n]} ∪ V)) <= size (N ∖ V))%nat by (apply subseteq_size; set_solver).
  destruct (IH (F ++ new) V1) as (V' & -> & Hsub & Hclosed & Hreach).
  - rewrite length_app. lia.
  - intros m [Hm|Hm]%elem_of_app; [apply HF; by right|].
    destruct (Hnew m Hm) as [Hm' ?]. split; [|done]. apply (R_in n). by apply Hns.
  - intros m [[->%elem_of_singleton|Hm]%elem_of_union|Hm]%HV1.
    + right. intros k [HR Hk]. apply Hall; [by apply Hns|done].
    + destruct (HV m Hm) as [[->|Hm']%elem_of_cons|Hm'].
      * right. intros k [HR Hk]. apply Hall; [by apply Hns|done].
      * left. apply elem_of_app. by left.
      * right. intros k ?%Hm'. apply HV1. set_solver.
    + left. apply elem_of_app. by right.
  - exists V'. split; [done|]. split; [|split; [done|]].
    + intros m [?|[->|?]%elem_of_cons]; apply Hsub; rewrite HV1, elem_of_app; set_solver.
    + intros m Hm. destruct (Hreach m Hm) as [[[->%elem_of_singleton|?]%elem_of_union|Hk]%HV1
        |(k & [?|Hk]%elem_of_app & Hrtc)].
      * right. exists n. split; [by left|apply rtc_refl].
      * by left.
      * right. exists n. destruct (Hnew m Hk). split; [by left|]. apply rtc_once.
        split; [by apply Hns|done].
      * right. exists k. split; [by right|done].
      * right. exists n. destruct (Hnew k Hk). split; [by left|]. eapply rtc_l; [|done].
        split; [by apply Hns|done].
Qed.
End explore.

Lemma ExploreFrom_spec g R expand should_stop initial :
  (∀ n m, R n m → m ∈ g_nodes g) →
  (∀ n, n ∈ g_nodes g → ∃ ns, expand n = Ok ns ∧ ∀ m, m ∈ ns ↔ R n m) →
  (∀ n, n ∈ initial → n ∈ g_nodes g) →
  ∃ V, ExploreFrom g initial expand should_stop = Ok V ∧
    ∀ m, m ∈ V ↔ ∃ n, n ∈ initial ∧ should_stop n = false ∧ rtc (goes_to R should_stop) n m.
Proof.
  intros HR Hexpand Hinit. unfold ExploreFrom.
  set (F := reverse (base.filter _ initial)).
  assert (∀ n, n ∈ F ↔ n ∈ initial ∧ should_stop n = false) as HF.
  { intros n. unfold F. rewrite elem_of_reverse, list_elem_of_filter. naive_solver. }
  destruct (explore_spec (g_nodes g) R expand should_stop HR Hexpand
    (length initial + size (g_nodes g)) F ∅) as (V & -> & Hsub & Hclosed & Hreach).
  - unfold F. rewrite length_reverse.
    assert (length (base.filter (λ n, should_stop n = false) initial) <= length initial)%nat
      by apply length_filter.
    replace (g_nodes g ∖ ∅) with (g_nodes g) by set_solver. lia.
  - intros n [? ?]%HF. auto.
  - set_solver.
  - exists V. split; [done|]. intros m. split.
    + intros [?|(n & [? ?]%HF & ?)]%Hreach; [set_solver|eauto].
    + intros (n & Hn & Hstop & Hrtc). assert (n ∈ V) as HnV by (apply Hsub; right; by apply HF).
      clear Hn Hstop. induction Hrtc as [|n k m Hk _ IH]; [done|]. apply IH. by apply (Hclosed n).
Qed.

(** ** Sorting *)

(** The edges of [P] into [n], counted. *)
Definition count_to (h : Objects) (P : list edge) (n : node) : Z :=
  Z.of_nat (length (edges_at (to_of h) P n)).

Lemma count_to_cons h e P n :
  count_to h (e :: P) n = (if decide (to_of h e = n) then 1 else 0) + count_to h P n.
Proof. unfold count_to, edges_at. rewrite filter_cons. case_decide; cbn [length]; lia. Qed.

Lemma count_to_zero h P n : count_to h P n = 0 ↔ ∀ e, e ∈ P → to_of h e ≠ n.
Proof.
  unfold count_to, edges_at. split.
  - intros Hz e He Hn. assert (e ∈ base.filter (λ e, to_of h e = n) P) as Hin
      by by apply list_elem_of_filter.
    destruct (base.filter _ P); [by apply not_elem_of_nil in Hin|cbn in Hz; lia].
  - intros Hno. rewrite filter_none; [done|exact Hno].
Qed.

Lemma count_to_perm h P P' n : P ≡ₚ P' → count_to h P n = count_to h P' n.
Proof. intros HP. unfold count_to, edges_at. by rewrite HP. Qed.

Section sort.
Context `{!DictOrder} (h : Objects) (g : DirectedGraph) (g_linked : linked h g)
  (subset : gset node) (subset_nodes : subset ⊆ g_nodes g).

(** The edges of the subset that come from a node that is not sorted yet. *)
Definition pending (done : list node) : list edge :=
  base.filter (λ e, from_of h e ∈ subset ∧ to_of h e ∈ subset ∧ from_of h e ∉ done)
    (elements (g_edges g)).

(** The predecessors of a node within the subset. *)
Definition precedes (m n : node) : Prop := m ∈ subset ∧ n ∈ subset ∧ joined h g m n.

Lemma elem_of_pending done e : e ∈ pending done ↔
  e ∈ g_edges g ∧ from_of h e ∈ subset ∧ to_of h e ∈ subset ∧ from_of h e ∉ done.
Proof. unfold pending. rewrite list_elem_of_filter, elem_of_elements. naive_solver. Qed.

Lemma count_edges_spec es remaining P :
  (∀ n, n ∈ subset → remaining !! n = Some (count_to h P n)) →
  ∃ remaining', count_edges h subset es remaining = Ok remaining' ∧
    dom remaining' = dom remaining ∧
    ∀ n, n ∈ subset → remaining' !! n =
      Some (count_to h (base.filter (λ e, from_of h e ∈ subset ∧ to_of h e ∈ subset) es ++ P) n).
Proof.
  revert remaining P. induction es as [|e es IH]; intros remaining P Hrem; [by exists remaining|].
  cbn [count_edges]. rewrite filter_cons.
  destruct (decide (from_of h e ∈ subset ∧ to_of h e ∈ subset)) as [[Hf Ht]|_]; [|by apply IH].
  rewrite (dict_get_Some _ _ _ (Hrem _ Ht)). cbn [mbind outcome_bind].
  destruct (IH (<[to_of h e := count_to h P (to_of h e) + 1]> remaining) (e :: P))
    as (rem' & -> & Hdom & Hrem').
  - intros n Hn. rewrite count_to_cons. case_decide as He.
    + subst n. rewrite lookup_insert_eq. f_equal. lia.
    + rewrite lookup_insert_ne by done. by apply Hrem.
  - exists rem'. split; [done|]. split.
    + rewrite Hdom. apply dom_insert_lookup_L. rewrite Hrem by done. by eexists.
    + intros n Hn. rewrite Hrem' by done. f_equal. apply count_to_perm.
      by rewrite <- Permutation_middle.
Qed.

Lemma relax_edges_spec es remaining sources P :
  (∀ n, n ∈ subset → remaining !! n =
     Some (count_to h (base.filter (λ e, to_of h e ∈ subset) es ++ P) n)) →
  ∃ remaining' new, relax_edges h subset es remaining sources = Ok (remaining', sources ++ new) ∧
    (∀ n, n ∈ subset → remaining' !! n = Some (count_to h P n)) ∧ NoDup new ∧
    (∀ n, n ∈ new ↔ n ∈ subset ∧ (∃ e, e ∈ es ∧ to_of h e = n) ∧ count_to h P n = 0).
Proof.
  revert remaining sources. induction es as [|e es IH]; intros remaining sources Hrem.
  { exists remaining, []. rewrite app_nil_r. split; [done|]. split; [done|].
    split; [constructor|]. intros n. split; [by intros ?%not_elem_of_nil|].
    by intros (_ & (e & He%not_elem_of_nil & _) & _). }
  cbn [relax_edges]. rewrite filter_cons in Hrem.
  destruct (decide (to_of h e ∈ subset)) as [Hs|Hs].
  2: { destruct (IH remaining sources Hrem) as (rem' & new & -> & ? & ? & Hnew).
       exists rem', new. split_and!; [done..|]. intros n. rewrite Hnew.
       split; intros (Hn & (e' & He & Ht) & Hc).
       - split_and!; [done| |done]. exists e'. split; [by right|done].
       - apply elem_of_cons in He as [->|He]; [by subst|]. eauto. }
  rewrite (dict_get_Some _ _ _ (Hrem _ Hs)). cbn [mbind outcome_bind app].
  set (c := count_to h (base.filter (λ e, to_of h e ∈ subset) es ++ P) (to_of h e)).
  rewrite count_to_cons, decide_True by done. fold c.
  assert (0 <= c) by (unfold c, count_to; lia).
  replace (0 <? 1 + c) with true by (symmetry; apply Z.ltb_lt; lia).
  cbn [assert_ mbind outcome_bind]. replace (1 + c - 1) with c by lia.
  destruct (IH (<[to_of h e := c]> remaining)
    (if c =? 0 then sources ++ [to_of h e] else sources)) as (rem' & new & -> & Hrem' & Hdup & Hnew).
  { intros n Hn. destruct (decide (to_of h e = n)) as [<-|Hne].
    - by rewrite lookup_insert_eq.
    - rewrite lookup_insert_ne by done. rewrite Hrem by done. cbn [app].
      by rewrite count_to_cons, decide_False. }
  assert (c = 0 ↔ (∀ e', e' ∈ es → to_of h e' ≠ to_of h e) ∧ count_to h P (to_of h e) = 0) as Hc.
  { unfold c. rewrite !count_to_zero. setoid_rewrite elem_of_app.
    setoid_rewrite list_elem_of_filter. split.
    - intros Hno. split; [|naive_solver]. intros e' He' Heq. apply (Hno e'); [|done].
      left. by rewrite Heq.
    - intros [Hno HP] e' [[_ ?]|?]; naive_solver. }
  destruct (Z.eqb_spec c 0) as [Hz|Hz].
  - apply Hc in Hz as [Hno HP]. exists rem', (to_of h e :: new).
    rewrite <- app_assoc. split_and!; [done..| |].
    + constructor; [|done]. rewrite Hnew. intros (_ & (e' & He' & Ht) & _). by apply (Hno e').
    + intros n. rewrite elem_of_cons, Hnew. split.
      * intros [->|(Hn & (e' & He' & <-) & Hcount)]; [split_and!; [done| |done]; exists e|].
        { split; [by left|done]. }
        split_and!; [done| |done]. exists e'. split; [by right|done].
      * intros (Hn & (e' & [->|He']%elem_of_cons & <-) & Hcount); [by left|].
        right. eauto.
  - exists rem', new. split_and!; [done..|]. intros n. rewrite Hnew. split.
    + intros (Hn & (e' & He' & <-) & Hcount). split_and!; [done| |done].
      exists e'. split; [by right|done].
    + intros (Hn & (e' & [->|He']%elem_of_cons & <-) & Hcount); [|by eauto 10].
      split_and!; [done| |done]. destruct (decide (Exists (λ x, to_of h x = to_of h e) es)) as [Hex|Hno].
      * by apply Exists_exists in Hex.
      * destruct Hz. apply Hc. split; [|done]. intros x Hx Heq. apply Hno, Exists_exists. eauto.
Qed.

(** What holds between two rounds of the loop. *)
Record sorting (remaining : gmap node Z) (sources done : list node) : Prop := mkSorting {
  sorting_count : ∀ n, n ∈ subset → remaining !! n = Some (count_to h (pending done) n);
  sorting_nodup : NoDup (done ++ sources);
  sorting_free : ∀ n, n ∈ done ++ sources ↔ n ∈ subset ∧ count_to h (pending done) n = 0;
  sorting_ordered : ∀ d1 n d2, done = d1 ++ n :: d2 → ∀ m, precedes m n → m ∈ d1
}.

Lemma pending_step done n es :
  n ∈ subset → n ∉ done → es ≡ₚ edges_at (from_of h) (elements (g_edges g)) n →
  pending done ≡ₚ base.filter (λ e, to_of h e ∈ subset) es ++ pending (done ++ [n]).
Proof.
  intros Hn Hdone Hes. rewrite Hes. unfold pending, edges_at.
  assert (∀ l, base.filter (λ e, from_of h e ∈ subset ∧ to_of h e ∈ subset ∧ from_of h e ∉ done) l ≡ₚ
    base.filter (λ e, to_of h e ∈ subset) (base.filter (λ e, from_of h e = n) l) ++
    base.filter (λ e, from_of h e ∈ subset ∧ to_of h e ∈ subset ∧ from_of h e ∉ done ++ [n]) l);
    [|done].
  induction l as [|e l IH]; [done|]. rewrite !filter_cons.
  destruct (decide (from_of h e = n)) as [He|He].
  - rewrite filter_cons. rewrite (decide_False (P:=_ ∧ _ ∧ _ ∉ _ ++ _)) by
      (rewrite elem_of_app, list_elem_of_singleton; naive_solver).
    subst n. destruct (decide (to_of h e ∈ subset)).
    + rewrite decide_True by done. cbn. by rewrite IH.
    + rewrite decide_False by naive_solver. done.
  - destruct (decide (from_of h e ∈ subset ∧ to_of h e ∈ subset ∧ from_of h e ∉ done)) as [Hp|Hp].
    + rewrite decide_True by (rewrite not_elem_of_app, list_elem_of_singleton; naive_solver).
      rewrite <- Permutation_middle. by rewrite IH.
    + rewrite decide_False by (rewrite not_elem_of_app; naive_solver). done.
Qed.

(** A node of which no edge is pending has all its predecessors sorted. *)
Lemma free_precedes done m n :
  count_to h (pending done) n = 0 → precedes m n → m ∈ done.
Proof.
  rewrite count_to_zero. intros Hz (Hm & Hn & e & He & <- & <-).
  destruct (decide (from_of h e ∈ done)) as [|Hd]; [done|].
  exfalso. apply (Hz e); [|done]. by apply elem_of_pending.
Qed.

Lemma sorting_step remaining n sources done :
  sorting remaining (n :: sources) done →
  ∃ es remaining' new, OutEdges g n = Ok es ∧
    relax_edges h subset es remaining sources = Ok (remaining', sources ++ new) ∧
    sorting remaining' (sources ++ new) (done ++ [n]).
Proof.
  intros [Hcount Hdup Hfree Hord].
  assert (n ∈ subset ∧ count_to h (pending done) n = 0) as [Hn Hz].
  { apply Hfree, elem_of_app. right. by left. }
  assert (n ∉ done) as Hnd.
  { apply NoDup_app in Hdup as (_ & Hdis & _). intros Hd. by apply (Hdis n Hd); left. }
  destruct (OutEdges_linked h g n g_linked) as (es & Hout & Hes); [by apply subset_nodes|].
  pose proof (pending_step done n es Hn Hnd Hes) as Hstep.
  destruct (relax_edges_spec es remaining sources (pending (done ++ [n])))
    as (rem' & new & Hrelax & Hrem' & Hnewdup & Hnew).
  { intros x Hx. rewrite Hcount by done. f_equal. by apply count_to_perm. }
  exists es, rem', new. split; [done|]. split; [done|].
  assert (∀ x, count_to h (pending done) x = 0 ↔
    count_to h (pending (done ++ [n])) x = 0 ∧ (x ∈ subset → ∀ e, e ∈ es → to_of h e ≠ x)) as Hsplit.
  { intros x. rewrite (count_to_perm _ _ _ x Hstep), !count_to_zero.
    setoid_rewrite elem_of_app. setoid_rewrite list_elem_of_filter. split.
    - intros Hno. split; [naive_solver|]. intros Hx e He <-. naive_solver.
    - intros [Hno Hes'] e [[Hs He] | He]; [|by apply Hno]. intros <-. by apply (Hes' Hs e). }
  assert ((done ++ [n]) ++ sources ++ new = (done ++ n :: sources) ++ new) as Heq
    by by rewrite <- !app_assoc.
  split; [done| | |].
  - rewrite Heq. apply NoDup_app. split; [done|]. split; [|done].
    intros x [Hx Hc]%Hfree (_ & (e & He & Ht) & _)%Hnew. apply Hsplit in Hc as [_ Hc].
    by apply (Hc Hx e).
  - intros x. rewrite Heq, elem_of_app, Hfree, Hnew. rewrite Hsplit. split; [naive_solver|].
    intros [Hx Hc]. destruct (decide (Exists (λ e, to_of h e = x) es)) as [Hex|Hno].
    + right. split_and!; [done| |done]. by apply Exists_exists in Hex.
    + left. split; [done|]. split; [done|]. intros _ e He Ht. apply Hno, Exists_exists. eauto.
  - intros d1 x d2 Hd m Hm. apply app_eq_inv in Hd as [(k & -> & Hk)|(k & -> & Hk)].
    + destruct k as [|y k]; cbn in Hk.
      * injection Hk as -> _. rewrite app_nil_r in Hz. by eapply free_precedes.
      * injection Hk as <- Hk. by eapply (Hord d1 x k).
    + destruct k as [|y k]; cbn in Hk.
      * injection Hk as <- _. rewrite app_nil_r. by eapply free_precedes.
      * injection Hk as _ Hk. by destruct k.
Qed.

Lemma sort_loop_spec fuel remaining sources done :
  sorting remaining sources done → (size subset <= length done + fuel)%nat →
  ∃ remaining' l, sort_loop fuel h g subset remaining sources done = Ok l ∧ sorting remaining' [] l.
Proof.
  revert remaining sources done. induction fuel as [|fuel IH]; intros remaining [|n sources] done Hs Hfuel.
  1,3: by exists remaining, done.
  - assert (length (done ++ n :: sources) <= size subset)%nat as Hlen.
    { rewrite <- (size_list_to_set (C:=gset node)) by apply (sorting_nodup _ _ _ Hs).
      apply subseteq_size. intros x Hx%elem_of_list_to_set. by apply (sorting_free _ _ _ Hs). }
    rewrite length_app in Hlen. cbn in Hlen. lia.
  - cbn [sort_loop]. destruct (sorting_step _ _ _ _ Hs) as (es & rem' & new & -> & Hrelax & Hs').
    cbn [mbind outcome_bind]. rewrite Hrelax. cbn [mbind outcome_bind].
    apply (IH _ _ _ Hs'). rewrite length_app. cbn. lia.
Qed.

(** Nodes without a cycle among what leads to them. *)
Lemma sorting_done remaining l n :
  sorting remaining [] l → n ∈ l ↔ n ∈ subset ∧ Acc precedes n.
Proof.
  intros Hs. assert (∀ k, k ∈ l ↔ k ∈ subset ∧ count_to h (pending l) k = 0) as Hfree.
  { intros k. by rewrite <- (sorting_free _ _ _ Hs), app_nil_r. }
  split.
  - intros Hn. split; [by apply Hfree|]. apply list_elem_of_split in Hn as (d1 & d2 & Hl).
    remember (length d1) as len eqn:Hlen. revert n d1 d2 Hl Hlen.
    induction (lt_wf len) as [len _ IH]. intros n d1 d2 Hl ->. constructor. intros m Hm.
    pose proof (sorting_ordered _ _ _ Hs _ _ _ Hl m Hm) as (d0 & d1' & ->)%list_elem_of_split.
    eapply (IH (length d0)); [|by rewrite <- app_assoc in Hl|done]. rewrite length_app. cbn. lia.
  - intros [Hn Hacc]. induction Hacc as [n _ IH]. apply Hfree. split; [done|].
    apply count_to_zero. intros e (He & Hf & Ht & Hd)%elem_of_pending <-.
    apply Hd, IH; [|done]. split_and!; [done..|]. by exists e.
Qed.

(** Every edge within the sorted nodes goes forward. *)
Lemma sorting_before remaining l i j m n :
  sorting remaining [] l → l !! i = Some m → l !! j = Some n → joined h g m n → (i < j)%nat.
Proof.
  intros Hs Hi Hj Hmn. pose proof (sorting_nodup _ _ _ Hs) as Hdup. rewrite app_nil_r in Hdup.
  assert (precedes m n) as Hp.
  { split_and!; [..|done]; eapply sorting_done; try done; by eapply list_elem_of_lookup_2. }
  destruct (list_elem_of_split_length _ _ _ Hj) as (d1 & d2 & Hd & ->).
  pose proof (sorting_ordered _ _ _ Hs _ _ _ Hd m Hp) as [k Hk]%list_elem_of_lookup.
  assert (l !! k = Some m) as Hk' by (rewrite Hd; by apply lookup_app_l_Some).
  rewrite (NoDup_lookup _ _ _ _ Hdup Hi Hk'). by eapply lookup_lt_Some.
Qed.
End sort.

(** ** The methods *)

Section methods.
Context `{!DictOrder} (h : Objects) (g : DirectedGraph) (g_linked : linked h g).

Lemma joined_nodes m n : joined h g m n → m ∈ g_nodes g ∧ n ∈ g_nodes g.
Proof. intros (e & He & <- & <-). by apply (linked_ends h g g_linked). Qed.

Lemma successors_spec n : n ∈ g_nodes g →
  ∃ ns, successors h g n = Ok ns ∧ ∀ m, m ∈ ns ↔ joined h g n m.
Proof.
  intros Hn. destruct (OutEdges_linked h g n g_linked Hn) as (es & Hes & Hperm).
  exists (map (to_of h) es). unfold successors. rewrite Hes. split; [done|]. intros m.
  change (map ?f ?l) with (f <$> l). rewrite list_elem_of_fmap. setoid_rewrite Hperm.
  setoid_rewrite elem_of_edges_at. unfold joined. naive_solver.
Qed.

Lemma predecessors_spec n : n ∈ g_nodes g →
  ∃ ns, predecessors h g n = Ok ns ∧ ∀ m, m ∈ ns ↔ joined h g m n.
Proof.
  intros Hn. destruct (InEdges_linked h g n g_linked Hn) as (es & Hes & Hperm).
  exists (map (from_of h) es). unfold predecessors. rewrite Hes. split; [done|]. intros m.
  change (map ?f ?l) with (f <$> l). rewrite list_elem_of_fmap. setoid_rewrite Hperm.
  setoid_rewrite elem_of_edges_at. unfold joined. naive_solver.
Qed.

Lemma ReachableNodes_spec roots should_stop :
  (∀ n, n ∈ roots → n ∈ g_nodes g) →
  ∃ V, ReachableNodes h g roots should_stop = Ok V ∧
    ∀ m, m ∈ V ↔ ∃ n, n ∈ roots ∧ should_stop n = false ∧
                  rtc (goes_to (joined h g) should_stop) n m.
Proof.
  intros Hroots. apply ExploreFrom_spec; [|apply successors_spec|done].
  by intros n m [_ ?]%joined_nodes.
Qed.

Lemma rtc_goes_to R n m : rtc (goes_to R (λ _, false)) n m ↔ rtc R n m.
Proof.
  split; induction 1 as [|a b c Hab _ IH]; try apply rtc_refl.
  - destruct Hab. by eapply rtc_l.
  - by eapply rtc_l.
Qed.

Lemma rtc_backwards m n : rtc (λ a b, joined h g b a) n m ↔ rtc (joined h g) m n.
Proof.
  split; induction 1 as [|a b c Hab _ IH]; try apply rtc_refl; by eapply rtc_r.
Qed.

Lemma AncestorNodes_spec ds :
  (∀ n, n ∈ first_iteration ds → n ∈ g_nodes g) →
  ∃ A, AncestorNodes h g ds = Ok A ∧
    ∀ m, m ∈ A ↔ m ∉ second_iteration ds ∧
                ∃ n, n ∈ first_iteration ds ∧ rtc (joined h g) m n.
Proof.
  intros Hds. unfold AncestorNodes.
  destruct (ExploreFrom_spec g (λ a b, joined h g b a) (predecessors h g) (λ _, false)
    (first_iteration ds)) as (V & -> & HV); [|apply predecessors_spec|done|].
  { by intros n m [? _]%joined_nodes. }
  eexists. split; [reflexivity|]. intros m.
  rewrite elem_of_difference, elem_of_list_to_set, HV. setoid_rewrite rtc_goes_to.
  setoid_rewrite rtc_backwards. naive_solver.
Qed.

(** The nodes a sort is about. *)
Definition considered (roots : option (list node)) (n : node) : Prop :=
  match roots with
  | None => n ∈ g_nodes g
  | Some roots => ∃ r, r ∈ roots ∧ rtc (joined h g) r n
  end.

Lemma considered_nodes roots n :
  (∀ r, r ∈ default [] roots → r ∈ g_nodes g) → considered roots n → n ∈ g_nodes g.
Proof.
  intros Hroots. destruct roots as [roots|]; [|done]. intros (r & Hr & Hrtc).
  apply rtc_inv_r in Hrtc as [<-|(k & _ & [_ ?]%joined_nodes)]; [by apply Hroots|done].
Qed.

Lemma TopologicalSort_spec roots :
  (∀ n, n ∈ default [] roots → n ∈ g_nodes g) →
  ∃ subset remaining l, TopologicalSort h g roots = Ok l ∧
    (∀ n, n ∈ subset ↔ considered roots n) ∧ subset ⊆ g_nodes g ∧
    sorting h g subset remaining [] l.
Proof.
  intros Hroots. unfold TopologicalSort.
  set (nodes_subset := match roots with None => _ | Some _ => _ end).
  assert (∃ subset : gset node, nodes_subset = Ok subset ∧ ∀ n, n ∈ subset ↔ considered roots n)
    as (subset & -> & Hsubset).
  { unfold nodes_subset. destruct roots as [roots|]; [|by eexists].
    destruct (ReachableNodes_spec roots (λ _, false)) as (V & -> & HV); [done|].
    exists V. split; [done|]. intros n. rewrite HV. setoid_rewrite rtc_goes_to. cbn. naive_solver. }
  assert (subset ⊆ g_nodes g) as Hsub.
  { intros n Hn%Hsubset. by apply (considered_nodes roots). }
  cbn [mbind outcome_bind].
  destruct (count_edges_spec h subset (set_items (g_edges g)) (gset_to_gmap 0 subset) [])
    as (rem & -> & Hdom & Hrem).
  { intros n Hn. by apply lookup_gset_to_gmap_Some. }
  cbn [mbind outcome_bind]. rewrite dom_gset_to_gmap in Hdom.
  assert (∀ n, n ∈ subset → rem !! n = Some (count_to h (pending h g subset []) n)) as Hcount.
  { intros n Hn. rewrite Hrem by done. f_equal. apply count_to_perm. rewrite app_nil_r.
    unfold pending. rewrite <- set_items_perm.
    erewrite list_filter_iff; [done|]. intros e. cbn. pose proof (not_elem_of_nil (from_of h e)).
    naive_solver. }
  set (sources := (base.filter _ (dict_items rem)).*1).
  destruct (sort_loop_spec h g g_linked subset Hsub (size subset) rem sources [])
    as (rem' & l & -> & Hl).
  - split; [done| | |by intros [] ? ? [=]].
    + cbn [app]. unfold sources. eapply sublist_NoDup; [apply (NoDup_dict_keys rem)|].
      apply fmap_sublist, sublist_filter.
    + intros n. cbn [app]. unfold sources. rewrite list_elem_of_fmap. split.
      * intros ([n' c] & -> & [Hc Hin]%list_elem_of_filter). cbn in Hc |- *. subst c.
        apply elem_of_dict_items in Hin.
        assert (n' ∈ subset) as Hn' by (rewrite <- Hdom; by apply elem_of_dom_2 in Hin).
        rewrite Hcount in Hin by done. split; [done|]. by injection Hin.
      * intros [Hn Hz]. exists (n, 0). split; [done|]. apply list_elem_of_filter. split; [done|].
        apply elem_of_dict_items. by rewrite Hcount, Hz.
  - cbn. lia.
  - by exists subset, rem', l.
Qed.

(** No node is on a cycle or behind one. *)
Definition acyclic : Prop := ∀ n, n ∈ g_nodes g → Acc (joined h g) n.

Lemma acyclic_order : acyclic → ∃ order : list node,
  TopologicalSort h g None = Ok order ∧ NoDup order ∧ (∀ n, n ∈ order ↔ n ∈ g_nodes g) ∧
  (∀ i j m n, order !! i = Some m → order !! j = Some n → joined h g m n → (i < j)%nat).
Proof.
  intros Hacc. destruct (TopologicalSort_spec None) as (subset & rem & l & Hl & Hsub & _ & Hs).
  { by intros n ?%not_elem_of_nil. }
  pose proof (sorting_nodup _ _ _ _ _ _ Hs) as Hdup. rewrite app_nil_r in Hdup.
  exists l. split_and!; [done..| |].
  - intros n. etrans; [by eapply sorting_done|]. rewrite Hsub. cbn. split; [by intros [? _]|].
    intros Hn. split; [done|]. specialize (Hacc n Hn). induction Hacc as [k _ IH]. constructor.
    intros m (_ & _ & Hm). apply IH; [done|]. by apply (joined_nodes m k).
  - intros i j m n. by eapply sorting_before.
Qed.

(** C19: Topological sorting.  Of the nodes considered, all or those reachable from
    the given roots, the sort lists each node that no cycle among them leads to
    exactly once, every edge going forward in the list; nodes on or behind a cycle
    are left out.  It always ends. *)
Theorem TopologicalSort_sorts roots :
  (∀ n, n ∈ default [] roots → n ∈ g_nodes g) →
  ∃ (subset : gset node) l,
    (∀ n, n ∈ subset ↔ considered roots n) ∧
    TopologicalSort h g roots = Ok l ∧ NoDup l ∧
    (∀ n, n ∈ l ↔ n ∈ subset ∧ Acc (precedes h g subset) n) ∧
    (∀ i j m n, l !! i = Some m → l !! j = Some n → joined h g m n → (i < j)%nat).
Proof.
  intros Hroots. destruct (TopologicalSort_spec roots Hroots) as (subset & rem & l & Hl & Hsub & _ & Hs).
  pose proof (sorting_nodup _ _ _ _ _ _ Hs) as Hdup. rewrite app_nil_r in Hdup.
  exists subset, l. split_and!; [done..| |].
  - intros n. by eapply sorting_done.
  - intros i j m n. by eapply sorting_before.
Qed.

(** Exploring a graph.  [ReachableNodes] finds exactly the nodes at the end of
    a path from a root on which no node is a stop; [AncestorNodes] those from which
    a path leads to a given node.  The given nodes themselves are left out only
    when they come in a list: a generator has nothing left to exclude.  Both
    loops end. *)
Theorem ReachableNodes_reachable roots should_stop descendants :
  (∀ n, n ∈ roots → n ∈ g_nodes g) →
  (∀ n, n ∈ first_iteration descendants → n ∈ g_nodes g) →
  (∃ V, ReachableNodes h g roots should_stop = Ok V ∧
     ∀ m, m ∈ V ↔ ∃ r, r ∈ roots ∧ should_stop r = false ∧
       rtc (λ a b, joined h g a b ∧ should_stop b = false) r m) ∧
  (∃ A, AncestorNodes h g descendants = Ok A ∧
     ∀ m, m ∈ A ↔ (∃ d, d ∈ first_iteration descendants ∧ rtc (joined h g) m d) ∧
       match descendants with IterList ds => m ∉ ds | IterGenerator _ => True end).
Proof.
  intros Hroots Hds. split; [by apply ReachableNodes_spec|].
  destruct (AncestorNodes_spec descendants Hds) as (A & HA & Hspec). exists A. split; [done|].
  intros m. rewrite Hspec. destruct descendants; cbn; [naive_solver|].
  pose proof (not_elem_of_nil m). naive_solver.
Qed.
End methods.
