(* ===== verification/LoadingCost.v ===== *)
(** The cost of a graph of graph.py is that of its costliest path, and the path
    that is handed out. *)

From stdpp Require Import functions relations.
From S2P Require Import Prelude LoadingGraph LoadingLinks LoadingSort.

#[local] Open Scope Z_scope.

Lemma py_max_spec l : l ≠ [] → ∃ m, py_max l = Ok m ∧ m ∈ l ∧ ∀ x, x ∈ l → x <= m.
Proof.
  destruct l as [|x l]; [done|]. intros _. cbn [py_max]. exists (foldl Z.max x l). split; [done|].
  revert x. induction l as [|y l IH]; intros x; cbn.
  - split; [by left|]. by intros z ->%list_elem_of_singleton.
  - destruct (IH (Z.max x y)) as [Hin Hmax]. split.
    + apply elem_of_cons in Hin as [Hin|Hin]; [|by do 2 right].
      rewrite Hin. destruct (Z.max_spec x y) as [[_ ->]|[_ ->]]; [right|]; by left.
    + assert (Z.max x y <= foldl Z.max (Z.max x y) l) by (apply Hmax; by left).
      intros z [->|[->|Hz]%elem_of_cons]%elem_of_cons; [lia..|]. apply Hmax. by right.
Qed.

Section cost.
Context `{!DictOrder} (h : Objects) (g : DirectedGraph) (g_linked : linked h g).

(** The cost of a path to a node: it begins at a node without predecessors or
    behind the nodes that were not sorted, and adds the nodes and edges on it. *)
Inductive path_cost (listed : list node) : node → Z → Prop :=
  | cost_outside n : n ∈ g_nodes g → n ∉ listed → path_cost listed n 0
  | cost_root n :
      n ∈ listed → (∀ m, ¬ joined h g m n) → path_cost listed n (node_cost h n)
  | cost_edge e c :
      e ∈ g_edges g → to_of h e ∈ listed → path_cost listed (from_of h e) c →
      path_cost listed (to_of h e) (c + cost_of h e + node_cost h (to_of h e)).

Definition longest (listed : list node) (n : node) (c : Z) : Prop :=
  path_cost listed n c ∧ ∀ c', path_cost listed n c' → c' <= c.

Lemma longest_outside listed n : n ∈ g_nodes g → n ∉ listed → longest listed n 0.
Proof.
  intros Hn Hl. split; [by constructor|]. intros c Hc. destruct Hc; [done..|]. done.
Qed.

(** The costs of the edges into a node, from the costs of its predecessors. *)
Lemma edge_costs costs es :
  (∀ e, e ∈ es → is_Some (costs !! from_of h e)) →
  mapM (λ e, c ← dict_get costs (from_of h e); Ok (c + cost_of h e)) es =
    Ok ((λ e, default 0 (costs !! from_of h e) + cost_of h e) <$> es).
Proof.
  induction es as [|e es IH]; intros Hes; [done|]. rewrite mapM_outcome_cons.
  destruct (Hes e) as [c Hc]; [by left|]. rewrite (dict_get_Some _ _ _ Hc), fmap_cons, Hc.
  cbn [mbind outcome_bind]. rewrite IH by (intros ? ?; apply Hes; by right). done.
Qed.

(** One round of the loop computes the longest path to its node from those to its
    predecessors. *)
Lemma node_cost_step listed costs n es :
  n ∈ listed → n ∈ g_nodes g → InEdges g n = Ok es →
  (∀ m, joined h g m n → ∃ c, costs !! m = Some c ∧ longest listed m c) →
  ∃ c, match es with
       | [] => Ok 0
       | _ => l ← mapM (λ e, c ← dict_get costs (from_of h e); Ok (c + cost_of h e)) es; py_max l
       end = Ok c ∧ longest listed n (c + node_cost h n).
Proof.
  intros Hl Hn Hes Hpred.
  destruct (InEdges_linked h g n g_linked Hn) as (es' & Hes' & Hperm).
  rewrite Hes in Hes'. injection Hes' as <-.
  assert (∀ e, e ∈ es ↔ e ∈ g_edges g ∧ to_of h e = n) as Hin.
  { intros e. rewrite Hperm. apply elem_of_edges_at. }
  destruct (decide (es = [])) as [->|Hne].
  { exists 0. split; [done|]. split.
    - apply cost_root; [done|]. intros m (e & He & _ & Ht).
      by apply (not_elem_of_nil e), Hin.
    - intros c Hc. destruct Hc as [| |e c He]; [done|lia|].
      exfalso. by apply (not_elem_of_nil e), Hin. }
  rewrite edge_costs.
  2: { intros e [He Ht]%Hin. destruct (Hpred (from_of h e)) as (c & -> & _); [by exists e|done]. }
  cbn [mbind outcome_bind].
  destruct (py_max_spec ((λ e, default 0 (costs !! from_of h e) + cost_of h e) <$> es))
    as (c & Hmax & Hc & Hle); [by destruct es|].
  exists c. split; [by destruct es|]. split.
  - apply list_elem_of_fmap in Hc as (e & -> & [He <-]%Hin).
    destruct (Hpred (from_of h e)) as (c' & -> & Hc' & _); [by exists e|]. by constructor.
  - intros c' Hc'. destruct Hc' as [|n _ Hno|e c' He _ Hpath]; [done| |].
    + apply list_elem_of_fmap in Hc as (e & _ & [He Ht]%Hin). destruct (Hno (from_of h e)).
      by exists e.
    + destruct (Hpred (from_of h e)) as (c1 & Hc1 & _ & Hlong); [by exists e|].
      specialize (Hlong c' Hpath).
      assert (c1 + cost_of h e <= c); [|lia]. apply Hle, list_elem_of_fmap.
      exists e. rewrite Hc1. split; [done|]. by apply Hin.
Qed.

Lemma node_costs_spec listed todo done costs :
  listed = done ++ todo → NoDup listed → (∀ n, n ∈ listed → n ∈ g_nodes g) →
  (∀ d1 n d2, listed = d1 ++ n :: d2 → ∀ m, joined h g m n → m ∈ d1 ∨ m ∉ listed) →
  dom costs = g_nodes g →
  (∀ n c, costs !! n = Some c → if decide (n ∈ done ∨ n ∉ listed) then longest listed n c else c = 0) →
  ∃ costs', node_costs h g todo costs = Ok costs' ∧ dom costs' = g_nodes g ∧
    ∀ n c, costs' !! n = Some c → longest listed n c.
Proof.
  intros Hl Hdup Hnodes Hord. revert done costs Hl.
  induction todo as [|n todo IH]; intros done costs Hl Hdom Hcosts.
  { exists costs. split; [done|]. split; [done|]. rewrite app_nil_r in Hl. intros n c Hc.
    specialize (Hcosts n c Hc). rewrite decide_True in Hcosts; [done|].
    rewrite <- Hl. destruct (decide (n ∈ listed)); auto. }
  cbn [node_costs]. assert (n ∈ listed) as Hn by (rewrite Hl; set_solver).
  destruct (InEdges_linked h g n g_linked) as (es & Hes & _); [by apply Hnodes|].
  rewrite Hes. cbn [mbind outcome_bind].
  destruct (node_cost_step listed costs n es Hn (Hnodes n Hn) Hes) as (c & Heq & Hlong).
  { intros m Hm. destruct (joined_nodes h g g_linked m n Hm) as [Hm' _].
    rewrite <- Hdom in Hm'. apply elem_of_dom in Hm' as [c Hc]. exists c. split; [done|].
    specialize (Hcosts m c Hc). rewrite decide_True in Hcosts; [done|].
    by eapply Hord. }
  rewrite Heq. cbn [mbind outcome_bind]. apply (IH (done ++ [n])).
  - by rewrite <- app_assoc.
  - rewrite dom_insert_L, Hdom. apply Hnodes in Hn. set_solver.
  - intros m c'. destruct (decide (m = n)) as [->|Hne].
    + rewrite lookup_insert_eq. intros [= <-]. rewrite decide_True; [done|]. set_solver.
    + rewrite lookup_insert_ne by done. intros Hc'%Hcosts.
      destruct (decide (m ∈ done ∨ m ∉ listed)); case_decide as Hd; [done| |set_solver|done].
      rewrite elem_of_app, list_elem_of_singleton in Hd. naive_solver.
Qed.

(** ** The cost *)

(** What the method computes before it looks at the lists of its caller. *)
Lemma costs_computed roots :
  (∀ n, n ∈ default [] roots → n ∈ g_nodes g) → g_nodes g ≠ ∅ →
  ∃ listed costs c, TopologicalSort h g roots = Ok listed ∧
    node_costs h g listed (gset_to_gmap 0 (g_nodes g)) = Ok costs ∧
    dom costs = g_nodes g ∧ (∀ n c, costs !! n = Some c → longest listed n c) ∧
    py_max (dict_items costs).*2 = Ok c ∧ (∃ n, costs !! n = Some c) ∧
    (∀ n c', costs !! n = Some c' → c' <= c).
Proof.
  intros Hroots Hne.
  destruct (TopologicalSort_spec h g g_linked roots Hroots) as (subset & rem & l & Hl & _ & Hsub & Hs).
  pose proof (sorting_nodup _ _ _ _ _ _ Hs) as Hdup. rewrite app_nil_r in Hdup.
  assert (∀ n, n ∈ l → n ∈ subset) as Hin by 
    (intros n Hn; by eapply sorting_done in Hn as [? _]).
  destruct (node_costs_spec l l [] (gset_to_gmap 0 (g_nodes g))) as (costs & Hcosts & Hdom & Hlong).
  - done.
  - done.
  - intros n Hn. by apply Hsub, Hin.
  - intros d1 n d2 Hd m Hm. destruct (decide (m ∈ l)) as [Hml|]; [left|by right].
    eapply (sorting_ordered _ _ _ _ _ _ Hs); [done|]. split_and!; [by apply Hin| |done].
    apply Hin. rewrite Hd. set_solver.
  - apply dom_gset_to_gmap.
  - intros n c [Hn <-]%lookup_gset_to_gmap_Some. case_decide as Hd; [|done].
    destruct Hd as [?%not_elem_of_nil|Hd]; [done|]. by apply longest_outside.
  - assert (∀ c, c ∈ (dict_items costs).*2 ↔ ∃ n, costs !! n = Some c) as Hvalues.
    { intros c. rewrite list_elem_of_fmap. setoid_rewrite <- elem_of_dict_items. split.
      - intros ([n c'] & -> & ?). by exists n.
      - intros [n ?]. by exists (n, c). }
    destruct (py_max_spec (dict_items costs).*2) as (c & Hc & Hcin & Hmax).
    { apply set_choose_L in Hne as [n Hn]. rewrite <- Hdom in Hn. apply elem_of_dom in Hn as [c Hc].
      intros Hnil. apply (not_elem_of_nil c). rewrite <- Hnil. apply Hvalues. eauto. }
    exists l, costs, c. split_and!; try done; [by apply Hvalues|].
    intros n c' Hc'. apply Hmax, Hvalues. eauto.
Qed.

(** ** The path *)

(** A path from a node without predecessors, with the nodes on it and its cost. *)
Inductive walk : list node → node → Z → Prop :=
  | walk_root n : n ∈ g_nodes g → (∀ m, ¬ joined h g m n) → walk [n] n (node_cost h n)
  | walk_edge p e c :
      e ∈ g_edges g → walk p (from_of h e) c →
      walk (p ++ [to_of h e]) (to_of h e) (c + cost_of h e + node_cost h (to_of h e)).

(** All edges into a node cost the same. *)
Definition uniform : Prop :=
  ∀ e e', e ∈ g_edges g → e' ∈ g_edges g → to_of h e = to_of h e' → cost_of h e = cost_of h e'.

Lemma costliest_spec (costs : gmap node Z) best ns :
  (∀ n, n ∈ best :: ns → is_Some (costs !! n)) →
  ∃ m, costliest costs best ns = Ok m ∧ m ∈ best :: ns ∧
    ∀ n c c', n ∈ best :: ns → costs !! n = Some c → costs !! m = Some c' → c <= c'.
Proof.
  revert best. induction ns as [|n ns IH]; intros best Hns.
  { exists best. split; [done|]. split; [by left|]. intros n c c' ->%list_elem_of_singleton. naive_solver. }
  destruct (Hns n) as [c Hc]; [by right; left|]. destruct (Hns best) as [b Hb]; [by left|].
  cbn [costliest]. rewrite (dict_get_Some _ _ _ Hc), (dict_get_Some _ _ _ Hb).
  cbn [mbind outcome_bind]. set (best' := if b <? c then n else best).
  destruct (IH best') as (m & -> & Hm & Hmax).
  { intros k [->|?]%elem_of_cons; [|apply Hns; by do 2 right].
    unfold best'. destruct (b <? c); [by eexists|by eexists]. }
  exists m. split; [done|]. split.
  - apply elem_of_cons in Hm as [->|]; [unfold best'; case_match; set_solver|by do 2 right].
  - assert (∀ c', costs !! m = Some c' → b <= c' ∧ c <= c') as Hboth.
    { intros c' Hc'. unfold best' in Hmax. destruct (Z.ltb_spec b c).
      - specialize (Hmax n c c' ltac:(by left) Hc Hc'). lia.
      - specialize (Hmax best b c' ltac:(by left) Hb Hc'). lia. }
    intros k ck cm [->|[->|Hk]%elem_of_cons]%elem_of_cons Hck Hcm.
    + apply Hboth in Hcm. naive_solver.
    + apply Hboth in Hcm. naive_solver.
    + apply (Hmax k); [by right|done..].
Qed.

(** The costs by which the path is chosen: with uniform edges, the costliest
    predecessor is the one before the node on a longest path. *)
Lemma longest_step listed (costs : gmap node Z) e n c c' :
  uniform → (∀ n, n ∈ g_nodes g → n ∈ listed) →
  (∀ n c, costs !! n = Some c → longest listed n c) →
  e ∈ g_edges g → to_of h e = n → costs !! n = Some c → costs !! from_of h e = Some c' →
  (∀ m d, joined h g m n → costs !! m = Some d → d <= c') → dom costs = g_nodes g →
  c = c' + cost_of h e + node_cost h n.
Proof.
  intros Huni Hall Hcosts He <- Hc Hc' Hmax Hdom.
  pose proof (linked_ends h g g_linked e He) as [_ Hn].
  destruct (Hcosts _ _ Hc) as [Hpath Hlong]. destruct (Hcosts _ _ Hc') as [Hpath' _].
  assert (c' + cost_of h e + node_cost h (to_of h e) <= c)
    by (apply Hlong, cost_edge; [done|by apply Hall|done]).
  assert (∀ n, path_cost listed n c → n = to_of h e → c <= c' + cost_of h e + node_cost h n) as Hle;
    [|specialize (Hle _ Hpath eq_refl); lia].
  intros n. destruct 1 as [n ? Hno|n _ Hno|e1 c1 He1 _ Hp1]; intros Heq.
  - subst n. destruct Hno. by apply Hall.
  - subst n. destruct (Hno (from_of h e)). by exists e.
  - destruct (linked_ends h g g_linked e1 He1) as [Hf1 _]. rewrite <- Hdom in Hf1.
    apply elem_of_dom in Hf1 as [d Hd]. destruct (Hcosts _ _ Hd) as [_ Hlong1].
    specialize (Hlong1 c1 Hp1). rewrite (Huni e1 e He1 He Heq).
    assert (d <= c'); [|lia]. apply (Hmax (from_of h e1)); [|done]. by exists e1.
Qed.

Lemma path_back_spec listed (costs : gmap node Z) (order : list node) fuel n rest i :
  dom costs = g_nodes g → (∀ n c, costs !! n = Some c → longest listed n c) →
  (∀ n, n ∈ g_nodes g → n ∈ order) →
  (∀ i j m n, order !! i = Some m → order !! j = Some n → joined h g m n → (i < j)%nat) →
  n ∈ g_nodes g → order !! i = Some n → (i < fuel)%nat →
  ∃ p c, path_back fuel h g costs n (n :: rest) = Ok (p ++ rest) ∧ walk p n c ∧
    (uniform → (∀ n, n ∈ g_nodes g → n ∈ listed) → costs !! n = Some c).
Proof.
  intros Hdom Hcosts Hall Hord. revert n rest i.
  induction fuel as [|fuel IH]; intros n rest i Hn Hi Hfuel; [lia|].
  cbn [path_back]. destruct (predecessors_spec h g g_linked n Hn) as (ps & -> & Hps).
  cbn [mbind outcome_bind]. destruct ps as [|p0 ps].
  { assert (∀ m, ¬ joined h g m n) as Hno by (intros m ?%Hps; by eapply not_elem_of_nil).
    exists [n], (node_cost h n). split; [done|]. split; [by constructor|]. intros _ Hl.
    rewrite <- Hdom in Hn. apply elem_of_dom in Hn as [c Hc]. rewrite Hc. f_equal.
    destruct (Hcosts n c Hc) as [Hp _].
    destruct Hp as [n ? Hout|n _ _|e c0 He _ _]; [by destruct Hout; apply Hl|done|].
    destruct (Hno (from_of h e)). by exists e. }
  assert (∀ m, m ∈ p0 :: ps → is_Some (costs !! m)) as Hsome.
  { intros m Hm%Hps. apply elem_of_dom. rewrite Hdom. by apply (joined_nodes h g g_linked m n). }
  destruct (costliest_spec costs p0 ps Hsome) as (m & -> & Hm & Hmax). cbn [mbind outcome_bind].
  pose proof (proj1 (Hps m) Hm) as Hmn. destruct (joined_nodes h g g_linked m n Hmn) as [Hmg _].
  destruct (list_elem_of_lookup_1 _ _ (Hall m Hmg)) as [j Hj].
  pose proof (Hord j i m n Hj Hi Hmn).
  destruct (IH m (n :: rest) j Hmg Hj ltac:(lia)) as (p & c & -> & Hwalk & Hc).
  destruct Hmn as (e & He & <- & <-).
  exists (p ++ [to_of h e]), (c + cost_of h e + node_cost h (to_of h e)).
  split; [by rewrite <- app_assoc|]. split; [by constructor|]. intros Huni Hl.
  specialize (Hc Huni Hl). rewrite <- Hdom in Hn. apply elem_of_dom in Hn as [d Hd].
  rewrite Hd. f_equal. eapply (longest_step listed costs e); try done.
  intros k x Hk Hx. eapply (Hmax k); [by apply Hps|done..].
Qed.

Lemma first_costliest_spec (costs : gmap node Z) c :
  dom costs = g_nodes g → (∃ n, costs !! n = Some c) →
  ∃ n, first_costliest g costs c = Ok n ∧ costs !! n = Some c.
Proof.
  intros Hdom [n0 Hn0]. unfold first_costliest.
  assert (mapM (λ n, c ← dict_get costs n; Ok (n, c)) (set_items (g_nodes g)) =
            Ok ((λ n, (n, default 0 (costs !! n))) <$> set_items (g_nodes g))) as ->.
  { apply mapM_outcome_Ok, Forall2_fmap_r, Forall_Forall2_diag, Forall_forall.
    intros n Hn. apply elem_of_set_items in Hn. rewrite <- Hdom in Hn.
    apply elem_of_dom in Hn as [d Hd]. cbv beta. rewrite (dict_get_Some _ _ _ Hd). cbn. by rewrite Hd. }
  cbn [mbind outcome_bind].
  set (ns := base.filter _ _).
  assert (∀ x, x ∈ ns ↔ snd x = c ∧ ∃ n, x = (n, default 0 (costs !! n)) ∧ n ∈ g_nodes g) as Hns.
  { intros x. unfold ns. rewrite list_elem_of_filter, list_elem_of_fmap.
    by setoid_rewrite elem_of_set_items. }
  destruct ns as [|x ns].
  { exfalso. apply (not_elem_of_nil (n0, c)), Hns. split; [done|]. exists n0. rewrite Hn0.
    split; [done|]. rewrite <- Hdom. by eapply elem_of_dom_2. }
  destruct (proj1 (Hns x) ltac:(by left)) as (Hx & n & -> & Hn). cbn in Hx |- *.
  exists n. split; [done|]. rewrite <- Hdom in Hn. apply elem_of_dom in Hn as [d Hd].
  rewrite Hd in *. by subst.
Qed.

(** The paths the documentation of [Cost] speaks of: through the nodes considered,
    from one without predecessors. *)
Inductive path (P : node → Prop) : node → Z → Prop :=
  | path_source n : P n → (∀ m, ¬ joined h g m n) → path P n (node_cost h n)
  | path_edge e c :
      e ∈ g_edges g → P (to_of h e) → path P (from_of h e) c →
      path P (to_of h e) (c + cost_of h e + node_cost h (to_of h e)).

(** The nodes that are sorted: those considered that no cycle leads to. *)
Definition sortable (roots : option (list node)) (n : node) : Prop :=
  considered h g roots n ∧ Acc (joined h g) n.

(** No edge leads from a node that is not considered to one that is.  Without roots
    all nodes are considered. *)
Definition unentered (roots : option (list node)) : Prop :=
  ∀ m n, joined h g m n → considered h g roots n → considered h g roots m.

Lemma unentered_all : unentered None.
Proof. intros m n Hm _. by apply (joined_nodes h g g_linked m n). Qed.

Lemma listed_sortable roots listed :
  (∀ n, n ∈ default [] roots → n ∈ g_nodes g) → unentered roots →
  TopologicalSort h g roots = Ok listed → ∀ n, n ∈ listed ↔ sortable roots n.
Proof.
  intros Hroots Hclosed Hl n.
  destruct (TopologicalSort_spec h g g_linked roots Hroots) as (subset & rem & l & Hl' & Hsub & _ & Hs).
  assert (l = listed) as -> by congruence.
  etrans; [by eapply sorting_done|]. unfold sortable. rewrite Hsub. split; intros [Hn Hacc].
  - split; [done|]. induction Hacc as [n _ IH]. constructor. intros m Hm.
    pose proof (Hclosed m n Hm Hn) as Hcm. apply IH; [|done].
    split_and!; [by apply Hsub|by apply Hsub|done].
  - split; [done|]. induction Hacc as [n _ IH]. constructor. intros m (Hm & _ & Hj).
    apply IH; [done|by apply Hsub].
Qed.

(** Without edges from outside, the costs computed are those of these paths. *)
Lemma path_cost_path (P : node → Prop) listed n c :
  (∀ n, n ∈ listed ↔ P n) → (∀ e, e ∈ g_edges g → P (to_of h e) → P (from_of h e)) →
  P n → path_cost listed n c → path P n c.
Proof.
  intros Hl Hclosed Hn Hc. revert Hn. induction Hc as [n _ Hout|n _ Hno|e c He Hto _ IH]; intros Hn.
  - by destruct Hout; apply Hl.
  - by apply path_source.
  - apply path_edge; [done|done|]. apply IH. by apply Hclosed.
Qed.

Lemma path_path_cost (P : node → Prop) listed n c :
  (∀ n, n ∈ listed ↔ P n) → path P n c → path_cost listed n c.
Proof.
  intros Hl. induction 1 as [n Hn Hno|e c He Hto _ IH].
  - apply cost_root; [by apply Hl|done].
  - apply cost_edge; [done|by apply Hl|done].
Qed.

(** C8: The cost of a graph is that of its costliest path.  The graph is one that the
    methods build and update ([linked]), the roots are nodes of it, and no edge leads
    from a node that is not considered to one that is: without roots all nodes are
    considered, with roots those reachable from them, and an edge from outside would
    add its cost although the documentation speaks of the paths reachable from the
    roots only ([LoadingExample.root_counts_edge]).  A path counts its nodes and
    edges; it begins at a node without predecessors and goes through considered
    nodes that no cycle leads to.  Then the answer is the cost of some path and no
    path costs more; nodes that are not considered or that a cycle leads to count as
    0, which is the answer if no path costs more.  A graph without nodes costs 0. *)
Theorem Cost_longest roots :
  (∀ n, n ∈ default [] roots → n ∈ g_nodes g) → unentered roots →
  if decide (g_nodes g = ∅) then Cost h g roots None None = Ok (0, None, None)
  else ∃ c, Cost h g roots None None = Ok (c, None, None) ∧
    ((∃ n, path (sortable roots) n c) ∨ c = 0 ∧ ∃ n, n ∈ g_nodes g ∧ ¬ sortable roots n) ∧
    (∀ n c', path (sortable roots) n c' → c' <= c) ∧
    (∀ n, n ∈ g_nodes g → ¬ sortable roots n → 0 <= c).
Proof.
  intros Hroots Hclosed. destruct (decide _) as [He|Hne].
  { unfold Cost. by rewrite decide_True. }
  destruct (costs_computed roots Hroots Hne)
    as (listed & costs & c & Hsort & Hcosts & Hdom & Hlong & Hmax & [n Hn] & Hle).
  pose proof (listed_sortable roots listed Hroots Hclosed Hsort) as Hl.
  assert (∀ e, e ∈ g_edges g → sortable roots (to_of h e) → sortable roots (from_of h e)) as Hback.
  { intros e He [Hc [Hacc]]. assert (joined h g (from_of h e) (to_of h e)) as Hj by by exists e.
    split; [by eapply Hclosed|by apply Hacc]. }
  assert (∀ m c', m ∈ g_nodes g → path_cost listed m c' → c' <= c) as Hall.
  { intros m c' Hm Hpath. rewrite <- Hdom in Hm. apply elem_of_dom in Hm as [d Hd].
    destruct (Hlong m d Hd) as [_ Hmax']. specialize (Hmax' c' Hpath).
    specialize (Hle m d Hd). lia. }
  exists c. split; [|split; [|split]].
  - unfold Cost. rewrite decide_False by done. rewrite Hsort. cbn [mbind outcome_bind].
    rewrite Hcosts. cbn [mbind outcome_bind]. by rewrite Hmax.
  - destruct (Hlong n c Hn) as [Hpath _]. destruct (decide (n ∈ listed)) as [Hin|Hout].
    + left. exists n. eapply path_cost_path; [exact Hl|exact Hback|by apply Hl|exact Hpath].
    + right. split; [by destruct Hpath|]. exists n. rewrite <- Hl, <- Hdom.
      split; [by eapply elem_of_dom_2|done].
  - intros m c' Hpath. apply (Hall m); [|by eapply path_path_cost].
    destruct Hpath as [? [? _] _|? ? _ [? _] _]; by apply (considered_nodes h g g_linked roots).
  - intros m Hm Hns. apply (Hall m); [done|]. apply cost_outside; [done|]. by rewrite Hl.
Qed.

(** The costliest path.  On a graph without cycles the path handed to the caller
    goes from a node without predecessors along edges of the graph.  When all edges
    into a node cost the same and no roots are given, its cost is the cost of the
    graph; otherwise it need not be, because predecessors are chosen by their own
    costs. *)
Theorem Cost_path_list roots old :
  (∀ n, n ∈ default [] roots → n ∈ g_nodes g) → g_nodes g ≠ ∅ → acyclic h g →
  ∃ c path n c', Cost h g roots (Some old) None = Ok (c, Some path, None) ∧
    walk path n c' ∧ (uniform → roots = None → c' = c).
Proof.
  intros Hroots Hne Hacc.
  destruct (costs_computed roots Hroots Hne)
    as (listed & costs & c & Hsort & Hcosts & Hdom & Hlong & Hmax & Hn & Hle).
  destruct (acyclic_order h g g_linked Hacc) as (order & Horder & Hdup & Hin & Hord).
  destruct (first_costliest_spec costs c Hdom Hn) as (n & Hfirst & Hnc).
  assert (n ∈ g_nodes g) as Hng by (rewrite <- Hdom; by eapply elem_of_dom_2).
  destruct (list_elem_of_lookup_1 order n) as [i Hi]; [by apply Hin|].
  destruct (path_back_spec listed costs order (size (g_nodes g)) n [] i)
    as (p & c' & Hpath & Hwalk & Huni); try done.
  { intros m. by apply Hin. }
  { eapply Nat.lt_le_trans; [by eapply lookup_lt_Some|].
    rewrite <- (size_list_to_set (C:=gset node)) by done. apply subseteq_size.
    intros m Hm%elem_of_list_to_set. by apply Hin. }
  rewrite app_nil_r in Hpath. exists c, p, n, c'. split; [|split; [done|]].
  - unfold Cost. rewrite decide_False by done. rewrite Hsort. cbn [mbind outcome_bind].
    rewrite Hcosts. cbn [mbind outcome_bind]. rewrite Hmax. cbn [mbind outcome_bind].
    rewrite Hfirst. cbn [mbind outcome_bind]. by rewrite Hpath.
  - intros Hu ->. rewrite Hsort in Horder. injection Horder as ->.
    rewrite Huni in Hnc; [by injection Hnc|done|]. intros m. by apply Hin.
Qed.
End cost.
