(* ===== verification/LoadingJson.v ===== *)
(** Writing a graph of graph.py to a dict for JSON and reading it back gives a copy
    of the graph. *)

From stdpp Require Import functions.
From S2P Require Import Prelude LoadingGraph LoadingLinks.

(** ** Reading *)

(** [h'] has further objects, and what [h] has is as it was. *)
Definition extends (h h' : Objects) : Prop :=
  (next_object h <= next_object h')%positive ∧
  ∀ x, (x < next_object h)%positive → node_cost h' x = node_cost h x ∧ edge_of h' x = edge_of h x.

#[export] Instance extends_preorder : PreOrder extends.
Proof.
  split.
  - intros h. split; [lia|done].
  - intros h h' h'' [Hn H] [Hn' H']. split; [lia|]. intros x Hx.
    destruct (H' x) as [-> ->]; [lia|]. by apply H.
Qed.

(** The nodes read so far are distinct objects. *)
Definition distinct (h : Objects) (m : gmap Z node) : Prop :=
  (∀ i n, m !! i = Some n → (n < next_object h)%positive) ∧
  (∀ i j n, m !! i = Some n → m !! j = Some n → i = j).

Lemma Node_FromJsonDict_run d h :
  ∃ h', Node_FromJsonDict d h = (Ok (next_object h), h') ∧ extends h h' ∧
    next_object h' = Pos.succ (next_object h) ∧
    node_cost h' (next_object h) = nd_cost d.
Proof.
  unfold Node_FromJsonDict, new_node. mrun. eexists. split; [reflexivity|]. cbn.
  split_and!; [split; cbn; [lia|]| done|by rewrite fn_lookup_insert].
  intros x Hx. by rewrite !fn_lookup_insert_ne by lia.
Qed.

Lemma read_nodes_spec ds m h :
  NoDup (graph_node_index <$> ds) → (∀ d, d ∈ ds → m !! graph_node_index d = None) → distinct h m →
  ∃ m' h', read_nodes ds m h = (Ok m', h') ∧ extends h h' ∧ distinct h' m' ∧
    (∀ i n, m !! i = Some n → m' !! i = Some n) ∧
    (∀ i n, m' !! i = Some n → m !! i = Some n ∨ ∃ d, d ∈ ds ∧ graph_node_index d = i) ∧
    (∀ d, d ∈ ds → ∃ n, m' !! graph_node_index d = Some n ∧ node_cost h' n = nd_cost d).
Proof.
  revert m h. induction ds as [|d ds IH]; intros m h Hdup Hfresh Hdist.
  { exists m, h. split; [done|]. split; [done|]. split; [done|]. set_solver. }
  cbn [read_nodes]. destruct (Node_FromJsonDict_run d h) as (h1 & Hrun & Hext & Hnext & Hcost).
  rewrite (M_bind_run _ _ _ _ _ Hrun). rewrite fmap_cons in Hdup.
  apply NoDup_cons in Hdup as [Hd Hdup]. destruct Hdist as [Hbound Hinj].
  set (m1 := <[graph_node_index d := next_object h]> m).
  assert (distinct h1 m1) as Hdist1.
  { split.
    - intros i n. unfold m1. rewrite lookup_insert_Some. intros [[_ <-]|[_ Hi]]; [lia|].
      specialize (Hbound i n Hi). lia.
    - intros i j n. unfold m1. rewrite !lookup_insert_Some.
      intros [[<- <-]|[Hi Hmi]] [[Hj Hn]|[Hj Hmj]]; try done.
      + specialize (Hbound j _ Hmj). lia.
      + subst. specialize (Hbound i _ Hmi). lia.
      + by eapply Hinj. }
  destruct (IH m1 h1 Hdup) as (m' & h' & -> & Hext' & Hdist' & Hold & Hnew & Hread); [|done|].
  { intros d' Hd'. unfold m1. rewrite lookup_insert_ne; [apply Hfresh; by right|].
    intros Heq. apply Hd. rewrite Heq. by apply list_elem_of_fmap_2. }
  exists m', h'. split; [done|]. split; [by etrans|]. split; [done|]. split_and!.
  - intros i n Hi. apply Hold. unfold m1. rewrite lookup_insert_ne; [done|].
    intros <-. rewrite Hfresh in Hi; [done|by left].
  - intros i n Hi. destruct (Hnew i n Hi) as [H1|(d' & ? & <-)].
    + unfold m1 in H1. apply lookup_insert_Some in H1 as [[<- _]|[_ ?]]; [|by left].
      right. exists d. split; [by left|done].
    + right. exists d'. split; [by right|done].
  - intros d' [->|Hd']%elem_of_cons; [|by apply Hread].
    exists (next_object h). split.
    + apply Hold. unfold m1. by rewrite lookup_insert_eq.
    + rewrite <- Hcost. apply Hext'. lia.
Qed.

(** [e] is the edge the dict [d] describes. *)
Definition describes (m : gmap Z node) (h : Objects) (d : EdgeDict) (e : edge) : Prop :=
  m !! from_node_index d = Some (from_of h e) ∧ m !! to_node_index d = Some (to_of h e) ∧
  cost_of h e = ed_cost d.

Lemma read_edge_run m d h :
  is_Some (m !! from_node_index d) → is_Some (m !! to_node_index d) →
  ∃ h', read_edge m d h = (Ok (next_object h), h') ∧ extends h h' ∧
    next_object h' = Pos.succ (next_object h) ∧ (∀ n, node_cost h' n = node_cost h n) ∧
    describes m h' d (next_object h).
Proof.
  intros [a Ha] [b Hb]. unfold read_edge, Edge_FromJsonDict, new_edge. mrun.
  rewrite Ha. cbn [of_option]. rewrite Hb. cbn [of_option].
  eexists. split; [reflexivity|]. unfold describes, from_of, to_of, cost_of, set_edge.
  cbn. rewrite !fn_lookup_insert. cbn. rewrite Ha, Hb. split_and!; try done.
  split; cbn; [lia|]. intros x Hx. by rewrite !fn_lookup_insert_ne by lia.
Qed.

Lemma describes_extends m h h' d e :
  extends h h' → (e < next_object h)%positive → describes m h d e → describes m h' d e.
Proof.
  intros [_ Hext] He. destruct (Hext e He) as [_ Heq].
  unfold describes, from_of, to_of, cost_of. by rewrite Heq.
Qed.

Lemma read_edges_spec m ds edges h :
  (∀ d, d ∈ ds → is_Some (m !! from_node_index d) ∧ is_Some (m !! to_node_index d)) →
  ∃ new h', read_edges m ds edges h = (Ok (edges ++ new), h') ∧ extends h h' ∧
    (∀ n, node_cost h' n = node_cost h n) ∧ Forall2 (describes m h') ds new ∧ NoDup new ∧
    (∀ e, e ∈ new → (next_object h <= e < next_object h')%positive).
Proof.
  revert edges h. induction ds as [|d ds IH]; intros edges h Hds.
  { exists [], h. rewrite app_nil_r. split_and!; try done; [constructor|].
    by intros e ?%not_elem_of_nil. }
  destruct (Hds d) as [Ha Hb]; [by left|]. cbn [read_edges].
  destruct (read_edge_run m d h Ha Hb) as (h1 & Hrun1 & Hext1 & Hnext1 & Hcosts1 & Hdesc1).
  rewrite (M_bind_run _ _ _ _ _ Hrun1).
  destruct (IH (edges ++ [next_object h]) h1)
    as (new & h' & -> & Hext & Hcosts & Hdesc & Hdup & Hrange).
  { intros d' ?. apply Hds. by right. }
  exists (next_object h :: new), h'. rewrite <- app_assoc. split; [done|].
  assert (∀ e, e ∈ new → (next_object h < e)%positive) as Hlater by (intros e ?%Hrange; lia).
  split_and!.
  - by etrans.
  - intros n. by rewrite Hcosts, Hcosts1.
  - constructor; [|done]. eapply describes_extends; [done|lia|done].
  - constructor; [|done]. intros ?%Hlater. lia.
  - destruct Hext as [Hnext _]. intros e [->|He]%elem_of_cons; [lia|].
    specialize (Hrange e He). lia.
Qed.

(** ** Writing *)

Section json.
Context `{!DictOrder}.

(** The index of each node. *)
Definition indices (ns : list node) : gmap node Z :=
  list_to_map (imap (λ i n, (n, Z.of_nat i)) ns).

Lemma indices_spec ns : NoDup ns →
  (∀ n, n ∈ ns ↔ is_Some (indices ns !! n)) ∧
  (∀ m n i, indices ns !! m = Some i → indices ns !! n = Some i → m = n).
Proof.
  intros Hdup. unfold indices. set (l := imap _ ns).
  assert (l.*1 = ns) as Hl.
  { apply list_eq. intros k. unfold l. rewrite list_lookup_fmap, list_lookup_imap.
    by destruct (ns !! k). }
  assert (∀ n i, (list_to_map l : gmap node Z) !! n = Some i ↔ ∃ k, i = Z.of_nat k ∧ ns !! k = Some n)
    as Hlookup.
  { intros n i. rewrite <- elem_of_list_to_map by by rewrite Hl.
    unfold l. rewrite list_elem_of_lookup. setoid_rewrite list_lookup_imap. split.
    - intros (k & (n' & Hk & [= -> ->])%fmap_Some). eauto.
    - intros (k & -> & Hk). exists k. by rewrite Hk. }
  split.
  - intros n. rewrite list_elem_of_lookup. split.
    + intros [k Hk]. eexists. apply Hlookup. eauto.
    + intros [i (k & _ & Hk)%Hlookup]. eauto.
  - intros m n i (k & -> & Hm)%Hlookup (k' & Hk%Nat2Z.inj & Hn)%Hlookup. congruence.
Qed.

(** [h'] and [g'] are a copy of the graph [g] of [h]: the same nodes and edges, up to
    the identity of the objects. *)
Definition copy (h : Objects) (g : DirectedGraph) (h' : Objects) (g' : DirectedGraph) : Prop :=
  ∃ (f : node → node) es es',
    (∀ m n, m ∈ g_nodes g → n ∈ g_nodes g → f m = f n → m = n) ∧
    (∀ n', n' ∈ g_nodes g' ↔ ∃ n, n ∈ g_nodes g ∧ n' = f n) ∧
    (∀ n, n ∈ g_nodes g → node_cost h' (f n) = node_cost h n) ∧
    es ≡ₚ elements (g_edges g) ∧ es' ≡ₚ elements (g_edges g') ∧
    Forall2 (λ e e', from_of h' e' = f (from_of h e) ∧ to_of h' e' = f (to_of h e) ∧
                     cost_of h' e' = cost_of h e) es es'.

Section graph.
Context (h : Objects) (g : DirectedGraph) (g_linked : linked h g).

Definition idx : gmap node Z := indices (set_items (g_nodes g)).
Definition node_dicts : list NodeDict :=
  (λ '(n, i), mkNodeDict (node_cost h n) i) <$> dict_items idx.
Definition edge_dicts : list EdgeDict :=
  (λ e, mkEdgeDict (from_of h e) (to_of h e) (cost_of h e)
          (default 0%Z (idx !! from_of h e)) (default 0%Z (idx !! to_of h e))) <$>
    set_items (g_edges g).

Lemma elem_of_idx n : n ∈ g_nodes g ↔ is_Some (idx !! n).
Proof. rewrite <- elem_of_set_items. apply indices_spec, NoDup_set_items. Qed.
Lemma idx_inj m n i : idx !! m = Some i → idx !! n = Some i → m = n.
Proof. apply indices_spec, NoDup_set_items. Qed.

Lemma ToJsonDict_run : ToJsonDict h g = Ok (mkGraphDict node_dicts edge_dicts).
Proof.
  unfold ToJsonDict. fold (indices (set_items (g_nodes g))). fold idx.
  erewrite (proj2 (mapM_outcome_Ok _ _ _)); [reflexivity|].
  apply Forall2_fmap_r, Forall_Forall2_diag, Forall_forall. intros e He.
  apply elem_of_set_items, (linked_ends h g g_linked) in He as [Hf Ht].
  rewrite elem_of_idx in Hf, Ht. destruct Hf as [i Hi], Ht as [j Hj].
  cbv beta. rewrite (dict_get_Some _ _ _ Hj). cbn [mbind outcome_bind].
  rewrite (dict_get_Some _ _ _ Hi). cbn. by rewrite Hi, Hj.
Qed.

Lemma elem_of_node_dicts d :
  d ∈ node_dicts ↔ ∃ n i, d = mkNodeDict (node_cost h n) i ∧ idx !! n = Some i.
Proof.
  unfold node_dicts. rewrite list_elem_of_fmap. split.
  - intros ([n i] & -> & ?%elem_of_dict_items). eauto.
  - intros (n & i & -> & ?). exists (n, i). split; [done|]. by apply elem_of_dict_items.
Qed.

(** The nodes are read as new objects, [f] of the old ones. *)
Definition copied (m : gmap Z node) (f : node → node) : Prop :=
  ∀ n, n ∈ g_nodes g → ∃ i, idx !! n = Some i ∧ m !! i = Some (f n).

Lemma nodes_copied : ∃ m h' f, read_nodes node_dicts ∅ h = (Ok m, h') ∧ extends h h' ∧ copied m f ∧
  (∀ a b, a ∈ g_nodes g → b ∈ g_nodes g → f a = f b → a = b) ∧
  (∀ n', n' ∈ (dict_items m).*2 ↔ ∃ n, n ∈ g_nodes g ∧ n' = f n) ∧
  (∀ n, n ∈ g_nodes g → node_cost h' (f n) = node_cost h n).
Proof.
  destruct (read_nodes_spec node_dicts ∅ h) as (m & h' & Hrun & Hext & [_ Hdist] & _ & Hnew & Hread).
  { unfold node_dicts. rewrite <- list_fmap_compose. apply (NoDup_fmap_2_strong (A:=node * Z)).
    - intros [a i] [b j] Ha%elem_of_dict_items Hb%elem_of_dict_items [= ->].
      f_equal. by eapply idx_inj.
    - eapply NoDup_fmap_1, (NoDup_dict_keys idx). }
  { done. }
  { split; [by intros i n ?|by intros i j n ?]. }
  set (f := λ n : node, default n (idx !! n ≫= λ i, m !! i) : node).
  assert (∀ n i, idx !! n = Some i → m !! i = Some (f n) ∧ node_cost h' (f n) = node_cost h n) as Hf.
  { intros n i Hi. destruct (Hread (mkNodeDict (node_cost h n) i)) as (n' & Hn' & Hc).
    { apply elem_of_node_dicts. eauto. }
    cbn in Hn', Hc. unfold f. rewrite Hi. cbn. by rewrite Hn'. }
  exists m, h', f. split_and!; [done..| | | |].
  - intros n [i Hi]%elem_of_idx. exists i. split; [done|]. by apply Hf.
  - intros a b [i Hi]%elem_of_idx [j Hj]%elem_of_idx Heq.
    destruct (Hf a i Hi) as [Ha _], (Hf b j Hj) as [Hb _]. eapply idx_inj; [done|].
    rewrite Hj. f_equal. apply (Hdist j i (f b)); [done|by rewrite <- Heq].
  - intros n'. rewrite list_elem_of_fmap. split.
    + intros ([i x] & -> & Hi%elem_of_dict_items).
      destruct (Hnew i x Hi) as [|(d & (n & k & -> & Hn)%elem_of_node_dicts & Hk)]; [done|].
      cbn in Hk |- *. subst k. exists n. split; [apply elem_of_idx; by eexists|].
      destruct (Hf n i Hn). congruence.
    + intros (n & [i Hi]%elem_of_idx & ->). exists (i, f n). split; [done|].
      apply elem_of_dict_items. by apply Hf.
  - intros n [i Hi]%elem_of_idx. by apply (Hf n i).
Qed.

(** The edges are read as new objects between the new nodes. *)
Lemma edges_copied m f h1 : copied m f →
  ∃ new h', read_edges m edge_dicts [] h1 = (Ok new, h') ∧ extends h1 h' ∧
    (∀ n, node_cost h' n = node_cost h1 n) ∧ NoDup new ∧
    Forall2 (λ e e', from_of h' e' = f (from_of h e) ∧ to_of h' e' = f (to_of h e) ∧
                     cost_of h' e' = cost_of h e) (set_items (g_edges g)) new.
Proof.
  intros Hm. assert (∀ e, e ∈ set_items (g_edges g) →
    m !! default 0%Z (idx !! from_of h e) = Some (f (from_of h e)) ∧
    m !! default 0%Z (idx !! to_of h e) = Some (f (to_of h e))) as Hends.
  { intros e [(i & Hi & Ha)%Hm (j & Hj & Hb)%Hm]%elem_of_set_items%(linked_ends h g g_linked).
    by rewrite Hi, Hj. }
  destruct (read_edges_spec m edge_dicts [] h1) as (new & h' & Hrun & Hext & Hcosts & Hdesc & Hdup & _).
  { intros d (e & -> & [Ha Hb]%Hends)%list_elem_of_fmap. cbn. rewrite Ha, Hb. split; by eexists. }
  exists new, h'. split_and!; [done..|]. unfold edge_dicts in Hdesc. rewrite Forall2_fmap_l in Hdesc.
  apply Forall2_same_length_lookup in Hdesc as [Hlen Hdesc].
  apply Forall2_same_length_lookup. split; [done|]. intros k e e' He He'.
  destruct (Hdesc k e e' He He') as (Ha & Hb & Hc). cbn in Ha, Hb, Hc.
  apply list_elem_of_lookup_2, Hends in He as [Ha' Hb']. split_and!; congruence.
Qed.

(** Serialization.  The dict written for a graph reads back to a copy of the
    graph: new nodes and edges that correspond to the old ones one by one, with the
    same costs and ends, in a graph whose lists of edges are right; the objects
    there were are left alone. *)
Theorem ToJsonDict_FromJsonDict :
  ∃ d, ToJsonDict h g = Ok d ∧
    match FromJsonDict d h with
    | (Ok g', h') => linked h' g' ∧ copy h g h' g' ∧ extends h h'
    | (Raise _, _) => False
    end.
Proof.
  rewrite ToJsonDict_run. eexists. split; [reflexivity|]. unfold FromJsonDict. cbn [gd_nodes gd_edges].
  destruct nodes_copied as (m & h1 & f & Hrun1 & Hext1 & Hm & Hinj & Hvalues & Hcost).
  destruct (edges_copied m f h1 Hm) as (new & h2 & Hrun2 & Hext2 & Hcost2 & Hdup & Hcopy).
  rewrite (M_bind_run _ _ _ _ _ Hrun1), (M_bind_run _ _ _ _ _ Hrun2), bind_gets. cbn [id].
  destruct (DirectedGraph_init_linked h2 (dict_items m).*2 new)
    as (g' & Hinit & Hlinked & Hnodes & Hedges).
  unfold lift. rewrite Hinit. split; [done|]. split; [|by etrans].
  exists f, (set_items (g_edges g)), new. split_and!; [done| | |apply set_items_perm| |done].
  - intros n'. by rewrite Hnodes.
  - intros n Hn. rewrite Hcost2. by apply Hcost.
  - apply NoDup_Permutation; [done|apply NoDup_elements|]. intros e'.
    rewrite elem_of_elements, Hedges. split; [|by intros [? _]]. intros He'. split; [done|].
    apply list_elem_of_lookup in He' as [k He'].
    apply Forall2_same_length_lookup in Hcopy as [Hlen Hcopy].
    destruct (lookup_lt_is_Some_2 (set_items (g_edges g)) k) as [e He].
    { rewrite Hlen. by eapply lookup_lt_Some. }
    destruct (Hcopy k e e' He He') as (-> & -> & _).
    apply list_elem_of_lookup_2, elem_of_set_items, (linked_ends h g g_linked) in He as [H1 H2].
    rewrite !Hvalues. split; [exists (from_of h e)|exists (to_of h e)]; done.
Qed.
End graph.
End json.
