(* ===== verification/LoadingExample.v ===== *)
(** The graph of graph_unittest.py, src/src/tools/android/loading/, with the
    expectations of its tests, and small graphs for what the costs of paths and
    roots come to. *)

From stdpp Require Import functions.
From S2P Require Import Prelude LoadingGraph LoadingLinks LoadingSort LoadingCost LoadingJson.

#[local] Open Scope Z_scope.

(** A graph of the given nodes and edges. *)
Definition graph_of (order : DictOrder) (h : Objects) (nodes : list node) (edges : list edge) :
    DirectedGraph :=
  match DirectedGraph_init h nodes edges with Ok g => g | Raise _ => mkGraph ∅ ∅ ∅ ∅ end.

Lemma graph_of_spec order h nodes edges :
  linked h (graph_of order h nodes edges) ∧
  (∀ n, n ∈ g_nodes (graph_of order h nodes edges) ↔ n ∈ nodes) ∧
  (∀ e, e ∈ g_edges (graph_of order h nodes edges) ↔
     e ∈ edges ∧ from_of h e ∈ nodes ∧ to_of h e ∈ nodes).
Proof.
  unfold graph_of. destruct (DirectedGraph_init_linked h nodes edges) as (g & -> & ? & ? & ?).
  done.
Qed.

(** [MakeGraph(7, [(0, 1), (0, 2), (1, 3), (3, 4), (5, 6)])], with the costs of
    [testCost]: the nodes are the objects 1 to 7. *)
Definition test_objects (cost6 : Z) : Objects := mkObjects
  (λ n, if decide (n = 7%positive) then cost6 else Zpos n)
  (λ e, match e with
        | 11 => mkEdge 1 2 1 | 12 => mkEdge 1 3 1 | 13 => mkEdge 2 4 1
        | 14 => mkEdge 4 5 1 | 15 => mkEdge 6 7 1 | _ => mkEdge 1 42 1
        end%positive) 100.
Definition test_graph : DirectedGraph :=
  graph_of canonical_order (test_objects 6) [1; 2; 3; 4; 5; 6; 7]%positive
    [11; 12; 13; 14; 15; 16]%positive.

Lemma test_graph_linked : linked (test_objects 6) test_graph.
Proof. apply (graph_of_spec canonical_order). Qed.

Lemma testIgnoresUnknownEdges : size (g_nodes test_graph) = 7%nat ∧ size (g_edges test_graph) = 5%nat.
Proof. split; vm_compute; reflexivity. Qed.

Lemma testCost :
  let _ := canonical_order in
  Cost (test_objects 6) test_graph None (Some []) None = Ok (15, Some [1; 2; 4; 5]%positive, None) ∧
  Cost (test_objects 9) test_graph None (Some []) None = Ok (16, Some [6; 7]%positive, None).
Proof. split; vm_compute; reflexivity. Qed.

Lemma testCostWithRoots :
  let _ := canonical_order in
  Cost (test_objects 9) test_graph (Some [1%positive]) (Some []) None =
    Ok (15, Some [1; 2; 4; 5]%positive, None).
Proof. vm_compute. reflexivity. Qed.

Lemma testAncestorNodes :
  let _ := canonical_order in
  elements <$> AncestorNodes (test_objects 6) test_graph (IterList [5%positive]) =
    Ok [4; 2; 1]%positive.
Proof. vm_compute. reflexivity. Qed.

(** ** What the code does beside its documentation *)

(** Three nodes, an expensive edge from the cheap node 1 and a free one from node
    2, both to node 3. *)
Definition fork_objects : Objects := mkObjects
  (λ n, if decide (n = 1%positive) then 1 else if decide (n = 2%positive) then 5 else 0)
  (λ e, if decide (e = 11%positive) then mkEdge 1 3 10 else mkEdge 2 3 0) 100.
Definition fork : DirectedGraph :=
  graph_of canonical_order fork_objects [1; 2; 3]%positive [11; 12]%positive.

(** The path that is handed out costs 5, not 11. *)
Lemma cheap_path :
  let _ := canonical_order in
  Cost fork_objects fork None (Some []) None = Ok (11, Some [2; 3]%positive, None).
Proof. vm_compute. reflexivity. Qed.

(** With node 3 as the only root, the edge from node 1 still counts. *)
Lemma root_counts_edge :
  let _ := canonical_order in
  Cost fork_objects fork (Some [3%positive]) None None = Ok (10, None, None).
Proof. vm_compute. reflexivity. Qed.

(** The costs asked for are the nodes. *)
Lemma costs_out_nodes :
  let _ := canonical_order in
  Cost fork_objects fork None None (Some []) = Ok (11, None, Some [3; 2; 1]%positive).
Proof. vm_compute. reflexivity. Qed.

(** Descendants from a generator are among their own ancestors. *)
Lemma generator_keeps_descendants :
  let _ := canonical_order in
  elements <$> AncestorNodes fork_objects fork (IterGenerator [3%positive]) =
    Ok [3; 2; 1]%positive.
Proof. vm_compute. reflexivity. Qed.

(** A cycle: the cost is computed, the path has no end. *)
Definition cycle_objects : Objects := mkObjects (λ _, 0)
  (λ e, if decide (e = 11%positive) then mkEdge 1 2 0 else mkEdge 2 1 0) 100.
Definition cycle : DirectedGraph :=
  graph_of canonical_order cycle_objects [1; 2]%positive [11; 12]%positive.
Lemma cost_of_cycle :
  let _ := canonical_order in
  TopologicalSort cycle_objects cycle None = Ok [] ∧
  Cost cycle_objects cycle None None None = Ok (0, None, None).
Proof. split; vm_compute; reflexivity. Qed.

Lemma path_of_cycle fuel path :
  let costs := gset_to_gmap 0 (g_nodes cycle) in
  path_back fuel cycle_objects cycle costs 1 path = Raise recursion_error ∧
  path_back fuel cycle_objects cycle costs 2 path = Raise recursion_error.
Proof.
  cbn zeta. revert path. induction fuel as [|fuel IH]; intros path; [done|].
  split; cbn [path_back].
  - change (predecessors cycle_objects cycle 1) with (Ok [2%positive]). apply IH.
  - change (predecessors cycle_objects cycle 2) with (Ok [1%positive]). apply IH.
Qed.

(** ** Witnesses *)

(** [testUpdateEdge]: the edge from node 1 to node 3 is moved to lead from node 3 to
    node 4. *)
Definition updated_test : Objects * DirectedGraph :=
  snd (UpdateEdge 12 3 4 (test_objects 6, test_graph)).

Lemma reached_linked_witness :
  linked (fst updated_test) (snd updated_test) ∧
  OutEdges (snd updated_test) 1 = Ok [11%positive] ∧
  InEdges (snd updated_test) 4 = Ok [13; 12]%positive.
Proof.
  split; [|split; vm_compute; reflexivity].
  refine (proj1 (@reached_linked canonical_order (fst updated_test) (snd updated_test) _)).
  eapply (reached_update 12 3 4 (test_objects 6) test_graph).
  - apply (@reached_init canonical_order _ [1; 2; 3; 4; 5; 6; 7]%positive [11; 12; 13; 14; 15; 16]%positive).
    vm_compute. reflexivity.
  - unfold updated_test. by rewrite <- !surjective_pairing.
Defined.

Lemma TopologicalSort_sorts_witness :
  ∃ (subset : gset node) l, @TopologicalSort canonical_order (test_objects 6) test_graph None = Ok l ∧
    NoDup l ∧ (4%positive ∈ l ↔ 4%positive ∈ subset ∧
      Acc (precedes (test_objects 6) test_graph subset) 4%positive).
Proof.
  destruct (@TopologicalSort_sorts canonical_order (test_objects 6) test_graph test_graph_linked None)
    as (subset & l & _ & Hl & Hdup & Hin & _).
  { intros n Hn. by apply not_elem_of_nil in Hn. }
  exists subset, l. split; [exact Hl|]. split; [exact Hdup|]. apply Hin.
Defined.

Lemma ReachableNodes_reachable_witness :
  (∃ V, ReachableNodes (test_objects 6) test_graph [1%positive] (λ n, Pos.eqb n 3) = Ok V ∧
     (3%positive ∈ V ↔ ∃ r, r ∈ [1%positive] ∧ Pos.eqb r 3 = false ∧
        rtc (λ a b, joined (test_objects 6) test_graph a b ∧ Pos.eqb b 3 = false) r 3%positive)) ∧
  elements <$> ReachableNodes (test_objects 6) test_graph [1%positive] (λ n, Pos.eqb n 3) =
    Ok [5; 4; 2; 1]%positive.
Proof.
  split; [|vm_compute; reflexivity].
  destruct (ReachableNodes_reachable (test_objects 6) test_graph test_graph_linked
    [1%positive] (λ n, Pos.eqb n 3) (IterList [5%positive])) as [(V & HV & Hspec) _].
  { intros n Hn. apply list_elem_of_singleton in Hn as ->. vm_compute. reflexivity. }
  { intros n Hn. apply list_elem_of_singleton in Hn as ->. vm_compute. reflexivity. }
  exists V. split; [exact HV|]. apply Hspec.
Defined.

Lemma Cost_longest_witness :
  @Cost canonical_order (test_objects 6) test_graph None None None = Ok (15, None, None) ∧
  ∀ n c', path (test_objects 6) test_graph (sortable (test_objects 6) test_graph None) n c' →
    c' <= 15.
Proof.
  pose proof (@Cost_longest canonical_order (test_objects 6) test_graph test_graph_linked None
    (λ n Hn, False_ind _ (not_elem_of_nil n Hn))
    (unentered_all (test_objects 6) test_graph test_graph_linked)) as H.
  destruct (decide (g_nodes test_graph = ∅)) as [He|He].
  { exfalso. assert (size (g_nodes test_graph) = 0%nat) as Hs by (rewrite He; reflexivity).
    vm_compute in Hs. discriminate Hs. }
  destruct H as (c & Hc & _ & Hmax & _).
  assert (@Cost canonical_order (test_objects 6) test_graph None None None = Ok (15, None, None))
    as H15 by (vm_compute; reflexivity).
  split; [exact H15|]. rewrite H15 in Hc. injection Hc as <-. exact Hmax.
Defined.

Lemma test_graph_acyclic : acyclic (test_objects 6) test_graph.
Proof.
  assert (∀ m n, joined (test_objects 6) test_graph m n → (Pos.to_nat m < Pos.to_nat n)%nat) as Hlt.
  { intros m n (e & He & <- & <-).
    apply (graph_of_spec canonical_order) in He as (He & _ & Hto).
    repeat (apply elem_of_cons in He as [->|He]; [cbn in *; lia || (by vm_compute in Hto)|]).
    by apply not_elem_of_nil in He. }
  assert (∀ k n, (Pos.to_nat n < k)%nat → Acc (joined (test_objects 6) test_graph) n) as Hacc.
  { induction k as [|k IH]; intros n Hn; [lia|]. constructor. intros m Hm%Hlt. apply IH. lia. }
  intros n _. by eapply Hacc, Nat.lt_succ_diag_r.
Qed.

Lemma Cost_path_list_witness :
  ∃ c path n c', @Cost canonical_order (test_objects 6) test_graph None (Some []) None =
      Ok (c, Some path, None) ∧
    walk (test_objects 6) test_graph path n c' ∧ c' = c.
Proof.
  destruct (@Cost_path_list canonical_order (test_objects 6) test_graph test_graph_linked None [])
    as (c & path & n & c' & Hc & Hwalk & Huni).
  { intros n Hn. by apply not_elem_of_nil in Hn. }
  { intros He. assert (size (g_nodes test_graph) = 0%nat) as Hs by (rewrite He; reflexivity).
    vm_compute in Hs. discriminate Hs. }
  { exact test_graph_acyclic. }
  exists c, path, n, c'. split; [exact Hc|]. split; [exact Hwalk|]. apply Huni; [|reflexivity].
  intros e e' He He' _. apply (graph_of_spec canonical_order) in He as (He & _ & Hto), He' as (He' & _ & Hto').
  assert (∀ x, x ∈ [11; 12; 13; 14; 15; 16]%positive → cost_of (test_objects 6) x = 1) as Hone.
  { intros x Hx. repeat (apply elem_of_cons in Hx as [->|Hx]; [reflexivity|]).
    by apply not_elem_of_nil in Hx. }
  by rewrite !Hone.
Defined.

Lemma ToJsonDict_FromJsonDict_witness :
  ∃ d, @ToJsonDict canonical_order (test_objects 6) test_graph = Ok d ∧
    length (gd_nodes d) = 7%nat ∧
    match @FromJsonDict canonical_order d (test_objects 6) with
    | (Ok g', h') => copy (test_objects 6) test_graph h' g'
    | (Raise _, _) => False
    end.
Proof.
  destruct (@ToJsonDict_FromJsonDict canonical_order (test_objects 6) test_graph test_graph_linked)
    as (d & Hd & Hread).
  exists d. split; [exact Hd|]. split.
  - vm_compute in Hd. injection Hd as <-. reflexivity.
  - destruct (@FromJsonDict canonical_order d (test_objects 6)) as [[g'|e] h']; [|exact Hread].
    apply Hread.
Defined.
