(* ===== verification/Lru.v ===== *)
(** lru.py, src/src/tools/swarming_client/utils/lru.py: a dictionary that evicts the
    least recently used items, and its refinement of a dictionary with times.

    An [OrderedDict] is the list of its items, oldest first.  What [json.load]
    answers is a value of [JsonState]: the state file holds the items as pairs. *)

From S2P Require Import Prelude.

Section lru.
Context {K V : Type} `{Countable K}.

(** ** OrderedDict *)

Abbreviation items := (list (K * V)).

(** [d.get(k)], [d.pop(k, None)] and [d[k] = v]: an assignment keeps the place of a
    key that is there. *)
Definition od_get (d : items) (k : K) : option V :=
  snd <$> head (base.filter (λ x, fst x = k) d).
Definition od_delete (d : items) (k : K) : items := base.filter (λ x, fst x ≠ k) d.
Definition od_set (d : items) (k : K) (v : V) : items :=
  match od_get d k with
  | Some _ => (λ x, if decide (fst x = k) then (fst x, v) else x) <$> d
  | None => d ++ [(k, v)]
  end.

(** ** LRUDict *)

Record LRUDict := mkLRU { lru_items : items; dirty : bool }.

Definition LRUDict_init : LRUDict := mkLRU [] true.

Definition nonzero (d : LRUDict) : bool := negb (bool_decide (lru_items d = [])).
Definition len (d : LRUDict) : Z := py_len (lru_items d).
Definition contains_key (d : LRUDict) (k : K) : bool := bool_decide (k ∈ (lru_items d).*1).
Definition keys_set (d : LRUDict) : gset K := list_to_set (lru_items d).*1.
Definition get (d : LRUDict) (k : K) (default_ : option V) : option V :=
  match od_get (lru_items d) k with Some v => Some v | None => default_ end.
Definition itervalues (d : LRUDict) : list V := (lru_items d).*2.

Abbreviation L := (M LRUDict).

Definition set_items_dirty (d : items) : L unit := modify (λ _, mkLRU d true).

Definition add (key : K) (value : V) : L unit :=
  d ← gets lru_items;
  set_items_dirty (od_set (od_delete d key) key value).

(** The two loops of [batch_insert_oldest]. *)
Definition insert_all (new_items : items) (l : items) : items :=
  foldl (λ d x, od_set d (fst x) (snd x)) new_items l.
Definition insert_missing (new_items : items) (l : items) : items :=
  foldl (λ d x, match od_get d (fst x) with
                | Some _ => d
                | None => od_set d (fst x) (snd x)
                end) new_items l.
Definition batch_insert_oldest (l : items) : L unit :=
  d ← gets lru_items;
  set_items_dirty (insert_missing (insert_all [] l) d).

Definition touch (key : K) : L unit :=
  d ← gets lru_items;
  value ← lift (of_option KeyError (od_get d key));
  set_items_dirty (od_set (od_delete d key) key value).

Definition pop (key : K) : L V :=
  d ← gets lru_items;
  value ← lift (of_option KeyError (od_get d key));
  set_items_dirty (od_delete d key);;
  mret value.

Definition pop_oldest : L (K * V) :=
  d ← gets lru_items;
  match d with
  | [] => raise KeyError
  | x :: d => set_items_dirty d;; mret x
  end.

(** ** The state file *)

(** The messages of the exceptions, which name the file, are cut short.
    What a JSON file holds: nothing that can be read, no list, or a list of which
    each element is a pair or not.  A key that is a list or a dict has no hash. *)
Inductive JsonPair := Pair (key : option K) (value : V) | NoPair.
Inductive JsonState := Unreadable | NoList | JsonList (l : list JsonPair).

Definition broken {A} : L A := raise (ValueError "Broken state file").

Fixpoint load_pairs (l : list JsonPair) : L unit :=
  match l with
  | [] => mret ()
  | NoPair :: _ => broken
  | Pair None _ :: _ => raise (TypeError "unhashable type")
  | Pair (Some key) value :: l => add key value;; load_pairs l
  end.

(** [LRUDict.load(state_file)]; the object that is built is lost when it raises. *)
Definition load (state : JsonState) : outcome LRUDict :=
  match state with
  | Unreadable | NoList => Raise (ValueError "Broken state file")
  | JsonList l =>
      fst ((load_pairs l;;
            n ← gets len;
            when (negb (n =? py_len l)%Z) broken;;
            modify (λ d, mkLRU (lru_items d) false);;
            gets id) LRUDict_init)
  end.

(** [save]: what it answers and the new contents of the file, if it writes any. *)
Definition save : L (bool * option JsonState) :=
  d ← gets id;
  if negb (dirty d) then mret (false, None)
  else
    modify (λ d, mkLRU (lru_items d) false);;
    mret (true, Some (JsonList ((λ x, Pair (Some (fst x)) (snd x)) <$> lru_items d))).
End lru.
