(* ===== verification/LruLaws.v ===== *)
(** lru.py refines a dictionary in which every entry has the time of its last use,
    and its state survives being saved and loaded. *)

From stdpp Require Import sorting.
From S2P Require Import Prelude Lru.

#[local] Open Scope Z_scope.

Section laws.
Context {K V : Type} `{Countable K}.
Implicit Types (d l : list (K * V)) (k : K) (v : V).

(** ** OrderedDict *)

Lemma key_unique {A} (e : list (K * A)) k x y :
  NoDup e.*1 → (k, x) ∈ e → (k, y) ∈ e → x = y.
Proof.
  intros He Hx Hy. apply (elem_of_list_to_map_1 (M:=gmap K)) in Hx, Hy; [congruence|done..].
Qed.

Lemma elem_of_keys {A} (e : list (K * A)) k : k ∈ e.*1 ↔ ∃ x, (k, x) ∈ e.
Proof.
  rewrite list_elem_of_fmap. split; [intros ([? x] & -> & ?); eauto|].
  intros [x ?]. by exists (k, x).
Qed.

Lemma od_get_Some d k v : NoDup d.*1 → od_get d k = Some v ↔ (k, v) ∈ d.
Proof.
  intros Hd. unfold od_get. assert (∀ x, x ∈ base.filter (λ x, fst x = k) d ↔ fst x = k ∧ x ∈ d)
    as Hin by (intros x; by rewrite list_elem_of_filter).
  destruct (base.filter _ d) as [|[k' v'] r]; cbn.
  - split; [done|]. intros Hk. exfalso. by apply (not_elem_of_nil (k, v)), Hin.
  - destruct (proj1 (Hin (k', v')) ltac:(by left)) as [Hk' Hv']. cbn in Hk'. subst k'. split.
    + by intros [= <-].
    + intros Hv. f_equal. by eapply key_unique.
Qed.

Lemma od_get_None d k : od_get d k = None ↔ k ∉ d.*1.
Proof.
  unfold od_get. rewrite elem_of_keys.
  assert (∀ x, x ∈ base.filter (λ x, fst x = k) d ↔ fst x = k ∧ x ∈ d)
    as Hin by (intros x; by rewrite list_elem_of_filter).
  destruct (base.filter _ d) as [|[k' v'] r]; cbn.
  - split; [|done]. intros _ [x Hx]. by apply (not_elem_of_nil (k, x)), Hin.
  - split; [done|]. intros []. destruct (proj1 (Hin (k', v')) ltac:(by left)) as [Hk' ?].
    cbn in Hk'. subst k'. eauto.
Qed.

Lemma od_delete_keys d k k' : k' ∈ (od_delete d k).*1 ↔ k' ∈ d.*1 ∧ k' ≠ k.
Proof.
  rewrite !elem_of_keys. unfold od_delete. setoid_rewrite list_elem_of_filter. cbn. naive_solver.
Qed.

Lemma od_set_delete d k v : od_set (od_delete d k) k v = od_delete d k ++ [(k, v)].
Proof.
  unfold od_set. destruct (od_get _ k) eqn:Hk; [|done]. exfalso.
  assert (od_get (od_delete d k) k = None) as Hn; [|congruence].
  apply od_get_None. rewrite od_delete_keys. naive_solver.
Qed.

(** ** The specification *)

(** Entries with the time of their last use. *)
Abbreviation timed := (gmap K (V * Z)).

Definition newest (s : timed) (t : Z) : Prop := ∀ k v t', s !! k = Some (v, t') → t' < t.

(** What an operation is, and what it returns. *)
Inductive op :=
  | OpAdd (k : K) (v : V)
  | OpBatch (l : list (K * V))
  | OpTouch (k : K)
  | OpPop (k : K)
  | OpPopOldest
  | OpGet (k : K).
Inductive answer := Nothing | Value (v : V) | Item (k : K) (v : V) | Found (o : option V).

(** In [l], [k] comes before the first [k']. *)
Definition before l k k' : Prop := ∃ l1 v l2, l = l1 ++ (k, v) :: l2 ∧ k' ∉ l1.*1 ∧ k ≠ k'.
Definition last_value l k v : Prop := ∃ l1 l2, l = l1 ++ (k, v) :: l2 ∧ k ∉ l2.*1.

(** A use makes an entry the newest; items inserted at the far end are older than
    all others, the first of them oldest; what is evicted is older than the rest. *)
Inductive spec_step : op → timed → outcome answer → timed → Prop :=
  | spec_add k v s t : newest s t → spec_step (OpAdd k v) s (Ok Nothing) (<[k := (v, t)]> s)
  | spec_batch l s s' :
      (∀ k, k ∉ l.*1 → s' !! k = s !! k) →
      (∀ k v, last_value l k v → ∃ t, s' !! k = Some (v, t) ∧
         ∀ k' v' t', k' ∉ l.*1 → s !! k' = Some (v', t') → t < t') →
      (∀ k k' v v' t t', before l k k' → k' ∈ l.*1 →
         s' !! k = Some (v, t) → s' !! k' = Some (v', t') → t < t') →
      spec_step (OpBatch l) s (Ok Nothing) s'
  | spec_touch k v s t t' :
      s !! k = Some (v, t') → newest s t → spec_step (OpTouch k) s (Ok Nothing) (<[k := (v, t)]> s)
  | spec_touch_missing k s : s !! k = None → spec_step (OpTouch k) s (Raise KeyError) s
  | spec_pop k v t s : s !! k = Some (v, t) → spec_step (OpPop k) s (Ok (Value v)) (delete k s)
  | spec_pop_missing k s : s !! k = None → spec_step (OpPop k) s (Raise KeyError) s
  | spec_pop_oldest k v t s :
      s !! k = Some (v, t) → (∀ k' v' t', k' ≠ k → s !! k' = Some (v', t') → t < t') →
      spec_step OpPopOldest s (Ok (Item k v)) (delete k s)
  | spec_pop_oldest_empty : spec_step OpPopOldest ∅ (Raise KeyError) ∅
  | spec_get k s : spec_step (OpGet k) s (Ok (Found (fst <$> s !! k))) s.

(** The code of an operation. *)
Definition run_op (o : op) : M (@LRUDict K V) answer :=
  match o with
  | OpAdd k v => add k v;; mret Nothing
  | OpBatch l => batch_insert_oldest l;; mret Nothing
  | OpTouch k => touch k;; mret Nothing
  | OpPop k => v ← pop k; mret (Value v)
  | OpPopOldest => x ← pop_oldest; mret (Item (fst x) (snd x))
  | OpGet k => d ← gets id; mret (Found (get d k None))
  end.

(** The items are the entries in the order of their times. *)
Definition older (x y : K * (V * Z)) : Prop := snd (snd x) < snd (snd y).
Definition item_of (x : K * (V * Z)) : K * V := (fst x, fst (snd x)).
Definition related d (s : timed) : Prop := ∃ e : list (K * (V * Z)),
  d = item_of <$> e ∧ NoDup e.*1 ∧ (∀ k x, s !! k = Some x ↔ (k, x) ∈ e) ∧ StronglySorted older e.

Lemma item_of_keys (e : list (K * (V * Z))) : (item_of <$> e).*1 = e.*1.
Proof. rewrite <- list_fmap_compose. apply list_fmap_ext. done. Qed.

Lemma related_nodup d s : related d s → NoDup d.*1.
Proof. intros (e & -> & Hdup & _). by rewrite item_of_keys. Qed.

Lemma related_get d s k : related d s → od_get d k = fst <$> s !! k.
Proof.
  intros Hrel. pose proof (related_nodup d s Hrel) as Hd. destruct Hrel as (e & -> & Hdup & Hs & _).
  destruct (s !! k) as [[v t]|] eqn:Hk; cbn.
  - apply od_get_Some; [done|]. apply Hs in Hk. apply list_elem_of_fmap. by exists (k, (v, t)).
  - apply od_get_None. rewrite item_of_keys, elem_of_keys. intros [x Hx%Hs]. congruence.
Qed.

Lemma filter_item_of (P : K → Prop) `{∀ k, Decision (P k)} (e : list (K * (V * Z))) :
  base.filter (λ x, P (fst x)) (item_of <$> e) = item_of <$> base.filter (λ x, P (fst x)) e.
Proof.
  induction e as [|x e IH]; [done|]. rewrite fmap_cons, !filter_cons. cbn [item_of fst].
  destruct (decide (P (fst x))); by rewrite ?fmap_cons, IH.
Qed.

Lemma StronglySorted_filter P `{∀ x, Decision (P x)} (e : list (K * (V * Z))) :
  StronglySorted older e → StronglySorted older (base.filter P e).
Proof.
  induction 1 as [|x e He IH Hx]; [constructor|]. rewrite filter_cons. destruct (decide (P x)); [|done].
  constructor; [done|]. apply Forall_forall. intros y [_ Hy]%list_elem_of_filter.
  by eapply Forall_forall in Hx.
Qed.

Lemma NoDup_filter_keys {A} P `{∀ x, Decision (P x)} (e : list (K * A)) :
  NoDup e.*1 → NoDup (base.filter P e).*1.
Proof. intros He. eapply sublist_NoDup; [exact He|]. apply fmap_sublist, sublist_filter. Qed.

(** Entries can be used, removed and inserted at the far end. *)
Lemma related_delete d s k : related d s → related (od_delete d k) (delete k s).
Proof.
  intros (e & -> & Hdup & Hs & Hsorted). exists (base.filter (λ x, fst x ≠ k) e). split_and!.
  - unfold od_delete. exact (filter_item_of (λ x, x ≠ k) e).
  - by apply NoDup_filter_keys.
  - intros k' x. rewrite lookup_delete_Some, Hs, list_elem_of_filter. cbn. naive_solver.
  - by apply StronglySorted_filter.
Qed.

Lemma related_use d s k v t :
  related d s → newest s t → related (od_delete d k ++ [(k, v)]) (<[k := (v, t)]> s).
Proof.
  intros Hrel Hnew. destruct (related_delete d s k Hrel) as (e & -> & Hdup & Hs & Hsorted).
  exists (e ++ [(k, (v, t))]). split_and!.
  - by rewrite fmap_app.
  - rewrite fmap_app. apply NoDup_app. split; [done|]. split; [|apply NoDup_singleton].
    intros k' [x Hx%Hs]%elem_of_keys ->%list_elem_of_singleton. cbn in Hx.
    by rewrite lookup_delete_eq in Hx.
  - intros k' x. rewrite elem_of_app, list_elem_of_singleton, <- Hs.
    rewrite lookup_insert_Some, lookup_delete_Some. naive_solver.
  - apply StronglySorted_app_2; [|done|by repeat constructor].
    intros [k' [v' t']] y Hx ->%list_elem_of_singleton. unfold older. cbn.
    apply Hs, lookup_delete_Some in Hx as [_ Hx]. by eapply Hnew.
Qed.

Lemma newest_exists d s : related d s → ∃ t, newest s t.
Proof.
  intros (e & _ & _ & Hs & _). unfold newest. setoid_rewrite Hs. clear Hs.
  induction e as [|[k [v t]] e [t' IH]]; [exists 0; by intros ? ? ? ?%not_elem_of_nil|].
  exists (Z.max (t + 1) t'). intros k1 v1 t1 [[= -> -> ->]|Hin]%elem_of_cons; [lia|].
  specialize (IH k1 v1 t1 Hin). lia.
Qed.

Lemma oldest_exists (e : list (K * (V * Z))) : ∃ b, ∀ x, x ∈ e → b <= snd (snd x).
Proof.
  induction e as [|x e [b IH]]; [exists 0; by intros ? ?%not_elem_of_nil|].
  exists (Z.min b (snd (snd x))). intros y [->|Hy]%elem_of_cons; [lia|]. specialize (IH y Hy). lia.
Qed.

(** ** Insertion at the far end *)

Lemma od_set_keys d k v :
  (od_set d k v).*1 = if decide (k ∈ d.*1) then d.*1 else d.*1 ++ [k].
Proof.
  unfold od_set. destruct (od_get d k) eqn:Hk.
  - rewrite decide_True.
    + rewrite <- list_fmap_compose. apply list_fmap_ext. intros i [k' v'] _. cbn. by case_decide.
    + apply dec_stable. rewrite <- od_get_None. congruence.
  - rewrite decide_False by by apply od_get_None. by rewrite fmap_app.
Qed.

Lemma elem_of_od_set d k v k' v' :
  (k', v') ∈ od_set d k v ↔ (k' = k ∧ v' = v) ∨ (k' ≠ k ∧ (k', v') ∈ d).
Proof.
  unfold od_set. destruct (od_get d k) as [v0|] eqn:Hk.
  - rewrite list_elem_of_fmap. split.
    + intros ([k1 v1] & Heq & Hin). cbn in Heq. case_decide as Hd.
      * injection Heq as -> ->. auto.
      * injection Heq as -> ->. auto.
    + intros [[-> ->]|[Hne Hin]].
      * assert (k ∈ d.*1) as [x Hx]%elem_of_keys.
        { apply dec_stable. rewrite <- od_get_None. congruence. }
        exists (k, x). cbn. by rewrite decide_True.
      * exists (k', v'). cbn. by rewrite decide_False.
  - rewrite elem_of_app, list_elem_of_singleton. apply od_get_None in Hk.
    rewrite elem_of_keys in Hk. split.
    + intros [Hin|[= -> ->]]; [right|by left]. split; [|done]. intros ->. eauto.
    + naive_solver.
Qed.

(** The first loop: the keys in the order of their first occurrence, with their
    last values. *)
Lemma insert_all_spec l :
  NoDup (insert_all [] l).*1 ∧ (∀ k, k ∈ (insert_all [] l).*1 ↔ k ∈ l.*1) ∧
  (∀ k v, last_value l k v → (k, v) ∈ insert_all [] l) ∧
  (∀ a1 k' a2 k, (insert_all [] l).*1 = a1 ++ k' :: a2 → before l k k' → k ∈ a1).
Proof.
  induction l as [|[k0 v0] l (Hdup & Hkeys & Hlast & Hord)] using rev_ind.
  { split; [constructor|]. split; [done|]. split; [by intros k v ([] & ? & ? & _)|].
    intros a1 k' a2 k Heq. by destruct a1. }
  unfold insert_all in *. rewrite foldl_app. cbn [foldl fst snd].
  set (A := foldl _ [] l) in *. rewrite od_set_keys, fmap_app. cbn. split_and!.
  - case_decide as Hk; [done|]. apply NoDup_app. split; [done|]. split; [|apply NoDup_singleton].
    by intros k Hk' ->%list_elem_of_singleton.
  - intros k. rewrite elem_of_app, list_elem_of_singleton. case_decide as Hk.
    + rewrite Hkeys in *. naive_solver.
    + by rewrite elem_of_app, Hkeys, list_elem_of_singleton.
  - intros k v (l1 & l2 & Heq & Hno). rewrite elem_of_od_set.
    destruct l2 as [|y l2 _] using rev_ind.
    + apply app_inj_tail in Heq as [_ [= -> ->]]. by left.
    + rewrite app_comm_cons, app_assoc in Heq. apply app_inj_tail in Heq as [-> <-].
      rewrite fmap_app in Hno. cbn in Hno. right. split; [set_solver|]. apply Hlast.
      exists l1, l2. split; [done|]. set_solver.
  - intros a1 k' a2 k Heq (l1 & v & l2 & Hl & Hno & Hne).
    assert (before l k k' ∨ (k = k0 ∧ k' ∉ l.*1)) as Hcase.
    { destruct l2 as [|y l2 _] using rev_ind.
      - apply app_inj_tail in Hl as [-> [= <- _]]. by right.
      - rewrite app_comm_cons, app_assoc in Hl. apply app_inj_tail in Hl as [-> _].
        left. by exists l1, v, l2. }
    case_decide as Hk.
    + destruct Hcase as [Hb|[-> Hk']]; [by eapply Hord|]. destruct Hk'. apply Hkeys.
      rewrite Heq. set_solver.
    + destruct a2 as [|y a2 _] using rev_ind.
      * apply app_inj_tail in Heq as [<- <-]. destruct Hcase as [(m1 & x & m2 & -> & _)|[-> _]].
        { apply Hkeys. rewrite fmap_app. set_solver. }
        done.
      * rewrite app_comm_cons, app_assoc in Heq. apply app_inj_tail in Heq as [Heq _].
        destruct Hcase as [Hb|[-> Hk']]; [by eapply Hord|]. destruct Hk'. apply Hkeys.
        rewrite Heq. set_solver.
Qed.

(** The second loop: the other items, behind. *)
Lemma insert_missing_spec A d :
  NoDup d.*1 → insert_missing A d = A ++ base.filter (λ x, fst x ∉ A.*1) d.
Proof.
  unfold insert_missing. revert A. induction d as [|[k v] d IH]; intros A; [by rewrite app_nil_r|].
  rewrite fmap_cons. intros [Hk Hd]%NoDup_cons. cbn [foldl fst snd]. rewrite filter_cons.
  destruct (od_get A k) eqn:Hget.
  - rewrite IH by done. rewrite decide_False; [done|]. cbn. rewrite <- od_get_None. congruence.
  - rewrite IH by done. pose proof (proj1 (od_get_None A k) Hget) as Hno.
    unfold od_set. rewrite Hget. cbn [fst]. rewrite decide_True by done. rewrite <- app_assoc.
    f_equal. cbn. f_equal. apply filter_ext_elem. intros [k' v'] Hin.
    rewrite fmap_app, elem_of_app. cbn. rewrite list_elem_of_singleton.
    assert (k' ≠ k); [|naive_solver]. intros ->. apply Hk, elem_of_keys. eauto.
Qed.

(** Times for the inserted items, one after the other. *)
Fixpoint stamp (t : Z) (A : list (K * V)) : list (K * (V * Z)) :=
  match A with
  | [] => []
  | (k, v) :: A => (k, (v, t)) :: stamp (t + 1) A
  end.

Lemma stamp_items t A : item_of <$> stamp t A = A.
Proof. revert t. induction A as [|[k v] A IH]; intros t; [done|]. cbn. by rewrite IH. Qed.
Lemma stamp_keys t A : (stamp t A).*1 = A.*1.
Proof. by rewrite <- item_of_keys, stamp_items. Qed.

Lemma stamp_range t A x : x ∈ stamp t A → t <= snd (snd x) < t + Z.of_nat (length A).
Proof.
  revert t. induction A as [|[k v] A IH]; intros t; [by intros ?%not_elem_of_nil|].
  intros [->|Hx%IH]%elem_of_cons; cbn [length snd] in *; lia.
Qed.

Lemma stamp_sorted t A : StronglySorted older (stamp t A).
Proof.
  revert t. induction A as [|[k v] A IH]; intros t; [constructor|]. constructor; [apply IH|].
  apply Forall_forall. intros x Hx%stamp_range. unfold older. cbn. lia.
Qed.

Lemma related_batch l d s : related d s →
  ∃ s', spec_step (OpBatch l) s (Ok Nothing) s' ∧ related (insert_missing (insert_all [] l) d) s'.
Proof.
  intros Hrel. pose proof (related_nodup d s Hrel) as Hd. destruct Hrel as (e & -> & Hdup & Hs & Hsorted).
  destruct (insert_all_spec l) as (HA & Hkeys & Hlast & Hord). set (A := insert_all [] l) in *.
  rewrite insert_missing_spec by done. destruct (oldest_exists e) as [b Hb].
  set (e1 := stamp (b - Z.of_nat (length A)) A).
  set (e2 := base.filter (λ x, fst x ∉ A.*1) e).
  assert (NoDup (e1 ++ e2).*1) as Hdup'.
  { rewrite fmap_app. apply NoDup_app. unfold e1. rewrite stamp_keys. split; [done|]. split.
    - intros k Hk [x [Hno _]%list_elem_of_filter]%elem_of_keys. by apply Hno.
    - by apply NoDup_filter_keys. }
  set (s' := list_to_map (e1 ++ e2) : timed).
  assert (∀ k x, s' !! k = Some x ↔ (k, x) ∈ e1 ++ e2) as Hs'.
  { intros k x. unfold s'. by rewrite <- elem_of_list_to_map. }
  assert (∀ k x, (k, x) ∈ e1 → k ∈ l.*1) as Hin1.
  { intros k x Hx. rewrite <- Hkeys, <- (stamp_keys (b - Z.of_nat (length A))).
    apply elem_of_keys. by exists x. }
  assert (∀ k x, (k, x) ∈ e2 ↔ k ∉ l.*1 ∧ s !! k = Some x) as Hin2.
  { intros k x. unfold e2. rewrite list_elem_of_filter, Hs. cbn. by rewrite Hkeys. }
  exists s'. split.
  - constructor.
    + intros k Hk. apply option_eq. intros x. rewrite Hs', elem_of_app, Hin2.
      split; [|naive_solver]. intros [?%Hin1|[_ ?]]; done.
    + intros k v Hv%Hlast. rewrite <- (stamp_items (b - Z.of_nat (length A)) A) in Hv.
      apply list_elem_of_fmap in Hv as ([k' [v' t]] & [= <- <-] & Hx). exists t. split.
      { apply Hs', elem_of_app. by left. }
      intros k' v' t' _ Ht'%Hs%Hb. apply stamp_range in Hx. cbn in Hx, Ht'. lia.
    + intros k k' v v' t t' Hbefore Hk' Hk%Hs' Hk2%Hs'.
      apply elem_of_app in Hk2 as [Hk2|[? _]%Hin2]; [|done].
      apply list_elem_of_split in Hk2 as (f1 & f2 & He1).
      assert (k ∈ f1.*1) as [x Hx]%elem_of_keys.
      { apply (Hord f1.*1 k' f2.*1); [|done]. rewrite <- (stamp_keys (b - Z.of_nat (length A))).
        fold e1. by rewrite He1, fmap_app. }
      assert (x = (v, t)) as ->.
      { eapply key_unique; [exact Hdup'| |exact Hk]. rewrite He1. set_solver. }
      assert (older (k, (v, t)) (k', (v', t'))) as Ho; [|exact Ho].
      eapply StronglySorted_app_1_elem_of; [|exact Hx|by left]. rewrite <- He1. apply stamp_sorted.
  - exists (e1 ++ e2). split_and!; [|done|done|].
    + rewrite fmap_app. unfold e1, e2. rewrite stamp_items. f_equal.
      exact (filter_item_of (λ k, k ∉ A.*1) e).
    + apply StronglySorted_app_2; [|apply stamp_sorted|by apply StronglySorted_filter].
      intros x y Hx%stamp_range [_ Hy%Hb]%list_elem_of_filter. unfold older. lia.
Qed.

(** ** Refinement *)

Lemma run_op_refines o (D : @LRUDict K V) s : related (lru_items D) s →
  ∃ s', spec_step o s (fst (run_op o D)) s' ∧ related (lru_items (snd (run_op o D))) s'.
Proof.
  intros Hrel. destruct D as [d dirty]. cbn in Hrel. pose proof (related_get d s) as Hget.
  destruct (newest_exists d s Hrel) as [t Ht].
  destruct o as [k v|l|k|k| |k]; cbn [run_op].
  - unfold add. rewrite M_bind_assoc, bind_gets. cbn [lru_items]. rewrite od_set_delete.
    eexists. split; [by constructor|]. by apply related_use.
  - cbn. by apply related_batch.
  - unfold touch. rewrite M_bind_assoc, bind_gets. cbn [lru_items]. rewrite Hget by done.
    destruct (s !! k) as [[v t']|] eqn:Hk; cbn [fmap option_fmap option_map fst of_option].
    + rewrite M_bind_assoc, bind_lift_Ok, od_set_delete.
      eexists. split; [by econstructor|]. by apply related_use.
    + exists s. split; [by constructor|done].
  - unfold pop. rewrite M_bind_assoc, bind_gets. cbn [lru_items]. rewrite Hget by done.
    destruct (s !! k) as [[v t']|] eqn:Hk; cbn.
    + eexists. split; [by econstructor|]. by apply related_delete.
    + exists s. split; [by constructor|done].
  - destruct d as [|[k v] d]; cbn.
    + exists s. split; [|done]. destruct Hrel as (e & He & _ & Hs & _).
      symmetry in He. apply fmap_nil_inv in He as ->.
      assert (s = ∅) as ->; [|constructor]. apply map_eq. intros k. apply option_eq. intros x.
      rewrite Hs, lookup_empty. split; [by intros ?%not_elem_of_nil|done].
    + assert (od_delete ((k, v) :: d) k = d) as Hdel.
      { apply related_nodup in Hrel. rewrite fmap_cons in Hrel.
        apply NoDup_cons in Hrel as [Hk Hd]. unfold od_delete.
        rewrite filter_cons_False by (intros Hne; by apply Hne). apply filter_all.
        intros [k' v'] Hin Heq. cbn in Heq. subst k'. apply Hk, elem_of_keys. eauto. }
      exists (delete k s). split; [|rewrite <- Hdel at 1; by apply related_delete].
      destruct Hrel as ([|[k1 [v1 t1]] e] & [= -> -> He] & Hdup & Hs & Hsorted).
      apply (spec_pop_oldest _ _ t1).
      * apply Hs. by left.
      * intros k' v' t' Hne [[= -> -> ->]|Hin]%Hs%elem_of_cons; [done|].
        apply StronglySorted_cons in Hsorted as [Hall _].
        exact (proj1 (Forall_forall _ _) Hall _ Hin).
  - exists s. split; [|done]. rewrite bind_gets. cbn [id]. unfold get. cbn [lru_items].
    rewrite Hget by done. pose proof (spec_get k s) as Hspec. by destruct (s !! k).
Qed.

(** A history: the answer of every operation, exceptions included. *)
Fixpoint run_ops (os : list op) (D : @LRUDict K V) : list (outcome answer) * @LRUDict K V :=
  match os with
  | [] => ([], D)
  | o :: os =>
      let '(r, D) := run_op o D in
      let '(rs, D) := run_ops os D in (r :: rs, D)
  end.
Inductive spec_run : list op → timed → list (outcome answer) → timed → Prop :=
  | spec_run_nil s : spec_run [] s [] s
  | spec_run_cons o os s r s1 rs s2 :
      spec_step o s r s1 → spec_run os s1 rs s2 → spec_run (o :: os) s (r :: rs) s2.

(** C10: The dictionary refines one in which every entry has the time of its last
    use.  Whatever is done with it, it answers what the specification allows: what
    is evicted has not been used for the longest time, items inserted in bulk are
    older than all others and keep their order, and a missing key is reported
    without a change.  Its items are always the entries in the order of their
    times. *)
Theorem lru_refines (os : list op) :
  let '(rs, D) := run_ops os LRUDict_init in
  ∃ s, spec_run os ∅ rs s ∧ related (lru_items D) s.
Proof.
  assert (∀ D s, related (lru_items D) s →
    let '(rs, D) := run_ops os D in ∃ s', spec_run os s rs s' ∧ related (lru_items D) s') as Hall.
  { induction os as [|o os IH]; intros D s Hrel; [exists s; by split; [constructor|]|].
    cbn [run_ops]. destruct (run_op_refines o D s Hrel) as (s1 & Hstep & Hrel1).
    destruct (run_op o D) as [r D1]. specialize (IH D1 s1 Hrel1).
    destruct (run_ops os D1) as [rs D2]. destruct IH as (s2 & Hrun & Hrel2).
    exists s2. split; [by econstructor|done]. }
  apply Hall. exists []. split_and!; [done|constructor| |constructor].
  intros k x. rewrite lookup_empty. split; [done|by intros ?%not_elem_of_nil].
Qed.

(** ** Saving and loading *)

(** The pairs of a file up to the first that has no key, and what stops there. *)
Definition pairs_of (l : list JsonPair) : option (list (K * V)) :=
  mapM (λ p, match p with Pair (Some k) v => Some (k, v) | _ => None end) l.

Lemma load_pairs_run d b (l : list (@JsonPair K V)) ps :
  pairs_of l = Some ps →
  load_pairs l (mkLRU d b) =
    (Ok (), mkLRU (foldl (λ d x, od_delete d (fst x) ++ [x]) d ps) (b || negb (bool_decide (ps = [])))).
Proof.
  revert d b ps. induction l as [|p l IH]; intros d b ps.
  { intros [= <-]. cbn. by rewrite orb_false_r. }
  unfold pairs_of. cbn. intros ([k v] & Hp & (ps' & Hl & [= <-])%bind_Some)%bind_Some.
  destruct p as [[k'|] v'|]; [|done..]. injection Hp as -> ->. cbn [load_pairs].
  unfold add. rewrite M_bind_assoc, bind_gets. cbn [lru_items]. rewrite od_set_delete.
  unfold set_items_dirty. rewrite bind_modify. rewrite (IH _ _ ps' Hl). cbn. by rewrite orb_true_r.
Qed.

Lemma adds_distinct d ps :
  NoDup (d ++ ps).*1 → foldl (λ d x, od_delete d (fst x) ++ [x]) d ps = d ++ ps.
Proof.
  revert d. induction ps as [|[k v] ps IH]; intros d Hdup; [by rewrite app_nil_r|]. cbn [foldl fst].
  assert (od_delete d k = d) as ->.
  { apply filter_all. intros [k' v'] Hin Heq. cbn in Heq. subst k'.
    rewrite fmap_app in Hdup. apply NoDup_app in Hdup as (_ & Hno & _).
    apply (Hno k); [apply elem_of_keys; eauto|by left]. }
  rewrite IH; [by rewrite <- app_assoc|]. by rewrite <- app_assoc.
Qed.

Lemma adds_keys d ps :
  NoDup d.*1 →
  let d' := foldl (λ d x, od_delete d (fst x) ++ [x]) d ps in
  NoDup d'.*1 ∧ ∀ k, k ∈ d'.*1 → k ∈ d.*1 ∨ k ∈ ps.*1.
Proof.
  revert d. induction ps as [|[k v] ps IH]; intros d Hdup; [by split; [|left]|]. cbn [foldl fst].
  destruct (IH (od_delete d k ++ [(k, v)])) as [Hdup' Hin].
  { rewrite fmap_app. apply NoDup_app. split; [by apply NoDup_filter_keys|]. cbn.
    split; [|apply NoDup_singleton].
    intros k' [_ Hne]%od_delete_keys Heq%list_elem_of_singleton. done. }
  split; [done|]. intros k' [Hk|Hk]%Hin; [|by right; right].
  rewrite fmap_app, elem_of_app, od_delete_keys in Hk. cbn in Hk.
  rewrite list_elem_of_singleton in Hk. destruct Hk as [[? _]| ->]; [by left|right; by left].
Qed.

Lemma load_pairs_all (l : list (@JsonPair K V)) ps :
  pairs_of l = Some ps →
  load (JsonList l) =
    if decide (NoDup ps.*1) then Ok (mkLRU ps false) else Raise (ValueError "Broken state file").
Proof.
  intros Hl. unfold load, LRUDict_init. rewrite (M_bind_run _ _ _ _ _ (load_pairs_run [] true l ps Hl)).
  rewrite bind_gets. unfold len. cbn [lru_items].
  assert (length l = length ps) as Hlen by by apply length_mapM in Hl.
  set (d' := foldl _ [] ps). destruct (decide (NoDup ps.*1)) as [Hdup|Hdup].
  - assert (d' = ps) as -> by by apply (adds_distinct [] ps).
    unfold py_len. rewrite Hlen, Z.eqb_refl. done.
  - destruct (adds_keys [] ps) as [Hd Hin]; [constructor|]. fold d' in Hd, Hin.
    destruct (Z.eqb_spec (py_len d') (py_len l)) as [Heq|Hne]; [|done]. destruct Hdup.
    assert (d'.*1 ≡ₚ ps.*1) as <-; [|done]. apply submseteq_length_Permutation.
    + apply NoDup_submseteq; [done|]. intros k [?%not_elem_of_nil|?]%Hin; done.
    + rewrite !length_fmap. unfold py_len in Heq. lia.
Qed.

(** A pair without a usable key comes up. *)
Definition unhashable (l : list (@JsonPair K V)) : Prop := ∃ v, Pair None v ∈ l.

Lemma load_pairs_error (l : list (@JsonPair K V)) :
  pairs_of l = None →
  ∃ e, load (JsonList l) = Raise e ∧
    (e = ValueError "Broken state file" ∨ e = TypeError "unhashable type" ∧ unhashable l).
Proof.
  intros Hl. assert (∀ D, ∃ e, fst (load_pairs l D) = Raise e ∧
    (e = ValueError "Broken state file" ∨ e = TypeError "unhashable type" ∧ unhashable l)) as Hstop.
  { induction l as [|p l IH]; intros D; [done|]. destruct p as [[k|] v|]; cbn [load_pairs].
    - destruct IH with (D := snd (add k v D)) as (e & He & Hcase).
      { unfold pairs_of in *. cbn in Hl. by destruct (mapM _ l). }
      exists e. split.
      + rewrite <- He. erewrite (M_bind_run (add k v)); [reflexivity|]. by destruct D.
      + destruct Hcase as [->|[-> [v' ?]]]; [by left|]. right. split; [done|]. exists v'. by right.
    - eexists. split; [reflexivity|]. right. split; [done|]. exists v. by left.
    - eexists. split; [reflexivity|]. by left. }
  destruct (Hstop LRUDict_init) as (e & He & Hcase). exists e. split; [|done].
  unfold load. by rewrite (M_bind_run_raise _ _ _ _ _ (run_fst _ _ _ He)).
Qed.

(** C38: Saving and loading.  A dictionary that was changed is written out, and the
    file loads to the same items in the same order, not changed; one that was not
    changed is not written.  A file loads exactly when it holds a list of pairs
    with distinct keys; otherwise [ValueError] is raised, or [TypeError] when a key
    has no hash. *)
Theorem save_load (D : @LRUDict K V) :
  NoDup (lru_items D).*1 →
  (if dirty D
   then ∃ file, save D = (Ok (true, Some file), mkLRU (lru_items D) false) ∧
          load file = Ok (mkLRU (lru_items D) false)
   else save D = (Ok (false, None), D)) ∧
  ∀ state, match load state with
           | Ok D' => ∃ js, state = JsonList js ∧ pairs_of js = Some (lru_items D') ∧
                        NoDup (lru_items D').*1 ∧ dirty D' = false
           | Raise e =>
               (∀ js ps, state = JsonList js → pairs_of js = Some ps → ¬ NoDup ps.*1) ∧
               (e = ValueError "Broken state file" ∨
                e = TypeError "unhashable type" ∧ ∃ js, state = JsonList js ∧ unhashable js)
           end.
Proof.
  intros HD. split.
  - unfold save. rewrite bind_gets. cbn [id]. destruct D as [d b]. cbn in *. destruct b; [|done]. cbn.
    eexists. split; [reflexivity|]. rewrite (load_pairs_all _ d); [by rewrite decide_True|].
    unfold pairs_of. apply mapM_Some, Forall2_fmap_l, Forall_Forall2_diag, Forall_forall.
    by intros [k v] _.
  - intros [| |l]; [cbn; naive_solver..|].
    destruct (pairs_of l) as [ps|] eqn:Hl.
    + rewrite (load_pairs_all l ps Hl). case_decide as Hdup; [by exists l|].
      split; [|by left]. intros l' ps' [= <-]. congruence.
    + destruct (load_pairs_error l Hl) as (e & -> & Hcase). split.
      * intros l' ps' [= <-]. congruence.
      * destruct Hcase as [->|[-> ?]]; [by left|]. right. eauto.
Qed.
End laws.

(** ** Examples *)

(** Two keys, the older one used again, evicts the other. *)
Lemma least_recently_used :
  fst (run_ops [OpAdd 1 10; OpAdd 2 20; OpTouch 1; OpBatch [(3, 30); (2, 21)]; OpPopOldest; OpPopOldest;
                OpPop 1; OpPopOldest] LRUDict_init) =
    [Ok Nothing; Ok Nothing; Ok Nothing; Ok Nothing; Ok (Item 3 30); Ok (Item 2 21);
     Ok (Value 10); Raise KeyError].
Proof. vm_compute. reflexivity. Qed.

(** A file with a list for a key. *)
Lemma unhashable_key :
  load (K:=Z) (JsonList [Pair None 1; NoPair]) = Raise (TypeError "unhashable type").
Proof. reflexivity. Qed.

Lemma save_load_witness :
  NoDup [1; 2] ∧ ∃ file, save (mkLRU [(1, 10); (2, 20)] true) =
      (Ok (true, Some file), mkLRU [(1, 10); (2, 20)] false) ∧
    load file = Ok (mkLRU [(1, 10); (2, 20)] false).
Proof.
  assert (NoDup [1; 2]) as Hdup by (apply (bool_decide_unpack _); vm_compute; exact I).
  split; [exact Hdup|]. exact (proj1 (save_load (mkLRU [(1, 10); (2, 20)] true) Hdup)).
Defined.
