(* ===== verification/JsonComments.v ===== *)
(** json_comment_eater.py, src/src/tools/json_comment_eater: a JSON text without its
    comments.

    Texts are byte strings; positions are never negative but where [find] answers
    -1, which is [None] here. *)

From Stdlib Require Import Ascii String.
From S2P Require Import Prelude PyPath.

#[local] Open Scope string_scope.
#[local] Open Scope list_scope.

(** [s.find(k, start)] and [s[a:b]]. *)
Definition find (s k : string) (start : nat) : option nat := String.index start k s.
Definition str_slice (s : string) (a b : nat) : string := String.substring a (b - a) s.

Definition carriage_return : string := String (ascii_of_nat 13) "".

(** [_Rcount(string, '\\')] *)
Definition Rcount (s : string) (c : ascii) : nat :=
  (String.length s - String.length (rstrip_char c s))%nat.

(** The loop of [_FindNextToken] over the tokens. *)
Fixpoint next_token (s : string) (tokens : list string) (start : nat)
    (min : option (nat * string)) : option (nat * string) :=
  match tokens with
  | [] => min
  | k :: tokens =>
      next_token s tokens start
        (match find s k start, min with
         | Some index, None => Some (index, k)
         | Some index, Some (min_index, _) => if (index <? min_index)%nat then Some (index, k) else min
         | None, _ => min
         end)
  end.
Definition FindNextToken (s : string) (tokens : list string) (start : nat) : option (nat * string) :=
  next_token s tokens start None.

(** The loop of [_ReadString]: on to the next quote as long as a quote is
    escaped. *)
Fixpoint close_string (fuel : nat) (input : string) (start_range : nat) (end_range : option nat) :
    outcome (nat * option nat) :=
  match end_range with
  | None => Ok (start_range, None)
  | Some e =>
      if Nat.odd (Rcount (str_slice input start_range e) backslash)
      then match fuel with
           | O => Raise recursion_error
           | S fuel => close_string fuel input e (find input double_quote (S e))
           end
      else Ok (start_range, Some e)
  end.

Definition ReadString (input : string) (start : nat) (output : list string) :
    outcome (nat * list string) :=
  let output := output ++ [double_quote] in
  '(start_range, end_range) ←
    close_string (String.length input) input start (find input double_quote start);
  Ok (match end_range with
      | None => (S start_range, output)
      | Some e => (S e, output ++ [str_slice input start (S e)])
      end).

Definition ReadComment (input : string) (start : nat) (output : list string) :
    outcome (nat * list string) :=
  Ok (match FindNextToken input [line_feed; carriage_return] start with
      | None => (String.length input, output)
      | Some (eol_token_index, eol_token) =>
          ((eol_token_index + String.length eol_token)%nat, output ++ [eol_token])
      end).

Definition ReadMultilineComment (input : string) (start : nat) (output : list string) :
    outcome (nat * list string) :=
  match FindNextToken input ["*/"] start with
  | None => Raise (PyException "Multiline comment end token (*/) not found")
  | Some (end_token_index, end_token) =>
      Ok ((end_token_index + String.length end_token)%nat, output)
  end.

(** [token_actions], a dict, of which the keys come in some order. *)
Definition token_actions : list string := [double_quote; "//"; "/*"].
Definition token_action (token : string) :
    string → nat → list string → outcome (nat * list string) :=
  if String.eqb token double_quote then ReadString
  else if String.eqb token "//" then ReadComment
  else ReadMultilineComment.

(** The loop of [Nom]; [keys] are the tokens in the order of the dict. *)
Fixpoint nom_loop (fuel : nat) (keys : list string) (input : string) (pos : nat)
    (output : list string) : outcome (list string) :=
  if (String.length input <=? pos)%nat then Ok output
  else match fuel with
       | O => Raise recursion_error
       | S fuel =>
           match FindNextToken input keys pos with
           | None => Ok (output ++ [str_slice input pos (String.length input)])
           | Some (token_index, token) =>
               '(pos, output) ← token_action token input (token_index + String.length token)
                 (output ++ [str_slice input pos token_index]);
               nom_loop fuel keys input pos output
           end
       end.
Definition Nom (keys : list string) (input : string) : outcome string :=
  output ← nom_loop (String.length input) keys input 0 [];
  Ok (String.concat "" output).
