(* ===== verification/JsonCommentLaws.v ===== *)
(** What json_comment_eater.py leaves of a text: everything but its comments, as
    long as its string literals are closed. *)

From Stdlib Require Import Ascii String.
From S2P Require Import Prelude PyPath JsonComments.

#[local] Open Scope string_scope.
#[local] Open Scope list_scope.

(** ** Finding *)

(** The text before and after the first [k]. *)
Fixpoint partition (k s : string) : option (string * string) :=
  match strip_prefix k s with
  | Some r => Some ("", r)
  | None => match s with
            | EmptyString => None
            | String c s => '(a, b) ← partition k s; Some (String c a, b)
            end
  end.

Lemma partition_spec k s a b : partition k s = Some (a, b) → s = a +:+ k +:+ b.
Proof.
  assert (∀ s r, strip_prefix k s = Some r → s = "" +:+ k +:+ r) as Hnow
    by (intros t r Hk; by apply strip_prefix_spec in Hk).
  revert a. induction s as [|c s IH]; intros a; cbn [partition];
    destruct (strip_prefix k _) as [r|] eqn:Hk.
  - intros [= <- <-]. by apply Hnow.
  - done.
  - intros [= <- <-]. by apply Hnow.
  - destruct (partition k s) as [[a' b']|]; [|done]. intros [= <- <-].
    by rewrite append_cons, <- (IH a' eq_refl).
Qed.

Lemma prefix_strip k s : String.prefix k s = is_not_none (strip_prefix k s).
Proof.
  revert s. induction k as [|c k IH]; intros [|d s]; try done. cbn.
  destruct (ascii_dec c d) as [->|Hne]; [by rewrite Ascii.eqb_refl|].
  by apply Ascii.eqb_neq in Hne as ->.
Qed.

Lemma index_partition k s :
  k ≠ "" → String.index 0 k s = (λ x, String.length (fst x)) <$> partition k s.
Proof.
  intros Hk. induction s as [|c s IH].
  { destruct k as [|d k]; [done|]. done. }
  cbn [String.index partition]. rewrite prefix_strip. destruct (strip_prefix k (String c s)) as [r|]; [done|].
  cbn [is_not_none]. rewrite IH. by destruct (partition k s) as [[]|].
Qed.

(** Behind what has been read. *)
Lemma find_at k pre rest : k ≠ "" →
  find (pre +:+ rest) k (String.length pre) =
    (λ x, (String.length pre + String.length (fst x))%nat) <$> partition k rest.
Proof.
  intros Hk. unfold find. induction pre as [|c pre IH].
  { rewrite append_nil. cbn [String.length]. by apply index_partition. }
  rewrite append_cons. cbn [String.length String.index]. rewrite IH.
  by destruct (partition k rest) as [[]|].
Qed.

Lemma str_slice_at pre s rest :
  str_slice (pre +:+ s +:+ rest) (String.length pre) (String.length pre + String.length s) = s.
Proof.
  unfold str_slice. replace (_ + _ - _)%nat with (String.length s) by lia. apply substring_append.
Qed.

(** ** String literals *)

(** What follows a quote that is opened: the body and the text behind the closing
    quote. *)
Definition closed (rest : string) : option (string * string) :=
  match string_span rest with
  | Some (b, String _ r) => Some (b, r)
  | _ => None
  end.

(** Where the reading goes on when the quote is never closed: behind the last quote,
    or behind the next character. *)
Definition unclosed (rest : string) : string :=
  match rsplit_on quote_char rest with
  | Some (_, t) => t
  | None => match rest with EmptyString => "" | String _ s => s end
  end.

Definition no_quote (s : string) : bool := string_forall (λ c, negb (Ascii.eqb c quote_char)) s.

(** Backslashes at the end of a text. *)
Definition odd_end (s : string) : bool := Nat.odd (Rcount s backslash).

Lemma rstrip_length c s : (String.length (rstrip_char c s) <= String.length s)%nat.
Proof.
  induction s as [|d s IH]; [done|]. cbn. destruct (rstrip_char c s); [|cbn in *; lia].
  destruct (Ascii.eqb d c); cbn; lia.
Qed.

Lemma Rcount_cons d s :
  Rcount (String d s) backslash =
    if Ascii.eqb d backslash && String.eqb (rstrip_char backslash s) ""
    then S (Rcount s backslash) else Rcount s backslash.
Proof.
  unfold Rcount. cbn [rstrip_char String.length]. pose proof (rstrip_length backslash s).
  destruct (rstrip_char backslash s) as [|e t] eqn:Hs.
  - destruct (Ascii.eqb d backslash); cbn; lia.
  - rewrite andb_false_r. cbn in *. lia.
Qed.

Lemma odd_end_other c s : Ascii.eqb c backslash = false → odd_end (String c s) = odd_end s.
Proof. intros Hc. unfold odd_end. by rewrite Rcount_cons, Hc. Qed.

Lemma odd_end_escape d s : odd_end (String backslash (String d s)) = odd_end s.
Proof.
  unfold odd_end. rewrite !Rcount_cons, Ascii.eqb_refl. cbn [andb rstrip_char].
  destruct (rstrip_char backslash s) as [|e t]; cbn [String.eqb]; [|by rewrite andb_false_r].
  rewrite andb_true_r. destruct (Ascii.eqb d backslash); cbn [String.eqb]; [|done].
  by rewrite Nat.odd_succ_succ.
Qed.

(** A stretch without quotes closes the literal unless an odd number of backslashes
    ends it. *)
Lemma string_span_segment seg r :
  no_quote seg = true →
  string_span (seg +:+ String quote_char r) =
    if odd_end seg then '(b, t) ← string_span r; Some (seg +:+ String quote_char b, t)
    else Some (seg, String quote_char r).
Proof.
  induction seg as [|c seg IH IH2] using string_ind2; [done|].
  cbn. intros [Hc Hseg]%andb_prop. apply negb_true_iff in Hc. rewrite append_cons. cbn [string_span].
  rewrite Hc. destruct (Ascii.eqb_spec c backslash) as [->|Hb].
  - destruct seg as [|d seg].
    { rewrite append_nil. cbn. by destruct (string_span r) as [[]|]. }
    rewrite append_cons, odd_end_escape. cbn in Hseg. apply andb_prop in Hseg as [_ Hseg].
    rewrite (IH2 d seg eq_refl Hseg). destruct (odd_end seg); [|done].
    by destruct (string_span r) as [[]|].
  - apply Ascii.eqb_neq in Hb. rewrite odd_end_other by done. rewrite IH by done.
    destruct (odd_end seg); [|done]. by destruct (string_span r) as [[]|].
Qed.

Lemma string_span_no_quote seg :
  no_quote seg = true → string_span seg = None ∨ string_span seg = Some (seg, "").
Proof.
  induction seg as [|c seg IH IH2] using string_ind2; [by right|].
  cbn. intros [Hc Hseg]%andb_prop. apply negb_true_iff in Hc. rewrite Hc.
  destruct (Ascii.eqb c backslash).
  - destruct seg as [|d seg]; [by left|]. cbn in Hseg. apply andb_prop in Hseg as [_ Hseg].
    destruct (IH2 d seg eq_refl Hseg) as [->| ->]; cbn; auto.
  - destruct (IH Hseg) as [->| ->]; cbn; auto.
Qed.

Lemma closed_segment seg r : no_quote seg = true →
  closed (seg +:+ String quote_char r) =
    if odd_end seg then '(b, t) ← closed r; Some (seg +:+ String quote_char b, t) else Some (seg, r).
Proof.
  intros Hseg. unfold closed. rewrite string_span_segment by done.
  destruct (odd_end seg); [|done]. by destruct (string_span r) as [[b [|]]|].
Qed.

Lemma closed_no_quote seg : no_quote seg = true → closed seg = None.
Proof. intros Hseg. unfold closed. by destruct (string_span_no_quote seg Hseg) as [->| ->]. Qed.

Lemma closed_spec rest b r :
  closed rest = Some (b, r) ↔ rest = b +:+ String quote_char r ∧ string_body b = true.
Proof.
  unfold closed. split.
  - destruct (string_span rest) as [[b' [|c t]]|] eqn:Hs; try done. intros [= -> ->].
    apply string_span_spec in Hs as (-> & Hb & [|[u [= -> ->]]]); done.
  - intros [-> Hb]. by rewrite string_span_body.
Qed.

(** ** Tokens *)

(** Some token is at the beginning of a text. *)
Definition starts_token (s : string) : Prop := ∃ t r, t ∈ token_actions ∧ s = t +:+ r.

Definition token_here (s : string) : option (string * string) :=
  match s with
  | EmptyString => None
  | String c r =>
      if Ascii.eqb c quote_char then Some (double_quote, r)
      else match strip_prefix "//" s with
           | Some r => Some ("//", r)
           | None => match strip_prefix "/*" s with Some r => Some ("/*", r) | None => None end
           end
  end.

Lemma elem_of_tokens t : t ∈ token_actions ↔ t = double_quote ∨ t = "//" ∨ t = "/*".
Proof. unfold token_actions. rewrite !elem_of_cons. pose proof (not_elem_of_nil t). tauto. Qed.

Lemma token_here_app t r : t ∈ token_actions → token_here (t +:+ r) = Some (t, r).
Proof.
  intros [->|[->| ->]]%elem_of_tokens; [done|..]; unfold token_here; rewrite !append_cons, append_nil;
    cbn; by destruct r.
Qed.

Lemma token_here_spec s t r : token_here s = Some (t, r) → t ∈ token_actions ∧ s = t +:+ r.
Proof.
  unfold token_here. destruct s as [|c s]; [done|].
  destruct (Ascii.eqb_spec c quote_char) as [->|Hq].
  { intros [= <- <-]. split; [apply elem_of_tokens; by left|done]. }
  destruct (strip_prefix "//" _) as [r'|] eqn:H1.
  { intros [= <- <-]. apply strip_prefix_spec in H1. split; [apply elem_of_tokens; auto|done]. }
  destruct (strip_prefix "/*" _) as [r'|] eqn:H2; [|done].
  intros [= <- <-]. apply strip_prefix_spec in H2. split; [apply elem_of_tokens; auto|done].
Qed.

Lemma token_here_None s : token_here s = None ↔ ¬ starts_token s.
Proof.
  split.
  - intros Hs (t & r & Ht & ->). by rewrite token_here_app in Hs.
  - intros Hs. destruct (token_here s) as [[t r]|] eqn:Ht; [|done].
    apply token_here_spec in Ht. destruct Hs. by exists t, r.
Qed.

(** The text before the first token, the token, and what follows. *)
Fixpoint scan (s : string) : option (string * string * string) :=
  match token_here s with
  | Some (t, r) => Some ("", t, r)
  | None => match s with
            | EmptyString => None
            | String c s => '(a, t, r) ← scan s; Some (String c a, t, r)
            end
  end.

Lemma strip_token t s :
  t ∈ token_actions → strip_prefix t s = match token_here s with
                                        | Some (t', r) => if String.eqb t t' then Some r else None
                                        | None => None
                                        end.
Proof.
  intros Ht. destruct (token_here s) as [[t' r]|] eqn:Hs.
  - apply token_here_spec in Hs as [Ht' ->]. destruct (String.eqb_spec t t') as [->|Hne].
    { apply strip_prefix_app. }
    apply elem_of_tokens in Ht as [->|[->| ->]], Ht' as [->|[->| ->]]; done.
  - destruct (strip_prefix t s) as [r|] eqn:Hr; [|done]. apply strip_prefix_spec in Hr.
    apply token_here_None in Hs as []. by exists t, r.
Qed.

(** The first token is found at the place where its own first occurrence is, and no
    other token is found before. *)
Lemma scan_spec s :
  match scan s with
  | Some (a, t, r) => t ∈ token_actions ∧ partition t s = Some (a, r) ∧
      ∀ t' a' r', t' ∈ token_actions → partition t' s = Some (a', r') →
        t' = t ∨ (String.length a < String.length a')%nat
  | None => ∀ t, t ∈ token_actions → partition t s = None
  end.
Proof.
  induction s as [|c s IH].
  { intros t [->|[->| ->]]%elem_of_tokens; done. }
  cbn [scan]. destruct (token_here (String c s)) as [[t r]|] eqn:Hs.
  - pose proof (token_here_spec _ _ _ Hs) as [Ht _]. split; [done|].
    assert (∀ t', t' ∈ token_actions → strip_prefix t' (String c s) =
              if String.eqb t' t then Some r else None) as Hstrip.
    { intros t' Ht'. by rewrite strip_token, Hs. }
    cbn [partition]. rewrite Hstrip, String.eqb_refl by done. split; [done|].
    intros t' a' r' Ht'. rewrite Hstrip by done. destruct (String.eqb_spec t' t) as [->|]; [by left|].
    destruct (partition t' s) as [[a1 r1]|]; [|done]. intros [= <- <-]. right. cbn. lia.
  - assert (∀ t', t' ∈ token_actions → strip_prefix t' (String c s) = None) as Hstrip.
    { intros t' Ht'. by rewrite strip_token, Hs. }
    destruct (scan s) as [[[a t] r]|].
    + destruct IH as (Ht & Hpart & Hmin). split; [done|]. cbn [partition].
      rewrite Hstrip, Hpart by done. split; [done|]. intros t' a' r' Ht'. rewrite Hstrip by done.
      destruct (partition t' s) as [[a1 r1]|] eqn:H1; [|done]. intros [= <- <-].
      destruct (Hmin t' a1 r1 Ht' H1) as [|Hlt]; [by left|]. right. cbn. lia.
    + intros t Ht. cbn [partition]. by rewrite Hstrip, IH.
Qed.

(** [_FindNextToken] answers a first occurrence. *)
Lemma next_token_spec s keys start min :
  match next_token s keys start min with
  | Some (i, k) => (min = Some (i, k) ∨ k ∈ keys ∧ find s k start = Some i) ∧
      (∀ k' i', k' ∈ keys → find s k' start = Some i' → (i <= i')%nat) ∧
      (∀ i' k', min = Some (i', k') → (i <= i')%nat)
  | None => min = None ∧ ∀ k, k ∈ keys → find s k start = None
  end.
Proof.
  revert min. induction keys as [|k keys IH]; intros min; cbn [next_token].
  { destruct min as [[i k]|].
    - split; [by left|]. split; [by intros ? ? ?%not_elem_of_nil|]. by intros i' k' [= -> ->].
    - split; [done|]. by intros ? ?%not_elem_of_nil. }
  set (min' := match find s k start with Some _ => _ | None => _ end).
  specialize (IH min'). destruct (next_token s keys start min') as [[i k1]|].
  - destruct IH as (Hin & Hkeys & Hmin). split_and!.
    + destruct Hin as [Hin|[Hin Hf]]; [|right; split; [by right|done]].
      unfold min' in Hin. destruct (find s k start) as [j|] eqn:Hj; [|by left].
      destruct min as [[m km]|].
      * destruct (j <? m)%nat; [|by left]. injection Hin as -> ->. right. split; [by left|done].
      * injection Hin as -> ->. right. split; [by left|done].
    + intros k' i' [->|Hk']%elem_of_cons Hi'; [|by eapply Hkeys].
      unfold min' in Hmin. rewrite Hi' in Hmin. destruct min as [[m km]|].
      * destruct (Nat.ltb_spec i' m); [by eapply Hmin|]. specialize (Hmin m km eq_refl). lia.
      * by eapply Hmin.
    + intros i' k' Hm. unfold min' in Hmin. rewrite Hm in Hmin.
      destruct (find s k start) as [j|]; [|by eapply Hmin].
      destruct (Nat.ltb_spec j i'); [specialize (Hmin j k eq_refl); lia|by eapply Hmin].
  - destruct IH as [Hnone Hkeys]. unfold min' in Hnone.
    destruct (find s k start) as [j|] eqn:Hj.
    { destruct min as [[m km]|]; [destruct (j <? m)%nat|]; done. }
    split; [done|]. intros k' [->|Hk']%elem_of_cons; [done|by apply Hkeys].
Qed.

Lemma FindNextToken_first keys pre rest found : "" ∉ keys →
  match found with
  | Some (a, t) => t ∈ keys ∧ (∃ r, partition t rest = Some (a, r)) ∧
      ∀ t' a' r', t' ∈ keys → partition t' rest = Some (a', r') →
        t' = t ∨ (String.length a < String.length a')%nat
  | None => ∀ t, t ∈ keys → partition t rest = None
  end →
  FindNextToken (pre +:+ rest) keys (String.length pre) =
    (λ x, ((String.length pre + String.length (fst x))%nat, snd x)) <$> found.
Proof.
  intros Hkeys Hscan. unfold FindNextToken.
  pose proof (next_token_spec (pre +:+ rest) keys (String.length pre) None) as Hspec.
  assert (∀ t, t ∈ keys → find (pre +:+ rest) t (String.length pre) =
    (λ x, (String.length pre + String.length (fst x))%nat) <$> partition t rest) as Hfind.
  { intros t Ht. apply find_at. by intros ->. }
  destruct (next_token _ _ _ None) as [[i k]|], found as [[a t]|]; cbn.
  - destruct Hscan as (Ht & [r Hpart] & Hmin). destruct Hspec as ([|[Hk Hi]] & Hle & _); [done|].
    rewrite Hfind in Hi by done. destruct (partition k rest) as [[a' r']|] eqn:Hp; [|done].
    cbn in Hi. injection Hi as <-. destruct (Hmin k a' r' Hk Hp) as [->|Hlt].
    { rewrite Hpart in Hp. by injection Hp as <- <-. }
    specialize (Hle t (String.length pre + String.length a)%nat Ht).
    rewrite Hfind, Hpart in Hle by done. specialize (Hle eq_refl). cbn in Hle. lia.
  - destruct Hspec as ([|[Hk Hi]] & _); [done|]. by rewrite Hfind, Hscan in Hi.
  - destruct Hscan as (Ht & [r Hpart] & _). destruct Hspec as [_ Hnone]. specialize (Hnone t Ht).
    by rewrite Hfind, Hpart in Hnone.
  - done.
Qed.

Lemma FindNextToken_at keys pre rest : keys ≡ₚ token_actions →
  FindNextToken (pre +:+ rest) keys (String.length pre) =
    (λ x, ((String.length pre + String.length (fst (fst x)))%nat, snd (fst x))) <$> scan rest.
Proof.
  intros Hkeys. rewrite (FindNextToken_first keys pre rest (fst <$> scan rest)).
  - by destruct (scan rest) as [[[a t] r]|].
  - rewrite Hkeys. intros [|[|]]%elem_of_tokens; done.
  - pose proof (scan_spec rest) as Hscan. destruct (scan rest) as [[[a t] r]|]; cbn; setoid_rewrite Hkeys.
    + destruct Hscan as (Ht & Hp & Hmin). eauto.
    + done.
Qed.

(** ** The end of a line *)

Definition is_eol (c : ascii) : bool :=
  Ascii.eqb c (ascii_of_nat 10) || Ascii.eqb c (ascii_of_nat 13).
Definition no_eol (s : string) : bool := string_forall (λ c, negb (is_eol c)) s.

Fixpoint split_eol (s : string) : option (string * ascii * string) :=
  match s with
  | EmptyString => None
  | String c s => if is_eol c then Some ("", c, s)
                  else '(a, e, b) ← split_eol s; Some (String c a, e, b)
  end.

Lemma split_eol_spec s a e b :
  split_eol s = Some (a, e, b) ↔ s = a +:+ String e b ∧ no_eol a = true ∧ is_eol e = true.
Proof.
  split.
  - revert a. induction s as [|c s IH]; intros a; cbn; [done|].
    destruct (is_eol c) eqn:Hc; [by intros [= <- <- <-]|].
    destruct (split_eol s) as [[[a' e'] b']|]; [|done]. intros [= <- <- <-].
    destruct (IH a' eq_refl) as (-> & Ha & He). rewrite append_cons. cbn. by rewrite Hc.
  - intros (-> & Ha & He). induction a as [|c a IH].
    { rewrite append_nil. cbn. by rewrite He. }
    cbn in Ha. apply andb_prop in Ha as [Hc Ha]. apply negb_true_iff in Hc.
    rewrite append_cons. cbn. by rewrite Hc, IH.
Qed.

Lemma split_eol_None s : split_eol s = None ↔ no_eol s = true.
Proof.
  induction s as [|c s IH]; [done|]. cbn. destruct (is_eol c); [done|].
  rewrite <- IH. by destruct (split_eol s) as [[[]]|].
Qed.

Lemma partition_char c s :
  partition (String c "") s =
    match s with
    | EmptyString => None
    | String d s => if Ascii.eqb c d then Some ("", s)
                    else '(a, b) ← partition (String c "") s; Some (String d a, b)
    end.
Proof. destruct s as [|d s]; [done|]. cbn. destruct (Ascii.eqb c d); [by destruct s|done]. Qed.

Definition eols : list string := [line_feed; carriage_return].

Lemma elem_of_eols t : t ∈ eols ↔ ∃ c, t = String c "" ∧ is_eol c = true.
Proof.
  unfold eols. rewrite !elem_of_cons. pose proof (not_elem_of_nil t). split.
  - intros [->|[->|]]; [by eexists|by eexists|done].
  - intros (c & -> & [Hc|Hc]%orb_prop); apply Ascii.eqb_eq in Hc as ->; auto.
Qed.

Lemma split_eol_first s :
  match split_eol s with
  | Some (a, e, b) => partition (String e "") s = Some (a, b) ∧
      ∀ t' a' r', t' ∈ eols → partition t' s = Some (a', r') →
        t' = String e "" ∨ (String.length a < String.length a')%nat
  | None => ∀ t, t ∈ eols → partition t s = None
  end.
Proof.
  induction s as [|c s IH]; cbn [split_eol].
  { by intros t (d & -> & _)%elem_of_eols. }
  destruct (is_eol c) eqn:Hc.
  - rewrite partition_char, Ascii.eqb_refl. split; [done|].
    intros t' a' r' (d & -> & _)%elem_of_eols. rewrite partition_char.
    destruct (Ascii.eqb_spec d c) as [->|]; [by left|].
    destruct (partition _ s) as [[a1 r1]|]; [|done]. intros [= <- <-]. right. cbn. lia.
  - assert (∀ d, is_eol d = true → Ascii.eqb d c = false) as Hne.
    { intros d Hd. apply Ascii.eqb_neq. intros ->. by rewrite Hc in Hd. }
    destruct (split_eol s) as [[[a e] b]|] eqn:Hs; cbn -[partition].
    + destruct IH as [Hp Hmin]. apply split_eol_spec in Hs as (_ & _ & He). split.
      { by rewrite partition_char, Hne, Hp. }
      intros t' a' r' Ht'. destruct (proj1 (elem_of_eols _) Ht') as (d & -> & Hd). rewrite partition_char, Hne by done.
      destruct (partition (String d "") s) as [[a1 r1]|] eqn:H1; [|done]. intros [= <- <-].
      destruct (Hmin _ a1 r1 Ht' H1) as [|Hlt]; [by left|]. right. cbn. lia.
    + intros t Ht. destruct (proj1 (elem_of_eols _) Ht) as (d & -> & Hd). by rewrite partition_char, Hne, IH.
Qed.

Lemma FindNextToken_eol pre rest :
  FindNextToken (pre +:+ rest) eols (String.length pre) =
    (λ x, ((String.length pre + String.length (fst (fst x)))%nat, String (snd (fst x)) "")) <$> split_eol rest.
Proof.
  rewrite (FindNextToken_first eols pre rest ((λ x, (fst (fst x), String (snd (fst x)) "")) <$> split_eol rest)).
  - by destruct (split_eol rest) as [[[a e] b]|].
  - by intros (c & ? & _)%elem_of_eols.
  - pose proof (split_eol_first rest) as Hfirst. destruct (split_eol rest) as [[[a e] b]|] eqn:Hs; cbn; [|done].
    destruct Hfirst as [Hp Hmin]. apply split_eol_spec in Hs as (_ & _ & He).
    split_and!; [apply elem_of_eols; eauto|eauto|done].
Qed.

(** ** Reading on *)

(** [rest] is what is left of [input] from [pos]; the position may lie behind the
    end. *)
Definition left_at (input : string) (pos : nat) (rest : string) : Prop :=
  (∃ pre, input = pre +:+ rest ∧ pos = String.length pre) ∨
  (rest = "" ∧ (String.length input <= pos)%nat).

Lemma left_at_app pre s rest :
  left_at (pre +:+ s +:+ rest) (String.length pre + String.length s) rest.
Proof. left. exists (pre +:+ s). by rewrite append_assoc, length_append. Qed.

Lemma rsplit_on_None s : rsplit_on quote_char s = None ↔ no_quote s = true.
Proof.
  induction s as [|c s IH]; [done|]. unfold no_quote in *. cbn [rsplit_on string_forall].
  destruct (rsplit_on quote_char s) as [[]|].
  - split; [done|]. intros [_ Hs]%andb_prop. by apply IH in Hs.
  - rewrite (proj1 IH eq_refl). by destruct (Ascii.eqb c quote_char).
Qed.

Lemma unclosed_quote a s : unclosed (a +:+ String quote_char s) = unclosed (String quote_char s).
Proof.
  assert (is_Some (rsplit_on quote_char (String quote_char s))) as [[h t] Hs].
  { cbn. destruct (rsplit_on quote_char s) as [[]|]; by eexists. }
  assert (∃ h', rsplit_on quote_char (a +:+ String quote_char s) = Some (h', t)) as [h' Ha].
  { induction a as [|c a [h' IH]]; [by exists h|]. rewrite append_cons. cbn [rsplit_on].
    rewrite IH. by eexists. }
  unfold unclosed. by rewrite Hs, Ha.
Qed.

Lemma unclosed_behind s : no_quote s = true → unclosed (String quote_char s) = s.
Proof. intros Hs%rsplit_on_None. unfold unclosed. cbn. by rewrite Hs. Qed.

Lemma partition_quote s :
  match partition double_quote s with
  | Some (seg, r) => s = seg +:+ String quote_char r ∧ no_quote seg = true
  | None => no_quote s = true
  end.
Proof.
  induction s as [|c s IH]; [done|]. unfold double_quote in *. rewrite partition_char.
  destruct (Ascii.eqb_spec quote_char c) as [<-|Hc]; [done|].
  assert (Ascii.eqb c quote_char = false) as Hc' by (by apply Ascii.eqb_neq).
  destruct (partition _ s) as [[seg r]|]; cbn -[partition]; rewrite Hc'; [|done].
  destruct IH as [-> IH]. by rewrite append_cons.
Qed.

Lemma str_slice_eq input a b pre s rest :
  input = pre +:+ s +:+ rest → a = String.length pre → b = (a + String.length s)%nat →
  str_slice input a b = s.
Proof. intros -> -> ->. apply str_slice_at. Qed.

Lemma left_at_unclosed pre y rest :
  y = "" ∨ y = double_quote → no_quote rest = true →
  left_at ((pre +:+ y) +:+ rest) (S (String.length pre)) (unclosed (y +:+ rest)).
Proof.
  intros [->| ->] Hq.
  - rewrite append_empty_r, append_nil. unfold unclosed.
    rewrite (proj2 (rsplit_on_None rest) Hq). destruct rest as [|c rest].
    + right. rewrite append_empty_r. auto.
    + rewrite <- Nat.add_1_r. exact (left_at_app pre (String c "") rest).
  - replace (unclosed _) with rest by (symmetry; by apply unclosed_behind).
    left. exists (pre +:+ double_quote). split; [done|]. rewrite length_append. cbn. lia.
Qed.

(** The loop of [_ReadString] ends at the closing quote, or at the last quote when
    none closes the literal. *)
Lemma close_string_at fuel pre y rest :
  y = "" ∨ y = double_quote → (String.length rest <= fuel)%nat →
  ∃ s, close_string fuel (pre +:+ y +:+ rest) (String.length pre)
      (find (pre +:+ y +:+ rest) double_quote (String.length (pre +:+ y))) =
    Ok (s, (λ x, (String.length (pre +:+ y) + String.length (fst x))%nat) <$> closed rest) ∧
    (closed rest = None → left_at (pre +:+ y +:+ rest) (S s) (unclosed (y +:+ rest))).
Proof.
  revert pre y rest. induction fuel as [|fuel IH]; intros pre y rest Hy Hfuel;
    rewrite <- (append_assoc pre y rest), find_at by done; pose proof (partition_quote rest) as Hq;
    destruct (partition double_quote rest) as [[seg r]|] eqn:Hp.
  - destruct Hq as [-> _]. rewrite length_append in Hfuel. cbn in Hfuel. lia.
  - exists (String.length pre). rewrite closed_no_quote by done. split; [done|]. intros _.
    by apply left_at_unclosed.
  - destruct Hq as [-> Hseg]. rewrite closed_segment by done.
    cbn [fmap option_fmap option_map close_string fst].
    rewrite (str_slice_eq _ _ _ pre (y +:+ seg) (String quote_char r))
      by first [done | str_simp; done | rewrite !length_append; lia].
    replace (Nat.odd (Rcount (y +:+ seg) backslash)) with (odd_end seg)
      by (destruct Hy as [->| ->]; [done|]; symmetry; by apply odd_end_other).
    destruct (odd_end seg); [|by exists (String.length pre)].
    destruct (IH (pre +:+ y +:+ seg) double_quote r) as (s & Hs & Hun); [by right| |].
    { rewrite length_append in Hfuel. cbn in Hfuel. lia. }
    exists s. replace ((pre +:+ y) +:+ seg +:+ String quote_char r)
      with ((pre +:+ y +:+ seg) +:+ double_quote +:+ r) by (by str_simp).
    replace (String.length (pre +:+ y) + String.length seg)%nat with (String.length (pre +:+ y +:+ seg))
      by (rewrite !length_append; lia).
    replace (S (String.length (pre +:+ y +:+ seg)))
      with (String.length ((pre +:+ y +:+ seg) +:+ double_quote)) by (rewrite !length_append; cbn; lia).
    split.
    + rewrite Hs. destruct (closed r) as [[b t]|]; cbn; rewrite ?length_append; cbn.
      * do 3 f_equal. rewrite ?length_append; cbn; lia.
      * done.
    + rewrite <- (append_assoc y), unclosed_quote. intros Hc. apply Hun. by destruct (closed r) as [[]|].
  - exists (String.length pre). rewrite closed_no_quote by done. split; [done|]. intros _.
    by apply left_at_unclosed.
Qed.

(** What a token leaves of the text behind it, and what follows. *)
Definition token_step (t r : string) : option (string * string) :=
  if String.eqb t double_quote
  then Some (match closed r with
             | Some (b, r') => (quote b, r')
             | None => (double_quote, unclosed r)
             end)
  else if String.eqb t "//"
  then Some (match split_eol r with Some (_, e, r') => (String e "", r') | None => ("", "") end)
  else '(_, r') ← partition "*/" r; Some ("", r').

Lemma concat_snoc l s : String.concat "" (l ++ [s]) = String.concat "" l +:+ s.
Proof.
  induction l as [|x l IH]; [by rewrite append_nil|].
  destruct l as [|y l]; [done|]. change (x +:+ (String.concat "" ((y :: l) ++ [s])) =
    (x +:+ String.concat "" (y :: l)) +:+ s). by rewrite IH, append_assoc.
Qed.

Lemma left_at_eq pre s rest input pos :
  input = pre +:+ s +:+ rest → pos = (String.length pre + String.length s)%nat → left_at input pos rest.
Proof. intros -> ->. apply left_at_app. Qed.

Lemma ReadString_at pre r out : ∃ pos out',
  ReadString (pre +:+ r) (String.length pre) out = Ok (pos, out') ∧
  String.concat "" out' = String.concat "" out +:+
    match closed r with Some (b, _) => quote b | None => double_quote end ∧
  left_at (pre +:+ r) pos match closed r with Some (_, r') => r' | None => unclosed r end.
Proof.
  unfold ReadString.
  destruct (close_string_at (String.length (pre +:+ r)) pre "" r) as (s & Hs & Hun);
    [by left|rewrite length_append; lia|].
  rewrite !append_nil, append_empty_r in *. rewrite Hs. cbn [mbind outcome_bind].
  destruct (closed r) as [[b r']|] eqn:Hr; cbn [fmap option_fmap option_map fst].
  - apply closed_spec in Hr as [-> _]. do 2 eexists. split; [done|].
    rewrite !concat_snoc, (str_slice_eq _ _ _ pre (b +:+ double_quote) r');
      try done; [|by str_simp|rewrite length_append; cbn; lia].
    split; [by rewrite append_assoc|].
    apply (left_at_eq pre (b +:+ double_quote)); [by str_simp|rewrite length_append; cbn; lia].
  - do 2 eexists. split; [done|]. rewrite concat_snoc. auto.
Qed.

Lemma ReadComment_at pre r out : ∃ pos out',
  ReadComment (pre +:+ r) (String.length pre) out = Ok (pos, out') ∧
  String.concat "" out' = String.concat "" out +:+
    match split_eol r with Some (_, e, _) => String e "" | None => "" end ∧
  left_at (pre +:+ r) pos match split_eol r with Some (_, _, r') => r' | None => "" end.
Proof.
  unfold ReadComment. fold eols. rewrite FindNextToken_eol.
  destruct (split_eol r) as [[[a e] r']|] eqn:Hr; cbn [fmap option_fmap option_map fst snd].
  - apply split_eol_spec in Hr as [-> _]. do 2 eexists. split; [done|]. rewrite concat_snoc. split; [done|].
    apply (left_at_eq pre (a +:+ String e "")); [by str_simp|rewrite length_append; cbn; lia].
  - do 2 eexists. split; [done|]. rewrite append_empty_r. split; [done|]. by right.
Qed.

Lemma ReadMultilineComment_at pre r out :
  match partition "*/" r with
  | Some (_, r') => ∃ pos,
      ReadMultilineComment (pre +:+ r) (String.length pre) out = Ok (pos, out) ∧ left_at (pre +:+ r) pos r'
  | None => ReadMultilineComment (pre +:+ r) (String.length pre) out =
      Raise (PyException "Multiline comment end token (*/) not found")
  end.
Proof.
  unfold ReadMultilineComment.
  rewrite (FindNextToken_first ["*/"] pre r ((λ x, (fst x, "*/")) <$> partition "*/" r)).
  - destruct (partition "*/" r) as [[a b]|] eqn:Hp; [|done]. eexists. split; [done|].
    apply partition_spec in Hp as ->. apply (left_at_eq pre (a +:+ "*/")); [by str_simp|].
    rewrite length_append. cbn. lia.
  - by intros ?%list_elem_of_singleton.
  - destruct (partition "*/" r) as [[a b]|] eqn:Hp; cbn -[partition].
    + split_and!; [by apply list_elem_of_singleton|eauto|]. intros t a' r' ->%list_elem_of_singleton _. by left.
    + by intros t ->%list_elem_of_singleton.
Qed.

Lemma token_action_at t pre r out : t ∈ token_actions →
  match token_step t r with
  | Some (e, r') => ∃ pos out',
      token_action t (pre +:+ t +:+ r) (String.length pre + String.length t) out = Ok (pos, out') ∧
      String.concat "" out' = String.concat "" out +:+ e ∧ left_at (pre +:+ t +:+ r) pos r'
  | None => token_action t (pre +:+ t +:+ r) (String.length pre + String.length t) out =
      Raise (PyException "Multiline comment end token (*/) not found")
  end.
Proof.
  rewrite <- length_append, <- append_assoc.
  intros [->|[->| ->]]%elem_of_tokens; unfold token_action, token_step; cbn [String.eqb Ascii.eqb eqb].
  - pose proof (ReadString_at (pre +:+ double_quote) r out) as Hr. by destruct (closed r) as [[]|].
  - pose proof (ReadComment_at (pre +:+ "//") r out) as Hr. by destruct (split_eol r) as [[[]]|].
  - pose proof (ReadMultilineComment_at (pre +:+ "/*") r out) as Hr.
    destruct (partition "*/" r) as [[a r']|]; [|done]. destruct Hr as (pos & Hr & Hpos).
    exists pos, out. split_and!; [done|by rewrite append_empty_r|done].
Qed.

(** ** What is left of a text *)

(** [eaten strict s o]: [o] is [s] without its comments. Unless [strict], a quote
    that opens no literal may stay, with what follows the last quote of the text, or
    the next character when there is none. *)
Inductive eaten (strict : bool) : string → string → Prop :=
| eaten_end : eaten strict "" ""
| eaten_plain c s o :
    ¬ starts_token (String c s) → eaten strict s o → eaten strict (String c s) (String c o)
| eaten_string b s o :
    string_body b = true → eaten strict s o → eaten strict (quote b +:+ s) (quote b +:+ o)
| eaten_open r o :
    strict = false → closed r = None → eaten strict (unclosed r) o →
    eaten strict (double_quote +:+ r) (double_quote +:+ o)
| eaten_line t e s o :
    no_eol t = true → is_eol e = true → eaten strict s o →
    eaten strict ("//" +:+ t +:+ String e s) (String e o)
| eaten_last_line t : no_eol t = true → eaten strict ("//" +:+ t) ""
| eaten_block t s o :
    partition "*/" (t +:+ "*/" +:+ s) = Some (t, s) → eaten strict s o →
    eaten strict ("/*" +:+ t +:+ "*/" +:+ s) o.

Lemma starts_token_app t r : t ∈ token_actions → starts_token (t +:+ r).
Proof. intros Ht. by exists t, r. Qed.

Ltac is_token := by (apply elem_of_tokens; auto).

Lemma eaten_token_inv s o t r :
  eaten false s o → t ∈ token_actions → s = t +:+ r →
  ∃ e r' o', token_step t r = Some (e, r') ∧ o = e +:+ o' ∧ eaten false r' o'.
Proof.
  intros Hs Ht.
  assert (∀ t' r', t' ∈ token_actions → t' +:+ r' = t +:+ r → t' = t ∧ r' = r) as Hinj.
  { intros t' r' Ht' Heq. pose proof (token_here_app t' r' Ht') as H'.
    rewrite Heq, token_here_app in H' by done. by injection H' as -> ->. }
  destruct Hs as [|c s o Hc|b s o Hb Hs|r1 o _ Hr Hs|l e s o Hl He Hs|l Hl|l s o Hl Hs]; intros Heq.
  - apply elem_of_tokens in Ht as [->|[->| ->]]; done.
  - destruct Hc. rewrite Heq. by apply starts_token_app.
  - destruct (Hinj double_quote (b +:+ double_quote +:+ s)) as [<- <-]; [is_token| |].
    { rewrite <- Heq. unfold quote. by str_simp. }
    exists (quote b), s, o. unfold token_step. cbn [String.eqb].
    by rewrite (proj2 (closed_spec (b +:+ double_quote +:+ s) b s) (conj eq_refl Hb)).
  - destruct (Hinj double_quote r1) as [<- <-]; [is_token|done|].
    exists double_quote, (unclosed r1), o. unfold token_step. by rewrite Hr.
  - destruct (Hinj "//" (l +:+ String e s)) as [<- <-]; [is_token|done|].
    exists (String e ""), s, o. unfold token_step.
    by rewrite (proj2 (split_eol_spec _ _ _ _) (conj eq_refl (conj Hl He))).
  - destruct (Hinj "//" l) as [<- <-]; [is_token|done|].
    exists "", "", "". unfold token_step. rewrite (proj2 (split_eol_None _) Hl).
    split_and!; [done|done|constructor].
  - destruct (Hinj "/*" (l +:+ "*/" +:+ s)) as [<- <-]; [is_token|done|].
    exists "", s, o. unfold token_step. cbn [String.eqb Ascii.eqb eqb]. by rewrite Hl.
Qed.

Lemma eaten_token t r e r' o' : t ∈ token_actions →
  token_step t r = Some (e, r') → eaten false r' o' → eaten false (t +:+ r) (e +:+ o').
Proof.
  intros [->|[->| ->]]%elem_of_tokens; unfold token_step; cbn [String.eqb Ascii.eqb eqb].
  - destruct (closed r) as [[b r1]|] eqn:Hr; intros [= <- <-] Ho; [|by apply eaten_open].
    apply closed_spec in Hr as [-> Hb].
    replace (double_quote +:+ b +:+ String quote_char r1) with (quote b +:+ r1)
      by (unfold quote; by str_simp). by apply eaten_string.
  - destruct (split_eol r) as [[[l c] r1]|] eqn:Hr; intros [= <- <-] Ho.
    + apply split_eol_spec in Hr as (-> & Hl & Hc). by apply eaten_line.
    + inversion Ho. by apply eaten_last_line, split_eol_None.
  - destruct (partition "*/" r) as [[l r1]|] eqn:Hr; [|done]. intros [= <- <-] Ho.
    pose proof (partition_spec _ _ _ _ Hr) as ->. by apply eaten_block.
Qed.

(** In front of the first token nothing changes. *)
Lemma eaten_scan s o :
  eaten false s o ↔
    match scan s with
    | Some (a, t, r) => ∃ o', o = a +:+ o' ∧ eaten false (t +:+ r) o'
    | None => o = s
    end.
Proof.
  revert o. induction s as [|c s IH]; intros o.
  { split; [|intros ->; constructor]. intros Ho. by inversion Ho. }
  cbn [scan]. destruct (token_here (String c s)) as [[t r]|] eqn:Hc.
  - apply token_here_spec in Hc as [Ht ->]. split; [by exists o|]. by intros (o' & -> & Ho).
  - assert (eaten false (String c s) o ↔ ∃ o', o = String c o' ∧ eaten false s o') as ->.
    { pose proof (proj1 (token_here_None _) Hc) as Hn. split.
      - intros Ho. inversion Ho as [|c1 s1 o1| | | | |]; subst; try (destruct Hn; first
          [by apply (starts_token_app double_quote); is_token | by apply (starts_token_app "//"); is_token
          | by apply (starts_token_app "/*"); is_token]).
        by exists o1.
      - intros (o' & -> & Ho). by apply eaten_plain. }
    setoid_rewrite IH. destruct (scan s) as [[[a t] r]|]; cbn [mbind option_bind].
    + split.
      * intros (o' & -> & o1 & -> & Ho). by exists o1.
      * intros (o1 & -> & Ho). exists (a +:+ o1). split; [done|]. by exists o1.
    + split; [by intros (o' & -> & ->)|]. intros ->. by exists s.
Qed.

Lemma unclosed_length r : (String.length (unclosed r) <= String.length r)%nat.
Proof.
  unfold unclosed. assert (∀ h t, rsplit_on quote_char r = Some (h, t) →
    (String.length t <= String.length r)%nat) as Ht.
  { induction r as [|c r IH]; intros h t; cbn; [done|].
    destruct (rsplit_on quote_char r) as [[h' t']|].
    - intros [= <- <-]. specialize (IH _ _ eq_refl). lia.
    - destruct (Ascii.eqb c quote_char); [|done]. intros [= <- <-]. lia. }
  destruct (rsplit_on quote_char r) as [[h t]|]; [by eapply Ht|]. destruct r; cbn; lia.
Qed.

Lemma token_step_length t r e r' :
  token_step t r = Some (e, r') → (String.length r' <= String.length r)%nat.
Proof.
  unfold token_step. destruct (String.eqb t double_quote).
  { destruct (closed r) as [[b r1]|] eqn:Hr; intros [= <- <-]; [|apply unclosed_length].
    apply closed_spec in Hr as [-> _]. rewrite length_append. cbn. lia. }
  destruct (String.eqb t "//").
  { destruct (split_eol r) as [[[l c] r1]|] eqn:Hr; intros [= <- <-]; [|cbn; lia].
    apply split_eol_spec in Hr as (-> & _). rewrite length_append. cbn. lia. }
  destruct (partition "*/" r) as [[l r1]|] eqn:Hr; [|done]. intros [= <- <-].
  apply partition_spec in Hr as ->. rewrite !length_append. lia.
Qed.

Definition unterminated : exn := PyException "Multiline comment end token (*/) not found".

Lemma left_at_over input pos rest : left_at input pos rest →
  (String.length input <=? pos)%nat = String.eqb rest "".
Proof.
  intros [(pre & -> & ->)|[-> Hle]]; [|by apply Nat.leb_le].
  rewrite length_append. destruct rest; cbn; [apply Nat.leb_le|apply Nat.leb_gt]; lia.
Qed.

Lemma scan_split s a t r : scan s = Some (a, t, r) → t ∈ token_actions ∧ s = a +:+ t +:+ r.
Proof.
  intros Hs. pose proof (scan_spec s) as Hspec. rewrite Hs in Hspec.
  destruct Hspec as (Ht & Hp & _). split; [done|]. by apply partition_spec.
Qed.

(** The loop of [Nom] computes what is left, or finds that a comment never ends. *)
Lemma nom_loop_at keys fuel input pos rest out :
  keys ≡ₚ token_actions → left_at input pos rest → (String.length rest <= fuel)%nat →
  (∃ out' o, nom_loop fuel keys input pos out = Ok out' ∧
     String.concat "" out' = String.concat "" out +:+ o ∧ ∀ o', eaten false rest o' ↔ o' = o) ∨
  (nom_loop fuel keys input pos out = Raise unterminated ∧ ∀ o', ¬ eaten false rest o').
Proof.
  intros Hkeys. revert pos rest out.
  induction fuel as [|fuel IH]; intros pos rest out Hpos Hfuel; cbn [nom_loop];
    rewrite (left_at_over _ _ _ Hpos); destruct (String.eqb_spec rest "") as [->|Hne].
  1, 3: left; exists out, ""; split_and!; [done|by rewrite append_empty_r|]; intros o';
    apply (eaten_scan "" o').
  { destruct rest; [done|]. cbn in Hfuel. lia. }
  destruct Hpos as [(pre & -> & ->)|[-> _]]; [|done].
  rewrite FindNextToken_at by done. setoid_rewrite eaten_scan.
  destruct (scan rest) as [[[a t] r]|] eqn:Hscan; cbn [fmap option_fmap option_map fst snd].
  2:{ left. do 2 eexists. split; [done|]. split; [|done]. rewrite concat_snoc. f_equal.
      apply (str_slice_eq _ _ _ pre rest ""); [by rewrite append_empty_r|done|apply length_append]. }
  apply scan_split in Hscan as [Ht ->].
  rewrite (str_slice_eq _ _ _ pre a (t +:+ r)) by done.
  pose proof (token_action_at t (pre +:+ a) r (out ++ [a]) Ht) as Hact.
  rewrite length_append, append_assoc in Hact.
  destruct (token_step t r) as [[e r']|] eqn:Hstep.
  - destruct Hact as (pos & out1 & -> & Hout1 & Hpos). cbn [mbind outcome_bind].
    assert (∀ o1, eaten false (t +:+ r) o1 ↔ ∃ o2, o1 = e +:+ o2 ∧ eaten false r' o2) as Heat.
    { intros o1. split.
      - intros Ho. destruct (eaten_token_inv _ _ t r Ho Ht eq_refl) as (e' & r2 & o2 & Hs & -> & Ho2).
        rewrite Hs in Hstep. injection Hstep as -> ->. by exists o2.
      - intros (o2 & -> & Ho2). by eapply eaten_token. }
    setoid_rewrite Heat. apply token_step_length in Hstep.
    destruct (IH pos r' out1) as [(out2 & o & -> & Hout2 & Ho)|[-> Ho]]; [done| |left|right].
    { rewrite !length_append in Hfuel. apply elem_of_tokens in Ht as [->|[->| ->]]; cbn in Hfuel; lia. }
    + exists out2, (a +:+ e +:+ o). split; [done|].
      split; [by rewrite Hout2, Hout1, concat_snoc, !append_assoc|].
      intros o'. setoid_rewrite Ho. split; [by intros (o1 & -> & o2 & -> & ->)|intros ->; eauto].
    + split; [done|]. intros o' (o1 & _ & o2 & _ & Ho2). by apply (Ho o2).
  - right. rewrite Hact. split; [done|]. intros o' (o1 & _ & Ho).
    by destruct (eaten_token_inv _ _ t r Ho Ht eq_refl) as (e' & r2 & o2 & Hs & _); rewrite Hs in Hstep.
Qed.

(** C9: whatever the order of the dict of tokens, [Nom] always ends: it answers the
    one text that the rules [eaten] leave of the input, where only a quote that opens
    no literal skips ahead, and it raises exactly when a block comment has no end. *)
Theorem Nom_eaten keys s : keys ≡ₚ token_actions →
  (∀ o, Nom keys s = Ok o ↔ eaten false s o) ∧
  ((∃ o, Nom keys s = Ok o) ∨ Nom keys s = Raise unterminated).
Proof.
  intros Hkeys. assert (left_at s 0 s) as Hpos by (left; by exists "").
  unfold Nom. destruct (nom_loop_at keys _ s 0 s [] Hkeys Hpos (le_n _))
    as [(out & o & -> & Hout & Ho)|[-> Ho]]; cbn [mbind outcome_bind].
  - rewrite Hout. split; [|left; by eexists]. intros o'. rewrite Ho. cbn.
    rewrite append_nil. split; [by intros [= ->]|by intros ->].
  - split; [|by right]. intros o'. split; [done|]. intros H. by destruct (Ho o').
Qed.

(** ** Texts whose literals are closed *)

Lemma eaten_weaken s o : eaten true s o → eaten false s o.
Proof. induction 1; by constructor. Qed.

Definition second_of_comment (s : string) : Prop :=
  ∃ c r, s = String c r ∧ (c = "/"%char ∨ c = "*"%char).

Lemma starts_token_cons c s : starts_token (String c s) ↔
  c = quote_char ∨ c = "/"%char ∧ second_of_comment s.
Proof.
  split.
  - intros (t & r & [->|[->| ->]]%elem_of_tokens & Heq); unfold double_quote in Heq;
      rewrite append_cons in Heq; injection Heq as -> ->;
      [by left|..]; right; (split; [done|]); rewrite append_cons; do 2 eexists; eauto.
  - intros [->|[-> (d & r & -> & [->| ->])]].
    + apply (starts_token_app double_quote). is_token.
    + apply (starts_token_app "//"). is_token.
    + apply (starts_token_app "/*"). is_token.
Qed.

Lemma eaten_plain_start c s o :
  ¬ starts_token (String c s) → eaten true s o → ¬ starts_token (String c o).
Proof.
  rewrite !starts_token_cons. intros Hc Ho [?|[-> (d & r & -> & Hd)]]; [tauto|].
  apply Hc. right. split; [done|]. inversion Ho; subst; unfold second_of_comment;
    rewrite ?append_cons; eauto 6.
Qed.

(** Nothing that remains is a comment: what is left is left as it is. *)
Lemma eaten_stable s o : eaten true s o → eaten true o o.
Proof.
  induction 1 as [|c s o Hc Ho IH|b s o Hb _ IH|r o Hr|t e s o _ He _ IH|t _|t s o _ _ IH].
  - constructor.
  - apply eaten_plain; [by apply eaten_plain_start with s|done].
  - by apply eaten_string.
  - done.
  - apply eaten_plain; [|done]. rewrite starts_token_cons.
    apply orb_prop in He as [He|He]; apply Ascii.eqb_eq in He as ->; intros [?|[? _]]; done.
  - constructor.
  - done.
Qed.

(** C39: on a text whose string literals are closed, by the rules [eaten true], the
    strings stay untouched and only comments go: the result is what the rules leave,
    and eating it again, with any order of the tokens, changes nothing. *)
Theorem Nom_idempotent keys keys' s o :
  keys ≡ₚ token_actions → keys' ≡ₚ token_actions → eaten true s o →
  Nom keys s = Ok o ∧ Nom keys' o = Ok o.
Proof.
  intros Hkeys Hkeys' Ho. assert (∀ ks t, ks ≡ₚ token_actions → eaten true t o → Nom ks t = Ok o) as Hnom.
  { intros ks t Hks Ht. assert (left_at t 0 t) as Hpos by (left; by exists "").
    unfold Nom. apply eaten_weaken in Ht.
    destruct (nom_loop_at ks _ t 0 t [] Hks Hpos (le_n _)) as [(out & o' & -> & Hout & Hall)|[_ Hnone]];
      [|by destruct (Hnone o)].
    apply Hall in Ht as ->. cbn [mbind outcome_bind]. rewrite Hout. by rewrite append_nil. }
  split; apply Hnom; [done..|by apply eaten_stable in Ho].
Qed.

(** ** Examples *)

(** Lines of everything.json, the file of the tests. *)
Definition line (s : string) : string := s +:+ line_feed.
Definition q (s : string) : string := quote s.
Definition everything : string :=
  line "// Test API." +:+
  line ("{ " +:+ q "comments" +:+ ": " +:+ q "yo" +:+ ",  // a // in them.") +:+
  line ("  " +:+ q "more//" +:+ ": " +:+ q ("\" +:+ double_quote +:+ "more") +:+ ",") +:+
  line ("  " +:+ q "so\\many" +:+ ": " +:+ q "\\\\escapes" +:+ ", /* in " +:+ double_quote +:+ " */") +:+
  line ("  " +:+ q "and" +:+ ": /* anywhere */ " +:+ q "in string") +:+ "}".
Definition everything_eaten : string :=
  line "" +:+
  line ("{ " +:+ q "comments" +:+ ": " +:+ q "yo" +:+ ",  ") +:+
  line ("  " +:+ q "more//" +:+ ": " +:+ q ("\" +:+ double_quote +:+ "more") +:+ ",") +:+
  line ("  " +:+ q "so\\many" +:+ ": " +:+ q "\\\\escapes" +:+ ", ") +:+
  line ("  " +:+ q "and" +:+ ":  " +:+ q "in string") +:+ "}".

Example everything_Nom : Nom token_actions everything = Ok everything_eaten.
Proof. by vm_compute. Qed.

Definition other_order : list string := ["//"; "/*"; double_quote].
Lemma other_order_tokens : other_order ≡ₚ token_actions.
Proof. exact (Permutation_app_comm ["//"; "/*"] [double_quote]). Qed.

Lemma Nom_eaten_witness :
  (∀ o, Nom other_order everything = Ok o ↔ eaten false everything o) ∧
  Nom other_order everything = Ok everything_eaten ∧
  Nom other_order "1 /* 2" = Raise unterminated.
Proof.
  split; [|by vm_compute]. apply (Nom_eaten other_order everything). apply other_order_tokens.
Defined.

(** A literal with an escaped quote and two slashes, and a comment behind it. *)
Definition closed_text : string :=
  "{" +:+ q "a" +:+ q ("\" +:+ double_quote +:+ "//") +:+ "// b" +:+ line_feed +:+ "}".
Definition closed_text_eaten : string :=
  "{" +:+ q "a" +:+ q ("\" +:+ double_quote +:+ "//") +:+ line_feed +:+ "}".

Lemma closed_text_strict : eaten true closed_text closed_text_eaten.
Proof.
  assert (∀ c s o, Ascii.eqb c quote_char || Ascii.eqb c "/"%char = false → eaten true s o →
    eaten true (String c s) (String c o)) as Hplain.
  { intros c s o [Hq Hs]%orb_false_elim. apply eaten_plain. rewrite starts_token_cons.
    apply Ascii.eqb_neq in Hq, Hs. tauto. }
  apply Hplain; [done|]. apply (eaten_string true "a"); [done|].
  apply (eaten_string true ("\" +:+ double_quote +:+ "//")); [done|].
  apply (eaten_line true " b" (ascii_of_nat 10) "}" "}"); [done..|].
  apply Hplain; [done|constructor].
Qed.

Lemma Nom_idempotent_witness :
  Nom token_actions closed_text = Ok closed_text_eaten ∧
  Nom other_order closed_text_eaten = Ok closed_text_eaten.
Proof.
  apply (Nom_idempotent token_actions other_order); [done|apply other_order_tokens|].
  apply closed_text_strict.
Defined.

(** A quote that is never closed: the [1] behind it is lost. *)
Example open_quote_drops : Nom token_actions ("a" +:+ double_quote +:+ "1 2") = Ok ("a" +:+ double_quote +:+ " 2").
Proof. by vm_compute. Qed.
