(* ===== verification/MemoryMap.v ===== *)
(** memory_map.py, src/src/tools/memory_inspector/memory_inspector/core: the memory
    map of a process, a list of address ranges sorted by their start, and the
    search in it. *)

From stdpp Require Import sorting.
From S2P Require Import Prelude.

#[local] Open Scope Z_scope.

Definition PAGE_SIZE : Z := 4096.

(** ** MapEntry *)

Record MapEntry := mkMapEntry {
  start : Z;
  end_ : Z;
  prot_flags : string;
  mapped_file : string;
  mapped_offset : Z;
  priv_dirty_bytes : Z;
  priv_clean_bytes : Z;
  shared_dirty_bytes : Z;
  shared_clean_bytes : Z;
  resident_pages : list Z
}.

Definition MapEntry_init (start end_ : Z) (prot_flags mapped_file : string) (mapped_offset
    priv_dirty_bytes priv_clean_bytes shared_dirty_bytes shared_clean_bytes : Z)
    (resident_pages : option (list Z)) : outcome MapEntry :=
  assert_ (start <? end_);;
  assert_ (0 <=? start);;
  Ok (mkMapEntry start end_ prot_flags mapped_file mapped_offset priv_dirty_bytes
    priv_clean_bytes shared_dirty_bytes shared_clean_bytes (default [] resident_pages)).

Definition Contains (e : MapEntry) (abs_addr : Z) : bool :=
  (start e <=? abs_addr) && (abs_addr <=? end_ e).

Definition entry_len (e : MapEntry) : Z := end_ e - start e + 1.
Definition num_pages (e : MapEntry) : Z := entry_len e / PAGE_SIZE.
Definition rss_bytes (e : MapEntry) : Z :=
  priv_dirty_bytes e + priv_clean_bytes e + shared_dirty_bytes e + shared_clean_bytes e.

Definition GetRelativeMMOffset (e : MapEntry) (abs_addr : Z) : outcome (Z * Z) :=
  assert_ (Contains e abs_addr);;
  let offset := abs_addr - start e in
  Ok (offset / PAGE_SIZE, Z.land offset (PAGE_SIZE - 1)).

Definition GetRelativeFileOffset (e : MapEntry) (abs_addr : Z) : outcome Z :=
  assert_ (Contains e abs_addr);;
  Ok (abs_addr - start e + mapped_offset e).

Definition IsPageResident (e : MapEntry) (relative_page_index : Z) : outcome bool :=
  assert_ ((0 <=? relative_page_index) && (relative_page_index <? entry_len e / PAGE_SIZE));;
  let arr_idx := relative_page_index / 8 in
  let arr_bit := relative_page_index mod 8 in
  if Z.of_nat (length (resident_pages e)) <=? arr_idx then Ok false
  else
    byte ← of_option IndexError (resident_pages e !! Z.to_nat arr_idx);
    Ok (negb (Z.land byte (Z.shiftl 1 arr_bit) =? 0)).

(** ** Map *)

Record Map := mkMap { entries : list MapEntry }.
Definition Map_init : Map := mkMap [].

(** [__cmp__] with another entry and with an address. *)
Definition cmp_entry (e other : MapEntry) : comparison := start e ?= start other.
Definition cmp_addr (e : MapEntry) (addr : Z) : comparison := start e ?= addr.

(** [bisect.bisect_right]: [below e] says that what is looked for is less than
    [e]. *)
Fixpoint bisect_right (fuel : nat) (below : MapEntry → bool) (l : list MapEntry) (lo hi : nat) :
    outcome nat :=
  if (lo <? hi)%nat then
    match fuel with
    | O => Raise recursion_error
    | S fuel =>
        let mid := Nat.div2 (lo + hi) in
        e ← of_option IndexError (l !! mid);
        if (below e : bool) then bisect_right fuel below l lo mid
        else bisect_right fuel below l (S mid) hi
    end
  else Ok lo.

Definition Add (m : Map) (entry : MapEntry) : outcome Map :=
  lo ← bisect_right (length (entries m))
         (λ e, match cmp_entry entry e with Lt => true | _ => false end)
         (entries m) 0 (length (entries m));
  Ok (mkMap (take lo (entries m) ++ [entry] ++ drop lo (entries m))).

Definition Lookup (m : Map) (addr : Z) : outcome (option MapEntry) :=
  n ← bisect_right (length (entries m))
        (λ e, match cmp_addr e addr with Gt => true | _ => false end)
        (entries m) 0 (length (entries m));
  match n with
  | O => Ok None
  | S idx =>
      entry ← of_option IndexError (entries m !! idx);
      assert_ (start entry <=? addr);;
      Ok (if end_ entry <? addr then None else Some entry)
  end.

(** [m[index]]: a negative index counts from the end. *)
Definition getitem (m : Map) (index : Z) : outcome MapEntry :=
  let n := Z.of_nat (length (entries m)) in
  let i := if index <? 0 then index + n else index in
  if i <? 0 then Raise IndexError else of_option IndexError (entries m !! Z.to_nat i).
Definition Map_len (m : Map) : Z := Z.of_nat (length (entries m)).

(** ** Searching *)

Definition sorted_starts (l : list MapEntry) : Prop := StronglySorted (λ e e', start e <= start e') l.

(** [below] holds of a tail of the list only. *)
Definition monotone (below : MapEntry → bool) (l : list MapEntry) : Prop :=
  ∀ i j e e', (i <= j)%nat → l !! i = Some e → l !! j = Some e' → below e = true → below e' = true.

Lemma bisect_right_spec below l fuel lo hi :
  monotone below l → (lo <= hi <= length l)%nat → (hi - lo <= fuel)%nat →
  (∀ i e, (i < lo)%nat → l !! i = Some e → below e = false) →
  (∀ i e, (hi <= i)%nat → l !! i = Some e → below e = true) →
  ∃ n, bisect_right fuel below l lo hi = Ok n ∧ (n <= length l)%nat ∧
    (∀ i e, (i < n)%nat → l !! i = Some e → below e = false) ∧
    (∀ i e, (n <= i)%nat → l !! i = Some e → below e = true).
Proof.
  intros Hmono. revert lo hi. induction fuel as [|fuel IH]; intros lo hi Hlohi Hfuel Hlo Hhi;
    cbn [bisect_right]; destruct (Nat.ltb_spec lo hi) as [Hlt|Hge]; try lia.
  1, 3: exists lo; split_and!; [done|lia|done|intros i e Hi; apply Hhi; lia].
  pose proof (Nat.div2_div (lo + hi)) as Hmid. set (mid := Nat.div2 (lo + hi)) in *.
  assert (lo <= mid < hi)%nat as [Hm1 Hm2].
  { rewrite Hmid. split; [apply Nat.div_le_lower_bound|apply Nat.Div0.div_lt_upper_bound]; lia. }
  destruct (lookup_lt_is_Some_2 l mid) as [e He]; [lia|]. rewrite He. cbn [of_option mbind outcome_bind].
  destruct (below e) eqn:Hb.
  - apply IH; [lia|lia|done|]. intros i e' Hi He'. by eapply (Hmono mid i).
  - apply IH; [lia|lia| |done]. intros i e' Hi He'. destruct (below e') eqn:Hb'; [|done].
    rewrite <- Hb. symmetry. eapply (Hmono i mid); [lia|done..].
Qed.

Lemma sorted_starts_lookup l i j e e' : sorted_starts l → (i <= j)%nat →
  l !! i = Some e → l !! j = Some e' → start e <= start e'.
Proof.
  intros Hl. revert i j. induction Hl as [|x l _ IH Hx]; intros i j Hij Hi Hj; [done|].
  destruct i as [|i], j as [|j]; cbn in Hi, Hj.
  - injection Hi as <-. injection Hj as <-. done.
  - injection Hi as <-. rewrite Forall_forall in Hx. by apply Hx, (list_elem_of_lookup_2 _ j).
  - lia.
  - eapply (IH i j); [lia|done..].
Qed.

Lemma bisect_right_ext below below' l fuel lo hi : (∀ e, below e = below' e) →
  bisect_right fuel below l lo hi = bisect_right fuel below' l lo hi.
Proof.
  intros Hbelow. revert lo hi. induction fuel as [|fuel IH]; intros lo hi; cbn [bisect_right]; [done|].
  destruct (_ <? _)%nat; [|done]. destruct (l !! _) as [e|]; [|done]. cbn [of_option mbind outcome_bind].
  by rewrite Hbelow, !IH.
Qed.

(** The search splits a sorted list at an address. *)
Lemma bisect_split l x : sorted_starts l →
  ∃ l1 l2, l = l1 ++ l2 ∧ (∀ e, e ∈ l1 → start e <= x) ∧ (∀ e, e ∈ l2 → x < start e) ∧
    ∀ below, (∀ e, below e = (x <? start e)) →
      bisect_right (length l) below l 0 (length l) = Ok (length l1).
Proof.
  intros Hl. destruct (bisect_right_spec (λ e, x <? start e) l (length l) 0 (length l))
    as (n & Hn & Hlen & Hlow & Hhigh); [|lia..| |].
  { intros i j e e' Hij Hi Hj He. pose proof (sorted_starts_lookup l i j e e' Hl Hij Hi Hj). lia. }
  { intros i e Hi He. apply lookup_lt_Some in He. lia. }
  exists (take n l), (drop n l). split_and!; [by rewrite take_drop| | |].
  - intros e [i Hi]%list_elem_of_lookup_1. apply lookup_take_Some in Hi as [Hi ?].
    specialize (Hlow i e). apply Z.ltb_ge. auto.
  - intros e [i Hi]%list_elem_of_lookup_1. rewrite lookup_drop in Hi.
    specialize (Hhigh (n + i)%nat e). apply Z.ltb_lt. apply Hhigh; [lia|done].
  - intros below Hbelow. rewrite length_take_le by done. rewrite <- Hn.
    by apply bisect_right_ext.
Qed.

Lemma Add_split m e : sorted_starts (entries m) →
  ∃ l1 l2, entries m = l1 ++ l2 ∧ Add m e = Ok (mkMap (l1 ++ e :: l2)) ∧
    (∀ x, x ∈ l1 → start x <= start e) ∧ (∀ x, x ∈ l2 → start e < start x).
Proof.
  intros Hl. destruct (bisect_split _ (start e) Hl) as (l1 & l2 & Heq & H1 & H2 & Hrun).
  exists l1, l2. split_and!; [done| |done..]. unfold Add. rewrite Hrun; [|done]. cbn [mbind outcome_bind].
  by rewrite Heq, take_app_length, drop_app_length.
Qed.

Lemma sorted_starts_app l1 l2 : sorted_starts (l1 ++ l2) ↔
  sorted_starts l1 ∧ sorted_starts l2 ∧ ∀ x y, x ∈ l1 → y ∈ l2 → start x <= start y.
Proof.
  unfold sorted_starts. induction l1 as [|x l1 IH]; cbn.
  - split; [|by intros (_ & ? & _)]. intros ?. split_and!; [constructor|done|]. by intros x y ?%not_elem_of_nil.
  - rewrite !StronglySorted_cons, IH, Forall_app, !Forall_forall. setoid_rewrite elem_of_cons. naive_solver.
Qed.

Fixpoint adds (m : Map) (es : list MapEntry) : outcome Map :=
  match es with
  | [] => Ok m
  | e :: es => m ← Add m e; adds m es
  end.

Lemma adds_snoc m es e : adds m (es ++ [e]) = (m ← adds m es; Add m e).
Proof.
  revert m. induction es as [|x es IH]; intros m; cbn.
  - by destruct (Add m e).
  - destruct (Add m x) as [m'|]; cbn; [apply IH|done].
Qed.

(** The entry that starts last at or before an address, the last one added of
    those that start together. *)
Definition later (addr : Z) (best : option MapEntry) (e : MapEntry) : option MapEntry :=
  if start e <=? addr then
    match best with
    | Some b => if start e <? start b then best else Some e
    | None => Some e
    end
  else best.
Definition latest (addr : Z) (es : list MapEntry) : option MapEntry := foldl (later addr) None es.

Definition below_addr (addr : Z) (l : list MapEntry) : list MapEntry :=
  base.filter (λ e, start e <= addr) l.

Lemma last_later addr l1 l2 e :
  (∀ x, x ∈ l1 → start x <= start e) → (∀ x, x ∈ l2 → start e < start x) →
  last (below_addr addr (l1 ++ e :: l2)) = later addr (last (below_addr addr (l1 ++ l2))) e.
Proof.
  intros H1 H2. unfold below_addr, later. rewrite !filter_app, filter_cons, !last_app.
  assert (∀ l x, last (base.filter (λ e, start e <= addr) l) = Some x → x ∈ l) as Hin.
  { intros l x Hx%last_Some_elem_of. by apply list_elem_of_filter in Hx as [_ Hx]. }
  destruct (Z.leb_spec (start e) addr) as [He|He].
  - rewrite decide_True, last_cons by done.
    destruct (last (base.filter _ l2)) as [b|] eqn:Hb.
    { apply Hin, H2 in Hb. destruct (Z.ltb_spec (start e) (start b)); [done|lia]. }
    destruct (last (base.filter _ l1)) as [b|] eqn:Hb'; [|done].
    apply Hin, H1 in Hb'. destruct (Z.ltb_spec (start e) (start b)); [lia|done].
  - by rewrite decide_False by lia.
Qed.

Lemma adds_spec es : ∃ m, adds Map_init es = Ok m ∧ entries m ≡ₚ es ∧ sorted_starts (entries m) ∧
  (∀ addr, last (below_addr addr (entries m)) = latest addr es) ∧
  ∀ s, base.filter (λ e, start e = s) (entries m) = base.filter (λ e, start e = s) es.
Proof.
  induction es as [|e es (m & Hm & Hperm & Hs & Hlast & Hstable)] using rev_ind.
  { exists Map_init. split_and!; try done. constructor. }
  destruct (Add_split m e Hs) as (l1 & l2 & Heq & Hadd & H1 & H2).
  exists (mkMap (l1 ++ e :: l2)). rewrite adds_snoc, Hm. cbn [mbind outcome_bind entries].
  rewrite Heq in *. split_and!; [done| | | |].
  - rewrite <- Hperm. rewrite <- (Permutation_middle l1 l2 e). by rewrite <- Permutation_cons_append.
  - apply sorted_starts_app in Hs as (Hs1 & Hs2 & Hs12). apply sorted_starts_app. split_and!; [done| |].
    + constructor; [done|]. apply Forall_forall. intros x Hx%H2. lia.
    + intros x y Hx [->|Hy]%elem_of_cons; [by apply H1|by apply Hs12].
  - intros addr. rewrite last_later by done. rewrite Hlast. unfold latest. by rewrite foldl_app.
  - intros s. rewrite !(filter_app _ _ [e]), <- Hstable, !filter_app, !filter_cons. cbn.
    destruct (decide (start e = s)) as [<-|]; [|by rewrite app_nil_r].
    enough (base.filter (λ x, start x = start e) l2 = []) as -> by (by rewrite app_nil_r).
    apply filter_none. intros x Hx%H2. lia.
Qed.

Lemma latest_spec addr es :
  match latest addr es with
  | Some e => e ∈ es ∧ start e <= addr ∧ ∀ x, x ∈ es → start x <= addr → start x <= start e
  | None => ∀ x, x ∈ es → addr < start x
  end.
Proof.
  unfold latest. induction es as [|e es IH] using rev_ind; [by intros x ?%not_elem_of_nil|].
  assert (∀ x, x ∈ es ++ [e] ↔ x ∈ es ∨ x = e) as Hin
    by (intros x; by rewrite elem_of_app, list_elem_of_singleton).
  rewrite foldl_app. cbn [foldl]. unfold later at 1.
  destruct (Z.leb_spec (start e) addr), (foldl (later addr) None es) as [b|];
    [destruct IH as (Hb & Hb' & Hmax); destruct (Z.ltb_spec (start e) (start b))| | |];
    setoid_rewrite Hin.
  - split_and!; [by left|done|]. intros x [Hx| ->] ?; [by apply Hmax|lia].
  - split_and!; [by right|done|]. intros x [Hx| ->] ?; [|done]. specialize (Hmax x Hx). lia.
  - split_and!; [by right|done|]. intros x [Hx| ->] ?; [|done]. specialize (IH x Hx). lia.
  - destruct IH as (Hb & Hb' & Hmax). split_and!; [by left|done|].
    intros x [Hx| ->] ?; [by apply Hmax|lia].
  - intros x [Hx| ->]; [by apply IH|done].
Qed.

Lemma Lookup_split m addr : sorted_starts (entries m) →
  Lookup m addr = Ok (e ← last (below_addr addr (entries m)); if end_ e <? addr then None else Some e).
Proof.
  intros Hs. destruct (bisect_split _ addr Hs) as (l1 & l2 & Heq & H1 & H2 & Hrun).
  assert (below_addr addr (entries m) = l1) as ->.
  { unfold below_addr. rewrite Heq, filter_app, (filter_none _ l2), app_nil_r.
    - by apply filter_all.
    - intros x Hx%H2. lia. }
  unfold Lookup. rewrite Hrun. 2:{ intros e. unfold cmp_addr, Z.ltb. rewrite (Z.compare_antisym addr (start e)).
    by destruct (addr ?= start e). }
  cbn [mbind outcome_bind]. destruct l1 as [|e l1 _] using rev_ind; [done|].
  rewrite length_app, Nat.add_comm, last_snoc. cbn [length Nat.add].
  rewrite Heq, <- app_assoc. cbn [app]. rewrite list_lookup_middle by done. cbn [of_option mbind outcome_bind option_bind].
  assert (start e <= addr) as He by (apply H1; set_solver). apply Z.leb_le in He. by rewrite He.
Qed.

(** Entries of which no two cover the same address. *)
Definition disjoint_entries (es : list MapEntry) : Prop :=
  (∀ e, e ∈ es → start e < end_ e) ∧
  ∀ e e' addr, e ∈ es → e' ∈ es → Contains e addr = true → Contains e' addr = true → e = e'.

Lemma Contains_spec e addr : Contains e addr = true ↔ start e <= addr <= end_ e.
Proof. unfold Contains. rewrite andb_true_iff, !Z.leb_le. done. Qed.

Lemma latest_disjoint es addr e : disjoint_entries es →
  (e ← latest addr es; if end_ e <? addr then None else Some e) = Some e ↔ e ∈ es ∧ Contains e addr = true.
Proof.
  intros [Hvalid Hdisj]. pose proof (latest_spec addr es) as Hlatest. rewrite Contains_spec.
  destruct (latest addr es) as [b|]; cbn [mbind option_bind].
  - destruct Hlatest as (Hb & Hb' & Hmax). split.
    + destruct (Z.ltb_spec (end_ b) addr); [done|]. by intros [= ->].
    + intros [He Hin]. assert (start e <= start b) by (apply Hmax; [done|lia]).
      specialize (Hvalid b Hb). assert (e = b) as ->.
      { eapply (Hdisj e b (start b)); rewrite ?Contains_spec; [done|done|lia|lia]. }
      destruct (Z.ltb_spec (end_ b) addr); [lia|done].
  - split; [done|]. intros [He Hin]. specialize (Hlatest e He). lia.
Qed.

Lemma Lookup_disjoint es m addr : adds Map_init es = Ok m → disjoint_entries es →
  ∃ r, Lookup m addr = Ok r ∧ ∀ e, r = Some e ↔ e ∈ es ∧ Contains e addr = true.
Proof.
  intros Hm Hd. destruct (adds_spec es) as (m' & Hm' & _ & Hs & Hlast & _).
  rewrite Hm in Hm'. injection Hm' as <-. eexists. rewrite Lookup_split, Hlast by done. split; [done|].
  intros e. by apply latest_disjoint.
Qed.

(** C14: Whatever entries are added, in whatever order, the map keeps them sorted by
    their start, entries that start together in the order they were added.  [Lookup]
    never raises: it answers the entry that starts last at or before the address,
    if that entry reaches it.  When no two entries overlap, this is exactly the
    entry that contains the address. *)
Theorem Lookup_latest es :
  ∃ m, adds Map_init es = Ok m ∧ entries m ≡ₚ es ∧ sorted_starts (entries m) ∧
    (∀ s, base.filter (λ e, start e = s) (entries m) = base.filter (λ e, start e = s) es) ∧
    (∀ addr, Lookup m addr = Ok (e ← latest addr es; if end_ e <? addr then None else Some e)) ∧
    (disjoint_entries es → ∀ addr e, Lookup m addr = Ok (Some e) ↔ e ∈ es ∧ Contains e addr = true).
Proof.
  destruct (adds_spec es) as (m & Hm & Hperm & Hs & Hlast & Hstable). exists m. split_and!; try done.
  - intros addr. by rewrite Lookup_split, Hlast.
  - intros Hd addr e. destruct (Lookup_disjoint es m addr Hm Hd) as (r & -> & Hr).
    rewrite <- Hr. split; [by intros [= ->]|by intros ->].
Qed.
