(* ===== verification/NativeHeap.v ===== *)
(** native_heap.py, stacktrace.py and symbol.py,
    src/src/tools/memory_inspector/memory_inspector/core: the allocations of a
    process with their stack frames, which are shared objects, the symbols of the
    frames, and how much of each allocation is resident. *)

From Stdlib Require Import Ascii String.
From S2P Require Import Prelude PyPath MemoryMap.

#[local] Open Scope string_scope.
#[local] Open Scope list_scope.
#[local] Open Scope Z_scope.

(** ** Symbols *)

Record SourceInfo := mkSourceInfo { source_file_path : string; line_number : Z }.

Record Symbol := mkSymbol { symbol_name : string; source_info : list SourceInfo }.

Definition AddSourceLineInfo (s : Symbol) (source_file_path : string) (line_number : Z) : Symbol :=
  mkSymbol (symbol_name s) (source_info s ++ [mkSourceInfo source_file_path line_number]).

Definition Symbol_init (name : string) (source_file_path : option string) (line_number : option Z) :
    Symbol :=
  let s := mkSymbol name [] in
  match source_file_path with
  | None | Some EmptyString => s
  | Some path => AddSourceLineInfo s path (default 0 line_number)
  end.

(** ['%x' % n] *)
Definition hex_digit (d : Z) : ascii :=
  ascii_of_nat (Z.to_nat (if d <? 10 then 48 + d else 87 + d)).
Fixpoint hex_digits (fuel : nat) (n : Z) (acc : string) : string :=
  let acc := String (hex_digit (n mod 16)) acc in
  match fuel with
  | O => acc
  | S fuel => if n <? 16 then acc else hex_digits fuel (n / 16) acc
  end.
Definition hex (n : Z) : string :=
  let digits := hex_digits (Z.to_nat (Z.log2 (Z.abs n))) (Z.abs n) "" in
  if n <? 0 then "-" +:+ digits else digits.

Definition GetKey (exec_file_rel_path : string) (offset : Z) : string :=
  exec_file_rel_path +:+ "+0x" +:+ hex offset.

Record Symbols := mkSymbols { symbols : gmap string Symbol }.
Definition Symbols_Add (t : Symbols) (path : string) (offset : Z) (s : Symbol) : Symbols :=
  mkSymbols (<[GetKey path offset := s]> (symbols t)).
Definition Symbols_Lookup (t : Symbols) (path : string) (offset : Z) : option Symbol :=
  symbols t !! GetKey path offset.
Definition Symbols_Merge (t other : Symbols) : Symbols := mkSymbols (symbols other ∪ symbols t).
Definition Symbols_len (t : Symbols) : Z := Z.of_nat (size (symbols t)).

(** ** Stack frames *)

Record Frame := mkFrame {
  address : Z;
  symbol : option Symbol;
  exec_file_rel_path : option string;
  offset : option Z
}.
Definition Frame_init (address : Z) : Frame := mkFrame address None None None.

Definition SetExecFileInfo (f : Frame) (path : string) (offset : Z) : Frame :=
  mkFrame (address f) (symbol f) (Some path) (Some offset).
Definition SetSymbolInfo (f : Frame) (sym : Symbol) : outcome Frame :=
  assert_ (match symbol f with None => true | Some _ => false end);;
  Ok (mkFrame (address f) (Some sym) (exec_file_rel_path f) (offset f)).

(** [if not s] of a string or [None]. *)
Definition truthy (s : option string) : option string :=
  match s with Some EmptyString => None | _ => s end.

(** ** Allocations *)

(** [Allocation]; its [Stacktrace] is the list of the numbers of its frames. *)
Record Allocation := mkAllocation {
  alloc_size : Z;
  stack_trace : list nat;
  alloc_start : Z;
  flags : Z;
  resident_size : Z
}.
Definition Allocation_init (size : Z) (stack_trace : list nat) (start flags resident_size : Z) :
    outcome Allocation :=
  assert_ (0 <? size);; Ok (mkAllocation size stack_trace start flags resident_size).
Definition alloc_end (a : Allocation) : Z := alloc_start a + alloc_size a - 1.
Definition add_resident (n : Z) (a : Allocation) : Allocation :=
  mkAllocation (alloc_size a) (stack_trace a) (alloc_start a) (flags a) (resident_size a + n).

(** [NativeHeap], with all the frame objects, which [stack_frames] and the stack
    traces refer to by number. *)
Record NativeHeap := mkNativeHeap {
  allocations : list Allocation;
  stack_frames : gmap Z nat;
  frames : list Frame
}.
Definition NativeHeap_init : NativeHeap := mkNativeHeap [] ∅ [].

Definition set_frame (i : nat) (f : Frame) (h : NativeHeap) : NativeHeap :=
  mkNativeHeap (allocations h) (stack_frames h) (<[i := f]> (frames h)).
Definition add_resident_at (i : nat) (n : Z) (h : NativeHeap) : NativeHeap :=
  mkNativeHeap (alter (add_resident n) i (allocations h)) (stack_frames h) (frames h).

Abbreviation N := (M NativeHeap).

Definition NativeHeap_Add (a : Allocation) : N unit :=
  modify (λ h, mkNativeHeap (allocations h ++ [a]) (stack_frames h) (frames h)).

Definition GetStackFrame (absolute_addr : Z) : N nat :=
  known ← gets (λ h, stack_frames h !! absolute_addr);
  match known with
  | Some i => mret i
  | None =>
      i ← gets (λ h, length (frames h));
      modify (λ h, mkNativeHeap (allocations h) (<[absolute_addr := i]> (stack_frames h))
        (frames h ++ [Frame_init absolute_addr]));;
      mret i
  end.

Section heap.
Context `{!DictOrder}.

Definition get_frame (i : nat) : N Frame := f ← gets (λ h, frames h !! i); lift (of_option KeyError f).

Definition symbolize_frame (table : Symbols) (i : nat) : N unit :=
  f ← get_frame i;
  match truthy (exec_file_rel_path f) with
  | None => mret ()
  | Some path =>
      off ← lift (of_option (TypeError "%x format: a number is required, not NoneType") (offset f));
      match Symbols_Lookup table path off with
      | None => mret ()
      | Some sym => f ← lift (SetSymbolInfo f sym); modify (set_frame i f)
      end
  end.

Definition SymbolizeUsingSymbolDB (table : Symbols) : N unit :=
  fs ← gets (λ h, (dict_items (stack_frames h)).*2);
  mfor fs (symbolize_frame table).

Definition relativize_frame (mmap : Map) (abs_addr : Z) (i : nat) : N unit :=
  f ← get_frame i;
  lift (assert_ (abs_addr =? address f));;
  map_entry ← lift (Lookup mmap abs_addr);
  match map_entry with
  | None => mret ()
  | Some e =>
      off ← lift (GetRelativeFileOffset e abs_addr);
      modify (set_frame i (SetExecFileInfo f (mapped_file e) off))
  end.

Definition RelativizeStackFrames (mmap : Map) : N unit :=
  fs ← gets (λ h, dict_items (stack_frames h));
  mfor fs (λ x, relativize_frame mmap (fst x) (snd x)).

(** ** Resident sizes *)

(** What the body of the inner loop adds for the page of [cur_start]. *)
Definition page_resident (mm : MapEntry) (cur_start last : Z) : outcome (option Z) :=
  '(page, page_off) ← GetRelativeMMOffset mm cur_start;
  resident ← IsPageResident mm page;
  Ok (if (resident : bool) then
        let page_end := start mm + page * PAGE_SIZE + PAGE_SIZE - 1 in
        let in_page := PAGE_SIZE - page_off in
        Some (if last <? page_end then in_page - (page_end - last) else in_page)
      else None).

Definition next_page (cur_start : Z) : Z := Z.land (cur_start + PAGE_SIZE) (Z.lnot (PAGE_SIZE - 1)).

(** The inner loop, for allocation [i] that ends at [last]. *)
Fixpoint resident_loop (fuel : nat) (mmap : Map) (i : nat) (last cur_start : Z)
    (mm : option MapEntry) : N unit :=
  if cur_start <? last then
    match fuel with
    | O => raise recursion_error
    | S fuel =>
        mm ← match mm with
             | Some e => if Contains e cur_start then mret mm else lift (Lookup mmap cur_start)
             | None => lift (Lookup mmap cur_start)
             end;
        match mm with
        | None => mret ()
        | Some e =>
            added ← lift (page_resident e cur_start last);
            match added with
            | Some n => modify (add_resident_at i n)
            | None => mret ()
            end
        end;;
        resident_loop fuel mmap i last (next_page cur_start) mm
    end
  else mret ().

Definition CalculateResidentSize (mmap : Map) : N unit :=
  n ← gets (λ h, length (allocations h));
  mfor (seq 0 n) (λ i,
    a ← gets (λ h, allocations h !! i);
    match (a : option Allocation) with
    | None => mret ()
    | Some a =>
        resident_loop (S (Z.to_nat (alloc_size a / PAGE_SIZE + 1))) mmap i (alloc_end a) (alloc_start a) None
    end).
End heap.
