(* ===== verification/NativeHeapLaws.v ===== *)
(** native_heap.py: the resident size of an allocation is the number of its bytes in
    resident pages, and stack frames get the files and symbols of their
    addresses. *)

From S2P Require Import Prelude MemoryMap NativeHeap.

#[local] Open Scope Z_scope.

(** ** Pages *)

Lemma land_page x : Z.land x (PAGE_SIZE - 1) = x mod PAGE_SIZE.
Proof. exact (Z.land_ones x 12 ltac:(lia)). Qed.

Lemma next_page_eq x : next_page x = PAGE_SIZE * (x / PAGE_SIZE) + PAGE_SIZE.
Proof.
  unfold next_page. replace (Z.lnot (PAGE_SIZE - 1)) with (Z.lnot (Z.ones 12)) by done.
  rewrite <- Z.ldiff_land, Z.ldiff_ones_r, Z.shiftr_div_pow2, Z.shiftl_mul_pow2 by lia.
  change (2 ^ 12) with PAGE_SIZE. unfold PAGE_SIZE.
  replace (x + 4096) with (x + 1 * 4096) by lia. rewrite Z.div_add by lia. lia.
Qed.

(** Maps of whole pages. *)
Definition page_aligned (es : list MapEntry) : Prop :=
  ∀ e, e ∈ es → start e mod PAGE_SIZE = 0 ∧ (end_ e + 1) mod PAGE_SIZE = 0.

(** ** Resident bytes *)

(** The byte at an address belongs to a page that the bitmap of its entry marks. *)
Definition byte_resident (m : Map) (addr : Z) : bool :=
  match Lookup m addr with
  | Ok (Some e) =>
      match IsPageResident e ((addr - start e) / PAGE_SIZE) with Ok r => r | Raise _ => false end
  | _ => false
  end.

(** Their number from [lo] up to [hi], without [hi]. *)
Definition resident_bytes (m : Map) (lo hi : Z) : Z :=
  py_sum ((λ a, if byte_resident m a then 1 else 0) <$> seqZ lo (hi - lo)).

Lemma resident_bytes_empty m lo hi : hi <= lo → resident_bytes m lo hi = 0.
Proof. intros H. unfold resident_bytes. by rewrite seqZ_nil by lia. Qed.

Lemma resident_bytes_split m lo mid hi : lo <= mid <= hi →
  resident_bytes m lo hi = resident_bytes m lo mid + resident_bytes m mid hi.
Proof.
  intros H. unfold resident_bytes. rewrite <- py_sum_app, <- fmap_app. do 2 f_equal.
  replace (hi - lo) with ((mid - lo) + (hi - mid)) by lia. rewrite seqZ_app by lia.
  by replace (lo + (mid - lo)) with mid by lia.
Qed.

Lemma resident_bytes_const m lo hi (r : bool) : lo <= hi →
  (∀ a, lo <= a < hi → byte_resident m a = r) → resident_bytes m lo hi = if r then hi - lo else 0.
Proof.
  intros H Hr. unfold resident_bytes.
  assert (∀ l, (∀ a, a ∈ l → byte_resident m a = r) →
    py_sum ((λ a, if byte_resident m a then 1 else 0) <$> l) = if r then Z.of_nat (length l) else 0) as Hl.
  { induction l as [|a l IH]; intros Hl; [by destruct r|].
    change (py_sum (?f <$> a :: l)) with (f a + py_sum (f <$> l)). cbn [length].
    rewrite IH by (intros b Hb; apply Hl; by right). cbn beta.
    rewrite (Hl a) by (by left). destruct r; lia. }
  rewrite Hl; [|by intros a ?%elem_of_seqZ; apply Hr; lia]. rewrite length_seqZ. destruct r; lia.
Qed.

Section resident.
Context (m : Map) (es : list MapEntry).
Context (m_adds : adds Map_init es = Ok m) (m_disjoint : disjoint_entries es).
Context (m_aligned : page_aligned es).

(** The addresses of a page are in the same entry, if in any. *)
Lemma same_page e a b : e ∈ es → a / PAGE_SIZE = b / PAGE_SIZE →
  Contains e a = true → Contains e b = true.
Proof.
  intros He Hab. rewrite !Contains_spec. destruct (m_aligned e He) as [Hs Hend].
  unfold PAGE_SIZE in *. intros [? ?]. split; Z.div_mod_to_equations; lia.
Qed.

Lemma IsPageResident_total e addr : e ∈ es → Contains e addr = true →
  ∃ r, IsPageResident e ((addr - start e) / PAGE_SIZE) = Ok r.
Proof.
  intros He Hin. rewrite Contains_spec in Hin. destruct (m_aligned e He) as [Hs Hend].
  set (page := (addr - start e) / PAGE_SIZE).
  assert (0 <= page < entry_len e / PAGE_SIZE) as Hpage.
  { unfold page, entry_len, PAGE_SIZE in *. Z.div_mod_to_equations; lia. }
  unfold IsPageResident. rewrite (proj2 (Z.leb_le 0 page)), (proj2 (Z.ltb_lt page _)) by lia.
  cbn [andb assert_ mbind outcome_bind].
  destruct (Z.leb_spec (Z.of_nat (length (resident_pages e))) (page / 8)); [by eexists|].
  assert (0 <= page / 8) by (apply Z.div_pos; lia).
  destruct (lookup_lt_is_Some_2 (resident_pages e) (Z.to_nat (page / 8))) as [b Hb]; [lia|].
  rewrite Hb. by eexists.
Qed.

Lemma byte_resident_in e addr r : e ∈ es → Contains e addr = true →
  IsPageResident e ((addr - start e) / PAGE_SIZE) = Ok r → byte_resident m addr = r.
Proof.
  intros He Hin Hr. destruct (Lookup_disjoint es m addr m_adds m_disjoint) as (x & Hx & Hspec).
  unfold byte_resident. rewrite Hx. rewrite (proj2 (Hspec e) (conj He Hin)). by rewrite Hr.
Qed.

Lemma byte_resident_out addr : Lookup m addr = Ok None → byte_resident m addr = false.
Proof. intros Hx. unfold byte_resident. by rewrite Hx. Qed.

(** The bytes from [cur] to the end of its page or of the allocation. *)
Definition page_bytes (cur last : Z) : Z :=
  resident_bytes m cur (Z.min (last + 1) (next_page cur)).

Lemma page_resident_bytes e cur last : e ∈ es → Contains e cur = true → cur < last →
  ∃ added, page_resident e cur last = Ok added ∧ default 0 added = page_bytes cur last.
Proof.
  intros He Hin Hlast. destruct (IsPageResident_total e cur He Hin) as [r Hr].
  destruct (m_aligned e He) as [Hs Hend].
  unfold page_resident, GetRelativeMMOffset. rewrite Hin. cbn [assert_ mbind outcome_bind].
  rewrite Hr. cbn [mbind outcome_bind]. eexists. split; [done|].
  unfold page_bytes. rewrite (resident_bytes_const _ _ _ r).
  - rewrite land_page, next_page_eq. destruct r; [|done]. cbn [default].
    assert (start e + (cur - start e) / PAGE_SIZE * PAGE_SIZE + PAGE_SIZE - 1 =
      PAGE_SIZE * (cur / PAGE_SIZE) + PAGE_SIZE - 1) as -> by (unfold PAGE_SIZE in *; Z.div_mod_to_equations; lia).
    assert ((cur - start e) mod PAGE_SIZE = cur - PAGE_SIZE * (cur / PAGE_SIZE)) as ->
      by (unfold PAGE_SIZE in *; Z.div_mod_to_equations; lia).
    unfold default, id. destruct (Z.ltb_spec last (PAGE_SIZE * (cur / PAGE_SIZE) + PAGE_SIZE - 1)); lia.
  - rewrite next_page_eq. unfold PAGE_SIZE. Z.div_mod_to_equations; lia.
  - intros a Ha. rewrite next_page_eq in Ha.
    assert (a / PAGE_SIZE = cur / PAGE_SIZE) as Hpage by (unfold PAGE_SIZE in *; Z.div_mod_to_equations; lia).
    apply (byte_resident_in e); [done|by apply (same_page e cur a)|].
    rewrite <- Hr. f_equal. unfold PAGE_SIZE in *. Z.div_mod_to_equations; lia.
Qed.

Lemma page_unmapped cur last : Lookup m cur = Ok None → cur < last → page_bytes cur last = 0.
Proof.
  intros Hnone Hlast. unfold page_bytes. rewrite (resident_bytes_const _ _ _ false); [done| |].
  { rewrite next_page_eq. unfold PAGE_SIZE. Z.div_mod_to_equations; lia. }
  intros a Ha. rewrite next_page_eq in Ha. apply byte_resident_out.
  destruct (Lookup_disjoint es m a m_adds m_disjoint) as ([e|] & Hx & Hspec); [|done].
  destruct (proj1 (Hspec e) eq_refl) as [He Hin].
  destruct (Lookup_disjoint es m cur m_adds m_disjoint) as (r & Hr & Hspec').
  rewrite Hnone in Hr. injection Hr as <-. assert (None = Some e) as [=]. apply Hspec'. split; [done|].
  apply (same_page e a cur); [done| |done]. unfold PAGE_SIZE in *. Z.div_mod_to_equations; lia.
Qed.

(** ** The loop over the pages *)

(** Where the count of the bytes of an allocation stops: its last byte is left out
    when it is the first byte of a page. *)
Definition count_end (last : Z) : Z := if last mod PAGE_SIZE =? 0 then last else last + 1.

Lemma add_resident_at_add i a b h :
  add_resident_at i b (add_resident_at i a h) = add_resident_at i (a + b) h.
Proof.
  unfold add_resident_at. cbn [allocations stack_frames frames]. f_equal.
  generalize (allocations h) as l. intros l. revert i. induction l as [|x l IH]; intros [|i]; [done..| |].
  - change (add_resident b (add_resident a x) :: l = add_resident (a + b) x :: l).
    unfold add_resident. cbn. do 2 f_equal. lia.
  - change (x :: alter (add_resident b) i (alter (add_resident a) i l) = x :: alter (add_resident (a + b)) i l).
    by rewrite IH.
Qed.

Lemma add_resident_at_0 i h : add_resident_at i 0 h = h.
Proof.
  unfold add_resident_at. destruct h as [al sf fs]. cbn. f_equal. apply list_alter_id.
  intros []. unfold add_resident. cbn. f_equal. lia.
Qed.

Lemma page_bytes_step cur last : cur < last →
  resident_bytes m cur (count_end last) =
    page_bytes cur last + resident_bytes m (next_page cur) (count_end last).
Proof.
  intros Hlt. unfold page_bytes, count_end. rewrite next_page_eq.
  destruct (Z.eqb_spec (last mod PAGE_SIZE) 0) as [Hz|Hz].
  - rewrite Z.min_r by (unfold PAGE_SIZE in *; Z.div_mod_to_equations; lia).
    apply resident_bytes_split. unfold PAGE_SIZE in *; Z.div_mod_to_equations; lia.
  - destruct (Z.le_ge_cases (last + 1) (PAGE_SIZE * (cur / PAGE_SIZE) + PAGE_SIZE)).
    + rewrite Z.min_l, (resident_bytes_empty _ (_ + _)) by done. lia.
    + rewrite Z.min_r by done. apply resident_bytes_split. unfold PAGE_SIZE in *; Z.div_mod_to_equations; lia.
Qed.

Lemma resident_loop_spec fuel i last cur mm h :
  (∀ e, mm = Some e → e ∈ es) →
  cur < last ∨ cur mod PAGE_SIZE = 0 →
  last < PAGE_SIZE * (cur / PAGE_SIZE) + PAGE_SIZE * Z.of_nat fuel →
  resident_loop fuel m i last cur mm h =
    (Ok (), add_resident_at i (resident_bytes m cur (count_end last)) h).
Proof.
  revert cur mm h. induction fuel as [|fuel IH]; intros cur mm h Hmm Hcur Hfuel; cbn [resident_loop].
  - destruct (Z.ltb_spec cur last); [unfold PAGE_SIZE in *; Z.div_mod_to_equations; lia|].
    rewrite resident_bytes_empty, add_resident_at_0; [done|].
    unfold count_end. destruct (Z.eqb_spec (last mod PAGE_SIZE) 0); [lia|]. assert (cur ≠ last) by (intros ->; lia). lia.
  - destruct (Z.ltb_spec cur last) as [Hlt|Hge].
    2:{ rewrite resident_bytes_empty, add_resident_at_0; [done|]. unfold count_end.
        destruct (Z.eqb_spec (last mod PAGE_SIZE) 0); [lia|]. assert (cur ≠ last) by (intros ->; lia). lia. }
    destruct (Lookup_disjoint es m cur m_adds m_disjoint) as (r & Hr & Hspec).
    assert (match mm with
            | Some e => if Contains e cur then mret mm else lift (Lookup m cur)
            | None => lift (Lookup m cur)
            end h = (Ok r, h)) as Hfind.
    { destruct mm as [e|]; [destruct (Contains e cur) eqn:Hin|]; [|by rewrite Hr..].
      rewrite (proj2 (Hspec e)); [done|]. split; [by apply Hmm|done]. }
    rewrite (M_bind_run _ _ _ _ _ Hfind). rewrite page_bytes_step by done.
    assert (match r with
            | Some e => added ← lift (page_resident e cur last);
                        match added with Some n => modify (add_resident_at i n) | None => mret () end
            | None => mret ()
            end h = (Ok (), add_resident_at i (page_bytes cur last) h)) as Hpage.
    { destruct r as [e|].
      - destruct (proj1 (Hspec e) eq_refl) as [He Hin].
        destruct (page_resident_bytes e cur last He Hin Hlt) as (added & Hadded & <-).
        rewrite Hadded, bind_lift_Ok. destruct added as [n|]; [done|]. by rewrite add_resident_at_0.
      - by rewrite page_unmapped, add_resident_at_0. }
    rewrite (M_bind_run _ _ _ _ _ Hpage), IH.
    + by rewrite add_resident_at_add.
    + intros e ->. by apply Hspec.
    + right. rewrite next_page_eq. unfold PAGE_SIZE in *; Z.div_mod_to_equations; lia.
    + rewrite next_page_eq. unfold PAGE_SIZE in *; Z.div_mod_to_equations; lia.
Qed.

(** The last byte is lost when it is the first of a page, or the only one. *)
Definition lost (a : Allocation) : Z :=
  if ((alloc_start a =? alloc_end a) || (alloc_end a mod PAGE_SIZE =? 0)) && byte_resident m (alloc_end a)
  then 1 else 0.
Definition resident_of (a : Allocation) : Z :=
  resident_bytes m (alloc_start a) (alloc_end a + 1) - lost a.

Lemma resident_bytes_last lo last : lo <= last →
  resident_bytes m lo (last + 1) = resident_bytes m lo last + if byte_resident m last then 1 else 0.
Proof.
  intros H. rewrite (resident_bytes_split m lo last) by lia. f_equal.
  rewrite (resident_bytes_const _ _ _ (byte_resident m last)); [|lia|].
  - destruct (byte_resident m last); lia.
  - intros a Ha. f_equal. lia.
Qed.

Lemma alloc_loop i a h : 0 < alloc_size a →
  resident_loop (S (Z.to_nat (alloc_size a / PAGE_SIZE + 1))) m i (alloc_end a) (alloc_start a) None h =
    (Ok (), add_resident_at i (resident_of a) h).
Proof.
  intros Hsize. unfold resident_of, lost.
  rewrite resident_bytes_last by (unfold alloc_end; lia).
  destruct (Z.eqb_spec (alloc_start a) (alloc_end a)) as [Heq|Hne].
  - cbn [resident_loop orb andb]. rewrite <- Heq, Z.ltb_irrefl, resident_bytes_empty by lia.
    replace (_ - _) with 0 by (destruct (byte_resident m _); lia). by rewrite add_resident_at_0.
  - assert (alloc_start a < alloc_end a) as Hlt by (unfold alloc_end in *; lia).
    rewrite resident_loop_spec; [|done|by left|].
    + unfold count_end. destruct (Z.eqb_spec (alloc_end a mod PAGE_SIZE) 0); cbn [orb andb].
      * do 3 f_equal. destruct (byte_resident m _); lia.
      * rewrite resident_bytes_last by lia. do 3 f_equal. destruct (byte_resident m _); lia.
    + assert (0 <= alloc_size a / PAGE_SIZE) by (apply Z.div_pos; [lia|done]).
      rewrite Nat2Z.inj_succ, Z2Nat.id by lia. unfold alloc_end, PAGE_SIZE in *.
      Z.div_mod_to_equations; lia.
Qed.

Definition with_allocations (h : NativeHeap) (al : list Allocation) : NativeHeap :=
  mkNativeHeap al (stack_frames h) (frames h).

Lemma alloc_loops h ready todo : (∀ a, a ∈ todo → 0 < alloc_size a) →
  mfor (seq (length ready) (length todo)) (λ i,
    a ← gets (λ h, allocations h !! i);
    match (a : option Allocation) with
    | None => mret ()
    | Some a =>
        resident_loop (S (Z.to_nat (alloc_size a / PAGE_SIZE + 1))) m i (alloc_end a) (alloc_start a) None
    end) (with_allocations h (ready ++ todo)) =
  (Ok (), with_allocations h (ready ++ ((λ a, add_resident (resident_of a) a) <$> todo))).
Proof.
  revert ready. induction todo as [|a todo IH]; intros ready Hsize; [done|].
  cbn [length seq mfor]. rewrite M_bind_assoc, bind_gets. cbn [allocations with_allocations].
  rewrite list_lookup_middle by done. rewrite (M_bind_run _ _ _ _ _ (alloc_loop _ a _ (Hsize a ltac:(by left)))).
  replace (add_resident_at _ _ _)
    with (with_allocations h ((ready ++ [add_resident (resident_of a) a]) ++ todo)).
  2:{ unfold add_resident_at, with_allocations. cbn [allocations stack_frames frames]. f_equal.
      rewrite <- app_assoc, <- (Nat.add_0_r (length ready)). by rewrite alter_app_r. }
  specialize (IH (ready ++ [add_resident (resident_of a) a])). rewrite length_app, Nat.add_1_r in IH.
  rewrite IH by (intros b Hb; apply Hsize; by right). by rewrite <- app_assoc.
Qed.
End resident.

(** C15: On a map of whole pages without overlaps, the loop over the pages of the
    allocations ends without an exception and adds to the resident size of each
    allocation the number of its bytes in resident pages.  One byte is missed: the
    last one, when it is the first byte of a page or the only byte. *)
Theorem CalculateResidentSize_bytes es m h :
  adds Map_init es = Ok m → disjoint_entries es → page_aligned es →
  (∀ a, a ∈ allocations h → 0 < alloc_size a) →
  CalculateResidentSize m h =
    (Ok (), with_allocations h ((λ a, add_resident
      (resident_bytes m (alloc_start a) (alloc_end a + 1) - lost m a) a) <$> allocations h)).
Proof.
  intros Hm Hd Ha Hsize. unfold CalculateResidentSize. rewrite bind_gets.
  pose proof (alloc_loops m es Hm Hd Ha h [] (allocations h) Hsize) as Hrun.
  destruct h as [al sf fs]. exact Hrun.
Qed.

(** ** Stack frames *)

(** Every entry of the table is a frame of its address. *)
Definition frames_ok (h : NativeHeap) : Prop :=
  ∀ a i, stack_frames h !! a = Some i → ∃ f, frames h !! i = Some f ∧ address f = a.

Section frames.
Context `{!DictOrder}.

(** A loop that replaces frames one after the other. *)
Lemma frames_loop {A} (frame_of : A → nat) (g : Frame → Frame) (P : A → Frame → Prop)
    (body : A → M NativeHeap unit) (l : list A) h :
  (∀ x f h, P x f → frames h !! frame_of x = Some f → body x h = (Ok (), set_frame (frame_of x) (g f) h)) →
  NoDup (frame_of <$> l) →
  (∀ x, x ∈ l → ∃ f, frames h !! frame_of x = Some f ∧ P x f) →
  ∃ h', mfor l body h = (Ok (), h') ∧ allocations h' = allocations h ∧ stack_frames h' = stack_frames h ∧
    ∀ i, frames h' !! i = if decide (i ∈ frame_of <$> l) then g <$> frames h !! i else frames h !! i.
Proof.
  intros Hbody. revert h. induction l as [|x l IH]; intros h Hdup Hin.
  { by exists h. }
  rewrite fmap_cons in Hdup. apply NoDup_cons in Hdup as [Hx Hdup].
  destruct (Hin x) as (f & Hf & Hp); [by left|].
  destruct (IH (set_frame (frame_of x) (g f) h) Hdup) as (h' & Hrun & Hal & Hsf & Hfr).
  { intros y Hy. destruct (Hin y) as (f' & Hf' & Hp'); [by right|]. exists f'. split; [|done].
    cbn. rewrite list_lookup_insert_ne; [done|]. intros Heq. apply Hx. rewrite Heq.
    by apply list_elem_of_fmap_2. }
  exists h'. cbn [mfor]. rewrite (M_bind_run _ _ _ _ _ (Hbody x f h Hp Hf)). split_and!; [done..|].
  intros i. rewrite Hfr, fmap_cons. cbn [frames set_frame]. destruct (decide (i = frame_of x)) as [->|Hne].
  - rewrite decide_False by done. rewrite (decide_True _ _ (proj2 (elem_of_cons _ _ _) (or_introl eq_refl))).
    rewrite Hf, list_lookup_insert_eq by (by eapply lookup_lt_Some). done.
  - rewrite list_lookup_insert_ne by done.
    destruct (decide (i ∈ frame_of <$> l)) as [Hl|Hl];
      [rewrite decide_True by (by right)|rewrite decide_False by (by intros [?|?]%elem_of_cons)]; done.
Qed.

Lemma set_frame_same i f h : frames h !! i = Some f → set_frame i f h = h.
Proof. intros Hf. unfold set_frame. rewrite list_insert_id by done. by destruct h. Qed.

(** What [RelativizeStackFrames] and [SymbolizeUsingSymbolDB] make of a frame. *)
Definition relativized (m : Map) (f : Frame) : Frame :=
  match Lookup m (address f) with
  | Ok (Some e) => SetExecFileInfo f (mapped_file e) (address f - start e + mapped_offset e)
  | _ => f
  end.
Definition symbolized (t : Symbols) (f : Frame) : Frame :=
  match truthy (exec_file_rel_path f), offset f with
  | Some path, Some off =>
      match Symbols_Lookup t path off with
      | Some sym => mkFrame (address f) (Some sym) (exec_file_rel_path f) (offset f)
      | None => f
      end
  | _, _ => f
  end.

Lemma relativize_frame_run es m a i f h :
  adds Map_init es = Ok m → disjoint_entries es → address f = a → frames h !! i = Some f →
  relativize_frame m a i h = (Ok (), set_frame i (relativized m f) h).
Proof.
  intros Hm Hd <- Hf. unfold relativize_frame, get_frame. rewrite M_bind_assoc, bind_gets, Hf.
  cbn [of_option]. rewrite bind_lift_Ok, Z.eqb_refl. cbn [assert_]. rewrite bind_lift_Ok.
  unfold relativized. destruct (Lookup_disjoint es m (address f) Hm Hd) as (r & Hr & Hspec).
  rewrite Hr, bind_lift_Ok. destruct r as [e|].
  - destruct (proj1 (Hspec e) eq_refl) as [_ Hin]. unfold GetRelativeFileOffset. by rewrite Hin.
  - by rewrite set_frame_same.
Qed.

Lemma symbolize_frame_run t i f h :
  symbol f = None → (is_Some (exec_file_rel_path f) → is_Some (offset f)) → frames h !! i = Some f →
  symbolize_frame t i h = (Ok (), set_frame i (symbolized t f) h).
Proof.
  intros Hsym Hoff Hf. unfold symbolize_frame, get_frame. rewrite M_bind_assoc, bind_gets, Hf.
  cbn [of_option]. rewrite bind_lift_Ok. unfold symbolized.
  destruct (truthy (exec_file_rel_path f)) as [path|] eqn:Hpath; [|by rewrite set_frame_same].
  destruct Hoff as [off Hoff]; [by destruct (exec_file_rel_path f)|]. rewrite Hoff.
  cbn [of_option]. rewrite bind_lift_Ok. destruct (Symbols_Lookup t path off) as [sym|].
  - unfold SetSymbolInfo. by rewrite Hsym, Hoff.
  - by rewrite set_frame_same.
Qed.

Lemma NoDup_table_frames h : frames_ok h → NoDup (dict_items (stack_frames h)).*2.
Proof.
  intros Hok. apply NoDup_fmap_2_strong; [|apply (NoDup_fmap_1 fst), NoDup_dict_keys].
  intros [a i] [b j] Ha Hb Heq. cbn in Heq. subst j. apply elem_of_dict_items in Ha, Hb.
  destruct (Hok a i Ha) as (f & Hf & <-). destruct (Hok b i Hb) as (f' & Hf' & <-). congruence.
Qed.

Lemma elem_of_table_frames h i : frames_ok h →
  i ∈ (dict_items (stack_frames h)).*2 ↔ ∃ f, frames h !! i = Some f ∧ stack_frames h !! address f = Some i.
Proof.
  intros Hok. split.
  - intros ([a j] & -> & Ha)%list_elem_of_fmap. apply elem_of_dict_items in Ha. cbn.
    destruct (Hok a j Ha) as (f & Hf & <-). by exists f.
  - intros (f & _ & Hi). apply list_elem_of_fmap. exists (address f, i). split; [done|].
    by apply elem_of_dict_items.
Qed.

(** C28: Frames get the files and symbols of their addresses.  Frames of the table
    that are new are first given the file mapped at their address and the offset in
    it, then the symbol the database has for these; frames outside of all entries
    and frames that are not in the table stay as they are.  No exception is
    raised. *)
Theorem frames_symbolized es m t h :
  adds Map_init es = Ok m → disjoint_entries es → frames_ok h →
  (∀ f, f ∈ frames h → symbol f = None ∧ exec_file_rel_path f = None) →
  ∃ h', (RelativizeStackFrames m;; SymbolizeUsingSymbolDB t) h = (Ok (), h') ∧
    allocations h' = allocations h ∧ stack_frames h' = stack_frames h ∧ frames_ok h' ∧
    ∀ i, frames h' !! i =
      (λ f, if decide (stack_frames h !! address f = Some i) then symbolized t (relativized m f) else f)
        <$> frames h !! i.
Proof.
  intros Hm Hd Hok Hnew. unfold RelativizeStackFrames. rewrite M_bind_assoc, bind_gets.
  destruct (frames_loop snd (relativized m) (λ x f, address f = fst x)
    (λ x, relativize_frame m (fst x) (snd x)) (dict_items (stack_frames h)) h) as (h1 & Hrun & Hal & Hsf & Hfr).
  { intros [a i] f h0 Ha Hf. by eapply relativize_frame_run. }
  { by apply NoDup_table_frames. }
  { intros [a i] Ha%elem_of_dict_items. exact (Hok a i Ha). }
  rewrite (M_bind_run _ _ _ _ _ Hrun). unfold SymbolizeUsingSymbolDB. rewrite bind_gets, Hsf.
  destruct (frames_loop id (symbolized t)
    (λ _ f, symbol f = None ∧ (is_Some (exec_file_rel_path f) → is_Some (offset f)))
    (symbolize_frame t) (dict_items (stack_frames h)).*2 h1) as (h2 & Hrun2 & Hal2 & Hsf2 & Hfr2).
  { intros i f h0 [Hsym Hoff] Hf. by apply symbolize_frame_run. }
  { rewrite list_fmap_id. by apply NoDup_table_frames. }
  { intros i Hi. rewrite Hfr, decide_True by done. apply elem_of_table_frames in Hi as (f & Hf & _); [|done].
    cbn [id]. rewrite Hf. exists (relativized m f). split; [done|].
    destruct (Hnew f) as [Hsym Hexec]; [by eapply list_elem_of_lookup_2|]. unfold relativized.
    destruct (Lookup m (address f)) as [[e|]|]; cbn; [by eauto|by rewrite Hexec; split; [|intros [? ?]]..]. }
  rewrite list_fmap_id in Hfr2.
  assert (∀ i, frames h2 !! i =
    (λ f, if decide (stack_frames h !! address f = Some i) then symbolized t (relativized m f) else f)
        <$> frames h !! i) as Hframes.
  { intros i. rewrite Hfr2, !Hfr. destruct (decide (i ∈ _)) as [Hi|Hi].
    - apply elem_of_table_frames in Hi as (f & Hf & Hi); [|done]. rewrite Hf. cbn. by rewrite decide_True.
    - destruct (frames h !! i) as [f|] eqn:Hf; [|done]. cbn. rewrite decide_False; [done|].
      intros Hif. apply Hi, elem_of_table_frames; [done|]. by exists f. }
  exists h2. split_and!; [done|congruence|congruence| |done].
  intros a i. rewrite Hsf2, Hsf. intros Ha. destruct (Hok a i Ha) as (f & Hf & <-). rewrite Hframes, Hf. cbn.
  rewrite decide_True by done. eexists. split; [done|]. unfold symbolized, relativized.
  destruct (Lookup m (address f)) as [[e|]|]; cbn; repeat case_match; done.
Qed.
End frames.

(** Calls with the same address answer the same object. *)
Lemma GetStackFrame_same a h : frames_ok h →
  ∃ i h', GetStackFrame a h = (Ok i, h') ∧ frames_ok h' ∧ GetStackFrame a h' = (Ok i, h') ∧
    ∃ f, frames h' !! i = Some f ∧ address f = a.
Proof.
  intros Hok. unfold GetStackFrame. setoid_rewrite bind_gets.
  destruct (stack_frames h !! a) as [i|] eqn:Ha.
  { exists i, h. split_and!; [done|done| |by apply Hok]. by rewrite Ha. }
  rewrite bind_gets. eexists _, _. split; [reflexivity|]. cbn [stack_frames frames].
  split_and!.
  - intros b j. cbn [stack_frames frames]. destruct (decide (b = a)) as [->|Hb].
    + rewrite lookup_insert_eq. intros [= <-]. cbn. rewrite list_lookup_middle by done. by eexists.
    + rewrite lookup_insert_ne by done. intros Hj. destruct (Hok b j Hj) as (f & Hf & <-). cbn.
      exists f. split; [|done]. by apply lookup_app_l_Some.
  - by rewrite lookup_insert_eq.
  - rewrite list_lookup_middle by done. by eexists.
Qed.

(** ** Examples *)

(** Two mapped files with a hole behind them; the first page of the first and the
    second page of the second are resident. *)
Definition lib_a : MapEntry := mkMapEntry 0x1000 0x2fff "r-x-" "a.so" 0 0 0 0 0 [1].
Definition lib_b : MapEntry := mkMapEntry 0x3000 0x4fff "rw--" "b.so" 0x100 0 0 0 0 [2].
Definition two_libs : Map := mkMap [lib_a; lib_b].

Lemma two_libs_adds : adds Map_init [lib_b; lib_a] = Ok two_libs.
Proof. reflexivity. Qed.

Lemma two_libs_disjoint : disjoint_entries [lib_b; lib_a].
Proof.
  split.
  - intros e [->|[->|?%not_elem_of_nil]%elem_of_cons]%elem_of_cons; by cbn.
  - intros e e' a He He'. rewrite !Contains_spec. revert He He'.
    intros [->|[->|?%not_elem_of_nil]%elem_of_cons]%elem_of_cons
           [->|[->|?%not_elem_of_nil]%elem_of_cons]%elem_of_cons; cbn; try done; lia.
Qed.

Lemma two_libs_aligned : page_aligned [lib_b; lib_a].
Proof. intros e [->|[->|?%not_elem_of_nil]%elem_of_cons]%elem_of_cons; by cbn. Qed.

(** From the middle of the second page of [a.so] to the first byte behind [b.so],
    and a whole allocation in the resident page of [a.so] but for its last byte. *)
Definition example_heap : NativeHeap :=
  mkNativeHeap [mkAllocation 0x2801 [0%nat] 0x2800 0 0; mkAllocation 0x10 [1%nat] 0x1ff0 0 0]
    {[0x1234 := 0%nat; 0x9000 := 1%nat]} [Frame_init 0x1234; Frame_init 0x9000].

Lemma CalculateResidentSize_bytes_witness :
  CalculateResidentSize two_libs example_heap =
    (Ok (), with_allocations example_heap
      [mkAllocation 0x2801 [0%nat] 0x2800 0 0x1000; mkAllocation 0x10 [1%nat] 0x1ff0 0 0x10]).
Proof.
  rewrite (CalculateResidentSize_bytes [lib_b; lib_a]); [by vm_compute|..].
  - apply two_libs_adds.
  - apply two_libs_disjoint.
  - apply two_libs_aligned.
  - intros a [->|[->|?%not_elem_of_nil]%elem_of_cons]%elem_of_cons; by cbn.
Defined.

(** The last byte of this allocation is the first of a resident page; it is not
    counted. *)
Example last_byte_lost :
  allocations (snd (CalculateResidentSize two_libs
    (mkNativeHeap [mkAllocation 0x11 [] 0x3ff0 0 0] ∅ []))) = [mkAllocation 0x11 [] 0x3ff0 0 0] ∧
  byte_resident two_libs 0x4000 = true.
Proof. split; vm_compute; reflexivity. Qed.

Definition example_symbols : Symbols :=
  Symbols_Add (mkSymbols ∅) "a.so" 0x234 (Symbol_init "main" (Some "a.c") (Some 7)).

Lemma frames_symbolized_witness :
  let _ := canonical_order in
  ∃ h', (RelativizeStackFrames two_libs;; SymbolizeUsingSymbolDB example_symbols) example_heap = (Ok (), h') ∧
    frames h' !! 0%nat = Some (mkFrame 0x1234 (Some (mkSymbol "main" [mkSourceInfo "a.c" 7])) (Some "a.so") (Some 0x234)) ∧
    frames h' !! 1%nat = Some (Frame_init 0x9000).
Proof.
  intros order.
  destruct (frames_symbolized [lib_b; lib_a] two_libs example_symbols example_heap)
    as (h' & Hrun & _ & _ & _ & Hframes).
  - apply two_libs_adds.
  - apply two_libs_disjoint.
  - intros a i. unfold example_heap. cbn. rewrite lookup_insert_Some, lookup_singleton_Some.
    intros [[<- <-]|[_ [<- <-]]]; by eexists.
  - intros f [->|[->|?%not_elem_of_nil]%elem_of_cons]%elem_of_cons; by cbn.
  - exists h'. split; [done|]. rewrite !Hframes. split; vm_compute; reflexivity.
Defined.
