(* ===== verification/MemoryClassifiers.v ===== *)
(** rules.py, results.py, mmap_classifier.py and native_heap_classifier.py,
    src/src/tools/memory_inspector/memory_inspector/classification: trees of rules
    and the sums of what they match.

    A rule file is the value its text denotes; messages of exceptions are cut short.  Regular expressions are the
    [RegexpEngine]: which patterns compile, and what [search] finds. *)

From Stdlib Require Import String.
From S2P Require Import Prelude PyPath MemoryMap NativeHeap.

#[local] Open Scope string_scope.
#[local] Open Scope list_scope.
#[local] Open Scope Z_scope.

Class RegexpEngine := {
  re_compiles : string → bool;
  re_finds : string → string → bool
}.

(** ** Rules *)

(** A rule with its children; a filter of [None] is that of the class [Rule], which
    matches all. *)
Inductive Rule (F : Type) := mkRule (name : string) (filter : option F) (children : list (Rule F)).
Arguments mkRule {_} _ _ _.

Definition rule_name {F} (r : Rule F) : string := let 'mkRule n _ _ := r in n.
Definition rule_filter {F} (r : Rule F) : option F := let 'mkRule _ f _ := r in f.
Definition rule_children {F} (r : Rule F) : list (Rule F) := let 'mkRule _ _ cs := r in cs.

(** The dict of a rule in a file: its name, if it has one, its filters and the dicts
    of its children. *)
Inductive FilterValue := FilterString (s : string) | FilterList (l : list string).
Inductive DictNode :=
  mkDictNode (name : option string) (filters : gmap string FilterValue) (children : list DictNode).

Section rules.
Context {F : Type} (rule_builder : string → gmap string FilterValue → outcome F).

(** [AppendChild], on the list of the children. *)
Definition AppendChild (children : list (Rule F)) (child : Rule F) : outcome (list (Rule F)) :=
  assert_ (bool_decide (base.filter (λ x, rule_name x = rule_name child) children = []));;
  Ok (children ++ [child]).

(** The end of [_MakeRuleNodeFromDictNode]: a node with children gets a rule that
    catches the rest. *)
Definition append_other (name : string) (children : list (Rule F)) : outcome (list (Rule F)) :=
  match children with
  | [] => Ok []
  | _ => AppendChild children (mkRule (name +:+ "-other") None [])
  end.

Definition fold_nodes (f : DictNode → list (Rule F) → outcome (list (Rule F))) :
    list DictNode → list (Rule F) → outcome (list (Rule F)) :=
  fix fold ds acc :=
    match ds with
    | [] => Ok acc
    | d :: ds => acc ← f d acc; fold ds acc
    end.

(** The body of the loop of [_MakeRuleNodeFromDictNode].  A child is appended before
    its own children are made; [AppendChild] looks at its name only. *)
Fixpoint make_child (d : DictNode) (children : list (Rule F)) : outcome (list (Rule F)) :=
  let 'mkDictNode name filters dict_children := d in
  name ← of_option AssertionError name;
  filter ← rule_builder name filters;
  _ ← AppendChild children (mkRule name (Some filter) []);
  grandchildren ← fold_nodes make_child dict_children [];
  grandchildren ← append_other name grandchildren;
  AppendChild children (mkRule name (Some filter) grandchildren).

Definition MakeRuleNodeFromDictNode (name : string) (ds : list DictNode) : outcome (list (Rule F)) :=
  children ← fold_nodes make_child ds [];
  append_other name children.

Definition Load (rules_dict : list DictNode) : outcome (Rule F) :=
  children ← MakeRuleNodeFromDictNode "Total" rules_dict;
  Ok (mkRule "Total" None children).
End rules.

(** ** Results *)

Inductive Bucket (F : Type) := mkBucket (rule : Rule F) (values : list Z) (children : list (Bucket F)).
Arguments mkBucket {_} _ _ _.
Definition bucket_rule {F} (b : Bucket F) : Rule F := let 'mkBucket r _ _ := b in r.
Definition bucket_values {F} (b : Bucket F) : list Z := let 'mkBucket _ v _ := b in v.
Definition bucket_children {F} (b : Bucket F) : list (Bucket F) := let 'mkBucket _ _ cs := b in cs.
Definition bucket_name {F} (b : Bucket F) : string := rule_name (bucket_rule b).

Section results.
Context {F R : Type} (filter_matches : F → R → bool).

Definition Match (r : Rule F) (record : R) : bool :=
  match rule_filter r with None => true | Some f => filter_matches f record end.

Fixpoint MakeBucketNodeFromRule (r : Rule F) (num_keys : nat) : Bucket F :=
  mkBucket r (replicate num_keys 0)
    ((λ c, MakeBucketNodeFromRule c num_keys) <$> rule_children r).

(** The children up to the first that [f] finds to match. *)
Definition visit_children (f : Bucket F → bool * Bucket F) : list (Bucket F) → list (Bucket F) :=
  fix visit cs :=
    match cs with
    | [] => []
    | c :: cs => let '(matched, c) := f c in if (matched : bool) then c :: cs else c :: visit cs
    end.

(** [_AddToMatchingNodes]: whether the rule matches, and the bucket as it is
    then. *)
Fixpoint add_matching (record : R) (values : list Z) (b : Bucket F) : bool * Bucket F :=
  let 'mkBucket rule old children := b in
  if negb (Match rule record) then (false, b)
  else (true, mkBucket rule (zip_with Z.add old values)
                (visit_children (add_matching record values) children)).

(** [AggreatedResults]: its keys and the bucket of the root. *)
Record AggregatedResults := mkResults { keys : list string; total : Bucket F }.
Definition AggregatedResults_init (rule_tree : Rule F) (keys : list string) : AggregatedResults :=
  mkResults keys (MakeBucketNodeFromRule rule_tree (length keys)).
Definition AddToMatchingNodes (res : AggregatedResults) (record : R) (values : list Z) :
    outcome AggregatedResults :=
  assert_ (length values =? length (keys res))%nat;;
  Ok (mkResults (keys res) (snd (add_matching record values (total res)))).

(** The loop of [Classify]. *)
Fixpoint add_records (values : R → list Z) (records : list R) (res : AggregatedResults) :
    outcome AggregatedResults :=
  match records with
  | [] => Ok res
  | r :: records => res ← AddToMatchingNodes res r (values r); add_records values records res
  end.
End results.
Arguments AggregatedResults : clear implicits.

(** ** mmap_classifier.py *)

Section classifiers.
Context `{!RegexpEngine}.

Definition compile (message : string) (v : FilterValue) : outcome string :=
  match v with
  | FilterList _ => Raise (TypeError "unhashable type: 'list'")
  | FilterString p => if re_compiles p then Ok p else Raise (PyException message)
  end.

Definition _RESULT_KEYS : list string :=
  ["RSS"; "Private Dirty"; "Private Clean"; "Shared Dirty"; "Shared Clean"].

(** [_MmapRule]: the patterns for the file and the protection. *)
Record MmapFilter := mkMmapFilter { file_re : option string; prot_re : option string }.

Definition optional {A B} (f : A → outcome B) (o : option A) : outcome (option B) :=
  match o with None => Ok None | Some a => Some <$> f a end.

Definition MmapRule_init (name : string) (filters : gmap string FilterValue) : outcome MmapFilter :=
  file ← optional (compile "Regex parse error") (filters !! "mmap_file");
  prot ← optional (compile "Regex parse error") (filters !! "mmap_prot");
  Ok (mkMmapFilter file prot).

Definition MmapRule_Match (f : MmapFilter) (e : MapEntry) : bool :=
  match file_re f with Some p => re_finds p (mapped_file e) | None => true end &&
  match prot_re f with Some p => re_finds p (prot_flags e) | None => true end.

Definition mmap_LoadRules : list DictNode → outcome (Rule MmapFilter) := Load MmapRule_init.

Definition mmap_values (e : MapEntry) : list Z :=
  [priv_dirty_bytes e + priv_clean_bytes e + shared_dirty_bytes e + shared_clean_bytes e;
   priv_dirty_bytes e; priv_clean_bytes e; shared_dirty_bytes e; shared_clean_bytes e].

Definition mmap_Classify (mmap : Map) (rule_tree : Rule MmapFilter) :
    outcome (AggregatedResults MmapFilter) :=
  add_records MmapRule_Match mmap_values (entries mmap) (AggregatedResults_init rule_tree _RESULT_KEYS).

(** ** native_heap_classifier.py *)

(** [_NHeapRule] *)
Record NHeapFilter := mkNHeapFilter { stacktrace_regexs : list string; path_regex : option string }.

Definition NHeapRule_init (name : string) (filters : gmap string FilterValue) : outcome NHeapFilter :=
  let regexs := match filters !! "stacktrace" with
                | None => []
                | Some (FilterString s) => [s]
                | Some (FilterList l) => l
                end in
  stacktrace_regexs ← mapM (λ s, compile "Stacktrace regex error" (FilterString s)) regexs;
  path_regex ← match filters !! "source_path" with
               | None | Some (FilterString EmptyString) | Some (FilterList []) => Ok None
               | Some v => Some <$> compile "Path regex error" v
               end;
  Ok (mkNHeapFilter stacktrace_regexs path_regex).

(** A frame whose first source path a pattern finds something in, and one whose
    symbol it finds something in. *)
Definition path_found (p : string) (f : Frame) : bool :=
  match symbol f with
  | Some s => match source_info s with i :: _ => re_finds p (source_file_path i) | [] => false end
  | None => false
  end.
Definition symbol_found (p : string) (f : Frame) : bool :=
  match symbol f with Some s => re_finds p (symbol_name s) | None => false end.

(** The loop over the frames; [cur_regex] is the first of [regexs]. *)
Fixpoint stack_found (regexs : list string) (fs : list Frame) : bool :=
  match fs with
  | [] => false
  | f :: fs =>
      match regexs with
      | [] => true
      | cur_regex :: rest =>
          if symbol_found cur_regex f
          then match rest with [] => true | _ => stack_found rest fs end
          else stack_found regexs fs
      end
  end.

(** An allocation is seen with the frames of its stack trace. *)
Record StackAllocation := mkStackAllocation { sa_allocation : Allocation; sa_frames : list Frame }.

Definition NHeapRule_Match (x : NHeapFilter) (a : StackAllocation) : bool :=
  match path_regex x with Some p => existsb (path_found p) (sa_frames a) | None => true end &&
  match stacktrace_regexs x with [] => true | regexs => stack_found regexs (sa_frames a) end.

Definition nheap_LoadRules : list DictNode → outcome (Rule NHeapFilter) := Load NHeapRule_init.

Definition nheap_RESULT_KEYS : list string := ["bytes_allocated"; "bytes_resident"].

Definition nheap_records (h : NativeHeap) : list StackAllocation :=
  (λ a, mkStackAllocation a (omap (λ i, frames h !! i) (stack_trace a))) <$> allocations h.
Definition nheap_values (a : StackAllocation) : list Z :=
  [alloc_size (sa_allocation a); resident_size (sa_allocation a)].

Definition nheap_Classify (h : NativeHeap) (rule_tree : Rule NHeapFilter) :
    outcome (AggregatedResults NHeapFilter) :=
  add_records NHeapRule_Match nheap_values (nheap_records h)
    (AggregatedResults_init rule_tree nheap_RESULT_KEYS).
End classifiers.
