(* ===== verification/MemoryClassifierLaws.v ===== *)
(** The classifiers of the memory inspector: which rule files load and to which
    trees, what the buckets of the results hold, and what a stack trace filter
    matches. *)

From Stdlib Require Import String.
From S2P Require Import Prelude PyPath MemoryMap NativeHeap MemoryClassifiers.

#[local] Open Scope string_scope.
#[local] Open Scope list_scope.
#[local] Open Scope Z_scope.

(** ** Induction on trees *)

Definition Rule_ind' {F} (P : Rule F → Prop)
    (node : ∀ n f cs, Forall P cs → P (mkRule n f cs)) : ∀ r, P r :=
  fix ind r :=
    match r with
    | mkRule n f cs =>
        node n f cs ((fix all cs : Forall P cs :=
          match cs with
          | [] => Forall_nil_2 P
          | c :: cs => Forall_cons_2 P c cs (ind c) (all cs)
          end) cs)
    end.

Definition DictNode_ind' (P : DictNode → Prop)
    (node : ∀ n f ds, Forall P ds → P (mkDictNode n f ds)) : ∀ d, P d :=
  fix ind d :=
    match d with
    | mkDictNode n f ds =>
        node n f ds ((fix all ds : Forall P ds :=
          match ds with
          | [] => Forall_nil_2 P
          | d :: ds => Forall_cons_2 P d ds (ind d) (all ds)
          end) ds)
    end.

(** ** Loading *)

Section load.
Context {F : Type} (rule_builder : string → gmap string FilterValue → outcome F).

(** The children of a node with the rule that catches the rest. *)
Definition with_other (name : string) (rs : list (Rule F)) : list (Rule F) :=
  match rs with [] => [] | _ => rs ++ [mkRule (name +:+ "-other") None []] end.
Definition distinct_names (rs : list (Rule F)) : Prop := NoDup (rule_name <$> rs).

(** The rule that the dict of a node describes. *)
Inductive rule_of : DictNode → Rule F → Prop :=
  | rule_of_node name filters ds f rs :
      rule_builder name filters = Ok f → Forall2 rule_of ds rs →
      distinct_names (with_other name rs) →
      rule_of (mkDictNode (Some name) filters ds) (mkRule name (Some f) (with_other name rs)).

Lemma AppendChild_Ok (rs : list (Rule F)) r out :
  AppendChild rs r = Ok out ↔ rule_name r ∉ rule_name <$> rs ∧ out = rs ++ [r].
Proof.
  unfold AppendChild. case_bool_decide as Hf; cbn [assert_ mbind outcome_bind].
  - split; [intros [= <-]; split; [|done]|by intros [_ ->]].
    intros (x & Hx & Hin)%list_elem_of_fmap.
    by apply (filter_nil_not_elem_of (λ x, rule_name x = rule_name r) rs x Hf).
  - split; [done|]. intros [Hr _]. destruct Hf. apply filter_none. intros x Hx Heq. apply Hr.
    apply list_elem_of_fmap. by exists x.
Qed.

Lemma append_other_Ok name (rs out : list (Rule F)) : distinct_names rs →
  append_other name rs = Ok out ↔ out = with_other name rs ∧ distinct_names (with_other name rs).
Proof.
  intros Hd. unfold append_other, with_other, distinct_names in *. destruct rs as [|r rs].
  - split; [by intros [= <-]|by intros [-> _]].
  - rewrite AppendChild_Ok, fmap_app, NoDup_app. split; [intros [Hn ->]|intros [-> (_ & Hn & _)]].
    + split; [done|]. split; [done|]. split; [|apply NoDup_singleton].
      intros x Hx ->%list_elem_of_singleton. by apply Hn.
    + split; [|done]. intros Hin. apply (Hn _ Hin). by apply list_elem_of_singleton.
Qed.

Lemma with_other_distinct name (rs : list (Rule F)) :
  distinct_names (with_other name rs) → distinct_names rs.
Proof.
  unfold with_other, distinct_names. destruct rs as [|r rs]; [done|].
  rewrite fmap_app. by intros [? _]%NoDup_app.
Qed.

Lemma fold_nodes_Ok ds acc out :
  Forall (λ d, ∀ acc out, make_child rule_builder d acc = Ok out ↔
    ∃ r, rule_of d r ∧ rule_name r ∉ rule_name <$> acc ∧ out = acc ++ [r]) ds →
  distinct_names acc →
  fold_nodes (make_child rule_builder) ds acc = Ok out ↔
    ∃ rs, Forall2 rule_of ds rs ∧ distinct_names (acc ++ rs) ∧ out = acc ++ rs.
Proof.
  intros Hds. revert acc. induction Hds as [|d ds Hd _ IH]; intros acc Hacc; cbn [fold_nodes].
  - split.
    + intros [= <-]. exists []. rewrite app_nil_r. by split_and!.
    + intros (rs & Hrs & _ & ->). apply Forall2_nil_inv_l in Hrs as ->. by rewrite app_nil_r.
  - rewrite outcome_bind_Ok. unfold distinct_names in *. split.
    + intros (acc' & (r & Hr & Hn & ->)%Hd & Hrun). apply IH in Hrun as (rs & Hrs & Hdup & ->).
      * exists (r :: rs). rewrite <- app_assoc in *. split_and!; [by constructor|done|done].
      * rewrite fmap_app. apply NoDup_app. split; [done|]. split; [|apply NoDup_singleton].
        intros x Hx ->%list_elem_of_singleton. by apply Hn.
    + intros (rs & Hrs & Hdup & ->). apply Forall2_cons_inv_l in Hrs as (r & rs' & Hr & Hrs & ->).
      rewrite (cons_middle r), app_assoc in Hdup. exists (acc ++ [r]).
      assert (NoDup (rule_name <$> acc ++ [r])) as Hdup'.
      { rewrite fmap_app in Hdup. by apply NoDup_app in Hdup as [? _]. }
      split.
      * apply Hd. exists r. split_and!; [done| |done]. rewrite fmap_app in Hdup'.
        apply NoDup_app in Hdup' as (_ & Hn & _). intros Hin. apply (Hn _ Hin).
        by apply list_elem_of_singleton.
      * apply IH; [done|]. exists rs'. by rewrite <- app_assoc in *.
Qed.

Lemma make_child_Ok d acc out :
  make_child rule_builder d acc = Ok out ↔
    ∃ r, rule_of d r ∧ rule_name r ∉ rule_name <$> acc ∧ out = acc ++ [r].
Proof.
  revert acc out. induction d as [name filters ds IH] using DictNode_ind'. intros acc out.
  cbn [make_child]. assert (distinct_names []) as Hnil by apply NoDup_nil_2. split.
  - destruct name as [name|]; [|done]. cbn [of_option].
    intros (? & [= <-] & (f & Hf & (? & _ & (g & Hg & (g' & Hg' & Happ)%outcome_bind_Ok)
      %outcome_bind_Ok)%outcome_bind_Ok)%outcome_bind_Ok)%outcome_bind_Ok.
    apply (fold_nodes_Ok ds [] g IH Hnil) in Hg as (rs & Hrs & Hdup & ->).
    apply append_other_Ok in Hg' as [-> Hother]; [|done].
    apply AppendChild_Ok in Happ as [Hn ->]. eexists. split; [by econstructor|done].
  - intros (r & Hr & Hn & ->). inversion Hr as [name' filters' ds' f rs Hf Hrs Hother Hname]; subst.
    cbn [of_option mbind outcome_bind]. rewrite Hf. cbn [mbind outcome_bind].
    rewrite (proj2 (AppendChild_Ok acc (mkRule name' (Some f) []) _) (conj Hn eq_refl)). cbn [mbind outcome_bind].
    pose proof (with_other_distinct _ _ Hother) as Hdup.
    rewrite (proj2 (fold_nodes_Ok ds [] rs IH Hnil)) by (by exists rs). cbn [mbind outcome_bind].
    rewrite (proj2 (append_other_Ok name' rs _ Hdup) (conj eq_refl Hother)). cbn [mbind outcome_bind].
    by apply AppendChild_Ok.
Qed.

(** C29: A rule file loads exactly when every dict has a name and filters that
    compile and no two siblings, the implicit rule for the rest included, have the
    same name; the tree has the rules in the order of the file, and every node with
    children has the rule for the rest behind them. *)
Theorem Load_rules rules_dict root :
  Load rule_builder rules_dict = Ok root ↔
    ∃ rs, Forall2 rule_of rules_dict rs ∧ distinct_names (with_other "Total" rs) ∧
      root = mkRule "Total" None (with_other "Total" rs).
Proof.
  unfold Load, MakeRuleNodeFromDictNode. rewrite outcome_bind_Ok.
  assert (distinct_names []) as Hnil by apply NoDup_nil_2.
  assert (∀ out, fold_nodes (make_child rule_builder) rules_dict [] = Ok out ↔
    ∃ rs, Forall2 rule_of rules_dict rs ∧ distinct_names ([] ++ rs) ∧ out = [] ++ rs) as Hfold.
  { intros out. apply fold_nodes_Ok; [|done]. apply Forall_forall. intros d _. apply make_child_Ok. }
  split.
  - intros (cs & (rs & (rs' & Hrs & Hdup & ->)%Hfold & Hother)%outcome_bind_Ok & [= <-]).
    apply append_other_Ok in Hother as [-> Hother]; [|done]. by exists rs'.
  - intros (rs & Hrs & Hother & ->). exists (with_other "Total" rs). split; [|done].
    pose proof (with_other_distinct _ _ Hother) as Hdup.
    rewrite (proj2 (Hfold rs)) by (by exists rs). cbn [mbind outcome_bind].
    by apply append_other_Ok.
Qed.
End load.

(** ** Counting *)

Section tally.
Context {F R : Type} (filter_matches : F → R → bool) (values : R → list Z) (num_keys : nat).
Context (values_length : ∀ x, length (values x) = num_keys).

Abbreviation matches := (Match filter_matches).

(** The sums of the values of some records, column by column. *)
Definition column (k : nat) (records : list R) : Z :=
  py_sum ((λ x, default 0 (values x !! k)) <$> records).
Definition totals (records : list R) : list Z := (λ k, column k records) <$> seq 0 num_keys.

(** The buckets of a rule for records that it matches: a child gets those that match
    it and none of its elder siblings. *)
Definition tally_children (f : Rule F → list R → Bucket F) :
    list (Rule F) → list R → list (Bucket F) :=
  fix tally cs records :=
    match cs with
    | [] => []
    | c :: cs =>
        f c (base.filter (λ x, matches c x = true) records) ::
        tally cs (base.filter (λ x, matches c x = false) records)
    end.
Fixpoint tally (r : Rule F) (records : list R) : Bucket F :=
  mkBucket r (totals records) (tally_children tally (rule_children r) records).

Lemma zip_with_columns (f g : nat → Z) l :
  zip_with Z.add (f <$> l) (g <$> l) = (λ k, f k + g k) <$> l.
Proof. induction l as [|k l IH]; [done|]. rewrite !fmap_cons. cbn. by rewrite IH. Qed.

Lemma values_columns x : values x = (λ k, default 0 (values x !! k)) <$> seq 0 num_keys.
Proof.
  apply list_eq. intros i. rewrite list_lookup_fmap. destruct (decide (i < num_keys)%nat) as [Hi|Hi].
  - rewrite lookup_seq_lt by done. cbn. destruct (lookup_lt_is_Some_2 (values x) i) as [z ->]; [by rewrite values_length|done].
  - rewrite lookup_seq_ge by lia. apply lookup_ge_None. rewrite values_length. lia.
Qed.

Lemma totals_snoc records x : zip_with Z.add (totals records) (values x) = totals (records ++ [x]).
Proof.
  unfold totals. rewrite (values_columns x) at 1. rewrite zip_with_columns.
  apply list_fmap_ext. intros _ k _. unfold column. rewrite fmap_app, py_sum_app. cbn. lia.
Qed.

Lemma totals_nil : totals [] = replicate num_keys 0.
Proof. unfold totals. by rewrite (const_fmap _ _ 0), length_seq. Qed.

Lemma MakeBucket_tally r : MakeBucketNodeFromRule r num_keys = tally r [].
Proof.
  induction r as [n f cs IH] using Rule_ind'. cbn [MakeBucketNodeFromRule tally rule_children].
  f_equal.
  - by rewrite totals_nil.
  - induction IH as [|c cs Hc _ IH]; [done|]. rewrite fmap_cons. cbn [tally_children]. by rewrite Hc, IH.
Qed.

Lemma add_tally r records x :
  add_matching filter_matches x (values x) (tally r records) =
    if matches r x then (true, tally r (records ++ [x])) else (false, tally r records).
Proof.
  revert records. induction r as [n f cs IH] using Rule_ind'. intros records.
  cbn [tally rule_children add_matching]. destruct (matches _ x); cbn [negb]; [|done].
  rewrite totals_snoc. do 2 f_equal. revert records.
  induction IH as [|c cs Hc _ IH]; intros records; [done|]. cbn [tally_children visit_children].
  rewrite Hc, !filter_app. destruct (matches c x) eqn:Hm.
  - rewrite (filter_singleton_True _ x []), (filter_singleton_False _ x []), app_nil_r by congruence. done.
  - rewrite (filter_singleton_False _ x []), (filter_singleton_True _ x []), app_nil_r by congruence.
    by rewrite IH.
Qed.

Lemma add_records_tally ks root before records : length ks = num_keys →
  add_records filter_matches values records
    (mkResults ks (tally root (base.filter (λ x, matches root x = true) before))) =
  Ok (mkResults ks (tally root (base.filter (λ x, matches root x = true) (before ++ records)))).
Proof.
  intros Hks. revert before. induction records as [|x records IH]; intros before; cbn [add_records].
  { by rewrite app_nil_r. }
  unfold AddToMatchingNodes. cbn [keys total]. rewrite values_length, Hks, Nat.eqb_refl.
  cbn [assert_ mbind outcome_bind]. rewrite add_tally.
  replace (before ++ x :: records) with ((before ++ [x]) ++ records) by (by rewrite <- app_assoc).
  rewrite <- IH. do 2 f_equal. rewrite filter_app. destruct (matches root x) eqn:Hm; cbn [snd].
  - by rewrite (filter_singleton_True _ x []).
  - by rewrite (filter_singleton_False _ x []), app_nil_r by congruence.
Qed.

(** ** Conservation *)

(** Every node with children has one that matches all. *)
Inductive complete : Rule F → Prop :=
  | complete_node n f cs :
      cs = [] ∨ (∃ c, c ∈ cs ∧ rule_filter c = None) → Forall complete cs → complete (mkRule n f cs).

(** The values of every bucket with children are the sums of those of its
    children. *)
Inductive balanced : Bucket F → Prop :=
  | balanced_node r vs bs :
      bs = [] ∨ vs = foldr (zip_with Z.add) (replicate num_keys 0) (bucket_values <$> bs) →
      Forall balanced bs → balanced (mkBucket r vs bs).

Lemma totals_partition (P : R → bool) records :
  totals records = zip_with Z.add (totals (base.filter (λ x, P x = true) records))
                                  (totals (base.filter (λ x, P x = false) records)).
Proof.
  unfold totals. rewrite zip_with_columns. apply list_fmap_ext. intros _ k _. unfold column.
  induction records as [|x records IH]; [done|]. rewrite !filter_cons.
  destruct (P x) eqn:Hx; [rewrite decide_True, decide_False by congruence|rewrite decide_False, decide_True by congruence];
    rewrite !fmap_cons; cbn [py_sum foldr]; unfold py_sum in *; lia.
Qed.

Lemma tally_children_sum cs records : (∃ c, c ∈ cs ∧ rule_filter c = None) →
  totals records =
    foldr (zip_with Z.add) (replicate num_keys 0) (bucket_values <$> tally_children tally cs records).
Proof.
  revert records. assert (∀ cs records, records = [] → totals [] =
    foldr (zip_with Z.add) (replicate num_keys 0) (bucket_values <$> tally_children tally cs records)) as Hnil.
  { intros ks. induction ks as [|c ks IH]; intros records ->; [apply totals_nil|].
    cbn [tally_children]. rewrite !filter_nil, fmap_cons. cbn [foldr]. rewrite <- (IH [] eq_refl).
    destruct c as [n f gs]. exact (totals_partition (λ _, true) []). }
  induction cs as [|c cs IH]; intros records (c' & Hin & Hall); [by apply not_elem_of_nil in Hin|].
  cbn [tally_children]. rewrite fmap_cons. cbn [foldr]. rewrite (totals_partition (matches c) records).
  destruct c as [n f gs]. cbn [tally bucket_values]. f_equal.
  apply elem_of_cons in Hin as [->|Hin]; [|apply IH; by exists c'].
  cbn in Hall. subst f. rewrite (filter_none _ records); [by apply Hnil|]. done.
Qed.

Lemma tally_balanced r records : complete r → balanced (tally r records).
Proof.
  revert records. induction r as [n f cs IH] using Rule_ind'. intros records Hr.
  inversion Hr as [n' f' cs' Hcs Hall]; subst. cbn [tally rule_children]. constructor.
  - destruct Hcs as [->|Hcs]; [by left|]. right. by apply tally_children_sum.
  - clear Hcs Hr. revert records. induction IH as [|c cs Hc _ IHcs]; intros records; [constructor|].
    apply Forall_cons in Hall as [Hcc Hall]. cbn [tally_children]. constructor; [by apply Hc|by apply IHcs].
Qed.
End tally.

(** Loaded trees are complete. *)
Lemma with_other_complete {F} name (rs : list (Rule F)) n f :
  Forall complete rs → complete (mkRule n f (with_other name rs)).
Proof.
  intros Hrs. constructor.
  - unfold with_other. destruct rs as [|r rs]; [by left|right].
    eexists. split; [apply elem_of_app; right; by apply list_elem_of_singleton|done].
  - unfold with_other. destruct rs as [|r rs]; [constructor|]. apply Forall_app. split; [done|].
    apply Forall_singleton. constructor; [by left|constructor].
Qed.

Lemma rule_of_complete {F} (rule_builder : string → gmap string FilterValue → outcome F) d r :
  rule_of rule_builder d r → complete r.
Proof.
  revert r. induction d as [name filters ds IH] using DictNode_ind'. intros r Hr.
  inversion Hr as [name' filters' ds' f rs Hf Hrs Hother]; subst. apply with_other_complete.
  clear Hr Hother. revert rs Hrs. induction IH as [|d ds Hd _ IHds]; intros rs Hrs.
  - apply Forall2_nil_inv_l in Hrs as ->. constructor.
  - apply Forall2_cons_inv_l in Hrs as (r & rs' & Hr & Hrs & ->). constructor; [by apply Hd|by apply IHds].
Qed.

Lemma Load_root {F} (rule_builder : string → gmap string FilterValue → outcome F) ds root :
  Load rule_builder ds = Ok root → complete root ∧ rule_filter root = None.
Proof.
  unfold Load, MakeRuleNodeFromDictNode. intros (cs & Hcs & [= <-])%outcome_bind_Ok. split; [|done].
  apply outcome_bind_Ok in Hcs as (rs & Hrs & Hother).
  assert (∃ rs', Forall2 (rule_of rule_builder) ds rs' ∧ distinct_names ([] ++ rs') ∧ rs = [] ++ rs')
    as (rs' & Hds & Hdup & ->).
  { apply fold_nodes_Ok; [|apply NoDup_nil_2|done]. apply Forall_forall. intros d _. apply make_child_Ok. }
  apply append_other_Ok in Hother as [-> _]; [|done]. apply with_other_complete.
  clear Hdup Hrs. cbn. induction Hds as [|d r ds' rs Hd _ IH]; [constructor|].
  constructor; [by eapply rule_of_complete|done].
Qed.

Section classify.
Context `{!RegexpEngine}.

(** What the classifiers compute. *)
Definition mmap_tally (tree : Rule MmapFilter) (es : list MapEntry) : Bucket MmapFilter :=
  tally MmapRule_Match mmap_values 5 tree (base.filter (λ e, Match MmapRule_Match tree e = true) es).
Definition nheap_tally (tree : Rule NHeapFilter) (xs : list StackAllocation) : Bucket NHeapFilter :=
  tally NHeapRule_Match nheap_values 2 tree (base.filter (λ x, Match NHeapRule_Match tree x = true) xs).

Lemma mmap_Classify_run m tree :
  mmap_Classify m tree = Ok (mkResults _RESULT_KEYS (mmap_tally tree (entries m))).
Proof.
  unfold mmap_Classify, AggregatedResults_init.
  rewrite (MakeBucket_tally MmapRule_Match mmap_values (length _RESULT_KEYS)).
  exact (add_records_tally MmapRule_Match mmap_values 5 (λ _, eq_refl) _RESULT_KEYS tree [] (entries m) eq_refl).
Qed.

Lemma nheap_Classify_run h tree :
  nheap_Classify h tree = Ok (mkResults nheap_RESULT_KEYS (nheap_tally tree (nheap_records h))).
Proof.
  unfold nheap_Classify, AggregatedResults_init.
  rewrite (MakeBucket_tally NHeapRule_Match nheap_values (length nheap_RESULT_KEYS)).
  exact (add_records_tally NHeapRule_Match nheap_values 2 (λ _, eq_refl) nheap_RESULT_KEYS tree []
    (nheap_records h) eq_refl).
Qed.

(** C16: Classifying one record after the other, with buckets that change in place,
    computes for every rule the sums over the records it is the first to match:
    those its parent holds, no elder sibling matches and it matches itself. *)
Theorem Classify_tally :
  (∀ m tree, mmap_Classify m tree = Ok (mkResults _RESULT_KEYS (mmap_tally tree (entries m)))) ∧
  (∀ h tree, nheap_Classify h tree =
    Ok (mkResults nheap_RESULT_KEYS (nheap_tally tree (nheap_records h)))).
Proof. split; [apply mmap_Classify_run|apply nheap_Classify_run]. Qed.

(** C27: With the rules of a file nothing is lost: the values of every bucket with
    children are the sums of those of its children, and the root has the sums over
    all records. *)
Theorem Classify_balanced m h mmap_rules nheap_rules mmap_dicts nheap_dicts :
  mmap_LoadRules mmap_dicts = Ok mmap_rules → nheap_LoadRules nheap_dicts = Ok nheap_rules →
  (∃ b, mmap_Classify m mmap_rules = Ok (mkResults _RESULT_KEYS b) ∧ balanced 5 b ∧
     bucket_values b = totals mmap_values 5 (entries m)) ∧
  (∃ b, nheap_Classify h nheap_rules = Ok (mkResults nheap_RESULT_KEYS b) ∧ balanced 2 b ∧
     bucket_values b = totals nheap_values 2 (nheap_records h)).
Proof.
  intros [Hm Hmf]%Load_root [Hh Hhf]%Load_root.
  assert (∀ {F R} (fm : F → R → bool) (tree : Rule F) (xs : list R), rule_filter tree = None →
    base.filter (λ x, Match fm tree x = true) xs = xs) as Hall.
  { intros F R fm tree xs Hf. apply filter_all. intros x _. unfold Match. by rewrite Hf. }
  split.
  - eexists. split; [apply mmap_Classify_run|]. split; [by apply tally_balanced|].
    unfold mmap_tally. rewrite Hall by done. by destruct mmap_rules.
  - eexists. split; [apply nheap_Classify_run|]. split; [by apply tally_balanced|].
    unfold nheap_tally. rewrite Hall by done. by destruct nheap_rules.
Qed.

(** ** Stack traces *)

Lemma stack_found_spec regexs fs : regexs ≠ [] →
  stack_found regexs fs = true ↔
    ∃ gs, gs `sublist_of` fs ∧ Forall2 (λ p g, symbol_found p g = true) regexs gs.
Proof.
  revert regexs. induction fs as [|f fs IH]; intros [|p rest] Hne; try done.
  - cbn. split; [done|]. intros (gs & ->%sublist_nil_r & Hgs). by apply Forall2_nil_inv_r in Hgs.
  - cbn [stack_found]. destruct (symbol_found p f) eqn:Hf.
    + assert (match rest with [] => true | _ => stack_found rest fs end = true ↔
        ∃ gs, gs `sublist_of` fs ∧ Forall2 (λ p g, symbol_found p g = true) rest gs) as ->.
      { destruct rest as [|q rest]; [|by apply IH]. split; [|done]. intros _. exists [].
        split; [apply sublist_nil_l|constructor]. }
      split.
      * intros (gs & Hsub & Hgs). exists (f :: gs). split; [by apply sublist_skip|by constructor].
      * intros (gs & Hsub & Hgs). apply Forall2_cons_inv_l in Hgs as (g & gs' & Hg & Hgs & ->).
        exists gs'. split; [|done]. apply sublist_cons_r in Hsub as [Hsub|(l' & [= -> ->] & Hsub)]; [|done].
        etrans; [|exact Hsub]. by apply sublist_cons.
    + rewrite IH by done. split.
      * intros (gs & Hsub & Hgs). exists gs. split; [by apply sublist_cons|done].
      * intros (gs & Hsub & Hgs). exists gs. split; [|done].
        apply sublist_cons_r in Hsub as [Hsub|(l' & -> & Hsub)]; [done|].
        apply Forall2_cons_inv_l in Hgs as (g & gs' & Hg & _ & [= <- <-]). congruence.
Qed.

(** A native heap rule matches an allocation exactly when some frame has a source
    path for its path pattern, if it has one, and its stack patterns are found, one
    after the other, in the symbols of frames in the order of the stack. *)
Theorem NHeapRule_Match_spec x a :
  NHeapRule_Match x a = true ↔
    (∀ p, path_regex x = Some p → ∃ f, f ∈ sa_frames a ∧ path_found p f = true) ∧
    ∃ gs, gs `sublist_of` sa_frames a ∧ Forall2 (λ p g, symbol_found p g = true) (stacktrace_regexs x) gs.
Proof.
  unfold NHeapRule_Match. rewrite andb_true_iff.
  assert (match path_regex x with Some p => existsb (path_found p) (sa_frames a) | None => true end = true ↔
    ∀ p, path_regex x = Some p → ∃ f, f ∈ sa_frames a ∧ path_found p f = true) as ->.
  { destruct (path_regex x) as [p|]; [|done]. rewrite existsb_exists. setoid_rewrite list_elem_of_In.
    naive_solver. }
  destruct (stacktrace_regexs x) as [|p rest]; [|by rewrite stack_found_spec].
  split; [|by intros [? _]]. intros [Hp _]. split; [done|]. exists [].
  split; [apply sublist_nil_l|constructor].
Qed.
End classify.
