(* ===== verification/MemoryExample.v ===== *)
(** The tests of the memory inspector's classifiers, run on the model. *)

From Stdlib Require Import String.
From S2P Require Import Prelude PyPath MemoryMap NativeHeap MemoryClassifiers MemoryClassifierLaws.

#[local] Open Scope string_scope.
#[local] Open Scope list_scope.
#[local] Open Scope Z_scope.

(** Patterns that are literal but for a leading anchor. *)
Definition literal_patterns : RegexpEngine := {|
  re_compiles := λ p, negb (String.eqb p "(");
  re_finds := λ p s, match strip_prefix "^" p with Some p => startswith p s | None => contains p s end
|}.

Definition node (name key pattern : string) (children : list DictNode) : DictNode :=
  mkDictNode (Some name) {[key := FilterString pattern]} children.

(** [mmap_classifier_unittest.py] *)
Definition TEST_RULES : list DictNode :=
  [node "anon" "mmap_file" "^[anon" [node "jit" "mmap_prot" "r-x" []];
   node "dev" "mmap_file" "^/dev" [node "gpu" "mmap_file" "/gpu" []];
   node "lib" "mmap_file" ".so" [node "data" "mmap_prot" "rw" []; node "text" "mmap_prot" "r-x" []]].

Definition TEST_MMAPS : list MapEntry :=
  (λ '(s, e, prot, file, pd, pc, sd, sc), mkMapEntry s e prot file 0 pd pc sd sc []) <$>
  [(0x00000, 0x03fff, "rw--", "[anon]", 4096, 0, 4096, 0);
   (0x04000, 0x07fff, "rw--", "/lib/1.so", 8192, 0, 0, 0);
   (0x08000, 0x0bfff, "r-x-", "/lib/1.so", 4096, 8192, 0, 0);
   (0x0c000, 0x0ffff, "rw--", "/lib/2.so", 0, 0, 4096, 8192);
   (0x10000, 0x13fff, "r-x-", "/lib/2.so", 0, 12288, 0, 4096);
   (0x14000, 0x17fff, "rw--", "/dev/gpu/1", 4096, 0, 0, 0);
   (0x18000, 0x1bfff, "rw--", "/dev/gpu/2", 8192, 0, 4096, 0);
   (0x1c000, 0x1ffff, "rw--", "/dev/foo", 0, 4096, 0, 8192);
   (0x20000, 0x23fff, "r-x-", "[anon:jit]", 8192, 0, 4096, 0);
   (0x24000, 0x27fff, "r---", "OTHER", 0, 0, 8192, 0)].

Fixpoint named_values {F} (b : Bucket F) : list (string * list Z) :=
  let 'mkBucket r vs bs := b in (rule_name r, tail vs) :: concat (named_values <$> bs).

Definition loaded {F} (o : outcome (Rule F)) : Rule F :=
  match o with Ok r => r | Raise _ => mkRule "" None [] end.
Definition mmap_test_rules : Rule MmapFilter :=
  let _ := literal_patterns in loaded (mmap_LoadRules TEST_RULES).

Lemma MmapClassifierTest :
  let _ := literal_patterns in
  (m ← adds Map_init TEST_MMAPS; res ← mmap_Classify m mmap_test_rules; Ok (named_values (total res))) =
  Ok [("Total", [36864; 24576; 24576; 20480]);
      ("anon", [12288; 0; 8192; 0]); ("jit", [8192; 0; 4096; 0]); ("anon-other", [4096; 0; 4096; 0]);
      ("dev", [12288; 4096; 4096; 8192]); ("gpu", [12288; 0; 4096; 0]); ("dev-other", [0; 4096; 0; 8192]);
      ("lib", [12288; 20480; 4096; 12288]); ("data", [8192; 0; 4096; 8192]);
      ("text", [4096; 20480; 0; 4096]); ("lib-other", [0; 0; 0; 0]); ("Total-other", [0; 0; 8192; 0])].
Proof. vm_compute. reflexivity. Qed.

(** [native_heap_classifier_unittest.py] *)
Definition NATIVE_RULES : list DictNode :=
  [node "content" "source_path" "content/"
     [mkDictNode (Some "browser") {["stacktrace" := FilterString "content::browser";
                                    "source_path" := FilterString "content/browser"]} [];
      node "renderer" "stacktrace" "content::renderer" []];
   mkDictNode (Some "ashmem_in_skia") {["stacktrace" := FilterList ["sk::"; "ashmem::"]]} []].

Definition traces : list (Z * list (string * string)) :=
  [(3, [("stack_frame_0::foo()", "/ignored.c"); ("this_goes_under_totals_other", "/ignored.c")]);
   (5, [("foo", "/ignored.c"); ("content::browser::something()", "/content/browser/something.cc");
        ("bar", "/ignored.c")]);
   (11, [("content::browser::not_really()", "/content/subtle/something.cc"); ("foo", "/ignored.c")]);
   (13, [("foo", "/ignored.c"); ("content::renderer::something()", "/content/renderer/foo.c")]);
   (31, [("foo", "/ignored.c"); ("sk::something", "/skia/something.c"); ("foo::bar", "/ignored.c");
         ("sk::foo::ashmem::alloc()", "/skia/ashmem.c")]);
   (43, [("foo::ashmem::alloc()", "/ignored.c"); ("sk::foo", "/ignored.c")])].

Definition native_test_heap : NativeHeap :=
  let fs := concat (snd <$> traces) in
  mkNativeHeap
    (snd (foldl (λ '(n, l) '(size, t), ((n + length t)%nat, l ++ [mkAllocation size (seq n (length t)) 0 0 0]))
       (0%nat, []) traces))
    ∅ ((λ x, mkFrame 0 (Some (mkSymbol (fst x) [mkSourceInfo (snd x) 0])) None None) <$> fs).

Definition native_test_rules : Rule NHeapFilter :=
  let _ := literal_patterns in loaded (nheap_LoadRules NATIVE_RULES).

Lemma NativeHeapClassifierTest :
  let _ := literal_patterns in
  (res ← nheap_Classify native_test_heap native_test_rules;
   Ok ((λ b, (bucket_name b, bucket_values b)) <$> total res :: bucket_children (total res))) =
  Ok [("Total", [106; 0]); ("content", [29; 0]); ("ashmem_in_skia", [31; 0]); ("Total-other", [46; 0])].
Proof. vm_compute. reflexivity. Qed.

(** Two siblings of the same name, and one with the name of the rule for the rest. *)
Example duplicate_rules :
  let _ := literal_patterns in
  mmap_LoadRules [node "a" "mmap_file" "x" []; node "a" "mmap_file" "y" []] = Raise AssertionError ∧
  mmap_LoadRules [node "Total-other" "mmap_file" "x" []] = Raise AssertionError ∧
  mmap_LoadRules [node "a" "mmap_file" "(" []] = Raise (PyException "Regex parse error").
Proof. vm_compute. done. Qed.

Lemma Classify_balanced_witness :
  let _ := literal_patterns in
  (∃ b, mmap_Classify (mkMap TEST_MMAPS) mmap_test_rules = Ok (mkResults _RESULT_KEYS b) ∧ balanced 5 b ∧
     bucket_values b = [106496; 36864; 24576; 24576; 20480]) ∧
  (∃ b, nheap_Classify native_test_heap native_test_rules = Ok (mkResults nheap_RESULT_KEYS b) ∧
     balanced 2 b ∧ bucket_values b = [106; 0]).
Proof.
  exact (@Classify_balanced literal_patterns (mkMap TEST_MMAPS) native_test_heap mmap_test_rules
    native_test_rules TEST_RULES NATIVE_RULES ltac:(vm_compute; reflexivity) ltac:(vm_compute; reflexivity)).
Defined.
