(* ===== verification/BisectBuilds.v ===== *)
(** bisect-builds.py, src/src/tools: the search for the build that broke something,
    which downloads in the background the two builds it may need next.

    Builds are elements of a type [A].  What is asked about them is the parameter
    [evaluate]: the answer to the call of a number about a build.  A download that
    was started is a number; its file is there until it is stopped.  (In the code two
    downloads of one build, which a Retry or the verification of a range of two builds
    can start, have one path.)  Running a build and printing change nothing here. *)

From S2P Require Import Prelude.

Section bisect.
Context {A : Type}.

(** [evaluate]'s answers; [Quit] is the exception SystemExit. *)
Inductive Answer := Good | Bad | Retry | Unknown | Quit | Unexpected.

#[export] Instance Answer_eq_dec : EqDecision Answer.
Proof. solve_decision. Defined.

Context (evaluate : nat → A → Answer) (run_raises : A → bool).

(** The variables of [Bisect], the downloads, and what has been answered. *)
Record Search := mkSearch {
  revlist : list A;
  minrev : nat;
  maxrev : nat;
  pivot : nat;
  rev : A;
  fetch : option nat;
  next_job : nat;
  running : gset nat;
  answers : list (A * Answer)
}.

Abbreviation B := (M Search).

Definition set_range (l : list A) (lo hi : nat) (s : Search) : Search :=
  mkSearch l lo hi (pivot s) (rev s) (fetch s) (next_job s) (running s) (answers s).
Definition set_minrev (n : nat) (s : Search) : Search := set_range (revlist s) n (maxrev s) s.
Definition set_maxrev (n : nat) (s : Search) : Search := set_range (revlist s) (minrev s) n s.
Definition set_pivot (n : nat) (s : Search) : Search :=
  mkSearch (revlist s) (minrev s) (maxrev s) n (rev s) (fetch s) (next_job s) (running s) (answers s).
Definition set_rev (r : A) (s : Search) : Search :=
  mkSearch (revlist s) (minrev s) (maxrev s) (pivot s) r (fetch s) (next_job s) (running s) (answers s).
Definition set_fetch (f : option nat) (s : Search) : Search :=
  mkSearch (revlist s) (minrev s) (maxrev s) (pivot s) (rev s) f (next_job s) (running s) (answers s).
Definition set_running (n : nat) (r : gset nat) (s : Search) : Search :=
  mkSearch (revlist s) (minrev s) (maxrev s) (pivot s) (rev s) (fetch s) n r (answers s).
Definition add_answer (r : A) (a : Answer) (s : Search) : Search :=
  mkSearch (revlist s) (minrev s) (maxrev s) (pivot s) (rev s) (fetch s) (next_job s) (running s)
    (answers s ++ [(r, a)]).

(** [revlist[i]] *)
Definition rev_at (i : nat) : B A := r ← gets (λ s, revlist s !! i); lift (of_option IndexError r).

(** ** DownloadJob *)

(** [DownloadJob(...)] and [Start] *)
Definition start_job : B nat :=
  n ← gets next_job;
  modify (λ s, set_running (S n) ({[n]} ∪ running s) s);;
  mret n.

(** [Stop]: unlinking the file raises when it is gone. *)
Definition Stop (job : nat) : B unit :=
  there ← gets (λ s, bool_decide (job ∈ running s));
  if (there : bool) then modify (λ s, set_running (next_job s) (running s ∖ {[job]}) s)
  else raise (OSError 2).

(** [job.Stop()] and [job.WaitFor()] of a variable that may be [None]. *)
Definition with_job (job : option nat) (f : nat → B unit) : B unit :=
  match job with None => raise (AttributeError "NoneType") | Some j => f j end.
Definition stop_if (job : option nat) : B unit :=
  match job with None => mret () | Some j => Stop j end.
Definition WaitFor (job : nat) : B unit :=
  known ← gets (λ s, bool_decide (job < next_job s));
  lift (assert_ known).

Definition ask (r : A) : B Answer :=
  n ← gets (λ s, length (answers s));
  let a := evaluate n r in
  modify (add_answer r a);;
  match a with Quit => raise SystemExit | _ => mret a end.

(** The question inside the loop: on SystemExit the files of the pivot and of the two
    builds downloaded for the next round are unlinked. *)
Definition ask_or_clean (r : A) (jobs : list nat) : B Answer := λ s,
  match ask r s with
  | (Raise SystemExit, s) =>
      (Raise SystemExit, set_running (next_job s) (running s ∖ list_to_set jobs) s)
  | result => result
  end.

(** ** Verifying the range *)

Definition VerifyEndpoint (job : nat) (r : A) (expected : Answer) : B unit :=
  WaitFor job;;
  if run_raises r then raise (UnboundLocalError "exit_status")
  else
    a ← ask r;
    when (bool_decide (a ≠ expected)) (raise SystemExit).

(** The [except] and the [finally] of the verification. *)
Definition verify (f min_job max_job : nat) (min_rev max_rev : A) (low high : Answer) : B unit := λ s,
  let '(r, s) := (VerifyEndpoint min_job min_rev low;; VerifyEndpoint max_job max_rev high) s in
  let '(r, s) := match r with
                 | Raise SystemExit => (Stop f;; raise SystemExit) s
                 | _ => (r, s)
                 end in
  match (Stop min_job;; Stop max_job) s with
  | (Ok _, s) => (r, s)
  | (Raise e, s) => (Raise e, s)
  end.

(** ** The search *)

(** The download of a possible next pivot, unless it is one already or the bound. *)
Definition pre_fetch (next_pivot pivot bound : nat) : B (option nat) :=
  if negb (next_pivot =? pivot)%nat && negb (next_pivot =? bound)%nat
  then _ ← rev_at next_pivot; j ← start_job; mret (Some j)
  else mret None.

(** Which of the two pre-fetched builds is next when the pivot is nuked. *)
Definition other_pivot (len : nat) (up_fetch down_fetch : option nat) : option nat :=
  match up_fetch, down_fetch with
  | Some u, Some d => Some (if Nat.even len then u else d)
  | Some u, None => Some u
  | None, _ => down_fetch
  end.

(** The three ways an answer changes the search. *)
Definition go_up (up_pivot : nat) (up_fetch down_fetch : option nat) : B unit :=
  f ← gets fetch; with_job f Stop;;
  p ← gets pivot; modify (set_minrev p);;
  match down_fetch with
  | Some d => Stop d;; modify (set_fetch None)
  | None => mret ()
  end;;
  match up_fetch with
  | Some u => WaitFor u;; modify (set_pivot up_pivot);; modify (set_fetch (Some u))
  | None => mret ()
  end.

Definition go_down (down_pivot : nat) (up_fetch down_fetch : option nat) : B unit :=
  f ← gets fetch; with_job f Stop;;
  p ← gets pivot; modify (set_maxrev p);;
  match up_fetch with
  | Some u => Stop u;; modify (set_fetch None)
  | None => mret ()
  end;;
  match down_fetch with
  | Some d => WaitFor d;; modify (set_pivot down_pivot);; modify (set_fetch (Some d))
  | None => mret ()
  end.

Definition nuke (up_pivot down_pivot : nat) (up_fetch down_fetch : option nat) : B unit :=
  f ← gets fetch; with_job f Stop;;
  modify (λ s, set_range (delete (pivot s) (revlist s)) (minrev s) (maxrev s - 1) s);;
  s ← gets id;
  when (S (minrev s) <? maxrev s)%nat (
    let f := other_pivot (length (revlist s)) up_fetch down_fetch in
    modify (set_fetch f);;
    with_job f WaitFor;;
    modify (set_pivot (if bool_decide (f = up_fetch) then (up_pivot - 1)%nat else down_pivot)));;
  f ← gets fetch;
  when (bool_decide (f ≠ down_fetch)) (stop_if down_fetch);;
  when (bool_decide (f ≠ up_fetch)) (stop_if up_fetch).

(** The body of the loop; [ascending] is [good_rev < bad_rev] and [descending]
    [bad_rev < good_rev]. *)
Definition bisect_round (ascending descending : bool) : B unit :=
  s ← gets id;
  let down_pivot := ((pivot s - minrev s) / 2 + minrev s)%nat in
  down_fetch ← pre_fetch down_pivot (pivot s) (minrev s);
  let up_pivot := ((maxrev s - pivot s) / 2 + pivot s)%nat in
  up_fetch ← pre_fetch up_pivot (pivot s) (maxrev s);
  answer ← ask_or_clean (rev s)
             (option_list (fetch s) ++ option_list down_fetch ++ option_list up_fetch);
  (if (bool_decide (answer = Good) && ascending) || (bool_decide (answer = Bad) && descending)
   then go_up up_pivot up_fetch down_fetch
   else if (bool_decide (answer = Bad) && ascending) || (bool_decide (answer = Good) && descending)
   then go_down down_pivot up_fetch down_fetch
   else match answer with
        | Retry => mret ()
        | Unknown => nuke up_pivot down_pivot up_fetch down_fetch
        | _ => raise AssertionError
        end);;
  p ← gets pivot;
  r ← rev_at p;
  modify (set_rev r).

Fixpoint bisect_loop (fuel : nat) (ascending descending : bool) : B unit :=
  more ← gets (λ s, is_not_none (fetch s) && (S (minrev s) <? maxrev s)%nat);
  if (more : bool) then
    match fuel with
    | O => raise recursion_error
    | S fuel => bisect_round ascending descending;; bisect_loop fuel ascending descending
    end
  else mret ().

(** [Bisect], with [l] for the list of revisions the context answers. *)
Definition Bisect (fuel : nat) (l : list A) (good_rev bad_rev : Z) (verify_range : bool) : B (A * A) :=
  let ascending := (good_rev <? bad_rev)%Z in
  let descending := (bad_rev <? good_rev)%Z in
  modify (set_range l 0 0);;
  if (length l <? 2)%nat then raise (RuntimeError "We don't have enough builds to bisect.")
  else
    let max := (length l - 1)%nat in
    modify (set_range l 0 max);;
    modify (set_pivot (max / 2)%nat);;
    r ← rev_at (max / 2)%nat;
    modify (set_rev r);;
    f ← start_job;
    modify (set_fetch (Some f));;
    when verify_range (
      min_rev ← rev_at 0;
      max_rev ← rev_at max;
      min_job ← start_job;
      max_job ← start_job;
      verify f min_job max_job min_rev max_rev
        (if descending then Bad else Good) (if descending then Good else Bad));;
    WaitFor f;;
    bisect_loop fuel ascending descending;;
    s ← gets id;
    lo ← rev_at (minrev s);
    hi ← rev_at (maxrev s);
    mret (lo, hi).

(** Before the call nothing is downloaded; [r] stands for the unset variable. *)
Definition before (r : A) : Search := mkSearch [] 0 0 0 r None 0 ∅ [].
End bisect.
