(* ===== verification/BisectLaws.v ===== *)
(** bisect-builds.py: the search ends with two builds that no other known build lies
    between, and every download is stopped. *)

From S2P Require Import Prelude BisectBuilds.

(** ** Lists *)

Lemma filter_app_inv' {A} (P : A → Prop) `{∀ x, Decision (P x)} l a b :
  base.filter P l = a ++ b → ∃ l1 l2, l = l1 ++ l2 ∧ base.filter P l1 = a ∧ base.filter P l2 = b.
Proof.
  revert a. induction l as [|x l IH]; intros a Hl.
  { symmetry in Hl. apply app_eq_nil in Hl as [-> ->]. by exists [], []. }
  rewrite filter_cons in Hl. case_decide as Hx.
  - destruct a as [|y a]; cbn in Hl.
    + exists [], (x :: l). split_and!; [done|done|]. by rewrite filter_cons, decide_True.
    + injection Hl as -> Hl. destruct (IH a Hl) as (l1 & l2 & -> & <- & <-).
      exists (y :: l1), l2. split_and!; [done| |done]. by rewrite filter_cons, decide_True.
  - destruct (IH a Hl) as (l1 & l2 & -> & <- & <-). exists (x :: l1), l2.
    split_and!; [done| |done]. by rewrite filter_cons, decide_False.
Qed.

Lemma filter_cons_inv {A} (P : A → Prop) `{∀ x, Decision (P x)} l x k :
  base.filter P l = x :: k → ∃ l1 l2, l = l1 ++ x :: l2 ∧ (∀ y, y ∈ l1 → ¬ P y) ∧ base.filter P l2 = k.
Proof.
  induction l as [|y l IH]; [done|]. rewrite filter_cons. case_decide as Hy.
  - intros [= -> <-]. exists [], l. split_and!; [done| |done]. by intros z ?%not_elem_of_nil.
  - intros Hl. destruct (IH Hl) as (l1 & l2 & -> & Hl1 & Hl2). exists (y :: l1), l2.
    split_and!; [done| |done]. intros z [->|Hz]%elem_of_cons; [done|by apply Hl1].
Qed.

Lemma delete_filter {A} `{EqDecision A} (l : list A) i x :
  NoDup l → l !! i = Some x → delete i l = base.filter (λ y, y ≠ x) l.
Proof.
  intros Hl. revert i. induction Hl as [|y l Hy _ IH]; intros [|i] Hi; [done..| |].
  - cbn in Hi. injection Hi as ->. rewrite filter_cons, decide_False by tauto. symmetry.
    apply filter_all. by intros z Hz ->.
  - cbn in Hi. rewrite filter_cons, decide_True.
    + change (y :: delete i l = y :: base.filter (λ y, y ≠ x) l). by rewrite (IH i).
    + intros ->. by apply Hy, (list_elem_of_lookup_2 _ i).
Qed.

Section laws.
Context {A : Type} (evaluate : nat → A → Answer).

(** ** One call *)

Lemma Stop_run j (s : Search (A:=A)) : j ∈ running s →
  Stop j s = (Ok (), set_running (next_job s) (running s ∖ {[j]}) s).
Proof. intros Hj. unfold Stop. by rewrite bind_gets, bool_decide_true. Qed.

Lemma WaitFor_run j (s : Search (A:=A)) : (j < next_job s)%nat → WaitFor j s = (Ok (), s).
Proof. intros Hj. unfold WaitFor. by rewrite bind_gets, bool_decide_true. Qed.

Lemma rev_at_run i (s : Search (A:=A)) r : revlist s !! i = Some r → rev_at i s = (Ok r, s).
Proof. intros Hr. unfold rev_at. by rewrite bind_gets, Hr. Qed.

(** The end of a run: the fields of the state. *)
Ltac search_eq :=
  unfold modify, mret, M_ret, add_answer, set_minrev, set_maxrev, set_pivot, set_rev, set_fetch,
    set_running, set_range;
  cbn; do 2 f_equal; first [done | congruence | set_solver].

Definition job_of (b : bool) (n : nat) : option nat := if b then Some n else None.
Definition with_jobs (b : bool) (s : Search (A:=A)) : Search :=
  if b then set_running (S (next_job s)) ({[next_job s]} ∪ running s) s else s.

Lemma pre_fetch_run i p b (s : Search (A:=A)) : (i < length (revlist s))%nat →
  let needed := negb (i =? p)%nat && negb (i =? b)%nat in
  pre_fetch i p b s = (Ok (job_of needed (next_job s)), with_jobs needed s).
Proof.
  intros Hi needed. unfold pre_fetch. fold needed. destruct needed; [|done].
  destruct (lookup_lt_is_Some_2 _ _ Hi) as [r Hr]. by rewrite (M_bind_run _ _ _ _ _ (rev_at_run _ _ _ Hr)).
Qed.

Lemma ask_run (s : Search (A:=A)) r a : evaluate (length (answers s)) r = a → a ≠ Quit →
  ask evaluate r s = (Ok a, add_answer r a s).
Proof. intros <- Ha. unfold ask. rewrite bind_gets, bind_modify. by destruct (evaluate _ r). Qed.

Lemma ask_or_clean_run jobs (s : Search (A:=A)) r a : evaluate (length (answers s)) r = a → a ≠ Quit →
  ask_or_clean evaluate r jobs s = (Ok a, add_answer r a s).
Proof. intros Ha Hq. unfold ask_or_clean. by rewrite (ask_run s r a Ha Hq). Qed.

Lemma go_up_run up_pivot up_fetch down_fetch (s : Search (A:=A)) f :
  fetch s = Some f → f ∈ running s →
  (∀ d, down_fetch = Some d → d ∈ running s ∧ d ≠ f) →
  (∀ u, up_fetch = Some u → (u < next_job s)%nat) →
  go_up up_pivot up_fetch down_fetch s =
    (Ok (), mkSearch (revlist s) (pivot s) (maxrev s)
       (match up_fetch with Some _ => up_pivot | None => pivot s end) (rev s)
       (match up_fetch, down_fetch with Some u, _ => Some u | None, Some _ => None | None, None => Some f end)
       (next_job s) (running s ∖ {[f]} ∖ list_to_set (option_list down_fetch)) (answers s)).
Proof.
  intros Hf Hin Hd Hu. unfold go_up. rewrite bind_gets, Hf. cbn [with_job].
  rewrite (M_bind_run _ _ _ _ _ (Stop_run f s Hin)), bind_gets, bind_modify. cbn [pivot set_running].
  destruct down_fetch as [d|].
  - destruct (Hd d eq_refl) as [Hdin Hdf].
    rewrite M_bind_assoc. erewrite M_bind_run; [|apply Stop_run; cbn; set_solver]. rewrite bind_modify.
    destruct up_fetch as [u|].
    + erewrite M_bind_run; [|apply WaitFor_run, (Hu u eq_refl)]. rewrite bind_modify.
      search_eq.
    + search_eq.
  - rewrite bind_ret. destruct up_fetch as [u|].
    + erewrite M_bind_run; [|apply WaitFor_run, (Hu u eq_refl)]. rewrite bind_modify.
      search_eq.
    + search_eq.
Qed.

Lemma go_down_run down_pivot up_fetch down_fetch (s : Search (A:=A)) f :
  fetch s = Some f → f ∈ running s →
  (∀ u, up_fetch = Some u → u ∈ running s ∧ u ≠ f) →
  (∀ d, down_fetch = Some d → (d < next_job s)%nat) →
  go_down down_pivot up_fetch down_fetch s =
    (Ok (), mkSearch (revlist s) (minrev s) (pivot s)
       (match down_fetch with Some _ => down_pivot | None => pivot s end) (rev s)
       (match down_fetch, up_fetch with Some d, _ => Some d | None, Some _ => None | None, None => Some f end)
       (next_job s) (running s ∖ {[f]} ∖ list_to_set (option_list up_fetch)) (answers s)).
Proof.
  intros Hf Hin Hu Hd. unfold go_down. rewrite bind_gets, Hf. cbn [with_job].
  rewrite (M_bind_run _ _ _ _ _ (Stop_run f s Hin)), bind_gets, bind_modify. cbn [pivot set_running].
  destruct up_fetch as [u|].
  - destruct (Hu u eq_refl) as [Huin Huf].
    rewrite M_bind_assoc. erewrite M_bind_run; [|apply Stop_run; cbn; set_solver]. rewrite bind_modify.
    destruct down_fetch as [d|]; [|search_eq].
    erewrite M_bind_run; [|apply WaitFor_run, (Hd d eq_refl)]. rewrite bind_modify. search_eq.
  - rewrite bind_ret. destruct down_fetch as [d|]; [|search_eq].
    erewrite M_bind_run; [|apply WaitFor_run, (Hd d eq_refl)]. rewrite bind_modify. search_eq.
Qed.

(** The build is taken out; the pivot is that of the other download that is kept, if
    there is anything left between the bounds. *)
Definition nuked_fetch (s : Search (A:=A)) (up_fetch down_fetch : option nat) (f : nat) : option nat :=
  if (S (minrev s) <? maxrev s - 1)%nat
  then other_pivot (length (delete (pivot s) (revlist s))) up_fetch down_fetch else Some f.

Lemma nuke_run up_pivot down_pivot up_fetch down_fetch (s : Search (A:=A)) f :
  fetch s = Some f → f ∈ running s →
  (∀ j, up_fetch = Some j ∨ down_fetch = Some j → j ∈ running s ∧ j ≠ f ∧ (j < next_job s)%nat) →
  (∀ j, up_fetch = Some j → down_fetch ≠ Some j) →
  ((S (minrev s) < maxrev s - 1)%nat → is_Some up_fetch ∨ is_Some down_fetch) →
  let next := nuked_fetch s up_fetch down_fetch f in
  nuke up_pivot down_pivot up_fetch down_fetch s =
    (Ok (), mkSearch (delete (pivot s) (revlist s)) (minrev s) (maxrev s - 1)
       (if (S (minrev s) <? maxrev s - 1)%nat
        then if bool_decide (next = up_fetch) then (up_pivot - 1)%nat else down_pivot
        else pivot s) (rev s) next (next_job s)
       (running s ∖ {[f]} ∖ (list_to_set (option_list up_fetch ++ option_list down_fetch)
          ∖ list_to_set (option_list next))) (answers s)).
Proof.
  intros Hf Hin Hjobs Hdiff Hsome next. unfold nuke. rewrite bind_gets, Hf. cbn [with_job].
  rewrite (M_bind_run _ _ _ _ _ (Stop_run f s Hin)), bind_modify, bind_gets. cbn [id minrev maxrev set_range set_running].
  unfold next, nuked_fetch. clear next.
  destruct (Nat.ltb_spec (S (minrev s)) (maxrev s - 1)) as [Hlt|Hge]; cbn [when].
  - rewrite M_bind_assoc, bind_modify. cbn [revlist set_range set_running pivot].
    set (n := length (delete (pivot s) (revlist s))).
    assert (∃ j, other_pivot n up_fetch down_fetch = Some j ∧ (up_fetch = Some j ∨ down_fetch = Some j))
      as (j & Hj & Hjin).
    { destruct (Hsome Hlt) as [[u ->]|[d ->]]; [destruct down_fetch as [d|]|destruct up_fetch as [u|]];
        cbn; [destruct (Nat.even n)| |destruct (Nat.even n)|]; eauto. }
    destruct (Hjobs j Hjin) as (Hjr & Hjf & Hjn). rewrite Hj. cbn [with_job].
    rewrite M_bind_assoc. erewrite M_bind_run; [|by apply WaitFor_run]. rewrite bind_modify, bind_gets.
    cbn [fetch set_pivot set_fetch].
    destruct up_fetch as [u|], down_fetch as [d|]; cbn in Hj, Hjin;
      try (destruct (Hjobs u) as (Hu & Huf & _); [by auto|]); try (destruct (Hjobs d) as (Hd & Hdf & _); [by auto|]);
      [|injection Hj as ->|injection Hj as ->|done].
    + assert (u ≠ d) as Hud by (intros ->; by apply (Hdiff d)).
      destruct (Nat.even n); injection Hj as <-.
      * rewrite (bool_decide_true (Some u ≠ Some d)), (bool_decide_true (Some u = Some u)),
          (bool_decide_false (Some u ≠ Some u)) by congruence. cbn [when stop_if].
        erewrite M_bind_run; [|apply Stop_run; cbn; set_solver]. search_eq.
      * rewrite (bool_decide_false (Some d ≠ Some d)), (bool_decide_false (Some d = Some u)),
          (bool_decide_true (Some d ≠ Some u)) by congruence. cbn [when stop_if]. rewrite bind_ret.
        erewrite Stop_run; [|cbn; set_solver]. search_eq.
    + rewrite (bool_decide_true (Some j ≠ None)), (bool_decide_true (Some j = Some j)),
        (bool_decide_false (Some j ≠ Some j)) by congruence. cbn [when stop_if]. search_eq.
    + rewrite (bool_decide_false (Some j ≠ Some j)), (bool_decide_false (Some j = None)),
        (bool_decide_true (Some j ≠ None)) by congruence. cbn [when stop_if]. search_eq.
  - rewrite bind_ret, bind_gets. cbn [fetch set_range set_running]. rewrite Hf.
    destruct up_fetch as [u|], down_fetch as [d|];
      try (destruct (Hjobs u) as (Hu & Huf & _); [by auto|]); try (destruct (Hjobs d) as (Hd & Hdf & _); [by auto|]).
    + assert (u ≠ d) as Hud by (intros ->; by apply (Hdiff d)).
      rewrite !bool_decide_true by congruence. cbn [when stop_if].
      erewrite M_bind_run; [|apply Stop_run; cbn; set_solver].
      erewrite Stop_run; [|cbn; set_solver]. search_eq.
    + rewrite !bool_decide_true by congruence. cbn [when stop_if]. rewrite bind_ret.
      erewrite Stop_run; [|cbn; set_solver]. search_eq.
    + rewrite !bool_decide_true by congruence. cbn [when stop_if].
      erewrite M_bind_run; [|apply Stop_run; cbn; set_solver]. search_eq.
    + rewrite !bool_decide_true by congruence. cbn [when stop_if]. search_eq.
Qed.

(** ** One round *)

Context `{!EqDecision A} (l0 : list A) (l0_nodup : NoDup l0).
Context (ascending descending : bool) (low high : Answer).
Context (direction : (ascending = true ∧ descending = false ∧ low = Good ∧ high = Bad) ∨
                     (ascending = false ∧ descending = true ∧ low = Bad ∧ high = Good)).

Definition unknown_in (s : Search (A:=A)) (r : A) : Prop := (r, Unknown) ∈ answers s.

(** The list has lost the unknown builds, and the bounds are ends of it or were
    answered. *)
Record sound (s : Search (A:=A)) : Prop := {
  so_list : revlist s = base.filter (λ r, (r, Unknown) ∉ answers s) l0;
  so_low : minrev s = 0%nat ∨ ∃ r, revlist s !! minrev s = Some r ∧ (r, low) ∈ answers s;
  so_high : S (maxrev s) = length (revlist s) ∨
            ∃ r, revlist s !! maxrev s = Some r ∧ (r, high) ∈ answers s;
  so_range : (minrev s < maxrev s < length (revlist s))%nat;
  so_head : revlist s !! 0%nat = l0 !! 0%nat;
  so_last : revlist s !! (length (revlist s) - 1)%nat = l0 !! (length l0 - 1)%nat
}.

(** There is a build left to ask about, and its download is running. *)
Record going (s : Search (A:=A)) : Prop := {
  g_order : (minrev s < pivot s < maxrev s)%nat;
  g_rev : revlist s !! pivot s = Some (rev s);
  g_fetch : ∃ f, fetch s = Some f ∧ f ∈ running s
}.

Definition jobs_ok (s : Search (A:=A)) : Prop := ∀ j, j ∈ running s → (j < next_job s)%nat.

(** No download runs but that of the pivot. *)
Definition tidy (s : Search (A:=A)) : Prop :=
  running s = if (S (minrev s) <? maxrev s)%nat then list_to_set (option_list (fetch s)) else ∅.

Definition centered (s : Search (A:=A)) : Prop :=
  (S (minrev s) < maxrev s)%nat → pivot s = ((minrev s + maxrev s) / 2)%nat.

Record stepped (s : Search (A:=A)) (a : Answer) (s' : Search (A:=A)) : Prop := {
  st_answers : answers s' = answers s ++ [(rev s, a)];
  st_sound : sound s';
  st_jobs : jobs_ok s';
  st_going : (S (minrev s') < maxrev s')%nat → going s';
  st_less : a ≠ Retry → (maxrev s' - minrev s' < maxrev s - minrev s)%nat;
  st_same : a = Retry → (maxrev s' - minrev s' = maxrev s - minrev s)%nat;
  st_tidy : a ≠ Retry → tidy s → tidy s';
  st_half : a = Good ∨ a = Bad → centered s →
    centered s' ∧ (2 * (maxrev s' - minrev s') <= maxrev s - minrev s + 1)%nat
}.

Definition down_of (s : Search (A:=A)) : nat := ((pivot s - minrev s) / 2 + minrev s)%nat.
Definition up_of (s : Search (A:=A)) : nat := ((maxrev s - pivot s) / 2 + pivot s)%nat.
Definition needs_down (s : Search (A:=A)) : bool := (2 <=? pivot s - minrev s)%nat.
Definition needs_up (s : Search (A:=A)) : bool := (2 <=? maxrev s - pivot s)%nat.

(** The downloads of a round and their numbers. *)
Definition down_job (s : Search (A:=A)) : option nat := job_of (needs_down s) (next_job s).
Definition up_job (s : Search (A:=A)) : option nat :=
  job_of (needs_up s) (next_job (with_jobs (needs_down s) s)).
Definition prefetched (s : Search (A:=A)) : Search (A:=A) :=
  with_jobs (needs_up s) (with_jobs (needs_down s) s).

Lemma with_jobs_fields b s : revlist (with_jobs b s) = revlist s ∧ minrev (with_jobs b s) = minrev s ∧
  maxrev (with_jobs b s) = maxrev s ∧ pivot (with_jobs b s) = pivot s ∧ rev (with_jobs b s) = rev s ∧
  fetch (with_jobs b s) = fetch s ∧ answers (with_jobs b s) = answers s.
Proof. by destruct b. Qed.

Lemma half_bounds n : (n / 2 <= n)%nat ∧ (2 <= n → 1 <= n / 2 < n)%nat ∧ (n < 2 → n / 2 = 0)%nat.
Proof.
  split_and!.
  - apply Nat.Div0.div_le_upper_bound. lia.
  - intros Hn. split; [by apply Nat.div_le_lower_bound; lia|apply Nat.div_lt; lia].
  - intros Hn. apply Nat.div_small. lia.
Qed.

Lemma round_asks s a : going s → sound s → evaluate (length (answers s)) (rev s) = a → a ≠ Quit →
  bisect_round evaluate ascending descending s =
    ((if (bool_decide (a = Good) && ascending) || (bool_decide (a = Bad) && descending)
      then go_up (up_of s) (up_job s) (down_job s)
      else if (bool_decide (a = Bad) && ascending) || (bool_decide (a = Good) && descending)
      then go_down (down_of s) (up_job s) (down_job s)
      else match a with
           | Retry => mret ()
           | Unknown => nuke (up_of s) (down_of s) (up_job s) (down_job s)
           | _ => raise AssertionError
           end);;
     p ← gets pivot; r ← rev_at p; modify (set_rev r)) (add_answer (rev s) a (prefetched s)).
Proof.
  intros [Hord Hrev _] [_ _ _ Hrange _ _] Ha Hquit. unfold bisect_round. rewrite bind_gets. cbn [id]. fold (down_of s) (up_of s).
  pose proof (half_bounds (pivot s - minrev s)) as (Hd1 & Hd2 & Hd3).
  pose proof (half_bounds (maxrev s - pivot s)) as (Hu1 & Hu2 & Hu3).
  destruct (with_jobs_fields (needs_down s) s) as (Hl & _ & _ & _ & _ & _ & Hans).
  rewrite (M_bind_run _ _ _ _ _ (pre_fetch_run (down_of s) (pivot s) (minrev s) s ltac:(unfold down_of; lia))).
  replace (negb (down_of s =? pivot s)%nat && negb (down_of s =? minrev s)%nat) with (needs_down s).
  2:{ unfold needs_down, down_of. destruct (Nat.leb_spec 2 (pivot s - minrev s)).
      - symmetry. apply andb_true_intro. split; apply negb_true_iff, Nat.eqb_neq; lia.
      - symmetry. apply andb_false_intro2, negb_false_iff, Nat.eqb_eq. lia. }
  rewrite (M_bind_run _ _ _ _ _ (pre_fetch_run (up_of s) (pivot s) (maxrev s) (with_jobs (needs_down s) s)
    ltac:(rewrite Hl; unfold up_of; lia))).
  replace (negb (up_of s =? pivot s)%nat && negb (up_of s =? maxrev s)%nat) with (needs_up s).
  2:{ unfold needs_up, up_of. destruct (Nat.leb_spec 2 (maxrev s - pivot s)).
      - symmetry. apply andb_true_intro. split; apply negb_true_iff, Nat.eqb_neq; lia.
      - symmetry. apply andb_false_intro1, negb_false_iff, Nat.eqb_eq. lia. }
  fold (prefetched s) (down_job s) (up_job s).
  erewrite M_bind_run; [done|]. apply ask_or_clean_run; [|done].
  unfold prefetched. destruct (with_jobs_fields (needs_up s) (with_jobs (needs_down s) s)) as (_ & _ & _ & _ & _ & _ & ->).
  by rewrite Hans.
Qed.

Definition new_jobs (s : Search (A:=A)) : gset nat :=
  list_to_set (option_list (up_job s) ++ option_list (down_job s)).

Lemma prefetched_eq s : ∃ n,
  prefetched s = mkSearch (revlist s) (minrev s) (maxrev s) (pivot s) (rev s) (fetch s) n
    (running s ∪ new_jobs s) (answers s) ∧ (next_job s <= n)%nat ∧
  (∀ j, up_job s = Some j ∨ down_job s = Some j → (next_job s <= j < n)%nat) ∧
  (∀ j, up_job s = Some j → down_job s ≠ Some j).
Proof.
  unfold prefetched, new_jobs, up_job, down_job, with_jobs, job_of, set_running.
  destruct (needs_down s), (needs_up s); destruct s; eexists; (split; [cbn; f_equal; set_solver|]); cbn;
    (split; [lia|]); (split; intros j;
      [intros [?|?]; simplify_eq; lia|intros ?; simplify_eq; try done; intros ?; simplify_eq; lia]).
Qed.

Lemma elem_of_new_jobs s j : j ∈ new_jobs s ↔ up_job s = Some j ∨ down_job s = Some j.
Proof. unfold new_jobs. destruct (up_job s), (down_job s); set_solver. Qed.

(** What is left of the downloads when that of the pivot and one of the new ones are
    stopped. *)
Lemma jobs_kept s f (keep stop : option nat) n :
  jobs_ok s → f ∈ running s →
  (∀ j, up_job s = Some j ∨ down_job s = Some j → (next_job s <= j < n)%nat) →
  (∀ j, up_job s = Some j → down_job s ≠ Some j) →
  (keep = up_job s ∧ stop = down_job s) ∨ (keep = down_job s ∧ stop = up_job s) →
  (∀ j, keep = Some j → j ∈ (running s ∪ new_jobs s) ∖ {[f]} ∖ list_to_set (option_list stop)) ∧
  (running s = {[f]} → (running s ∪ new_jobs s) ∖ {[f]} ∖ list_to_set (option_list stop) =
     list_to_set (option_list keep)).
Proof.
  intros Hj Hf Hjobs Hdiff Hcase. pose proof (Hj f Hf) as Hfn.
  assert (∀ j, j ∈ new_jobs s → j ≠ f ∧ j ∉ running s) as Hnew.
  { intros j Hjn%elem_of_new_jobs%Hjobs. split; [lia|]. intros Hjr%Hj. lia. }
  unfold new_jobs in *. destruct (up_job s) as [u|], (down_job s) as [d|]; cbn in *;
    destruct Hcase as [[-> ->]|[-> ->]]; cbn;
    try (assert (u ≠ d) by (intros ->; by apply (Hdiff d)));
    try (destruct (Hnew u) as [? ?]; [set_solver|]); try (destruct (Hnew d) as [? ?]; [set_solver|]);
    (split; [intros j [= <-]|intros ->]); set_solver.
Qed.

Lemma up_job_needed s : match up_job s with
  | Some _ => (2 <= maxrev s - pivot s)%nat
  | None => (maxrev s - pivot s < 2)%nat
  end.
Proof. unfold up_job, job_of, needs_up. by destruct (Nat.leb_spec 2 (maxrev s - pivot s)). Qed.
Lemma down_job_needed s : match down_job s with
  | Some _ => (2 <= pivot s - minrev s)%nat
  | None => (pivot s - minrev s < 2)%nat
  end.
Proof. unfold down_job, job_of, needs_down. by destruct (Nat.leb_spec 2 (pivot s - minrev s)). Qed.

Lemma going_tidy s f : going s → fetch s = Some f → tidy s → running s = {[f]}.
Proof.
  intros [Hord _ _] Hf. unfold tidy. rewrite (proj2 (Nat.ltb_lt _ _)), Hf by lia. cbn.
  intros ->. set_solver.
Qed.

(** The end of a round. *)
Lemma set_rev_run (s : Search (A:=A)) r : revlist s !! pivot s = Some r →
  (p ← gets pivot; r ← rev_at p; modify (set_rev r)) s = (Ok (), set_rev r s).
Proof. intros Hr. rewrite bind_gets. by rewrite (M_bind_run _ _ _ _ _ (rev_at_run _ _ _ Hr)). Qed.

Lemma low_not_unknown : low ≠ Unknown ∧ high ≠ Unknown.
Proof. destruct direction as [(_ & _ & -> & ->)|(_ & _ & -> & ->)]; done. Qed.

Lemma filter_answer (ans : list (A * Answer)) r a : a ≠ Unknown →
  base.filter (λ x, (x, Unknown) ∉ ans ++ [(r, a)]) l0 = base.filter (λ x, (x, Unknown) ∉ ans) l0.
Proof.
  intros Ha. apply filter_ext_elem. intros x _. rewrite elem_of_app, list_elem_of_singleton. naive_solver.
Qed.

Lemma half_sum a b : (a <= b)%nat → ((b - a) / 2 + a)%nat = ((a + b) / 2)%nat.
Proof.
  intros H. replace (a + b)%nat with ((b - a) + a * 2)%nat by lia. by rewrite Nat.div_add by lia.
Qed.

Lemma half_twice n : (2 * (n / 2) <= n <= 2 * (n / 2) + 1)%nat.
Proof. pose proof (Nat.div_mod_eq n 2). pose proof (Nat.mod_upper_bound n 2). lia. Qed.

(** The fields of a state that is given. *)
Ltac fields :=
  cbn [revlist minrev maxrev pivot rev fetch next_job running answers set_rev add_answer].

Lemma round_up s : going s → sound s → jobs_ok s → evaluate (length (answers s)) (rev s) = low →
  ∃ s', bisect_round evaluate ascending descending s = (Ok (), s') ∧ stepped s low s'.
Proof.
  intros Hg Hs Hj Ha. pose proof Hg as [Hord Hrev (f & Hf & Hfr)].
  pose proof Hs as [Hlist Hlow Hhigh Hrange Hhead Hlast]. pose proof low_not_unknown as [Hlu _].
  rewrite (round_asks s low Hg Hs Ha) by (by destruct direction as [(_ & _ & -> & _)|(_ & _ & -> & _)]).
  replace (_ || _) with true by (by destruct direction as [(-> & -> & -> & _)|(-> & -> & -> & _)]).
  destruct (prefetched_eq s) as (n & -> & Hn & Hjobs & Hdiff).
  destruct (jobs_kept s f (up_job s) (down_job s) n Hj Hfr Hjobs Hdiff) as [Hkept Hleft]; [by left|].
  erewrite M_bind_run.
  2:{ apply (go_up_run (up_of s) (up_job s) (down_job s) _ f); fields; [done|set_solver| |].
      - intros d Hd. assert (d ∈ new_jobs s) by (apply elem_of_new_jobs; auto).
        split; [set_solver|]. intros ->. specialize (Hj _ Hfr). specialize (Hjobs _ (or_intror Hd)). lia.
      - intros u Hu. exact (proj2 (Hjobs u (or_introl Hu))). }
  fields. pose proof (half_bounds (maxrev s - pivot s)) as (Hu1 & Hu2 & Hu3).
  pose proof (half_twice (minrev s + maxrev s)) as Hhalf. pose proof (up_job_needed s) as Hup.
  set (p' := match up_job s with Some _ => up_of s | None => pivot s end).
  assert (p' < length (revlist s))%nat as Hp' by (unfold p', up_of; destruct (up_job s); lia).
  destruct (lookup_lt_is_Some_2 _ _ Hp') as [r Hr].
  erewrite set_rev_run by exact Hr. eexists. split; [reflexivity|]. constructor; fields.
  - done.
  - constructor; fields.
    + rewrite Hlist. symmetry. by apply filter_answer.
    + right. exists (rev s). split; [done|]. apply elem_of_app. right. by apply list_elem_of_singleton.
    + destruct Hhigh as [|(x & Hx & Hin)]; [by left|right]. exists x. split; [done|]. apply elem_of_app. by left.
    + lia.
    + done.
    + done.
  - intros j. fields. intros [[[Hjr|Hjn]%elem_of_union _]%elem_of_difference _]%elem_of_difference.
    + specialize (Hj j Hjr). lia.
    + by apply Hjobs, elem_of_new_jobs.
  - intros Hlt. destruct (up_job s) as [u|]; [|lia]. constructor; fields; [unfold p', up_of; lia|done|].
    exists u. auto.
  - lia.
  - intros ->. by destruct direction as [(_ & _ & ? & _)|(_ & _ & ? & _)].
  - intros _ Ht. unfold tidy. fields. rewrite (Hleft (going_tidy s f Hg Hf Ht)).
    destruct (up_job s); [by rewrite (proj2 (Nat.ltb_lt _ _)) by lia|].
    by rewrite (proj2 (Nat.ltb_ge _ _)) by lia.
  - intros _ Hc. rewrite Hc in * by lia. split; [|lia]. intros Hlt. fields.
    destruct (up_job s); [|cbn [maxrev minrev set_rev] in Hlt; lia]. unfold p', up_of. rewrite Hc by lia.
    rewrite half_sum by lia. done.
Qed.

Lemma round_down s : going s → sound s → jobs_ok s → evaluate (length (answers s)) (rev s) = high →
  ∃ s', bisect_round evaluate ascending descending s = (Ok (), s') ∧ stepped s high s'.
Proof.
  intros Hg Hs Hj Ha. pose proof Hg as [Hord Hrev (f & Hf & Hfr)].
  pose proof Hs as [Hlist Hlow Hhigh Hrange Hhead Hlast]. pose proof low_not_unknown as [_ Hhu].
  rewrite (round_asks s high Hg Hs Ha) by (by destruct direction as [(_ & _ & _ & ->)|(_ & _ & _ & ->)]).
  replace (_ || _) with false by (by destruct direction as [(-> & -> & _ & ->)|(-> & -> & _ & ->)]).
  replace (_ || _) with true by (by destruct direction as [(-> & -> & _ & ->)|(-> & -> & _ & ->)]).
  destruct (prefetched_eq s) as (n & -> & Hn & Hjobs & Hdiff).
  destruct (jobs_kept s f (down_job s) (up_job s) n Hj Hfr Hjobs Hdiff) as [Hkept Hleft]; [by right|].
  erewrite M_bind_run.
  2:{ apply (go_down_run (down_of s) (up_job s) (down_job s) _ f); fields; [done|set_solver| |].
      - intros u Hu. assert (u ∈ new_jobs s) by (apply elem_of_new_jobs; auto).
        split; [set_solver|]. intros ->. specialize (Hj _ Hfr). specialize (Hjobs _ (or_introl Hu)). lia.
      - intros d Hd. exact (proj2 (Hjobs d (or_intror Hd))). }
  fields. pose proof (half_bounds (pivot s - minrev s)) as (Hd1 & Hd2 & Hd3).
  pose proof (half_twice (minrev s + maxrev s)) as Hhalf. pose proof (down_job_needed s) as Hdown.
  set (p' := match down_job s with Some _ => down_of s | None => pivot s end).
  assert (p' < length (revlist s))%nat as Hp' by (unfold p', down_of; destruct (down_job s); lia).
  destruct (lookup_lt_is_Some_2 _ _ Hp') as [r Hr].
  erewrite set_rev_run by exact Hr. eexists. split; [reflexivity|]. constructor; fields.
  - done.
  - constructor; fields.
    + rewrite Hlist. symmetry. by apply filter_answer.
    + destruct Hlow as [|(x & Hx & Hin)]; [by left|right]. exists x. split; [done|]. apply elem_of_app. by left.
    + right. exists (rev s). split; [done|]. apply elem_of_app. right. by apply list_elem_of_singleton.
    + lia.
    + done.
    + done.
  - intros j. fields. intros [[[Hjr|Hjn]%elem_of_union _]%elem_of_difference _]%elem_of_difference.
    + specialize (Hj j Hjr). lia.
    + by apply Hjobs, elem_of_new_jobs.
  - intros Hlt. destruct (down_job s) as [d|]; [|lia]. constructor; fields; [unfold p', down_of; lia|done|].
    exists d. auto.
  - lia.
  - intros ->. by destruct direction as [(_ & _ & _ & ?)|(_ & _ & _ & ?)].
  - intros _ Ht. unfold tidy. fields. rewrite (Hleft (going_tidy s f Hg Hf Ht)).
    destruct (down_job s); [by rewrite (proj2 (Nat.ltb_lt _ _)) by lia|].
    by rewrite (proj2 (Nat.ltb_ge _ _)) by lia.
  - intros _ Hc. rewrite Hc in * by lia. split; [|lia]. intros Hlt. fields.
    destruct (down_job s); [|cbn [maxrev minrev set_rev] in Hlt; lia]. unfold p', down_of. rewrite Hc by lia.
    by rewrite half_sum by lia.
Qed.

Lemma round_retry s : going s → sound s → jobs_ok s → evaluate (length (answers s)) (rev s) = Retry →
  ∃ s', bisect_round evaluate ascending descending s = (Ok (), s') ∧ stepped s Retry s'.
Proof.
  intros Hg Hs Hj Ha. pose proof Hg as [Hord Hrev (f & Hf & Hfr)].
  pose proof Hs as [Hlist Hlow Hhigh Hrange Hhead Hlast].
  rewrite (round_asks s Retry Hg Hs Ha) by done.
  rewrite !(bool_decide_false (Retry = Good)), !(bool_decide_false (Retry = Bad)) by done. cbn [andb orb].
  destruct (prefetched_eq s) as (n & -> & Hn & Hjobs & Hdiff). rewrite bind_ret.
  erewrite set_rev_run by exact Hrev. eexists. split; [reflexivity|]. constructor; fields.
  - done.
  - constructor; fields; [|destruct Hlow as [|(x & Hx & Hin)]|destruct Hhigh as [|(x & Hx & Hin)]|done..].
    + rewrite Hlist. symmetry. by apply filter_answer.
    + by left.
    + right. exists x. split; [done|]. apply elem_of_app. by left.
    + by left.
    + right. exists x. split; [done|]. apply elem_of_app. by left.
  - intros j. fields. intros [Hjr|Hjn]%elem_of_union.
    + specialize (Hj j Hjr). lia.
    + by apply Hjobs, elem_of_new_jobs.
  - intros _. constructor; fields; [done|done|]. exists f. split; [done|]. set_solver.
  - done.
  - done.
  - done.
  - by intros [?|?].
Qed.

(** The downloads a nuked pivot leaves: the one that is kept, or none. *)
Lemma left_one (K : gset nat) f j : j ∈ K → f ∉ K →
  ({[f]} ∪ K) ∖ {[f]} ∖ (K ∖ list_to_set (option_list (Some j))) = list_to_set (option_list (Some j)).
Proof.
  intros Hj Hf. cbn. rewrite union_empty_r_L. apply set_eq. intros x.
  destruct (decide (x = j)) as [->|]; set_solver.
Qed.

Lemma left_none (K : gset nat) f : f ∉ K →
  ({[f]} ∪ K) ∖ {[f]} ∖ (K ∖ list_to_set (option_list (Some f))) = ∅.
Proof. intros Hf. cbn. set_solver. Qed.

Lemma left_kept (R K : gset nat) f j : j ∈ K → f ∉ K →
  j ∈ (R ∪ K) ∖ {[f]} ∖ (K ∖ list_to_set (option_list (Some j))).
Proof. intros Hj Hf. cbn. set_solver. Qed.

(** Taking the pivot out keeps what is known about the list and its bounds. *)
Lemma sound_delete s p' x fe n ru : (minrev s < pivot s < maxrev s)%nat → (S (minrev s) < maxrev s)%nat →
  revlist s !! pivot s = Some (rev s) → sound s →
  sound (mkSearch (delete (pivot s) (revlist s)) (minrev s) (maxrev s - 1) p' x fe n ru
    (answers s ++ [(rev s, Unknown)])).
Proof.
  intros Hord Hgap Hrev [Hlist Hlow Hhigh Hrange Hhead Hlast].
  assert (length (delete (pivot s) (revlist s)) = length (revlist s) - 1)%nat as Hlen
    by (by apply length_delete).
  constructor; fields.
  - rewrite (delete_filter _ _ (rev s)); [|rewrite Hlist; by apply NoDup_filter|done].
    rewrite Hlist, list_filter_filter. apply filter_ext_elem. intros y _.
    rewrite elem_of_app, list_elem_of_singleton. naive_solver.
  - destruct Hlow as [|(y & Hy & Hin)]; [by left|right]. exists y.
    rewrite list_lookup_delete_lt by lia. split; [done|]. apply elem_of_app. by left.
  - rewrite Hlen. destruct Hhigh as [|(y & Hy & Hin)]; [left; lia|right]. exists y.
    rewrite list_lookup_delete_ge by lia. replace (S (maxrev s - 1)) with (maxrev s) by lia.
    split; [done|]. apply elem_of_app. by left.
  - rewrite Hlen. lia.
  - rewrite list_lookup_delete_lt by lia. done.
  - rewrite Hlen, list_lookup_delete_ge by lia. rewrite <-Hlast. f_equal. lia.
Qed.

(** The download that is kept, if any, is that of the next pivot. *)
Lemma next_pivot s : going s → (S (minrev s) < maxrev s - 1)%nat →
  let next := other_pivot (length (delete (pivot s) (revlist s))) (up_job s) (down_job s) in
  let p' := if bool_decide (next = up_job s) then (up_of s - 1)%nat else down_of s in
  (minrev s < p' < maxrev s - 1)%nat ∧ ∃ j, next = Some j ∧ j ∈ new_jobs s.
Proof.
  intros [Hord _ _] Hgap. cbn zeta. unfold up_of, down_of.
  pose proof (half_bounds (pivot s - minrev s)) as (Hd1 & Hd2 & Hd3).
  pose proof (half_bounds (maxrev s - pivot s)) as (Hu1 & Hu2 & Hu3).
  pose proof (up_job_needed s) as Hup. pose proof (down_job_needed s) as Hdown.
  setoid_rewrite elem_of_new_jobs.
  destruct (up_job s) as [u|], (down_job s) as [d|]; cbn [other_pivot]; [|..|lia].
  - destruct (Nat.even _).
    + rewrite bool_decide_true by done. split; [lia|eauto].
    + case_bool_decide; (split; [lia|eauto]).
  - rewrite bool_decide_true by done. split; [lia|eauto].
  - rewrite bool_decide_false by done. split; [lia|eauto].
Qed.

Lemma round_unknown s : going s → sound s → jobs_ok s → evaluate (length (answers s)) (rev s) = Unknown →
  ∃ s', bisect_round evaluate ascending descending s = (Ok (), s') ∧ stepped s Unknown s'.
Proof.
  intros Hg Hs Hj Ha. pose proof Hg as [Hord Hrev (f & Hf & Hfr)].
  pose proof Hs as [Hlist Hlow Hhigh Hrange Hhead Hlast].
  rewrite (round_asks s Unknown Hg Hs Ha) by done.
  rewrite !(bool_decide_false (Unknown = Good)), !(bool_decide_false (Unknown = Bad)) by done. cbn [andb orb].
  destruct (prefetched_eq s) as (n & -> & Hn & Hjobs & Hdiff).
  pose proof (up_job_needed s) as Hup. pose proof (down_job_needed s) as Hdown.
  erewrite M_bind_run.
  2:{ apply (nuke_run (up_of s) (down_of s) (up_job s) (down_job s) _ f); fields; [done|set_solver| |done|].
      - intros j Hjob. assert (j ∈ new_jobs s) by (by apply elem_of_new_jobs).
        specialize (Hjobs j Hjob). specialize (Hj f Hfr). split_and!; [apply elem_of_union; by right|lia|lia].
      - intros Hlt. destruct (up_job s); [left; by eexists|]. destruct (down_job s); [right; by eexists|lia]. }
  unfold nuked_fetch. fields.
  assert (length (delete (pivot s) (revlist s)) = length (revlist s) - 1)%nat as Hlen
    by (by apply length_delete).
  assert (list_to_set (option_list (up_job s) ++ option_list (down_job s)) = new_jobs s) as -> by done.
  assert (∀ j, j ∈ new_jobs s → (j < n)%nat ∧ j ∉ running s ∧ j ≠ f) as Hnew.
  { intros j Hjn%elem_of_new_jobs%Hjobs. pose proof (Hj f Hfr). split_and!; [lia| |lia]. intros Hjr%Hj. lia. }
  assert (f ∉ new_jobs s) as Hfnew by (by intros (_ & _ & [])%Hnew).
  destruct (Nat.ltb_spec (S (minrev s)) (maxrev s - 1)) as [Hgap|Hgap].
  - destruct (next_pivot s Hg Hgap) as (Hp' & j & Hnext & Hjn). rewrite Hnext in *.
    set (p' := if bool_decide _ then _ else _) in *. destruct (Hnew j Hjn) as (Hjlt & Hjr & Hjf).
    destruct (lookup_lt_is_Some_2 (delete (pivot s) (revlist s)) p') as [r Hr]; [lia|].
    erewrite set_rev_run by exact Hr. eexists. split; [reflexivity|]. constructor; fields.
    + done.
    + by apply (sound_delete s); [|lia|..].
    + intros i. fields. intros [[[Hir|Hin]%elem_of_union _]%elem_of_difference _]%elem_of_difference;
        [specialize (Hj i Hir); lia|by apply Hnew].
    + intros _. constructor; fields; [done|done|]. exists j. split; [done|]. by apply left_kept.
    + lia.
    + done.
    + intros _ Ht. unfold tidy. fields. rewrite (going_tidy s f Hg Hf Ht), (proj2 (Nat.ltb_lt _ _)) by lia.
      by apply left_one.
    + by intros [?|?].
  - destruct (lookup_lt_is_Some_2 (delete (pivot s) (revlist s)) (pivot s)) as [r Hr]; [lia|].
    erewrite set_rev_run by exact Hr. eexists. split; [reflexivity|]. constructor; fields.
    + done.
    + apply (sound_delete s); [done| |done..]. lia.
    + intros i. fields. intros [[[Hir|Hin]%elem_of_union _]%elem_of_difference _]%elem_of_difference;
        [specialize (Hj i Hir); lia|by apply Hnew].
    + lia.
    + lia.
    + done.
    + intros _ Ht. unfold tidy. fields. rewrite (going_tidy s f Hg Hf Ht), (proj2 (Nat.ltb_ge _ _)) by lia.
      by apply left_none.
    + by intros [?|?].
Qed.
End laws.
