(* ===== verification/BisectSearch.v ===== *)
(** bisect-builds.py: the search returns, with what it promises of the two builds, and
    how many builds it asks about. *)

From S2P Require Import Prelude BisectBuilds BisectLaws.

(** Halving takes one from the logarithm. *)
Lemma log2_up_half d d' : (2 <= d)%nat → (2 * d' <= d + 1)%nat → (S (Nat.log2_up d') <= Nat.log2_up d)%nat.
Proof.
  intros Hd Hd'. destruct (decide (d' = 0)%nat) as [->|Hpos].
  { pose proof (Nat.log2_up_pos d). cbn. lia. }
  pose proof (Nat.log2_up_spec d ltac:(lia)) as [_ Hup].
  pose proof (Nat.log2_up_pos d ltac:(lia)) as Hm.
  destruct (Nat.log2_up d) as [|m]; [lia|]. apply le_n_S, Nat.log2_up_le_pow2; [lia|].
  rewrite Nat.pow_succ_r' in Hup. lia.
Qed.

Section search.
Context {A : Type} `{!EqDecision A} (evaluate : nat → A → Answer) (l0 : list A) (l0_nodup : NoDup l0).
Context (ascending descending : bool) (low high : Answer).
Context (direction : (ascending = true ∧ descending = false ∧ low = Good ∧ high = Bad) ∨
                     (ascending = false ∧ descending = true ∧ low = Bad ∧ high = Good)).
Context (k : nat) (answering : ∀ n r, evaluate n r = Good ∨ evaluate n r = Bad ∨
                                      evaluate n r = Unknown ∨ evaluate n r = Retry ∧ (n < k)%nat).

(** What was answered is what [evaluate] answered. *)
Definition recorded (s : Search (A:=A)) : Prop :=
  ∀ n r a, answers s !! n = Some (r, a) → evaluate n r = a.

Abbreviation sound := (sound l0 low high).
Abbreviation stepped := (stepped l0 low high).

Lemma round_steps s : going s → sound s → jobs_ok s →
  ∃ s', bisect_round evaluate ascending descending s = (Ok (), s') ∧
        stepped s (evaluate (length (answers s)) (rev s)) s'.
Proof.
  intros Hg Hs Hj. pose proof (answering (length (answers s)) (rev s)) as Ha.
  assert (evaluate (length (answers s)) (rev s) = low ∨ evaluate (length (answers s)) (rev s) = high ∨
    evaluate (length (answers s)) (rev s) = Unknown ∨ evaluate (length (answers s)) (rev s) = Retry)
    as [Hl|[Hh|[Hu|Hr]]].
  { destruct direction as [(_ & _ & -> & ->)|(_ & _ & -> & ->)]; tauto. }
  - rewrite Hl. by apply (round_up evaluate l0 l0_nodup ascending descending low high direction).
  - rewrite Hh. by apply (round_down evaluate l0 l0_nodup ascending descending low high direction).
  - rewrite Hu. by apply (round_unknown evaluate l0 l0_nodup ascending descending low high direction).
  - rewrite Hr. by apply (round_retry evaluate l0 l0_nodup ascending descending low high direction).
Qed.

(** What the loop leaves. *)
Record searched (s s' : Search (A:=A)) : Prop := {
  sr_sound : sound s';
  sr_adjacent : maxrev s' = S (minrev s');
  sr_recorded : recorded s';
  sr_tidy : tidy s → (∀ n r, evaluate n r ≠ Retry) → tidy s';
  sr_log : centered s → (∀ n r, evaluate n r = Good ∨ evaluate n r = Bad) →
    (length (answers s') <= length (answers s) + Nat.log2_up (maxrev s - minrev s))%nat
}.

Lemma recorded_stepped s s' : recorded s → stepped s (evaluate (length (answers s)) (rev s)) s' → recorded s'.
Proof.
  intros Hr Hst n r a. rewrite (st_answers _ _ _ _ _ _ Hst).
  intros [Hn|[Hlen Hn]]%lookup_app_Some; [by apply Hr|]. apply list_lookup_singleton_Some in Hn as [Hn [= <- <-]].
  f_equal. lia.
Qed.

Lemma loop_run fuel s : sound s → jobs_ok s → recorded s → ((S (minrev s) < maxrev s)%nat → going s) →
  (k - length (answers s) + (maxrev s - minrev s) <= fuel + 1)%nat →
  ∃ s', bisect_loop evaluate fuel ascending descending s = (Ok (), s') ∧ searched s s'.
Proof.
  revert s. induction fuel as [|fuel IH]; intros s Hs Hj Hrec Hgo Hfuel; cbn [bisect_loop]; rewrite bind_gets;
    pose proof (so_range _ _ _ _ Hs) as Hrange;
    destruct (Nat.ltb_spec (S (minrev s)) (maxrev s)) as [Hlt|Hge]; try lia;
    try (rewrite andb_false_r; eexists; split; [done|]; constructor; [done|lia|done|done|lia]).
  pose proof (Hgo Hlt) as Hg. destruct (g_fetch _ Hg) as (f & -> & _). cbn [is_not_none andb].
  destruct (round_steps s Hg Hs Hj) as (s1 & Hround & Hst).
  erewrite M_bind_run by exact Hround. set (a := evaluate _ _) in *.
  pose proof (st_answers _ _ _ _ _ _ Hst) as Hans.
  assert (length (answers s1) = S (length (answers s))) as Hlen by (rewrite Hans, length_app; cbn; lia).
  destruct (IH s1) as (s2 & Hloop & Hsr).
  - apply Hst.
  - apply Hst.
  - by eapply recorded_stepped.
  - apply Hst.
  - destruct (decide (a = Retry)) as [Ha|Ha].
    + pose proof (st_same _ _ _ _ _ _ Hst Ha).
      destruct (answering (length (answers s)) (rev s)) as [Hr|[Hr|[Hr|[_ Hr]]]]; try (fold a in Hr; congruence). lia.
    + pose proof (st_less _ _ _ _ _ _ Hst Ha). lia.
  - exists s2. split; [done|]. destruct Hsr as [Hs2 Hadj Hrec2 Htidy Hlog]. constructor; [done..| |].
    + intros Ht Hnr. apply Htidy; [|done]. apply Hst; [apply Hnr|done].
    + intros Hc Hgb. destruct (st_half _ _ _ _ _ _ Hst (Hgb _ _) Hc) as [Hc1 Hhalf].
      specialize (Hlog Hc1 Hgb). pose proof (log2_up_half (maxrev s - minrev s) (maxrev s1 - minrev s1) ltac:(lia) Hhalf). lia.
Qed.

(** What the invariant says of the two builds and of the list that was given. *)
Lemma sound_splits s : sound s → maxrev s = S (minrev s) → recorded s →
  ∃ pre lo mid hi post, revlist s !! minrev s = Some lo ∧ revlist s !! maxrev s = Some hi ∧
    l0 = pre ++ lo :: mid ++ hi :: post ∧
    (∀ r, r ∈ mid → ∃ n, evaluate n r = Unknown) ∧
    (pre = [] ∨ ∃ n, evaluate n lo = low) ∧ (post = [] ∨ ∃ n, evaluate n hi = high).
Proof.
  intros [Hlist Hlow Hhigh Hrange Hhead Hlast] Hadj Hrec.
  assert (∀ r a, (r, a) ∈ answers s → ∃ n, evaluate n r = a) as Hrec'.
  { intros r a [n Hn]%list_elem_of_lookup. exists n. by apply Hrec. }
  destruct (lookup_lt_is_Some_2 (revlist s) (minrev s)) as [lo Hlo]; [lia|].
  destruct (lookup_lt_is_Some_2 (revlist s) (maxrev s)) as [hi Hhi]; [lia|].
  pose proof (take_drop_middle _ _ _ Hlo) as Hsplit.
  assert (drop (S (minrev s)) (revlist s) = hi :: drop (S (maxrev s)) (revlist s)) as Hdrop.
  { rewrite <-Hadj. by apply drop_S. }
  rewrite Hdrop, Hlist in Hsplit. symmetry in Hsplit. rewrite <-Hlist in Hsplit at 2 3.
  apply filter_app_inv' in Hsplit as (l1 & l2 & Hl0 & _ & Hl2).
  apply filter_cons_inv in Hl2 as (m1 & m2 & -> & _ & Hm2).
  apply filter_cons_inv in Hm2 as (mid & post & -> & Hmid & _).
  exists (l1 ++ m1), lo, mid, hi, post. split_and!; [done|done| | | |].
  - by rewrite Hl0, <-app_assoc.
  - intros r Hr. apply Hrec'. specialize (Hmid r Hr). by apply dec_stable.
  - destruct Hlow as [Hmin|(x & Hx & Hin)]; [left|right; apply Hrec'; congruence].
    rewrite Hmin in Hlo. rewrite Hlo, Hl0 in Hhead. rewrite Hl0, app_assoc in l0_nodup.
    destruct (l1 ++ m1) as [|y pre] eqn:Hpre; [done|].
    rewrite app_assoc, Hpre in Hhead. cbn in Hhead. injection Hhead as ->.
    apply NoDup_app in l0_nodup as (_ & Hno & _). exfalso. apply (Hno y); left.
  - destruct Hhigh as [Hmax|(x & Hx & Hin)]; [left|right; apply Hrec'; congruence].
    destruct post as [|z post _] using rev_ind; [done|].
    replace (length (revlist s) - 1)%nat with (maxrev s) in Hlast by lia.
    rewrite Hhi, Nat.sub_1_r, <-last_lookup in Hlast.
    assert (l0 = (l1 ++ m1 ++ lo :: mid) ++ hi :: post ++ [z]) as Hl0'
      by (rewrite Hl0; cbn [app]; by rewrite <-!app_assoc).
    rewrite Hl0' in l0_nodup, Hlast.
    rewrite app_comm_cons, app_assoc, last_snoc in Hlast. injection Hlast as ->.
    apply NoDup_app in l0_nodup as (_ & _ & [Hno _]%NoDup_cons). exfalso. apply Hno, elem_of_app.
    right. by apply list_elem_of_singleton.
Qed.
End search.

(** ** The whole search *)

Section whole.
Context {A : Type} `{!EqDecision A} (evaluate : nat → A → Answer) (run_raises : A → bool).
Context (l : list A) (good_rev bad_rev : Z) (verify_range : bool) (k : nat).
Context (l_nodup : NoDup l) (l_long : (2 <= length l)%nat) (revs_differ : good_rev ≠ bad_rev).

Definition low_answer : Answer := if (bad_rev <? good_rev)%Z then Bad else Good.
Definition high_answer : Answer := if (bad_rev <? good_rev)%Z then Good else Bad.

Lemma directed :
  ((good_rev <? bad_rev)%Z = true ∧ (bad_rev <? good_rev)%Z = false ∧ low_answer = Good ∧ high_answer = Bad) ∨
  ((good_rev <? bad_rev)%Z = false ∧ (bad_rev <? good_rev)%Z = true ∧ low_answer = Bad ∧ high_answer = Good).
Proof.
  unfold low_answer, high_answer. destruct (Z.ltb_spec good_rev bad_rev), (Z.ltb_spec bad_rev good_rev); try lia; auto.
Qed.

(** The ends of the range are what they are said to be. *)
Definition ends_verified : Prop := ∃ lo hi,
  l !! 0%nat = Some lo ∧ l !! (length l - 1)%nat = Some hi ∧ run_raises lo = false ∧ run_raises hi = false ∧
  evaluate 0 lo = low_answer ∧ evaluate 1 hi = high_answer.

(** Where the loop begins. *)
Record begun (s : Search (A:=A)) : Prop := {
  bg_sound : sound l low_answer high_answer s;
  bg_jobs : jobs_ok s;
  bg_recorded : recorded evaluate s;
  bg_range : minrev s = 0%nat ∧ maxrev s = (length l - 1)%nat;
  bg_going : (3 <= length l)%nat → going s ∧ tidy s;
  bg_centered : centered s;
  bg_asked : length (answers s) = if verify_range then 2%nat else 0%nat
}.

Lemma begin_state r f n ru ans : l !! ((length l - 1) / 2)%nat = Some r → f ∈ ru → ru = {[f]} → (f < n)%nat →
  (∀ i x a, ans !! i = Some (x, a) → evaluate i x = a ∧ a ≠ Unknown) →
  length ans = (if verify_range then 2%nat else 0%nat) →
  begun (mkSearch l 0 (length l - 1) ((length l - 1) / 2) r (Some f) n ru ans).
Proof.
  intros Hr Hf Hru Hfn Hans Hlen. pose proof (half_bounds (length l - 1)) as (Hh1 & Hh2 & Hh3).
  constructor; [constructor|..]; cbn [revlist minrev maxrev pivot rev fetch next_job running answers].
  - symmetry. apply filter_all. intros x _ [i Hi]%list_elem_of_lookup. by apply Hans in Hi as [_ []].
  - by left.
  - left. cbn. lia.
  - cbn. lia.
  - done.
  - done.
  - intros j. cbn. set_solver.
  - intros i x a Hi. by apply Hans.
  - done.
  - intros Hlong. split; [constructor; cbn [revlist minrev maxrev pivot rev fetch running]|].
    + lia.
    + done.
    + by exists f.
    + unfold tidy. cbn -[Nat.ltb]. rewrite (proj2 (Nat.ltb_lt _ _)) by lia. set_solver.
  - intros _. done.
  - done.
Qed.

Lemma start_job_run (s : Search (A:=A)) :
  start_job s = (Ok (next_job s), set_running (S (next_job s)) ({[next_job s]} ∪ running s) s).
Proof. done. Qed.

(** A verification that goes well asks two questions and stops its two downloads. *)
Lemma verify_run f i j lo hi ra (s : Search (A:=A)) :
  run_raises lo = false → run_raises hi = false →
  evaluate (length (answers s)) lo = low_answer → evaluate (S (length (answers s))) hi = high_answer →
  i ∈ running s → j ∈ running s → i ≠ j → (i < next_job s)%nat → (j < next_job s)%nat →
  ra = running s ∖ {[i]} ∖ {[j]} →
  verify evaluate run_raises f i j lo hi low_answer high_answer s =
    (Ok (), mkSearch (revlist s) (minrev s) (maxrev s) (pivot s) (rev s) (fetch s) (next_job s) ra
       (answers s ++ [(lo, low_answer); (hi, high_answer)])).
Proof.
  intros Hlo Hhi Hal Hah Hi Hj Hij Hin Hjn ->. unfold verify, VerifyEndpoint.
  assert (low_answer ≠ Quit ∧ high_answer ≠ Quit) as [Hlq Hhq]
    by (unfold low_answer, high_answer; by destruct (_ <? _)%Z).
  rewrite Hlo, Hhi. rewrite !M_bind_assoc.
  erewrite M_bind_run by (by apply WaitFor_run). rewrite M_bind_assoc.
  erewrite M_bind_run by (by apply (ask_run evaluate s lo low_answer)).
  rewrite bool_decide_false by tauto. cbn [when]. rewrite bind_ret.
  erewrite M_bind_run by (by apply WaitFor_run).
  erewrite M_bind_run.
  2:{ apply (ask_run evaluate _ hi high_answer); [|done]. cbn [answers add_answer].
      rewrite length_app. cbn [length]. by rewrite Nat.add_1_r. }
  rewrite bool_decide_false by tauto. cbn [when].
  cbn [mret M_ret]. erewrite M_bind_run by (by apply Stop_run).
  rewrite Stop_run by (cbn; set_solver).
  unfold set_running, add_answer. cbn. by rewrite <-app_assoc.
Qed.

Lemma Bisect_begins fuel r0 : (verify_range = true → ends_verified) →
  ∃ s, begun s ∧ Bisect evaluate run_raises fuel l good_rev bad_rev verify_range (before r0) =
    (bisect_loop evaluate fuel (good_rev <? bad_rev)%Z (bad_rev <? good_rev)%Z;;
     s ← gets id; lo ← rev_at (minrev s); hi ← rev_at (maxrev s); mret (lo, hi)) s.
Proof.
  intros Hends. unfold Bisect. rewrite bind_modify. rewrite (proj2 (Nat.ltb_ge _ _)) by lia.
  rewrite !bind_modify. pose proof (half_bounds (length l - 1)) as (Hh1 & Hh2 & Hh3).
  destruct (lookup_lt_is_Some_2 l ((length l - 1) / 2)%nat) as [r Hr]; [lia|].
  erewrite M_bind_run by (by apply rev_at_run). rewrite bind_modify.
  destruct verify_range eqn:Hverify; cbn [when].
  - destruct (Hends eq_refl) as (lo & hi & Hlo & Hhi & Hrlo & Hrhi & Helo & Hehi).
    erewrite M_bind_run by (by apply start_job_run). rewrite bind_modify.
    rewrite M_bind_assoc. erewrite M_bind_run by (by apply rev_at_run).
    rewrite M_bind_assoc. erewrite M_bind_run by (by apply rev_at_run).
    rewrite !M_bind_assoc. erewrite M_bind_run by (by apply start_job_run).
    rewrite M_bind_assoc. erewrite M_bind_run by (by apply start_job_run).
    erewrite M_bind_run.
    2:{ apply (verify_run 0 1 2 lo hi {[0%nat]}); cbn; [done..|set_solver|set_solver|lia|lia|lia|set_solver]. }
    cbn [answers app]. erewrite M_bind_run by (apply WaitFor_run; cbn; lia).
    eexists. split; [|reflexivity]. apply begin_state; [done|set_solver|done|cbn; lia| |by rewrite Hverify].
    intros [|[|i]] x a [= <- <-]; (split; [done|]); unfold low_answer, high_answer; by destruct (_ <? _)%Z.
  - erewrite M_bind_run by (by apply start_job_run). rewrite bind_modify, bind_ret.
    erewrite M_bind_run by (apply WaitFor_run; cbn; lia).
    eexists. split; [|reflexivity]. apply begin_state; [done|set_solver| |cbn; lia|done|by rewrite Hverify].
    cbn. set_solver.
Qed.

(** C11: A bisection of a list of two or more different builds, between different
    revisions, whose ends answer as they must if they are verified.  The questions are
    answered good, bad, unknown or, before the call [k], retry.  It returns, with two
    builds of the list between which there are only builds nobody could tell about;
    the lower one is the first of the list or was found to be as the range begins, the
    upper one the last or as the range ends.  Only when nothing is to be retried and
    the list has three builds or more is every download stopped (with two builds the
    first is not, [BisectExamples.two_builds], and a retry forgets downloads,
    [BisectExamples.retry_abandons]); and only when every answer is good or bad are
    the questions bounded, by the logarithm of the range. *)
Theorem Bisect_spec fuel r0 :
  (∀ n r, evaluate n r = Good ∨ evaluate n r = Bad ∨ evaluate n r = Unknown ∨
          evaluate n r = Retry ∧ (n < k)%nat) →
  (verify_range = true → ends_verified) →
  (k + length l <= fuel)%nat →
  ∃ s pre lo mid hi post,
    Bisect evaluate run_raises fuel l good_rev bad_rev verify_range (before r0) = (Ok (lo, hi), s) ∧
    l = pre ++ lo :: mid ++ hi :: post ∧
    (∀ r, r ∈ mid → ∃ n, evaluate n r = Unknown) ∧
    (pre = [] ∨ ∃ n, evaluate n lo = low_answer) ∧ (post = [] ∨ ∃ n, evaluate n hi = high_answer) ∧
    ((∀ n r, evaluate n r ≠ Retry) → (3 <= length l)%nat → running s = ∅) ∧
    ((∀ n r, evaluate n r = Good ∨ evaluate n r = Bad) →
     (length (answers s) <= (if verify_range then 2 else 0) + Nat.log2_up (length l - 1))%nat).
Proof.
  intros Hans Hends Hfuel. destruct (Bisect_begins fuel r0 Hends) as (s0 & Hb & ->).
  destruct Hb as [Hs Hj Hrec [Hmin Hmax] Hgo Hc Hasked].
  destruct (loop_run evaluate l l_nodup _ _ low_answer high_answer directed k Hans fuel s0 Hs Hj Hrec)
    as (s & Hloop & [Hs' Hadj Hrec' Htidy Hlog]); [rewrite Hmin, Hmax; intros; apply Hgo; lia|lia|].
  destruct (sound_splits evaluate l l_nodup low_answer high_answer s Hs' Hadj Hrec')
    as (pre & lo & mid & hi & post & Hlo & Hhi & Hl & Hmid & Hpre & Hpost).
  exists s, pre, lo, mid, hi, post. split_and!; [|done..| |].
  - erewrite M_bind_run by exact Hloop. rewrite bind_gets. cbn [id].
    erewrite M_bind_run by (by apply rev_at_run). by erewrite M_bind_run by (by apply rev_at_run).
  - intros Hnr Hlong. destruct (Hgo Hlong) as [_ Ht]. rewrite (Htidy Ht Hnr : running s = _).
    by rewrite (proj2 (Nat.ltb_ge _ _)) by lia.
  - intros Hgb. specialize (Hlog Hc Hgb). by rewrite Hasked, Hmin, Hmax, Nat.sub_0_r in Hlog.
Qed.
End whole.

(** ** Searches *)

Module BisectExamples.

(** Ten builds; the seventh broke something, and nobody can tell about the sixth. *)
Definition builds : list nat := seq 1 10.
Definition answer (_ r : nat) : Answer :=
  if (r =? 6)%nat then Unknown else if (r <? 7)%nat then Good else Bad.
Definition runs_never_raise (_ : nat) : bool := false.

(** The result, the downloads that run and the builds asked about. *)
Definition bisect_outcome (evaluate : nat → nat → Answer) (raises : nat → bool) (l : list nat) (good bad : Z)
    (verify_range : bool) : outcome (nat * nat) * list nat * list nat :=
  let '(r, s) := Bisect evaluate raises 40 l good bad verify_range (before 0%nat) in
  (r, elements (running s), (answers s).*1).

Example breaks_at_seven :
  bisect_outcome answer runs_never_raise builds 1 10 true = (Ok (5, 7)%nat, [], [1; 10; 5; 7; 6]%nat).
Proof. by vm_compute. Qed.

(** The other direction: a build that repaired something. *)
Example repaired :
  bisect_outcome (λ _ r, if (r <? 4)%nat then Bad else Good) runs_never_raise builds 10 1 true =
    (Ok (3, 4)%nat, [], [1; 10; 5; 3; 4]%nat).
Proof. by vm_compute. Qed.

(** With two builds the download of the first is never stopped. *)
Example two_builds : bisect_outcome answer runs_never_raise [1; 10]%nat 1 10 false = (Ok (1, 10)%nat, [0%nat], []).
Proof. by vm_compute. Qed.

(** A retry starts the two downloads of the next round again and loses the first two. *)
Example retry_abandons :
  bisect_outcome (λ n r, if (n =? 0)%nat then Retry else answer n r) runs_never_raise [1; 3; 4; 5; 7; 8; 9]%nat 1 9 false =
    (Ok (5, 7)%nat, [2; 1]%nat, [5; 5; 7]%nat).
Proof. by vm_compute. Qed.

(** A build that cannot be run ends the verification with an unbound variable, after
    its two downloads are stopped. *)
Example run_fails : bisect_outcome answer (λ r, (r =? 1)%nat) builds 1 10 true =
  (Raise (UnboundLocalError "exit_status"), [0%nat], []).
Proof. by vm_compute. Qed.

(** A range whose end is not what was said is refused, and nothing is left. *)
Example bad_range : bisect_outcome answer runs_never_raise builds 10 1 true = (Raise SystemExit, [], [1%nat]).
Proof. by vm_compute. Qed.

(** Leaving unlinks what was downloaded. *)
Example quits : bisect_outcome (λ _ _, Quit) runs_never_raise builds 1 10 false = (Raise SystemExit, [], [5%nat]).
Proof. by vm_compute. Qed.

Example same_revision : (bisect_outcome answer runs_never_raise builds 5 5 false).1.1 = Raise AssertionError.
Proof. by vm_compute. Qed.

Example too_few : (bisect_outcome answer runs_never_raise [1%nat] 1 10 false).1.1 =
  Raise (RuntimeError "We don't have enough builds to bisect.").
Proof. by vm_compute. Qed.

Lemma Bisect_spec_witness : ∃ s pre lo mid hi post,
  Bisect answer runs_never_raise 12 builds 1 10 true (before 0%nat) = (Ok (lo, hi), s) ∧
  builds = pre ++ lo :: mid ++ hi :: post ∧ (∀ r, r ∈ mid → ∃ n, answer n r = Unknown).
Proof.
  destruct (Bisect_spec answer runs_never_raise builds 1 10 true 0%nat
    (NoDup_seq 1 10) ltac:(by cbn; lia) ltac:(done) 12 0%nat)
    as (s & pre & lo & mid & hi & post & Hrun & Hl & Hmid & _).
  - intros n r. unfold answer. destruct (r =? 6)%nat, (r <? 7)%nat; auto.
  - intros _. exists 1%nat, 10%nat. by vm_compute.
  - cbn. lia.
  - exists s, pre, lo, mid, hi, post. exact (conj Hrun (conj Hl Hmid)).
Defined.
End BisectExamples.
