(* ===== verification/PerfBisect.v ===== *)
(** bisect_state.py, src/src/tools/auto_bisect: the states of the revisions of a
    bisection, an ordered list of objects with their places in it; the search of
    bisect_perf_regression.py for the revision that changed a measurement, which
    goes on in the repositories a revision contains; and how bisect_results.py
    reads its outcome.

    What is measured is one number per run, exact where the code has a float.
    Running a revision, listing the revisions of a repository and asking git are
    parameters.  Output and warnings are left out. *)

From Stdlib Require Import String.
From S2P Require Import Prelude.

#[local] Open Scope string_scope.
#[local] Open Scope list_scope.

(** ** bisect_state.py *)

(** [passed]: not known, 1, 0, and the two reasons for which there is no result. *)
Inductive Passed := Untested | Pass | Broken | Skipped | BuildFailed.
#[export] Instance Passed_eq_dec : EqDecision Passed.
Proof. solve_decision. Defined.

Record RevisionState := mkRevisionState {
  depot : string;
  revision : string;
  index : nat;
  value : option Z;
  perf_time : Z;
  build_time : Z;
  passed : Passed;
  external : option (gmap string string)
}.

Definition RevisionState_init (depot revision : string) (index : nat) : RevisionState :=
  mkRevisionState depot revision index None 0 0 Untested None.

Definition set_index (i : nat) (o : RevisionState) : RevisionState :=
  mkRevisionState (depot o) (revision o) i (value o) (perf_time o) (build_time o) (passed o) (external o).
Definition set_passed (p : Passed) (o : RevisionState) : RevisionState :=
  mkRevisionState (depot o) (revision o) (index o) (value o) (perf_time o) (build_time o) p (external o).
Definition set_external (e : option (gmap string string)) (o : RevisionState) : RevisionState :=
  mkRevisionState (depot o) (revision o) (index o) (value o) (perf_time o) (build_time o) (passed o) e.
(** The assignments for a run that has a result. *)
Definition set_result (p : Passed) (v : Z) (e : gmap string string) (perf build : Z) (o : RevisionState) :
    RevisionState :=
  mkRevisionState (depot o) (revision o) (index o) (Some v) perf build p (Some e).

(** [BisectState]: its list and its dict, and the objects the list refers to. *)
Record BisectState := mkBisectState {
  objects : list RevisionState;
  revision_states : list nat;
  revision_index : gmap string nat
}.
Definition no_states : BisectState := mkBisectState [] [] ∅.

Abbreviation B := (M BisectState).

Definition alter_object (f : RevisionState → RevisionState) (r : nat) (s : BisectState) : BisectState :=
  mkBisectState (alter f r (objects s)) (revision_states s) (revision_index s).
Definition insert_state (i r : nat) (s : BisectState) : BisectState :=
  mkBisectState (objects s) (take i (revision_states s) ++ r :: drop i (revision_states s)) (revision_index s).

Definition RevisionKey (depot revision : string) : string := depot +:+ ":" +:+ revision.

Definition InitRevisionState (depot revision : string) (index : nat) : B nat :=
  r ← gets (λ s, length (objects s));
  modify (λ s, mkBisectState (objects s ++ [RevisionState_init depot revision index]) (revision_states s)
    (<[RevisionKey depot revision := index]> (revision_index s)));;
  mret r.

(** The loops of the constructor and of [CreateRevisionStatesAfter]: an [append] is
    an [insert] at the end. *)
Fixpoint insert_states (depot : string) (revisions : list string) (index : nat) : B unit :=
  match revisions with
  | [] => mret ()
  | revision :: revisions =>
      r ← InitRevisionState depot revision index;
      modify (insert_state index r);;
      insert_states depot revisions (S index)
  end.

Definition BisectState_init (depot : string) (revisions : list string) : B unit :=
  insert_states depot revisions 0.

Definition GetRevisionState (depot revision : string) : B (option nat) :=
  index ← gets (λ s, revision_index s !! RevisionKey depot revision);
  match index with
  | None | Some O => mret None
  | Some i => r ← gets (λ s, revision_states s !! i); r ← lift (of_option IndexError r); mret (Some r)
  end.

Definition CreateRevisionStatesAfter (depot : string) (revisions : list string)
    (reference_depot reference_revision : string) : B (list nat) :=
  found ← gets (λ s, revision_index s !! RevisionKey reference_depot reference_revision);
  ref_index ← lift (of_option KeyError found);
  let num_new_revisions := length revisions in
  entries ← gets revision_states;
  mfor entries (λ r, modify (alter_object (λ o,
    if (ref_index <? index o)%nat then set_index (index o + num_new_revisions) o else o) r));;
  insert_states depot revisions (S ref_index);;
  gets (λ s, take num_new_revisions (drop (S ref_index) (revision_states s))).

Definition GetRevisionStates : B (list nat) := gets revision_states.

(** ** bisect_results.py *)

(** The states of the list, in order. *)
Definition states_of (s : BisectState) (rs : list nat) : list RevisionState :=
  omap (λ r, objects s !! r) rs.

Definition breaking_step (acc : option RevisionState * option RevisionState) (o : RevisionState) :
    option RevisionState * option RevisionState :=
  let '(first_working, last_broken) := acc in
  (match first_working with
   | None => if bool_decide (passed o = Pass) then Some o else None
   | Some _ => first_working
   end,
   if bool_decide (passed o = Broken) then Some o else last_broken).
Definition FindBreakingRevRange (states : list RevisionState) :
    option RevisionState * option RevisionState := foldl breaking_step (None, None) states.

(** The repositories and revisions from the last broken state to the one before the
    first working state. *)
Definition FindCulpritRevisions (states : list RevisionState) (first_working last_broken : RevisionState) :
    outcome (list (string * string)) :=
  mapM (λ i, o ← of_option IndexError (states !! i); Ok (depot o, revision o))
    (seq (index last_broken) (index first_working - index last_broken)).

(** ** bisect_utils.py *)

(** What the search reads of [DEPOT_DEPS_NAME], as it is before
    [AddAdditionalDepotInfo] adds to it. *)
Record Depot := mkDepot { recurse : bool; from : list string; platform : option string }.
Definition DEPOT_DEPS_NAME : gmap string Depot := list_to_map [
  ("chromium", mkDepot true ["android-chrome"] None);
  ("webkit", mkDepot true ["chromium"] None);
  ("angle", mkDepot true ["chromium"] (Some "nt"));
  ("v8", mkDepot true ["chromium"] None);
  ("v8_bleeding_edge", mkDepot true ["v8"] None);
  ("skia", mkDepot true ["chromium"] None)].

(** ** The search *)

(** [RunTest]: the measurement, the revisions of the contained repositories and the two
    times, or the code of a failure, which is not zero. *)
Inductive TestResult :=
  | Ran (v : Z) (external : gmap string string) (perf_time build_time : Z)
  | NotRun (code : Z).
Definition BUILD_RESULT_FAIL : Z := 1.
Definition BUILD_RESULT_SKIPPED : Z := 2.

Definition CheckIfRunPassed (current known_good known_bad : Z) : bool :=
  (Z.abs (current - known_good) <? Z.abs (current - known_bad))%Z.

(** The variables of the loop.  [tested] counts the runs, for [run_test]. *)
Record PerfSearch := mkPerfSearch {
  bisect_state : BisectState;
  current_states : list nat;
  min_revision : nat;
  max_revision : nat;
  tested : nat
}.
Abbreviation L := (M PerfSearch).

(** A call of a method of [bisect_state]. *)
Definition on_state {A} (m : B A) : L A := λ s,
  let '(r, b) := m (bisect_state s) in
  (r, mkPerfSearch b (current_states s) (min_revision s) (max_revision s) (tested s)).
Definition set_states (l : list nat) (lo hi : nat) (s : PerfSearch) : PerfSearch :=
  mkPerfSearch (bisect_state s) l lo hi (tested s).
Definition change (f : RevisionState → RevisionState) (r : nat) : L unit := on_state (modify (alter_object f r)).
Definition object_of (r : nat) : L RevisionState :=
  o ← gets (λ s, objects (bisect_state s) !! r); lift (of_option IndexError o).
Definition state_at (i : nat) : L nat := r ← gets (λ s, current_states s !! i); lift (of_option IndexError r).

(** How a pass through the loop ends. *)
Inductive Step := Continue | Break | ReturnError (message : string).

Section search.
Context `{!DictOrder}.
Context (os_name : string).
Context (run_test : nat → string → string → TestResult).
Context (known_good_value known_bad_value : Z).
(** [_GetNearestV8BleedingEdgeFromTrunk], forwards or backwards. *)
Context (nearest_bleeding_edge : string → bool → option string).
(** [PrepareToBisectOnDepot] *)
Context (PrepareToBisectOnDepot : string → string → string → string → list string).

Definition set_bleeding_edge (r : nat) (v : option string) : L unit :=
  o ← object_of r;
  ext ← lift (of_option (TypeError "'NoneType' object does not support item assignment") (external o));
  change (set_external (Some (partial_alter (λ _, v) "v8_bleeding_edge" ext))) r.

Definition FillInV8BleedingEdgeInfo (min_state max_state : nat) : L unit :=
  mn ← object_of min_state;
  mx ← object_of max_state;
  let r1 := nearest_bleeding_edge (revision mn) true in
  let r2 := nearest_bleeding_edge (revision mx) false in
  set_bleeding_edge min_state r1;;
  set_bleeding_edge max_state r2.

(** [state.external.get(name)] *)
Definition external_get (r : nat) (name : string) : L (option string) :=
  o ← object_of r;
  ext ← lift (of_option (AttributeError "get") (external o));
  mret (ext !! name).

Definition nonempty (s : option string) : bool :=
  match s with None | Some EmptyString => false | _ => true end.

Fixpoint find_depot (depots : list (string * Depot)) (current_depot : string) (min_state max_state : nat) :
    L (option string) :=
  match depots with
  | [] => mret None
  | (next_depot, d) :: depots =>
      let continue := find_depot depots current_depot min_state max_state in
      if match platform d with Some p => bool_decide (p ≠ os_name) | None => false end then continue
      else
        mn ← object_of min_state;
        if negb (recurse d && bool_decide (depot mn ∈ from d)) then continue
        else
          when (bool_decide (current_depot = "v8")) (FillInV8BleedingEdgeInfo min_state max_state);;
          a ← external_get min_state next_depot;
          b ← external_get max_state next_depot;
          if bool_decide (a = b) then continue
          else if nonempty a && nonempty b then mret (Some next_depot)
          else continue
  end.

Definition FindNextDepotToBisect (current_depot : string) (min_state max_state : nat) : L (option string) :=
  find_depot (dict_items DEPOT_DEPS_NAME) current_depot min_state max_state.

(** The search goes on in a repository the two revisions contain. *)
Definition bisect_external (min_state max_state : nat) : L Step :=
  mn ← object_of min_state;
  let current_depot := depot mn in
  let previous_revision := revision mn in
  found ← FindNextDepotToBisect current_depot min_state max_state;
  match found with
  | None => mret Break
  | Some external_depot =>
      earliest ← external_get max_state external_depot;
      latest ← external_get min_state external_depot;
      earliest ← lift (of_option KeyError earliest);
      latest ← lift (of_option KeyError latest);
      match PrepareToBisectOnDepot external_depot earliest latest previous_revision with
      | [] => mret (ReturnError "An error occurred attempting to retrieve revision range")
      | new_revision_list =>
          states ← on_state
            (CreateRevisionStatesAfter external_depot new_revision_list current_depot previous_revision);
          modify (set_states states 0 (length states - 1));;
          mret Continue
      end
  end.

(** The second half of the loop: a revision is run.  After the last state is taken
    out of the list its bounds are not read any more. *)
Definition test_state (next_revision_index : nat) : L Step :=
  next ← state_at next_revision_index;
  o ← object_of next;
  n ← gets tested;
  modify (λ s, mkPerfSearch (bisect_state s) (current_states s) (min_revision s) (max_revision s) (S n));;
  match run_test n (depot o) (revision o) with
  | Ran v ext perf build =>
      let passed_regression := CheckIfRunPassed v known_good_value known_bad_value in
      change (set_result (if passed_regression then Pass else Broken) v ext perf build) next;;
      (if passed_regression
       then modify (λ s, set_states (current_states s) (min_revision s) next_revision_index s)
       else modify (λ s, set_states (current_states s) next_revision_index (max_revision s) s))
  | NotRun code =>
      (if (code =? BUILD_RESULT_SKIPPED)%Z then change (set_passed Skipped) next
       else when (code =? BUILD_RESULT_FAIL)%Z (change (set_passed BuildFailed) next));;
      modify (λ s, set_states (delete next_revision_index (current_states s)) (min_revision s)
        (max_revision s - 1) s)
  end;;
  mret Continue.

Definition perf_round : L Step :=
  s ← gets id;
  match current_states s with
  | [] => mret Break
  | _ =>
      if (max_revision s - min_revision s <=? 1)%nat then
        min_state ← state_at (min_revision s);
        max_state ← state_at (max_revision s);
        mn ← object_of min_state;
        mx ← object_of max_state;
        if bool_decide (passed mn = Untested) then test_state (min_revision s)
        else if bool_decide (passed mx = Untested) then test_state (max_revision s)
        else if bool_decide (depot mn ∈ ["android-chrome"; "chromium"; "v8"])
        then bisect_external min_state max_state
        else mret Break
      else test_state ((max_revision s - min_revision s) / 2 + min_revision s)
  end.

(** [None] when the loop is left, the error when the method returns one. *)
Fixpoint perf_loop (fuel : nat) : L (option string) :=
  match fuel with
  | O => raise recursion_error
  | S fuel =>
      step ← perf_round;
      match step with
      | Continue => perf_loop fuel
      | Break => mret None
      | ReturnError e => mret (Some e)
      end
  end.

(** The part of [Run] from the construction of the states to the end of the loop, with
    the measurements of the two ends. *)
Definition Run (fuel : nat) (target_depot : string) (revision_list : list string)
    (bad_external good_external : gmap string string) (bad_perf bad_build good_perf good_build : Z) :
    L (option string) :=
  on_state (BisectState_init target_depot revision_list);;
  states ← on_state GetRevisionStates;
  modify (set_states states 0 (length states - 1));;
  bad ← state_at 0;
  change (set_result Broken known_bad_value bad_external bad_perf bad_build) bad;;
  good ← state_at (length states - 1);
  change (set_result Pass known_good_value good_external good_perf good_build) good;;
  perf_loop fuel.

Definition at_start : PerfSearch := mkPerfSearch no_states [] 0 0 0.
End search.
