(* ===== verification/PerfBisectLaws.v ===== *)
(** auto_bisect: the states of a bisection know their places, whatever is inserted;
    and the search for a revision ends between a broken and a working one with
    nothing between them that could be run. *)

From Stdlib Require Import String.
From S2P Require Import Prelude PyPath PerfBisect.

#[local] Open Scope string_scope.
#[local] Open Scope list_scope.

(** ** Places *)

Record indexed (s : BisectState) : Prop := {
  ix_nodup : NoDup (revision_states s);
  ix_place : ∀ i r, revision_states s !! i = Some r → ∃ o, objects s !! r = Some o ∧ index o = i;
  ix_table : ∀ k i, revision_index s !! k = Some i → (i < length (revision_states s))%nat
}.

Lemma indexed_lookup s r : indexed s → r ∈ revision_states s →
  ∃ o, objects s !! r = Some o ∧ revision_states s !! index o = Some r.
Proof.
  intros Hs [i Hi]%list_elem_of_lookup. destruct (ix_place s Hs i r Hi) as (o & Ho & <-). by exists o.
Qed.

Lemma alter_object_lookup f r s r' :
  objects (alter_object f r s) !! r' = if decide (r' = r) then f <$> objects s !! r' else objects s !! r'.
Proof.
  cbn. case_decide as H; [subst; apply list_lookup_alter_eq|by apply list_lookup_alter_ne].
Qed.

Lemma indexed_alter f r s : (∀ o, index (f o) = index o) → indexed s → indexed (alter_object f r s).
Proof.
  intros Hf [Hnd Hpl Htab]. constructor; [done| |done].
  intros i r' Hi. destruct (Hpl i r' Hi) as (o & Ho & Hix). rewrite alter_object_lookup, Ho.
  case_decide; cbn; eexists; (split; [done|]); by rewrite ?Hf.
Qed.

(** The objects and the table entries of new states. *)
Fixpoint new_objects (depot : string) (revisions : list string) (k : nat) : list RevisionState :=
  match revisions with
  | [] => []
  | r :: revisions => RevisionState_init depot r k :: new_objects depot revisions (S k)
  end.
Fixpoint add_keys (depot : string) (revisions : list string) (k : nat) (t : gmap string nat) : gmap string nat :=
  match revisions with
  | [] => t
  | r :: revisions => add_keys depot revisions (S k) (<[RevisionKey depot r := k]> t)
  end.

Lemma length_new_objects d revs k : length (new_objects d revs k) = length revs.
Proof. revert k. induction revs as [|r revs IH]; intros k; [done|]. cbn. by rewrite IH. Qed.

Lemma new_objects_lookup d revs k j :
  new_objects d revs k !! j = (λ r, RevisionState_init d r (k + j)) <$> revs !! j.
Proof.
  revert k j. induction revs as [|r revs IH]; intros k [|j]; [done..| |].
  - cbn. by rewrite Nat.add_0_r.
  - cbn. rewrite IH. destruct (revs !! j); [|done]. cbn. do 2 f_equal. lia.
Qed.

Lemma RevisionKey_inj d r r' : RevisionKey d r = RevisionKey d r' → r = r'.
Proof. unfold RevisionKey. intros H. by apply (inj (String.append d)), (inj (String.append ":")) in H. Qed.

Lemma add_keys_lookup d revs k t key i : add_keys d revs k t !! key = Some i →
  t !! key = Some i ∨ (k <= i < k + length revs)%nat.
Proof.
  revert k t. induction revs as [|r revs IH]; intros k t; cbn; [by left|].
  intros [Ht|?]%IH; [|right; lia]. apply lookup_insert_Some in Ht as [[_ <-]|[_ ?]]; [right; lia|by left].
Qed.

Lemma add_keys_other d revs k t key : (∀ r, r ∈ revs → RevisionKey d r ≠ key) → add_keys d revs k t !! key = t !! key.
Proof.
  revert k t. induction revs as [|r revs IH]; intros k t Hr; [done|]. cbn.
  rewrite IH by (intros r' Hr'; apply Hr; by right). apply lookup_insert_ne, Hr. by left.
Qed.

Lemma add_keys_new d revs k t j r : NoDup revs → revs !! j = Some r →
  add_keys d revs k t !! RevisionKey d r = Some (k + j)%nat.
Proof.
  intros Hnd. revert k t j. induction Hnd as [|r' revs Hr' Hnd IH]; intros k t [|j] Hj; [done..| |].
  - injection Hj as ->. cbn. rewrite add_keys_other, lookup_insert_eq; [f_equal; lia|].
    intros r' Hin ->%RevisionKey_inj. done.
  - cbn. rewrite (IH _ _ j Hj). f_equal. lia.
Qed.

Lemma insert_states_run d revs k s : (k <= length (revision_states s))%nat →
  insert_states d revs k s = (Ok (), mkBisectState (objects s ++ new_objects d revs k)
    (take k (revision_states s) ++ seq (length (objects s)) (length revs) ++ drop k (revision_states s))
    (add_keys d revs k (revision_index s))).
Proof.
  revert k s. induction revs as [|r revs IH]; intros k s Hk.
  { cbn. rewrite app_nil_r, take_drop. by destruct s. }
  cbn [insert_states]. unfold InitRevisionState. rewrite M_bind_assoc, bind_gets, M_bind_assoc, bind_modify, bind_ret,
    bind_modify. rewrite IH.
  2:{ cbn. rewrite length_app, length_take. cbn. rewrite length_drop. lia. }
  cbn [objects revision_states revision_index insert_state new_objects add_keys length seq].
  assert (length (take k (revision_states s)) = k) as Hlen by (rewrite length_take; lia).
  do 2 f_equal.
  - by rewrite <- app_assoc.
  - rewrite length_app. cbn [length]. rewrite Nat.add_1_r.
    set (n := length (objects s)). set (l := revision_states s) in *.
    assert (take k l ++ n :: drop k l = (take k l ++ [n]) ++ drop k l) as -> by (by rewrite <- app_assoc).
    assert (length (take k l ++ [n]) = S k) as Hlen' by (rewrite length_app, Hlen; cbn; lia).
    rewrite take_app_length', drop_app_length' by done. by rewrite <- app_assoc.
Qed.

Lemma alter_all_run f es s : ∃ objs,
  mfor es (λ r, modify (alter_object f r)) s = (Ok (), mkBisectState objs (revision_states s) (revision_index s)) ∧
  length objs = length (objects s) ∧
  (NoDup es → ∀ r, objs !! r = if decide (r ∈ es) then f <$> objects s !! r else objects s !! r).
Proof.
  revert s. induction es as [|e es IH]; intros s.
  { exists (objects s). split; [by destruct s|]. split; [done|]. intros _ r. by rewrite decide_False by apply not_elem_of_nil. }
  destruct (IH (alter_object f e s)) as (objs & Hrun & Hlen & Hobjs). exists objs.
  split; [exact Hrun|]. split; [by rewrite Hlen; cbn; rewrite length_alter|].
  intros [He Hnd]%NoDup_cons r. rewrite Hobjs, alter_object_lookup by done.
  destruct (decide (r = e)) as [->|Hne].
  - rewrite decide_False, decide_True by (done || by left). done.
  - destruct (decide (r ∈ es)); [rewrite decide_True by (by right)|rewrite decide_False by set_solver]; done.
Qed.

(** What [CreateRevisionStatesAfter] makes of a state whose place [i] the reference
    has: the new states follow it, and all others keep their order and all but their
    index. *)
Record created (s s' : BisectState) (d : string) (revs : list string) (i : nat) : Prop := {
  cr_list : revision_states s' =
    take (S i) (revision_states s) ++ seq (length (objects s)) (length revs) ++ drop (S i) (revision_states s);
  cr_table : revision_index s' = add_keys d revs (S i) (revision_index s);
  cr_indexed : indexed s';
  cr_old : ∀ r o, objects s !! r = Some o → ∃ j, objects s' !! r = Some (set_index j o);
  cr_new : ∀ j rev, revs !! j = Some rev →
    objects s' !! (length (objects s) + j)%nat = Some (RevisionState_init d rev (S i + j))
}.

Lemma set_index_same o : set_index (index o) o = o.
Proof. by destruct o. Qed.

Lemma indexed_valid s r : indexed s → r ∈ revision_states s → (r < length (objects s))%nat.
Proof. intros Hs Hr. destruct (indexed_lookup s r Hs Hr) as (o & Ho & _). by apply lookup_lt_Some in Ho. Qed.

(** New states between the places before and behind [k], those behind moved on. *)
Lemma indexed_insert s objs table (revs : list string) k : indexed s → (k <= length (revision_states s))%nat →
  (∀ i r o, revision_states s !! i = Some r → objects s !! r = Some o →
     ∃ o', objs !! r = Some o' ∧ index o' = if (i <? k)%nat then i else (i + length revs)%nat) →
  (∀ j, (j < length revs)%nat → ∃ o, objs !! (length (objects s) + j)%nat = Some o ∧ index o = (k + j)%nat) →
  (∀ key i, table !! key = Some i → revision_index s !! key = Some i ∨ (k <= i < k + length revs)%nat) →
  indexed (mkBisectState objs (take k (revision_states s) ++ seq (length (objects s)) (length revs) ++
             drop k (revision_states s)) table).
Proof.
  intros Hs Hk Hold Hnew Htab.
  assert (length (take k (revision_states s)) = k) as Hlen by (rewrite length_take; lia).
  constructor; cbn [revision_states objects revision_index].
  - rewrite (Permutation_app_comm (seq _ _)), app_assoc, take_drop. apply NoDup_app. split_and!.
    + apply Hs.
    + intros r Hr%(indexed_valid s r Hs) Hin%elem_of_seq. lia.
    + apply NoDup_seq.
  - intros i r [Hi|[Hik Hi]]%lookup_app_Some.
    + pose proof (lookup_lt_Some _ _ _ Hi) as Hik. rewrite Hlen in Hik. rewrite lookup_take_lt in Hi by lia.
      destruct (ix_place s Hs i r Hi) as (o & Ho & _). destruct (Hold i r o Hi Ho) as (o' & Ho' & Hix).
      rewrite (proj2 (Nat.ltb_lt i k)) in Hix by lia. by exists o'.
    + rewrite Hlen in *. apply lookup_app_Some in Hi as [Hi|[Hseq Hi]].
      * apply lookup_seq in Hi as [-> Hj]. destruct (Hnew (i - k)%nat Hj) as (o & Ho & Hix).
        exists o. split; [done|]. lia.
      * rewrite length_seq in *. rewrite lookup_drop in Hi.
        destruct (ix_place s Hs _ r Hi) as (o & Ho & _). destruct (Hold _ r o Hi Ho) as (o' & Ho' & Hix).
        rewrite (proj2 (Nat.ltb_ge _ _)) in Hix by lia. exists o'. split; [done|]. lia.
  - intros key i Hi. rewrite !length_app, Hlen, length_seq, length_drop.
    destruct (Htab key i Hi) as [Ht%(ix_table s Hs)|?]; lia.
Qed.

Lemma CreateRevisionStatesAfter_run s d revs rd rr i : indexed s →
  revision_index s !! RevisionKey rd rr = Some i →
  ∃ s', CreateRevisionStatesAfter d revs rd rr s = (Ok (seq (length (objects s)) (length revs)), s') ∧
        created s s' d revs i.
Proof.
  intros Hs Hi. pose proof (ix_table s Hs _ _ Hi) as Hlt.
  unfold CreateRevisionStatesAfter. rewrite bind_gets, Hi. cbn [of_option]. rewrite bind_lift_Ok, bind_gets.
  set (f := λ o, if (i <? index o)%nat then set_index (index o + length revs) o else o).
  destruct (alter_all_run f (revision_states s) s) as (objs & Hrun & Hlen & Hobjs).
  specialize (Hobjs (ix_nodup s Hs)). erewrite M_bind_run by exact Hrun.
  erewrite M_bind_run by (apply insert_states_run; cbn; lia). unfold gets. cbn [objects revision_states revision_index].
  assert (length (take (S i) (revision_states s)) = S i) as Hti by (rewrite length_take; lia).
  rewrite drop_app_length', take_app_length' by (rewrite ?length_seq; done). rewrite Hlen.
  assert (∀ r o, objects s !! r = Some o → ∃ j, objs !! r = Some (set_index j o) ∧
    (r ∈ revision_states s → j = if (i <? index o)%nat then (index o + length revs)%nat else index o)) as Hold.
  { intros r o Ho. rewrite Hobjs, Ho. unfold f. case_decide; cbn -[Nat.ltb].
    - destruct (i <? index o)%nat; [by eexists|]. exists (index o). by rewrite set_index_same.
    - exists (index o). by rewrite set_index_same. }
  eexists. split; [reflexivity|]. constructor; cbn [objects revision_states revision_index]; [done|done| | |].
  - apply indexed_insert; [done|lia| | |].
    + intros p r o Hp Ho. destruct (ix_place s Hs p r Hp) as (o1 & Ho1 & <-).
      rewrite Ho in Ho1. injection Ho1 as <-. destruct (Hold r o Ho) as (j & Hj & Hix).
      exists (set_index j o). split; [by apply lookup_app_l_Some|]. cbn [index set_index].
      rewrite Hix by (by eapply list_elem_of_lookup_2).
      destruct (Nat.ltb_spec i (index o)), (Nat.ltb_spec (index o) (S i)); lia.
    + intros j Hj. destruct (lookup_lt_is_Some_2 _ _ Hj) as [rev Hrev].
      exists (RevisionState_init d rev (S i + j)). split; [|done].
      rewrite lookup_app_r by lia. rewrite Hlen, new_objects_lookup. by replace (_ + j - _)%nat with j by lia; rewrite Hrev.
    + intros key p Hp%add_keys_lookup. done.
  - intros r o Ho. destruct (Hold r o Ho) as (j & Hj & _). exists j. by apply lookup_app_l_Some.
  - intros j rev Hrev. rewrite lookup_app_r by lia. rewrite Hlen, new_objects_lookup.
    by replace (_ + j - _)%nat with j by lia; rewrite Hrev.
Qed.

Lemma BisectState_init_run d revs :
  BisectState_init d revs no_states =
    (Ok (), mkBisectState (new_objects d revs 0) (seq 0 (length revs)) (add_keys d revs 0 ∅)) ∧
  indexed (mkBisectState (new_objects d revs 0) (seq 0 (length revs)) (add_keys d revs 0 ∅)).
Proof.
  split.
  - unfold BisectState_init. rewrite insert_states_run by (cbn; lia). cbn. by rewrite app_nil_r.
  - constructor; cbn.
    + apply NoDup_seq.
    + intros i r [-> Hi]%lookup_seq. destruct (lookup_lt_is_Some_2 _ _ Hi) as [rev Hrev].
      rewrite new_objects_lookup. cbn. rewrite Hrev. by eexists.
    + intros k i [?|?]%add_keys_lookup; [done|]. rewrite length_seq. lia.
Qed.

(** *** Histories *)

(** A bisection, and what is done with its states: new ones are created after others,
    and results are entered. *)
Inductive history : BisectState → Prop :=
  | history_init d revs : history (snd (BisectState_init d revs no_states))
  | history_create s d revs rd rr : history s → history (snd (CreateRevisionStatesAfter d revs rd rr s))
  | history_enter s f r : history s → (∀ o, index (f o) = index o) → history (alter_object f r s).

Lemma history_indexed s : history s → indexed s.
Proof.
  induction 1 as [d revs|s d revs rd rr _ IH|s f r _ IH Hf].
  - destruct (BisectState_init_run d revs) as [-> ?]. done.
  - destruct (revision_index s !! RevisionKey rd rr) as [i|] eqn:Hi.
    + destruct (CreateRevisionStatesAfter_run s d revs rd rr i IH Hi) as (s' & -> & Hc). apply Hc.
    + unfold CreateRevisionStatesAfter. by rewrite bind_gets, Hi.
  - by apply indexed_alter.
Qed.

(** C26: Through any history of a bisection every state knows its place in the list.
    New states are created behind the place that the table has for the reference, in
    their order; all others keep their order and everything but their index.  When the
    table does not have the reference nothing changes and KeyError is raised. *)
Theorem states_in_place s d revs rd rr : history s →
  NoDup (revision_states s) ∧
  (∀ i r, revision_states s !! i = Some r → ∃ o, objects s !! r = Some o ∧ index o = i) ∧
  match revision_index s !! RevisionKey rd rr with
  | None => CreateRevisionStatesAfter d revs rd rr s = (Raise KeyError, s)
  | Some i => ∃ s' new, CreateRevisionStatesAfter d revs rd rr s = (Ok new, s') ∧
      revision_states s' = take (S i) (revision_states s) ++ new ++ drop (S i) (revision_states s) ∧
      (∀ r o, objects s !! r = Some o → ∃ j, objects s' !! r = Some (set_index j o)) ∧
      (λ r, (λ o, (depot o, revision o, passed o)) <$> objects s' !! r) <$> new =
        (λ rev, Some (d, rev, Untested)) <$> revs
  end.
Proof.
  intros Hs%history_indexed. split; [apply Hs|]. split; [apply Hs|].
  destruct (revision_index s !! RevisionKey rd rr) as [i|] eqn:Hi.
  - destruct (CreateRevisionStatesAfter_run s d revs rd rr i Hs Hi) as (s' & Hrun & [Hlist _ _ Hold Hnew]).
    eexists s', _. split; [exact Hrun|]. split; [done|]. split; [done|].
    apply list_eq. intros j. rewrite !list_lookup_fmap. destruct (revs !! j) as [rev|] eqn:Hrev.
    + rewrite lookup_seq_lt by (by apply lookup_lt_Some in Hrev). cbn. by rewrite (Hnew j rev Hrev).
    + rewrite lookup_seq_ge by (by apply lookup_ge_None). done.
  - unfold CreateRevisionStatesAfter. by rewrite bind_gets, Hi.
Qed.

(** ** The search *)

Definition known (s : BisectState) (r : nat) (p : Passed) : Prop :=
  ∃ o, objects s !! r = Some o ∧ passed o = p.

(** What the code of a failed run leaves in [passed]: [RunTest] also returns -1, and
    then the state keeps its question mark. *)
Definition code_mark (code : Z) : Passed :=
  if (code =? BUILD_RESULT_SKIPPED)%Z then Skipped
  else if (code =? BUILD_RESULT_FAIL)%Z then BuildFailed else Untested.

Lemma code_mark_unknown c : code_mark c ≠ Pass ∧ code_mark c ≠ Broken.
Proof. unfold code_mark. by repeat case_match. Qed.

(** Known by a run, which answers the contained revisions. *)
Definition run_known (s : BisectState) (r : nat) (p : Passed) : Prop :=
  ∃ o, objects s !! r = Some o ∧ passed o = p ∧ is_Some (external o).

Section narrowing.
Context {run_test : nat → string → string → TestResult}.

(** A run of the revision failed, and the state is marked with its code. *)
Definition run_failed (o : RevisionState) : Prop :=
  ∃ n c, run_test n (depot o) (revision o) = NotRun c ∧ passed o = code_mark c.
Definition unusable (s : BisectState) (r : nat) : Prop :=
  ∃ o, objects s !! r = Some o ∧ run_failed o.

Lemma run_failed_unknown o : run_failed o → passed o ≠ Pass ∧ passed o ≠ Broken.
Proof. intros (n & c & _ & ->). apply code_mark_unknown. Qed.

(** All states in order: [b] is broken, nothing before it works; [g] works, nothing
    behind it is broken; between them are the states [cand], which are still to be
    run, and those that could not.  The list of the search has [cand] in the middle
    and is bounded by [b] and [g], or ends there. *)
Record narrowing (s : PerfSearch) (d : string) (lef : list nat) (b : nat) (mid : list nat) (g : nat)
    (rig pre cand post : list nat) : Prop := {
  n_indexed : indexed (bisect_state s);
  n_main : revision_states (bisect_state s) = lef ++ b :: mid ++ g :: rig;
  n_b : run_known (bisect_state s) b Broken;
  n_g : run_known (bisect_state s) g Pass;
  n_lef : ∀ r, r ∈ lef → ¬ known (bisect_state s) r Pass;
  n_rig : ∀ r, r ∈ rig → ¬ known (bisect_state s) r Broken;
  n_mid : ∀ r, r ∈ mid → (r ∈ cand ∧ known (bisect_state s) r Untested) ∨ (r ∉ cand ∧ unusable (bisect_state s) r);
  n_cand : cand `sublist_of` mid;
  n_states : current_states s = pre ++ cand ++ post;
  n_low : (pre = [] ∧ min_revision s = 0%nat) ∨ (last pre = Some b ∧ length pre = S (min_revision s));
  n_high : (post = [] ∧ max_revision s = (length (current_states s) - 1)%nat) ∨
           (head post = Some g ∧ max_revision s = length (pre ++ cand));
  n_own : ∀ r o, r ∈ current_states s → objects (bisect_state s) !! r = Some o →
    depot o = d ∧ revision_index (bisect_state s) !! RevisionKey d (revision o) = Some (index o)
}.

Lemma known_fun s r p p' : known s r p → known s r p' → p = p'.
Proof. intros (o & Ho & <-) (o' & Ho' & <-). congruence. Qed.

Lemma run_known_known s r p : run_known s r p → known s r p.
Proof. intros (o & Ho & Hp & _). by exists o. Qed.

(** Changing one object keeps what is known of the others. *)
Lemma known_alter f x s r p : r ≠ x → known (alter_object f x s) r p ↔ known s r p.
Proof. intros Hne. unfold known. by rewrite alter_object_lookup, decide_False. Qed.
Lemma unusable_alter f x s r : r ≠ x → unusable (alter_object f x s) r ↔ unusable s r.
Proof. intros Hne. unfold unusable. by rewrite alter_object_lookup, decide_False. Qed.
Lemma run_known_alter f x s r p : r ≠ x → run_known (alter_object f x s) r p ↔ run_known s r p.
Proof. intros Hne. unfold run_known. by rewrite alter_object_lookup, decide_False. Qed.

(** An object keeps its name and its place. *)
Definition keeps (f : RevisionState → RevisionState) : Prop :=
  ∀ o, depot (f o) = depot o ∧ revision (f o) = revision o ∧ index (f o) = index o.

Lemma own_alter f x s d (l : list nat) : keeps f →
  (∀ r o, r ∈ l → objects s !! r = Some o →
     depot o = d ∧ revision_index s !! RevisionKey d (revision o) = Some (index o)) →
  ∀ r o, r ∈ l → objects (alter_object f x s) !! r = Some o →
     depot o = d ∧ revision_index s !! RevisionKey d (revision o) = Some (index o).
Proof.
  intros Hf Hown r o Hr. rewrite alter_object_lookup. case_decide as Heq; [|by apply Hown].
  intros (o' & Ho & ->)%fmap_Some. destruct (Hf o') as (-> & -> & ->). by apply (Hown r).
Qed.

(** A candidate in the middle: what is before it and behind it. *)
Lemma narrowing_split s d lef b mid g rig pre c1 x c2 post :
  narrowing s d lef b mid g rig pre (c1 ++ x :: c2) post →
  ∃ m1 m2, mid = m1 ++ x :: m2 ∧ c1 `sublist_of` m1 ∧ c2 `sublist_of` m2 ∧
    (∀ r, r ∈ lef ++ b :: m1 → r ≠ x) ∧ (∀ r, r ∈ m2 ++ g :: rig → r ≠ x) ∧
    (∀ r, r ∈ m1 → r ∈ c1 ++ x :: c2 ↔ r ∈ c1) ∧ (∀ r, r ∈ m2 → r ∈ c1 ++ x :: c2 ↔ r ∈ c2) ∧
    known (bisect_state s) x Untested.
Proof.
  intros Hn. pose proof (n_cand _ _ _ _ _ _ _ _ _ _ Hn) as Hsub.
  apply sublist_app_l in Hsub as (k1 & k2 & -> & Hk1 & Hk2).
  apply sublist_cons_l in Hk2 as (k3 & m2 & -> & Hm2).
  exists (k1 ++ k3), m2. pose proof (ix_nodup _ (n_indexed _ _ _ _ _ _ _ _ _ _ Hn)) as Hnd.
  rewrite (n_main _ _ _ _ _ _ _ _ _ _ Hn) in Hnd.
  assert (c1 `sublist_of` k1 ++ k3) as Hc1 by (by apply sublist_inserts_r).
  replace (lef ++ b :: (k1 ++ k3 ++ x :: m2) ++ g :: rig) with ((lef ++ b :: k1 ++ k3) ++ x :: m2 ++ g :: rig) in Hnd
    by (by rewrite <- !app_assoc; cbn; rewrite <- !app_assoc).
  apply NoDup_app in Hnd as (_ & Hdis & [Hx _]%NoDup_cons).
  assert (∀ r, r ∈ m2 → r ∉ k1 ++ k3) as Hno.
  { intros r Hr Hin. apply (Hdis r); [|right; apply elem_of_app; by left].
    apply elem_of_app. right. right. done. }
  assert (∀ r, r ∈ lef ++ b :: k1 ++ k3 → r ≠ x) as Hleft by (intros r Hr ->; apply (Hdis x Hr); left).
  assert (∀ r, r ∈ m2 ++ g :: rig → r ≠ x) as Hright by (intros r Hr ->; done).
  split_and!; [by rewrite <- app_assoc|done|done|done|done| | |].
  - intros r Hr. rewrite elem_of_app, elem_of_cons. split; [|by left]. intros [?|[->|Hc]]; [done| |].
    + exfalso. apply (Hleft x); [|done]. apply elem_of_app. right. by right.
    + exfalso. apply (Hno r); [|done]. by eapply elem_of_sublist.
  - intros r Hr. rewrite elem_of_app, elem_of_cons. split; [|by right; right]. intros [Hc|[->|?]]; [| |done].
    + exfalso. apply (Hno r Hr). by eapply elem_of_sublist.
    + exfalso. apply (Hright x); [|done]. apply elem_of_app. by left.
  - destruct (n_mid _ _ _ _ _ _ _ _ _ _ Hn x) as [[_ ?]|[Hc _]]; [|done|].
    + rewrite !elem_of_app, elem_of_cons. auto.
    + exfalso. apply Hc, elem_of_app. right. by left.
Qed.

Lemma keeps_result p v e pt bt : keeps (set_result p v e pt bt).
Proof. by intros o. Qed.
Lemma keeps_passed p : keeps (set_passed p).
Proof. by intros o. Qed.

(** In the middle nothing is known to work or to be broken. *)
Lemma mid_unknown s d lef b mid g rig pre cand post r p : narrowing s d lef b mid g rig pre cand post →
  r ∈ mid → known (bisect_state s) r p → p ≠ Pass ∧ p ≠ Broken.
Proof.
  intros Hn Hr Hp. destruct (n_mid _ _ _ _ _ _ _ _ _ _ Hn r Hr) as [[_ Hk]|[_ (o & Ho & Hf)]].
  - by rewrite (known_fun _ _ _ _ Hp Hk).
  - destruct Hp as (o' & Ho' & <-). assert (o' = o) as -> by congruence. by apply run_failed_unknown.
Qed.

(** What is left of the middle when it is cut at a candidate. *)
Lemma mid_alter s d lef b mid g rig pre cand post f x (mid' cand' : list nat) :
  narrowing s d lef b mid g rig pre cand post →
  (∀ r, r ∈ mid' → r ∈ mid ∧ r ≠ x ∧ (r ∈ cand ↔ r ∈ cand')) →
  ∀ r, r ∈ mid' → (r ∈ cand' ∧ known (alter_object f x (bisect_state s)) r Untested) ∨
                  (r ∉ cand' ∧ unusable (alter_object f x (bisect_state s)) r).
Proof.
  intros Hn Hmid r Hr. destruct (Hmid r Hr) as (Hin & Hne & Hc). rewrite known_alter, unusable_alter, <- Hc by done.
  by apply (n_mid _ _ _ _ _ _ _ _ _ _ Hn).
Qed.

Lemma narrowing_pass s d lef b mid g rig pre c1 x c2 post v e pt bt n :
  narrowing s d lef b mid g rig pre (c1 ++ x :: c2) post →
  ∃ mid' rig', narrowing (mkPerfSearch (alter_object (set_result Pass v e pt bt) x (bisect_state s))
    (current_states s) (min_revision s) (length (pre ++ c1)) n) d lef b mid' x rig' pre c1 (x :: c2 ++ post).
Proof.
  intros Hn. destruct (narrowing_split _ _ _ _ _ _ _ _ _ _ _ _ Hn)
    as (m1 & m2 & -> & Hc1 & Hc2 & Hl & Hr & Hm1 & Hm2 & (o & Ho & Hx)).
  exists m1, (m2 ++ g :: rig). pose proof Hn as [Hix Hmain Hb Hg Hlef Hrig _ _ Hst Hlow _ Hown].
  constructor; cbn [bisect_state current_states min_revision max_revision].
  - by apply indexed_alter.
  - cbn. by rewrite Hmain, <- app_assoc.
  - apply run_known_alter; [|done]. apply Hl, elem_of_app. right. by left.
  - exists (set_result Pass v e pt bt o). rewrite alter_object_lookup, decide_True, Ho by done. eauto.
  - intros r Hin. rewrite known_alter by (apply Hl, elem_of_app; by left). by apply Hlef.
  - intros r Hin. rewrite known_alter by (by apply Hr). apply elem_of_app in Hin as [Hin|[->|Hin]%elem_of_cons].
    + intros Hk. destruct (mid_unknown _ _ _ _ _ _ _ _ _ _ r Broken Hn) as [_ []]; [|done..]. apply elem_of_app. right. by right.
    + intros Hk. by pose proof (known_fun _ _ _ _ (run_known_known _ _ _ Hg) Hk).
    + by apply Hrig.
  - apply (mid_alter _ _ _ _ _ _ _ _ _ _ _ _ _ _ Hn). intros r Hin. split_and!.
    + apply elem_of_app. by left.
    + apply Hl, elem_of_app. right. by right.
    + by apply Hm1.
  - done.
  - rewrite Hst. by rewrite <- app_assoc.
  - done.
  - by right.
  - exact (own_alter _ x _ d _ (keeps_result Pass v e pt bt) Hown).
Qed.

Lemma narrowing_broken s d lef b mid g rig pre c1 x c2 post v e pt bt n :
  narrowing s d lef b mid g rig pre (c1 ++ x :: c2) post →
  ∃ lef' mid', narrowing (mkPerfSearch (alter_object (set_result Broken v e pt bt) x (bisect_state s))
    (current_states s) (length (pre ++ c1)) (max_revision s) n) d lef' x mid' g rig (pre ++ c1 ++ [x]) c2 post.
Proof.
  intros Hn. destruct (narrowing_split _ _ _ _ _ _ _ _ _ _ _ _ Hn)
    as (m1 & m2 & -> & Hc1 & Hc2 & Hl & Hr & Hm1 & Hm2 & (o & Ho & Hx)).
  exists (lef ++ b :: m1), m2. pose proof Hn as [Hix Hmain Hb Hg Hlef Hrig _ _ Hst _ Hhigh Hown].
  assert (pre ++ c1 ++ x :: c2 = (pre ++ c1 ++ [x]) ++ c2) as Hpre by (by rewrite <- !app_assoc).
  constructor; cbn [bisect_state current_states min_revision max_revision].
  - by apply indexed_alter.
  - cbn. by rewrite Hmain, <- !app_assoc.
  - exists (set_result Broken v e pt bt o). rewrite alter_object_lookup, decide_True, Ho by done. eauto.
  - apply run_known_alter; [|done]. apply Hr, elem_of_app. right. by left.
  - intros r Hin. rewrite known_alter by (by apply Hl). apply elem_of_app in Hin as [Hin|[->|Hin]%elem_of_cons].
    + by apply Hlef.
    + intros Hk. by pose proof (known_fun _ _ _ _ (run_known_known _ _ _ Hb) Hk).
    + intros Hk. destruct (mid_unknown _ _ _ _ _ _ _ _ _ _ r Pass Hn) as [[] _]; [|done..]. apply elem_of_app. by left.
  - intros r Hin. rewrite known_alter by (apply Hr, elem_of_app; right; by right). by apply Hrig.
  - apply (mid_alter _ _ _ _ _ _ _ _ _ _ _ _ _ _ Hn). intros r Hin. split_and!.
    + apply elem_of_app. right. by right.
    + apply Hr, elem_of_app. by left.
    + by apply Hm2.
  - done.
  - rewrite Hst, (app_assoc pre), Hpre. by rewrite <- app_assoc.
  - right. rewrite !app_assoc, last_snoc. split; [done|]. rewrite !length_app. cbn. lia.
  - destruct Hhigh as [|[? ->]]; [by left|right]. split; [done|]. by rewrite Hpre.
  - exact (own_alter _ x _ d _ (keeps_result Broken v e pt bt) Hown).
Qed.

Lemma narrowing_unusable s d lef b mid g rig pre c1 x c2 post o k c n :
  objects (bisect_state s) !! x = Some o → run_test k (depot o) (revision o) = NotRun c →
  narrowing s d lef b mid g rig pre (c1 ++ x :: c2) post →
  narrowing (mkPerfSearch (alter_object (set_passed (code_mark c)) x (bisect_state s))
    (delete (length (pre ++ c1)) (current_states s)) (min_revision s) (max_revision s - 1) n)
    d lef b mid g rig pre (c1 ++ c2) post.
Proof.
  intros Ho Hfail Hn. destruct (narrowing_split _ _ _ _ _ _ _ _ _ _ _ _ Hn)
    as (m1 & m2 & Hmeq & Hc1 & Hc2 & Hl & Hr & Hm1 & Hm2 & _).
  pose proof Hn as [Hix Hmain Hb Hg Hlef Hrig Hmid _ Hst Hlow Hhigh Hown].
  assert (delete (length (pre ++ c1)) (current_states s) = pre ++ (c1 ++ c2) ++ post) as Hdel.
  { rewrite Hst, <- app_assoc, app_assoc. cbn. by rewrite delete_middle, <- !app_assoc. }
  assert (x ∉ c1 ++ c2) as Hxc.
  { intros [Hin|Hin]%elem_of_app.
    - apply (Hl x); [|done]. apply elem_of_app. right. right. by eapply elem_of_sublist.
    - apply (Hr x); [|done]. apply elem_of_app. left. by eapply elem_of_sublist. }
  constructor; cbn [bisect_state current_states min_revision max_revision].
  - by apply indexed_alter.
  - done.
  - apply run_known_alter; [|done]. apply Hl, elem_of_app. right. by left.
  - apply run_known_alter; [|done]. apply Hr, elem_of_app. right. by left.
  - intros r Hin. rewrite known_alter by (apply Hl, elem_of_app; by left). by apply Hlef.
  - intros r Hin. rewrite known_alter by (apply Hr, elem_of_app; right; by right). by apply Hrig.
  - intros r Hin. destruct (decide (r = x)) as [->|Hne].
    + right. split; [done|]. exists (set_passed (code_mark c) o).
      rewrite alter_object_lookup, decide_True, Ho by done. split; [done|]. by exists k, c.
    + rewrite known_alter, unusable_alter by done. destruct (Hmid r Hin) as [[Hc Hk]|[Hc Hk]]; [left|right]; (split; [|done]).
      * apply elem_of_app in Hc as [?|[?|?]%elem_of_cons]; [apply elem_of_app; by left|done|apply elem_of_app; by right].
      * intros Hin'. apply Hc. apply elem_of_app in Hin' as [?|?]; apply elem_of_app; [by left|right; by right].
  - rewrite Hmeq. apply sublist_app; [done|]. by apply sublist_cons.
  - done.
  - done.
  - rewrite Hdel. destruct Hhigh as [[-> Hhi]|[Hh Hhi]]; [left|right]; (split; [done|]); rewrite Hhi, ?Hst;
      rewrite !length_app; cbn; lia.
  - intros r o' Hin. rewrite Hdel in Hin. apply (own_alter _ _ _ _ _ (keeps_passed (code_mark c)) Hown).
    rewrite Hst. rewrite !elem_of_app in *. rewrite elem_of_cons. tauto.
Qed.

(** A search in the repository [d] with the candidates [cand]. *)
Definition searching (s : PerfSearch) (d : string) (cand : list nat) : Prop :=
  ∃ lef b mid g rig pre post, narrowing s d lef b mid g rig pre cand post.

Lemma narrowing_untested s d lef b mid g rig pre c1 x c2 post :
  narrowing s d lef b mid g rig pre (c1 ++ x :: c2) post →
  alter_object (set_passed Untested) x (bisect_state s) = bisect_state s.
Proof.
  intros Hn. destruct (narrowing_split _ _ _ _ _ _ _ _ _ _ _ _ Hn)
    as (_ & _ & _ & _ & _ & _ & _ & _ & _ & (o & Ho & Hx)).
  unfold alter_object. destruct (bisect_state s) as [os l t]. cbn in *. f_equal.
  apply list_eq. intros i. rewrite list_lookup_alter. case_decide as Heq; [subst i|done].
  rewrite Ho. cbn. f_equal. destruct o. cbn in *. by subst.
Qed.
End narrowing.

(** *** Running a revision *)

Lemma state_at_run i r s : current_states s !! i = Some r → state_at i s = (Ok r, s).
Proof. intros Hr. unfold state_at. by rewrite bind_gets, Hr. Qed.
Lemma object_of_run r o s : objects (bisect_state s) !! r = Some o → object_of r s = (Ok o, s).
Proof. intros Ho. unfold object_of. by rewrite bind_gets, Ho. Qed.
Lemma change_run f r s : change f r s = (Ok (), mkPerfSearch (alter_object f r (bisect_state s)) (current_states s)
  (min_revision s) (max_revision s) (tested s)).
Proof. done. Qed.

Section rounds.
Context `{!DictOrder} (os_name : string) (run_test : nat → string → string → TestResult) (known_good known_bad : Z)
  (nearest_bleeding_edge : string → bool → option string)
  (PrepareToBisectOnDepot : string → string → string → string → list string).
Abbreviation narrowing := (narrowing (run_test:=run_test)).
Abbreviation searching := (searching (run_test:=run_test)).
Abbreviation unusable := (unusable (run_test:=run_test)).

Lemma test_narrows s d lef b mid g rig pre c1 x c2 post :
  narrowing s d lef b mid g rig pre (c1 ++ x :: c2) post →
  ∃ s' cand', test_state run_test known_good known_bad (length (pre ++ c1)) s = (Ok Continue, s') ∧
    searching s' d cand' ∧ (length cand' < length (c1 ++ x :: c2))%nat.
Proof.
  intros Hn. destruct (narrowing_split _ _ _ _ _ _ _ _ _ _ _ _ Hn) as (_ & _ & _ & _ & _ & _ & _ & _ & _ & (o & Ho & _)).
  assert (current_states s !! length (pre ++ c1) = Some x) as Hx.
  { rewrite (n_states _ _ _ _ _ _ _ _ _ _ Hn), <- app_assoc, app_assoc. cbn. apply list_lookup_middle. done. }
  unfold test_state. erewrite M_bind_run by (by apply state_at_run). erewrite M_bind_run by (by apply object_of_run).
  rewrite bind_gets, bind_modify. destruct (run_test (tested s) (depot o) (revision o)) as [v e pt bt|c] eqn:Hrun.
  - rewrite M_bind_assoc. erewrite M_bind_run by apply change_run.
    destruct (CheckIfRunPassed v known_good known_bad).
    + destruct (narrowing_pass _ _ _ _ _ _ _ _ _ _ _ _ v e pt bt (S (tested s)) Hn) as (mid' & rig' & Hn').
      eexists _, c1. split; [reflexivity|]. split; [do 7 eexists; exact Hn'|]. rewrite length_app. cbn. lia.
    + destruct (narrowing_broken _ _ _ _ _ _ _ _ _ _ _ _ v e pt bt (S (tested s)) Hn) as (lef' & mid' & Hn').
      eexists _, c2. split; [reflexivity|]. split; [do 7 eexists; exact Hn'|]. rewrite length_app. cbn. lia.
  - pose proof (narrowing_unusable _ _ _ _ _ _ _ _ _ _ _ _ o _ c (S (tested s)) Ho Hrun Hn) as Hn'.
    pose proof (narrowing_untested _ _ _ _ _ _ _ _ _ _ _ _ Hn) as Hsame.
    eexists _, (c1 ++ c2). split; [|split; [do 7 eexists; exact Hn'|rewrite !length_app; cbn; lia]].
    unfold code_mark. destruct (c =? BUILD_RESULT_SKIPPED)%Z; [reflexivity|].
    destruct (c =? BUILD_RESULT_FAIL)%Z; [reflexivity|]. by rewrite Hsame.
Qed.

(** *** Looking for another repository *)

(** Only contained revisions are entered. *)
Record touched (s s' : BisectState) : Prop := {
  to_list : revision_states s' = revision_states s;
  to_table : revision_index s' = revision_index s;
  to_objects : ∀ r, objects s' !! r = None ↔ objects s !! r = None;
  to_object : ∀ r o, objects s !! r = Some o → ∃ e, objects s' !! r = Some (set_external e o) ∧
    (is_Some (external o) → is_Some e)
}.

Lemma touched_refl s : touched s s.
Proof. constructor; [done..|]. intros r o Ho. exists (external o). split; [|done]. rewrite Ho. by destruct o. Qed.

Lemma touched_trans s s' s'' : touched s s' → touched s' s'' → touched s s''.
Proof.
  intros [H1 H2 H3 H4] [H1' H2' H3' H4']. constructor; [congruence|congruence| |].
  - intros r. by rewrite H3', H3.
  - intros r o Ho. destruct (H4 r o Ho) as (e & He & Hi). destruct (H4' _ _ He) as (e' & He' & Hi').
    exists e'. split; [by rewrite He'; destruct o|]. intros Hs. apply Hi'. cbn. auto.
Qed.

Lemma touched_alter s r o e : objects s !! r = Some o → touched s (alter_object (set_external (Some e)) r s).
Proof.
  intros Ho. constructor; [done|done| |].
  - intros r'. rewrite alter_object_lookup. case_decide; [|done]. by rewrite fmap_None.
  - intros r' o' Ho'. rewrite alter_object_lookup, Ho'. case_decide.
    + exists (Some e). by split; [|eauto].
    + exists (external o'). split; [by destruct o'|done].
Qed.

Lemma touched_back s s' r o' : touched s s' → objects s' !! r = Some o' →
  ∃ o, objects s !! r = Some o ∧ o' = set_external (external o') o.
Proof.
  intros Ht Ho'. destruct (objects s !! r) as [o|] eqn:Ho.
  - destruct (to_object _ _ Ht r o Ho) as (e & He & _). rewrite Ho' in He. injection He as ->. by exists o.
  - apply (to_objects _ _ Ht) in Ho. congruence.
Qed.

Lemma known_touched s s' r p : touched s s' → known s' r p ↔ known s r p.
Proof.
  intros Ht. split.
  - intros (o' & Ho' & <-). destruct (touched_back _ _ _ _ Ht Ho') as (o & Ho & ->). by exists o.
  - intros (o & Ho & <-). destruct (to_object _ _ Ht r o Ho) as (e & He & _). by eexists.
Qed.
Lemma run_known_touched s s' r p : touched s s' → run_known s r p → run_known s' r p.
Proof.
  intros Ht (o & Ho & <- & Hi). destruct (to_object _ _ Ht r o Ho) as (e & He & Hi'). eexists. split; [exact He|]. auto.
Qed.

Lemma narrowing_touched s s' d lef b mid g rig pre cand post : touched (bisect_state s) (bisect_state s') →
  current_states s' = current_states s → min_revision s' = min_revision s → max_revision s' = max_revision s →
  narrowing s d lef b mid g rig pre cand post → narrowing s' d lef b mid g rig pre cand post.
Proof.
  intros Ht Hcur Hmin Hmax [[Hnd Hpl Htab] Hmain Hb Hg Hlef Hrig Hmid Hcand Hst Hlow Hhigh Hown].
  pose proof (λ r p, known_touched _ _ r p Ht) as Hk.
  constructor; rewrite ?Hcur, ?Hmin, ?Hmax, ?(to_list _ _ Ht), ?(to_table _ _ Ht); try done.
  - constructor; rewrite ?(to_list _ _ Ht), ?(to_table _ _ Ht); [done| |done].
    intros i r Hi. destruct (Hpl i r Hi) as (o & Ho & Hix). destruct (to_object _ _ Ht r o Ho) as (e & He & _). by eexists.
  - by eapply run_known_touched.
  - by eapply run_known_touched.
  - intros r Hr. rewrite Hk. by apply Hlef.
  - intros r Hr. rewrite Hk. by apply Hrig.
  - intros r Hr. rewrite Hk. destruct (Hmid r Hr) as [?|[Hc (o & Ho & Hf)]]; [by left|right].
    split; [done|]. destruct (to_object _ _ Ht r o Ho) as (e & He & _). by eexists.
  - intros r o' Hr Ho'. destruct (touched_back _ _ _ _ Ht Ho') as (o & Ho & ->). by apply (Hown r o).
Qed.

Definition with_state (bs : BisectState) (s : PerfSearch) : PerfSearch :=
  mkPerfSearch bs (current_states s) (min_revision s) (max_revision s) (tested s).

Lemma set_bleeding_edge_run r v s o e : objects (bisect_state s) !! r = Some o → external o = Some e →
  ∃ bs, set_bleeding_edge r v s = (Ok (), with_state bs s) ∧ touched (bisect_state s) bs.
Proof.
  intros Ho He. unfold set_bleeding_edge. erewrite M_bind_run by (by apply object_of_run).
  rewrite He. cbn [of_option]. rewrite bind_lift_Ok, change_run. eexists. split; [reflexivity|].
  by eapply touched_alter.
Qed.

(** A state that was run, as it is now. *)
Definition was_run (bs : BisectState) (r : nat) : Prop := ∃ o e, objects bs !! r = Some o ∧ external o = Some e.

Lemma was_run_touched s s' r : touched s s' → was_run s r → was_run s' r.
Proof.
  intros Ht (o & e & Ho & He). destruct (to_object _ _ Ht r o Ho) as (e' & He' & Hi).
  destruct Hi as [e'' ->]; [by rewrite He|]. by eexists _, _.
Qed.

Lemma FillIn_run mn mx s : was_run (bisect_state s) mn → was_run (bisect_state s) mx →
  ∃ bs, FillInV8BleedingEdgeInfo nearest_bleeding_edge mn mx s = (Ok (), with_state bs s) ∧ touched (bisect_state s) bs.
Proof.
  intros (o & e & Ho & He) Hmx. unfold FillInV8BleedingEdgeInfo.
  erewrite M_bind_run by (by apply object_of_run).
  destruct Hmx as (o' & e' & Ho' & He'). erewrite M_bind_run by (by apply object_of_run).
  destruct (set_bleeding_edge_run mn (nearest_bleeding_edge (revision o) true) s o e Ho He) as (bs & Hrun & Ht).
  erewrite M_bind_run by exact Hrun.
  destruct (was_run_touched _ _ mx Ht) as (o2 & e2 & Ho2 & He2); [by eexists _, _|].
  destruct (set_bleeding_edge_run mx (nearest_bleeding_edge (revision o') false) (with_state bs s) o2 e2 Ho2 He2)
    as (bs' & Hrun' & Ht'). exists bs'. split; [exact Hrun'|]. by eapply touched_trans.
Qed.

Lemma external_get_run r name s o e : objects (bisect_state s) !! r = Some o → external o = Some e →
  external_get r name s = (Ok (e !! name), s).
Proof.
  intros Ho He. unfold external_get. erewrite M_bind_run by (by apply object_of_run). by rewrite He.
Qed.

(** What is found: a repository that a revision of the one at hand contains, and that
    is at different revisions in the two states. *)
Definition depot_found (bs : BisectState) (depots : list (string * Depot)) (mn mx : nat) (d : string) : Prop :=
  ∃ info o ext v ext' v', (d, info) ∈ depots ∧ objects bs !! mn = Some o ∧ depot o ∈ from info ∧
    external o = Some ext ∧ ext !! d = Some v ∧ (∃ o', objects bs !! mx = Some o' ∧ external o' = Some ext') ∧
    ext' !! d = Some v' ∧ v ≠ v'.

Lemma find_depot_run depots cd mn mx s : was_run (bisect_state s) mn → was_run (bisect_state s) mx →
  ∃ bs found, find_depot os_name nearest_bleeding_edge depots cd mn mx s = (Ok found, with_state bs s) ∧
    touched (bisect_state s) bs ∧ match found with Some d => depot_found bs depots mn mx d | None => True end.
Proof.
  revert s. induction depots as [|[d info] depots IH]; intros s Hmn Hmx; cbn [find_depot].
  { exists (bisect_state s), None. split; [by destruct s|]. split; [apply touched_refl|done]. }
  assert (∀ s, was_run (bisect_state s) mn → was_run (bisect_state s) mx →
    ∃ bs found, find_depot os_name nearest_bleeding_edge depots cd mn mx s = (Ok found, with_state bs s) ∧
      touched (bisect_state s) bs ∧
      match found with Some d' => depot_found bs ((d, info) :: depots) mn mx d' | None => True end) as Hrest.
  { intros s0 H1 H2. destruct (IH s0 H1 H2) as (bs & found & Hrun & Ht & Hf). exists bs, found. split_and!; [done..|].
    destruct found as [d'|]; [|done]. destruct Hf as (i' & o & ext & v & ext' & v' & Hin & Hf).
    exists i', o, ext, v, ext', v'. split; [by right|done]. }
  clear IH. destruct (match platform info with Some p => _ | None => _ end); [by apply Hrest|].
  pose proof Hmn as (o & e & Ho & He). erewrite M_bind_run by (by apply object_of_run).
  destruct (negb (recurse info && bool_decide (depot o ∈ from info))) eqn:Hfrom; [by apply Hrest|].
  apply negb_false_iff, andb_prop in Hfrom as [_ Hfrom%bool_decide_eq_true].
  assert (∃ bs, when (bool_decide (cd = "v8")) (FillInV8BleedingEdgeInfo nearest_bleeding_edge mn mx) s =
    (Ok (), with_state bs s) ∧ touched (bisect_state s) bs) as (bs & Hrun & Ht).
  { case_bool_decide; [by apply FillIn_run|]. exists (bisect_state s). split; [by destruct s|apply touched_refl]. }
  erewrite M_bind_run by exact Hrun.
  destruct (was_run_touched _ _ _ Ht Hmn) as (o1 & e1 & Ho1 & He1).
  destruct (was_run_touched _ _ _ Ht Hmx) as (o2 & e2 & Ho2 & He2).
  erewrite M_bind_run by (by apply (external_get_run mn d (with_state bs s) o1)).
  erewrite M_bind_run by (by apply (external_get_run mx d (with_state bs s) o2)).
  assert (∃ bs' found, find_depot os_name nearest_bleeding_edge depots cd mn mx (with_state bs s) =
      (Ok found, with_state bs' s) ∧ touched (bisect_state s) bs' ∧
      match found with Some d' => depot_found bs' ((d, info) :: depots) mn mx d' | None => True end) as Hcont.
  { destruct (Hrest (with_state bs s)) as (bs' & found & Hrun' & Ht' & Hf); [by eexists _, _..|].
    exists bs', found. split_and!; [exact Hrun'|by eapply touched_trans|done]. }
  clear Hrun. case_bool_decide as Hab; [exact Hcont|].
  destruct (nonempty (e1 !! d) && nonempty (e2 !! d)) eqn:Hne; [|exact Hcont].
  apply andb_prop in Hne as [Hne1 Hne2]. destruct (e1 !! d) as [v|] eqn:Hv; [|done].
  destruct (e2 !! d) as [v'|] eqn:Hv'; [|done].
  exists bs, (Some d). split_and!; [done..|]. exists info, o1, e1, v, e2, v'.
  destruct (touched_back _ _ _ _ Ht Ho1) as (o1' & Ho1' & Heq). rewrite Ho in Ho1'. injection Ho1' as <-.
  split_and!; [by left|done| |done..| |done|congruence].
  - by rewrite Heq.
  - by exists o2.
Qed.

(** *** Going on in another repository *)

(** Repositories contain repositories of a lower rank only. *)
Definition rank (d : string) : nat :=
  if bool_decide (d = "android-chrome") then 3
  else if bool_decide (d = "chromium") then 2
  else if bool_decide (d = "v8") then 1 else 0.

Lemma rank_decreases d info from_depot : (d, info) ∈ dict_items DEPOT_DEPS_NAME → from_depot ∈ from info →
  (rank d < rank from_depot)%nat.
Proof.
  intros Hd%elem_of_dict_items Hf.
  assert (map_Forall (λ d info, Forall (λ f, (rank d < rank f)%nat) (from info)) DEPOT_DEPS_NAME) as Hall
    by (refine (bool_decide_eq_true_1 _ _); by vm_compute).
  specialize (Hall d info Hd). rewrite Forall_forall in Hall. by apply Hall.
Qed.

(** Without candidates the bounds of the list are [b] and [g], or one of them twice. *)
Lemma bounds_known s d lef b mid g rig pre post : narrowing s d lef b mid g rig pre [] post →
  current_states s ≠ [] →
  ∃ mn mx, current_states s !! min_revision s = Some mn ∧ current_states s !! max_revision s = Some mx ∧
    ((mn = mx ∧ (mn = b ∨ mn = g)) ∨ (mn = b ∧ mx = g)).
Proof.
  intros Hn Hne. destruct Hn as [_ _ _ _ _ _ _ _ Hst Hlow Hhigh _]. rewrite Hst in *. cbn [app] in *.
  assert (∀ x, last pre = Some x → length pre = S (min_revision s) → (pre ++ post) !! min_revision s = Some x) as Hpre.
  { intros x Hx Hl. rewrite lookup_app_l by lia. rewrite last_lookup, Hl in Hx. done. }
  assert (∀ x, head post = Some x → (pre ++ post) !! length pre = Some x) as Hpost.
  { intros x Hx. rewrite lookup_app_r, Nat.sub_diag by lia. by destruct post. }
  rewrite app_nil_r in Hhigh.
  destruct Hlow as [[-> Hmin]|[Hlast Hl]], Hhigh as [[-> Hmax]|[Hhead Hmax]].
  - done.
  - exists g, g. specialize (Hpost g Hhead). rewrite Hmin, Hmax. cbn [app length] in *. auto 6.
  - exists b, b. specialize (Hpre b Hlast Hl). rewrite app_nil_r in *.
    assert (max_revision s = min_revision s) as -> by lia. auto 6.
  - exists b, g. rewrite Hmax, (Hpost g Hhead), (Hpre b Hlast Hl). auto 6.
Qed.

Lemma narrowing_created s d lef b mid g rig pre post bs d' revs :
  narrowing s d lef b mid g rig pre [] post → NoDup revs →
  created (bisect_state s) bs d' revs (length lef) →
  let new := seq (length (objects (bisect_state s))) (length revs) in
  narrowing (mkPerfSearch bs new 0 (length new - 1) (tested s)) d' lef b (new ++ mid) g rig [] new [].
Proof.
  intros Hn Hnd [Hlist Htable Hix Hold Hnew] new.
  destruct Hn as [Hix0 Hmain Hb Hg Hlef Hrig Hmid _ _ _ _ _].
  assert (∀ r p, known (bisect_state s) r p → known bs r p) as Hk.
  { intros r p (o & Ho & <-). destruct (Hold r o Ho) as (j & Hj). by eexists. }
  assert (∀ r p, r ∈ revision_states (bisect_state s) → known bs r p → known (bisect_state s) r p) as Hk'.
  { intros r p Hr (o & Ho & <-). destruct (indexed_lookup _ r Hix0 Hr) as (o' & Ho' & _).
    destruct (Hold r o' Ho') as (j & Hj). rewrite Hj in Ho. injection Ho as <-. by exists o'. }
  assert (∀ r p, run_known (bisect_state s) r p → run_known bs r p) as Hrk.
  { intros r p (o & Ho & <- & Hi). destruct (Hold r o Ho) as (j & Hj). by eexists. }
  assert (∀ r, r ∈ new → ∃ j rev, revs !! j = Some rev ∧
    objects bs !! r = Some (RevisionState_init d' rev (S (length lef) + j))) as Hobj.
  { intros r Hr%elem_of_seq. destruct (lookup_lt_is_Some_2 revs (r - length (objects (bisect_state s)))) as [rev Hrev]; [lia|].
    exists (r - length (objects (bisect_state s)))%nat, rev. split; [done|]. rewrite <- (Hnew _ _ Hrev). f_equal. lia. }
  constructor; cbn [bisect_state current_states min_revision max_revision app].
  - done.
  - rewrite Hlist, Hmain.
    assert (lef ++ b :: mid ++ g :: rig = (lef ++ [b]) ++ mid ++ g :: rig) as -> by (by rewrite <- app_assoc).
    assert (length (lef ++ [b]) = S (length lef)) by (rewrite length_app; cbn; lia).
    rewrite take_app_length', drop_app_length' by done. by rewrite <- !app_assoc.
  - by apply Hrk.
  - by apply Hrk.
  - intros r Hr Hp%Hk'; [by apply (Hlef r)|]. rewrite Hmain. apply elem_of_app. by left.
  - intros r Hr Hp%Hk'; [by apply (Hrig r)|]. rewrite Hmain. apply elem_of_app. right. right. apply elem_of_app.
    right. by right.
  - intros r [Hr|Hr]%elem_of_app.
    + left. split; [done|]. destruct (Hobj r Hr) as (j & rev & _ & Ho). by eexists.
    + right. split.
      * intros Hs%elem_of_seq. assert (r ∈ revision_states (bisect_state s)) as Hv.
        { rewrite Hmain. apply elem_of_app. right. right. apply elem_of_app. by left. }
        apply (indexed_valid _ _ Hix0) in Hv. lia.
      * destruct (Hmid r Hr) as [[[]%not_elem_of_nil _]|[_ (o & Ho & Hf)]].
        destruct (Hold r o Ho) as (j & Hj). by eexists.
  - by apply sublist_inserts_r.
  - by rewrite app_nil_r.
  - by left.
  - by left.
  - intros r o Hr Ho. destruct (Hobj r Hr) as (j & rev & Hj & Ho'). rewrite Ho in Ho'. injection Ho' as ->.
    split; [done|]. cbn [revision index RevisionState_init]. rewrite Htable. exact (add_keys_new _ _ _ _ _ _ Hnd Hj).
Qed.
End rounds.
