(* ===== verification/PerfBisectSearch.v ===== *)
(** auto_bisect: the loop of the search ends, and what it leaves of the states. *)

From Stdlib Require Import String.
From S2P Require Import Prelude PerfBisect PerfBisectLaws.

#[local] Open Scope string_scope.
#[local] Open Scope list_scope.

Section search.
Context `{!DictOrder} (os_name : string) (run_test : nat → string → string → TestResult) (known_good known_bad : Z)
  (nearest_bleeding_edge : string → bool → option string)
  (PrepareToBisectOnDepot : string → string → string → string → list string) (size : nat).
Context (prepared : ∀ d e l p, NoDup (PrepareToBisectOnDepot d e l p) ∧
                               (length (PrepareToBisectOnDepot d e l p) <= size)%nat).

Abbreviation bisect_external := (bisect_external os_name nearest_bleeding_edge PrepareToBisectOnDepot).
Abbreviation perf_round :=
  (perf_round os_name run_test known_good known_bad nearest_bleeding_edge PrepareToBisectOnDepot).
Abbreviation narrowing := (narrowing (run_test:=run_test)).
Abbreviation searching := (searching (run_test:=run_test)).
Abbreviation perf_loop :=
  (perf_loop os_name run_test known_good known_bad nearest_bleeding_edge PrepareToBisectOnDepot).

(** A pass through the loop: either there is less to be run, in this repository or in
    one of a lower rank, or there is nothing any more. *)
Definition advanced (d : string) (cand : list nat) (step : Step) (s' : PerfSearch) : Prop :=
  match step with
  | Continue => ∃ d' cand', searching s' d' cand' ∧
      ((d' = d ∧ length cand' < length cand) ∨ (rank d' < rank d ∧ length cand' <= size))%nat
  | _ => ∃ d', searching s' d' []
  end.

Lemma run_known_was_run s r p : run_known s r p → was_run s r.
Proof. intros (o & Ho & _ & [e He]). by exists o, e. Qed.

Lemma bisect_external_run s d lef b mid g rig pre post mn mx :
  narrowing s d lef b mid g rig pre [] post →
  current_states s !! min_revision s = Some mn →
  (mn = mx ∧ (mn = b ∨ mn = g)) ∨ (mn = b ∧ mx = g) →
  ∃ step s', bisect_external mn mx s = (Ok step, s') ∧ advanced d [] step s'.
Proof.
  intros Hn Hmn Hends. pose proof Hn as [Hix Hmain Hb Hg _ _ _ _ _ _ _ Hown].
  apply list_elem_of_lookup_2 in Hmn.
  assert (was_run (bisect_state s) mn ∧ was_run (bisect_state s) mx) as [Hrmn Hrmx].
  { apply run_known_was_run in Hb, Hg. by destruct Hends as [[-> [->| ->]]|[-> ->]]. }
  pose proof Hrmn as (o & e & Ho & He). destruct (Hown mn o Hmn Ho) as [Hd Hkey].
  unfold PerfBisect.bisect_external. erewrite M_bind_run by (by apply object_of_run).
  unfold FindNextDepotToBisect.
  destruct (find_depot_run os_name nearest_bleeding_edge (dict_items DEPOT_DEPS_NAME) (depot o) mn mx s Hrmn Hrmx)
    as (bs & found & Hrun & Ht & Hfound).
  erewrite M_bind_run by exact Hrun.
  assert (narrowing (with_state bs s) d lef b mid g rig pre [] post) as Hn' by (by eapply narrowing_touched).
  destruct found as [d'|]; [|eexists _, _; split; [reflexivity|]; exists d; by do 7 eexists].
  destruct Hfound as (info & o1 & ext & v & ext' & v' & Hin & Ho1 & Hfrom & Hext & Hv & (o2 & Ho2 & Hext') & Hv' & Hne).
  destruct Hends as [[<- _]|[-> ->]]; [exfalso; congruence|].
  erewrite M_bind_run by (by apply (external_get_run g d' (with_state bs s) o2)).
  erewrite M_bind_run by (by apply (external_get_run b d' (with_state bs s) o1)).
  rewrite Hv, Hv'. cbn [of_option]. rewrite !bind_lift_Ok.
  destruct (prepared d' v' v (revision o)) as [Hnd Hsize].
  destruct (PrepareToBisectOnDepot d' v' v (revision o)) as [|r revs] eqn:Hrevs.
  { eexists _, _. split; [reflexivity|]. exists d. by do 7 eexists. }
  destruct (touched_back _ _ _ _ Ht Ho1) as (o' & Ho' & Hoeq). rewrite Ho in Ho'. injection Ho' as <-.
  assert (index o = length lef) as Hplace.
  { destruct (ix_place _ Hix (length lef) b) as (o' & Ho' & Hi); [|congruence].
    rewrite Hmain. by apply list_lookup_middle. }
  pose proof (n_indexed _ _ _ _ _ _ _ _ _ _ Hn') as Hix'. cbn [bisect_state with_state] in Hix'.
  destruct (CreateRevisionStatesAfter_run bs d' (r :: revs) (depot o) (revision o) (length lef) Hix')
    as (bs' & Hcreate & Hcreated).
  { rewrite (to_table _ _ Ht), Hd, Hkey. by rewrite Hplace. }
  pose proof (narrowing_created run_test _ _ _ _ _ _ _ _ _ bs' d' (r :: revs) Hn' Hnd Hcreated) as Hnew.
  erewrite M_bind_run.
  2:{ unfold on_state. cbn [bisect_state with_state]. rewrite Hcreate. reflexivity. }
  eexists _, _. split; [reflexivity|]. exists d', (seq (length (objects bs)) (length (r :: revs))).
  split; [by do 7 eexists|]. right. rewrite length_seq. split; [|done].
  apply (rank_decreases d' info); [done|]. by rewrite Hoeq in Hfrom; cbn in Hfrom; rewrite Hd in Hfrom.
Qed.

(** Where the next run is, when there are candidates. *)
Lemma round_at s d lef b mid g rig pre cand post i :
  narrowing s d lef b mid g rig pre cand post → (length pre <= i < length (pre ++ cand))%nat →
  ∃ s', test_state run_test known_good known_bad i s = (Ok Continue, s') ∧ advanced d cand Continue s'.
Proof.
  intros Hn Hi. rewrite length_app in Hi.
  destruct (lookup_lt_is_Some_2 cand (i - length pre)) as [x Hx]; [lia|].
  pose proof (take_drop_middle _ _ _ Hx) as Hcand. rewrite <- Hcand in Hn.
  destruct (test_narrows run_test known_good known_bad _ _ _ _ _ _ _ _ _ _ _ _ Hn) as (s' & cand' & Hrun & Hs & Hlt).
  assert (length (pre ++ take (i - length pre) cand) = i) as Hlen
    by (rewrite length_app, length_take; apply lookup_lt_Some in Hx; lia).
  rewrite Hlen in Hrun. rewrite Hcand in Hlt. exists s'. split; [done|]. exists d, cand'. auto.
Qed.

(** The states the loop looks at have objects: the bounds, and what is to be run. *)
Lemma cand_known s d lef b mid g rig pre cand post r :
  narrowing s d lef b mid g rig pre cand post → r ∈ cand → known (bisect_state s) r Untested.
Proof.
  intros Hn Hr. destruct (n_mid _ _ _ _ _ _ _ _ _ _ Hn r) as [[_ ?]|[? _]]; [|done..].
  eapply elem_of_sublist; [exact Hr|]. apply Hn.
Qed.

(** The body of the loop once the two states at the bounds are read. *)
Lemma perf_round_bounds s mn mx omn omx :
  current_states s !! min_revision s = Some mn → current_states s !! max_revision s = Some mx →
  objects (bisect_state s) !! mn = Some omn → objects (bisect_state s) !! mx = Some omx →
  (max_revision s - min_revision s <= 1)%nat →
  perf_round s =
    (if bool_decide (passed omn = Untested) then test_state run_test known_good known_bad (min_revision s)
     else if bool_decide (passed omx = Untested) then test_state run_test known_good known_bad (max_revision s)
     else if bool_decide (depot omn ∈ ["android-chrome"; "chromium"; "v8"]) then bisect_external mn mx
     else mret Break) s.
Proof.
  intros Hmn Hmx Hon Hox Hgap. unfold PerfBisect.perf_round. rewrite bind_gets. cbn [id].
  destruct (current_states s) as [|r0 rs] eqn:Hcur; [done|]. rewrite <- Hcur in *.
  rewrite (proj2 (Nat.leb_le _ _)) by lia.
  erewrite M_bind_run by (by apply state_at_run). erewrite M_bind_run by (by apply state_at_run).
  erewrite M_bind_run by (by apply object_of_run). by erewrite M_bind_run by (by apply object_of_run).
Qed.

Lemma round_without_candidates s d lef b mid g rig pre post :
  narrowing s d lef b mid g rig pre [] post → current_states s ≠ [] →
  ∃ step s', perf_round s = (Ok step, s') ∧ advanced d [] step s'.
Proof.
  intros Hn Hne. destruct (bounds_known run_test _ _ _ _ _ _ _ _ _ Hn Hne) as (mn & mx & Hmn & Hmx & Hends).
  pose proof Hn as [_ _ Hb Hg _ _ _ _ Hst Hlow Hhigh _].
  assert (∃ omn omx, objects (bisect_state s) !! mn = Some omn ∧ objects (bisect_state s) !! mx = Some omx ∧
    passed omn ≠ Untested ∧ passed omx ≠ Untested) as (omn & omx & Hon & Hox & Hpn & Hpx).
  { destruct Hb as (ob & Hob & Hpb & _), Hg as (og & Hog & Hpg & _).
    destruct Hends as [[-> [->| ->]]|[-> ->]]; eexists _, _; split_and!; try done; congruence. }
  rewrite (perf_round_bounds s mn mx omn omx) by
    (try done; rewrite Hst in *; rewrite !length_app in *; cbn in *;
     destruct Hlow as [[-> ?]|[_ ?]], Hhigh as [[-> ?]|[_ ?]]; cbn in *; lia).
  rewrite !bool_decide_false by done. case_bool_decide; [by eapply bisect_external_run|].
  eexists _, _. split; [reflexivity|]. exists d. by do 7 eexists.
Qed.

Lemma round_with_candidates s d lef b mid g rig pre cand post :
  narrowing s d lef b mid g rig pre cand post → cand ≠ [] →
  ∃ step s', perf_round s = (Ok step, s') ∧ advanced d cand step s'.
Proof.
  intros Hn Hcand. pose proof Hn as [_ _ Hb Hg _ _ _ _ Hst Hlow Hhigh _].
  pose proof (λ r, cand_known _ _ _ _ _ _ _ _ _ _ r Hn) as Huntested.
  assert (length cand ≠ 0)%nat as Hlen by (by destruct cand).
  assert (length (current_states s) = length pre + length cand + length post)%nat as Htotal
    by (rewrite Hst, !length_app; lia).
  destruct (le_lt_dec (max_revision s - min_revision s) 1) as [Hgap|Hgap].
  - assert (∀ i, (length pre <= i < length pre + length cand)%nat → ∃ x o, current_states s !! i = Some x ∧
      objects (bisect_state s) !! x = Some o ∧ passed o = Untested) as Hin.
    { intros i Hi. destruct (lookup_lt_is_Some_2 cand (i - length pre)) as [x Hx]; [lia|].
      destruct (Huntested x) as (o & Ho & Hp); [by eapply list_elem_of_lookup_2|]. exists x, o.
      split; [|done]. by rewrite Hst, lookup_app_r, lookup_app_l by lia. }
    destruct Hlow as [[-> Hmin]|[Hlast Hmin]].
    + destruct (Hin (min_revision s)) as (mn & omn & Hmn & Hon & Hpn); [cbn [length] in *; lia|].
      assert (∃ mx omx, current_states s !! max_revision s = Some mx ∧ objects (bisect_state s) !! mx = Some omx)
        as (mx & omx & Hmx & Hox).
      { destruct Hhigh as [[-> Hmax]|[Hhead Hmax]].
        - destruct (Hin (max_revision s)) as (mx & omx & Hmx & Hox & _); [cbn [length] in *; lia|]. by exists mx, omx.
        - destruct Hg as (og & Hog & _). exists g, og. split; [|done].
          rewrite Hst, Hmax, app_assoc, lookup_app_r, Nat.sub_diag by lia. by destruct post. }
      destruct (round_at s d lef b mid g rig [] cand post (min_revision s) Hn) as (s' & Hrun & Hadv); [cbn; lia|].
      exists Continue, s'. split; [|done]. rewrite (perf_round_bounds s mn mx omn omx) by done.
      by rewrite bool_decide_true by done.
    + destruct Hhigh as [[-> Hmax]|[_ Hmax]]; [|rewrite length_app in Hmax; lia]. cbn [length] in *.
      destruct (Hin (max_revision s)) as (mx & omx & Hmx & Hox & Hpx); [lia|].
      destruct Hb as (ob & Hob & Hpb & _).
      destruct (round_at s d lef b mid g rig pre cand [] (max_revision s) Hn) as (s' & Hrun & Hadv);
        [rewrite length_app; lia|].
      exists Continue, s'. split; [|done]. rewrite (perf_round_bounds s b mx ob omx); try done.
      * rewrite bool_decide_false by congruence. by rewrite bool_decide_true by done.
      * rewrite Hst, lookup_app_l by lia. rewrite last_lookup, Hmin in Hlast. done.
  - destruct (round_at s d lef b mid g rig pre cand post ((max_revision s - min_revision s) / 2 + min_revision s) Hn)
      as (s' & Hrun & Hadv).
    + pose proof (Nat.div_lt (max_revision s - min_revision s) 2 ltac:(lia) ltac:(lia)).
      pose proof (Nat.div_le_lower_bound (max_revision s - min_revision s) 2 1 ltac:(lia) ltac:(lia)).
      rewrite length_app. destruct Hlow as [[-> Hmin]|[_ Hmin]], Hhigh as [[-> Hmax]|[_ Hmax]];
        rewrite ?length_app in *; cbn [length] in *; lia.
    + exists Continue, s'. split; [|done]. unfold PerfBisect.perf_round. rewrite bind_gets. cbn [id].
      destruct (current_states s) as [|r0 rs] eqn:Hcur; [cbn in Htotal; lia|].
      by rewrite (proj2 (Nat.leb_gt _ _)) by lia.
Qed.

Lemma perf_round_run s d cand : searching s d cand →
  ∃ step s', perf_round s = (Ok step, s') ∧ advanced d cand step s'.
Proof.
  intros (lef & b & mid & g & rig & pre & post & Hn).
  destruct (decide (cand = [])) as [->|Hcand]; [|by eapply round_with_candidates].
  destruct (decide (current_states s = [])) as [Hnil|Hnil]; [|by eapply round_without_candidates].
  unfold PerfBisect.perf_round. rewrite bind_gets. cbn [id]. rewrite Hnil.
  eexists _, _. split; [reflexivity|]. exists d. by do 7 eexists.
Qed.

Lemma perf_loop_run fuel s d cand : searching s d cand → (rank d * S size + length cand < fuel)%nat →
  ∃ r s' d', perf_loop fuel s = (Ok r, s') ∧ searching s' d' [].
Proof.
  revert s d cand. induction fuel as [|fuel IH]; intros s d cand Hs Hfuel; [lia|].
  cbn [PerfBisect.perf_loop]. destruct (perf_round_run s d cand Hs) as (step & s1 & Hrun & Hadv).
  erewrite M_bind_run by exact Hrun. destruct step as [| |e]; cbn [advanced] in Hadv.
  - destruct Hadv as (d' & cand' & Hs' & Hless). apply (IH s1 d' cand' Hs').
    destruct Hless as [[-> Hless]|[Hrank Hless]]; [lia|]. nia.
  - destruct Hadv as (d' & Hs'). by exists None, s1, d'.
  - destruct Hadv as (d' & Hs'). by exists (Some e), s1, d'.
Qed.

Abbreviation Run := (Run os_name run_test known_good known_bad nearest_bleeding_edge PrepareToBisectOnDepot).

Lemma Run_begins fuel d revs be ge bp bb gp gb : NoDup revs → (2 <= length revs)%nat →
  ∃ s cand, Run fuel d revs be ge bp bb gp gb at_start = perf_loop fuel s ∧ searching s d cand ∧
    (S (length cand) < length revs)%nat.
Proof.
  intros Hnd Hlen. destruct (BisectState_init_run d revs) as [Hinit Hix].
  set (bs := mkBisectState _ _ _) in *. remember (length revs - 2)%nat as m.
  assert (length revs = S (S m)) as Hm by lia.
  assert (revision_states bs = [0%nat] ++ seq 1 m ++ [S m]) as Hseq.
  { cbn [bs revision_states]. rewrite Hm. cbn [seq]. by rewrite <- seq_S. }
  set (fb := set_result Broken known_bad be bp bb). set (fg := set_result Pass known_good ge gp gb).
  exists (mkPerfSearch (alter_object fg (S m) (alter_object fb 0 bs)) (revision_states bs) 0 (S m) 0), (seq 1 m).
  split; [|split; [|rewrite length_seq; lia]].
  - unfold PerfBisect.Run. erewrite M_bind_run by (unfold on_state; cbn [bisect_state at_start]; rewrite Hinit; reflexivity).
    rewrite (M_bind_run (on_state GetRevisionStates) _ _ (revision_states bs) (mkPerfSearch bs [] 0 0 0)) by done.
    rewrite bind_modify.
    assert (length (revision_states bs) = S (S m)) as Hl by (cbn; by rewrite length_seq).
    rewrite Hl. cbn [Nat.sub].
    erewrite M_bind_run by (apply state_at_run; cbn [current_states set_states]; by rewrite Hseq).
    erewrite M_bind_run by apply change_run.
    erewrite M_bind_run.
    2:{ apply state_at_run. cbn [current_states set_states]. rewrite Hseq, app_assoc. apply list_lookup_middle. by rewrite length_app, length_seq. }
    by erewrite M_bind_run by apply change_run.
  - assert (∀ r rev, revs !! r = Some rev → objects bs !! r = Some (RevisionState_init d rev r)) as Hobj.
    { intros r rev Hr. cbn [bs objects]. by rewrite new_objects_lookup, Hr. }
    assert (∀ r, (r < S (S m))%nat → ∃ rev, revs !! r = Some rev) as Hrev.
    { intros r Hr. apply lookup_lt_is_Some_2. by rewrite Hm. }
    exists [], 0%nat, (seq 1 m), (S m), [], [0%nat], [S m].
    constructor; cbn [bisect_state current_states min_revision max_revision app].
    + by do 2 (apply indexed_alter; [done|]).
    + exact Hseq.
    + apply run_known_alter; [done|]. destruct (Hrev 0%nat) as [rev Hr]; [lia|].
      exists (fb (RevisionState_init d rev 0)). rewrite alter_object_lookup, decide_True, (Hobj _ _ Hr) by done. eauto.
    + destruct (Hrev (S m)) as [rev Hr]; [lia|].
      exists (fg (RevisionState_init d rev (S m))). rewrite alter_object_lookup, decide_True by done.
      rewrite alter_object_lookup, decide_False, (Hobj _ _ Hr) by done. eauto.
    + by intros r ?%not_elem_of_nil.
    + by intros r ?%not_elem_of_nil.
    + intros r Hr. left. split; [done|]. apply elem_of_seq in Hr. rewrite !known_alter by lia.
      destruct (Hrev r) as [rev Hrv]; [lia|]. eexists. split; [by apply Hobj|done].
    + done.
    + exact Hseq.
    + right. done.
    + right. split; [done|]. cbn. by rewrite length_seq.
    + apply (own_alter fg (S m) (alter_object fb 0 bs)); [by intros o|]. apply (own_alter fb 0 bs); [by intros o|].
      intros r o Hr Ho.
      assert (r < S (S m))%nat as Hlt.
      { cbn [bs revision_states] in Hr. apply elem_of_seq in Hr. lia. }
      destruct (Hrev r Hlt) as [rev Hrv]. rewrite (Hobj _ _ Hrv) in Ho. injection Ho as <-. split; [done|].
      cbn [bs revision_index revision index RevisionState_init]. exact (add_keys_new d revs 0 ∅ r rev Hnd Hrv).
Qed.

(** *** The outcome *)

Lemma breaking_before os acc : (∀ o, o ∈ os → passed o ≠ Pass) → fst acc = None →
  fst (foldl breaking_step acc os) = None.
Proof.
  revert acc. induction os as [|o os IH]; intros [w l] Hos Hw; [done|]. cbn in Hw. subst w.
  apply IH; [intros o' Ho'; apply Hos; by right|]. cbn. by rewrite bool_decide_false by (apply Hos; by left).
Qed.
Lemma breaking_behind os acc w : (∀ o, o ∈ os → passed o ≠ Broken) → fst acc = Some w →
  foldl breaking_step acc os = acc.
Proof.
  revert acc. induction os as [|o os IH]; intros [w' l] Hos Hw; [done|]. cbn in Hw. subst w'. cbn [foldl].
  rewrite <- (IH (Some w, l)) at 2 by (intros; try apply Hos; try done; by right). f_equal. cbn.
  by rewrite bool_decide_false by (apply Hos; by left).
Qed.
Lemma breaking_between os l : (∀ o, o ∈ os → passed o ≠ Pass ∧ passed o ≠ Broken) →
  foldl breaking_step (None, l) os = (None, l).
Proof.
  induction os as [|o os IH]; intros Hos; [done|]. cbn [foldl]. destruct (Hos o) as [Hp Hb]; [by left|].
  unfold breaking_step at 2. rewrite !bool_decide_false by done. apply IH. intros o' Ho'. apply Hos. by right.
Qed.

Lemma FindBreakingRevRange_split before ob between og after :
  (∀ o, o ∈ before → passed o ≠ Pass) → passed ob = Broken →
  (∀ o, o ∈ between → passed o ≠ Pass ∧ passed o ≠ Broken) → passed og = Pass →
  (∀ o, o ∈ after → passed o ≠ Broken) →
  FindBreakingRevRange (before ++ ob :: between ++ og :: after) = (Some og, Some ob).
Proof.
  intros Hbefore Hob Hbetween Hog Hafter. unfold FindBreakingRevRange. rewrite foldl_app.
  destruct (foldl breaking_step (None, None) before) as [w l] eqn:Hfold.
  assert (w = None) as -> by (pose proof (breaking_before before (None, None) Hbefore eq_refl) as Hfst; by rewrite Hfold in Hfst).
  cbn [foldl]. unfold breaking_step at 2. rewrite (bool_decide_false (passed ob = Pass)), bool_decide_true by congruence.
  rewrite foldl_app, breaking_between by done. cbn [foldl]. unfold breaking_step at 2.
  rewrite bool_decide_true, bool_decide_false by congruence. by apply (breaking_behind _ _ og).
Qed.

Definition name_of (o : RevisionState) : string * string := (depot o, revision o).

Lemma culprits_between before l after ob og :
  index ob = length before → index og = (length before + length l)%nat →
  FindCulpritRevisions (before ++ l ++ after) og ob = Ok (name_of <$> l).
Proof.
  intros Hob Hog. unfold FindCulpritRevisions. rewrite Hob, Hog.
  replace (length before + length l - length before)%nat with (length l) by lia. clear Hob Hog ob og.
  revert before. induction l as [|o l IH]; intros before; [done|]. cbn [length seq]. rewrite mapM_outcome_cons, <- app_comm_cons.
  rewrite list_lookup_middle by done. cbn [of_option mbind outcome_bind].
  specialize (IH (before ++ [o])). rewrite length_app, Nat.add_1_r, <- app_assoc in IH. cbn in IH. by rewrite IH.
Qed.

Lemma states_of_valid bs rs : (∀ r, r ∈ rs → ∃ o, objects bs !! r = Some o) →
  length (states_of bs rs) = length rs ∧ ∀ o, o ∈ states_of bs rs → ∃ r, r ∈ rs ∧ objects bs !! r = Some o.
Proof.
  induction rs as [|r rs IH]; intros Hrs; [by split; [|intros o ?%not_elem_of_nil]|].
  destruct IH as [IHl IHo]; [intros; apply Hrs; by right|].
  destruct (Hrs r) as [o Ho]; [by left|]. unfold states_of. cbn. rewrite Ho. split; [cbn; by f_equal|].
  intros o' [->|Ho']%elem_of_cons; [exists r; by split; [left|]|].
  destruct (IHo o' Ho') as (r' & Hr' & Hor'). exists r'. split; [by right|done].
Qed.

(** A search that has nothing more to run. *)
Lemma searching_outcome s d : searching s d [] → ∃ before ob between og after,
    states_of (bisect_state s) (revision_states (bisect_state s)) = before ++ ob :: between ++ og :: after ∧
    passed ob = Broken ∧ passed og = Pass ∧
    (∀ o, o ∈ before → passed o ≠ Pass) ∧ (∀ o, o ∈ after → passed o ≠ Broken) ∧
    (∀ o, o ∈ between → ∃ n c, run_test n (depot o) (revision o) = NotRun c ∧ passed o = code_mark c) ∧
    FindBreakingRevRange (states_of (bisect_state s) (revision_states (bisect_state s))) = (Some og, Some ob) ∧
    FindCulpritRevisions (states_of (bisect_state s) (revision_states (bisect_state s))) og ob =
      Ok (name_of <$> ob :: between).
Proof.
  intros (lef & b & mid & g & rig & pre & post & Hn).
  destruct Hn as [Hix Hmain (ob & Hob & Hpb & _) (og & Hog & Hpg & _) Hlef Hrig Hmid _ _ _ _ _].
  set (bs := bisect_state s) in *.
  assert (∀ l, (∀ r, r ∈ l → r ∈ revision_states bs) → length (states_of bs l) = length l ∧
    ∀ o, o ∈ states_of bs l → ∃ r, r ∈ l ∧ objects bs !! r = Some o) as Hvalid.
  { intros l Hl. apply states_of_valid. intros r' Hr'. destruct (indexed_lookup bs r' Hix (Hl r' Hr')) as (o & Ho & _).
    by exists o. }
  rewrite Hmain in Hvalid. setoid_rewrite elem_of_app in Hvalid. setoid_rewrite elem_of_cons in Hvalid.
  setoid_rewrite elem_of_app in Hvalid. setoid_rewrite elem_of_cons in Hvalid.
  destruct (Hvalid lef) as [Hll Hlo]; [auto|]. destruct (Hvalid mid) as [Hml Hmo]; [auto|].
  destruct (Hvalid rig) as [_ Hro]; [auto 6|].
  assert (states_of bs (revision_states bs) = states_of bs lef ++ ob :: states_of bs mid ++ og :: states_of bs rig) as Hstates.
  { rewrite Hmain. unfold states_of. rewrite omap_app. cbn. rewrite Hob, omap_app. cbn. by rewrite Hog. }
  assert (∀ i x o, revision_states bs !! i = Some x → objects bs !! x = Some o → index o = i) as Hindex.
  { intros i x o Hi Ho. destruct (ix_place bs Hix i x Hi) as (o' & Ho' & <-). congruence. }
  assert (index ob = length (states_of bs lef)) as Hib.
  { rewrite Hll. apply (Hindex _ b); [|done]. rewrite Hmain. by apply list_lookup_middle. }
  assert (index og = (length (states_of bs lef) + length (ob :: states_of bs mid))%nat) as Hig.
  { cbn. rewrite Hll, Hml. apply (Hindex _ g); [|done]. rewrite Hmain, app_comm_cons, app_assoc.
    apply list_lookup_middle. rewrite length_app. cbn. lia. }
  assert (∀ o, o ∈ states_of bs mid → run_failed (run_test:=run_test) o) as Hbetween.
  { intros o (x & Hx & Ho)%Hmo. destruct (Hmid x Hx) as [[[]%not_elem_of_nil _]|[_ (o' & Ho' & Hf)]].
    by assert (o' = o) as <- by congruence. }
  assert (∀ o, o ∈ states_of bs lef → passed o ≠ Pass) as Hbefore.
  { intros o (x & Hx & Ho)%Hlo Hp. apply (Hlef x Hx). by exists o. }
  assert (∀ o, o ∈ states_of bs rig → passed o ≠ Broken) as Hafter.
  { intros o (x & Hx & Ho)%Hro Hp. apply (Hrig x Hx). by exists o. }
  exists (states_of bs lef), ob, (states_of bs mid), og, (states_of bs rig). fold bs. rewrite Hstates.
  split_and!; try done.
  - apply FindBreakingRevRange_split; try done. intros o Ho. by eapply run_failed_unknown, Hbetween.
  - rewrite app_comm_cons. by apply culprits_between.
Qed.

(** C12: The loop of the search ends, whatever runs fail and with whatever code, and
    however often it goes on in a contained repository, which can be only three times
    in a row.  The list of revisions to begin with has no repetitions, and neither
    have those that [PrepareToBisectOnDepot] answers, which are of a bounded length.
    Then the list of all states, the inserted ones among them, is cut in one place: a
    broken state with nothing before it that works, then only states a run of which
    failed, marked with the code (or with none when the code is neither that of a
    failed build nor that of a skipped one), then a working state with nothing behind
    it that is broken.  These two are what the results take for the range, and the
    culprits are the broken state and the ones that could not be run. *)
Theorem Run_narrows fuel d revs be ge bp bb gp gb :
  NoDup revs → (2 <= length revs)%nat → (3 * S size + length revs <= fuel)%nat →
  ∃ r s before ob between og after,
    Run fuel d revs be ge bp bb gp gb at_start = (Ok r, s) ∧
    states_of (bisect_state s) (revision_states (bisect_state s)) = before ++ ob :: between ++ og :: after ∧
    passed ob = Broken ∧ passed og = Pass ∧
    (∀ o, o ∈ before → passed o ≠ Pass) ∧ (∀ o, o ∈ after → passed o ≠ Broken) ∧
    (∀ o, o ∈ between → ∃ n c, run_test n (depot o) (revision o) = NotRun c ∧ passed o = code_mark c) ∧
    FindBreakingRevRange (states_of (bisect_state s) (revision_states (bisect_state s))) = (Some og, Some ob) ∧
    FindCulpritRevisions (states_of (bisect_state s) (revision_states (bisect_state s))) og ob =
      Ok (name_of <$> ob :: between).
Proof.
  intros Hnd Hlen Hfuel. destruct (Run_begins fuel d revs be ge bp bb gp gb Hnd Hlen) as (s0 & cand & -> & Hs & Hc).
  assert (rank d <= 3)%nat as Hrank by (unfold rank; repeat case_bool_decide; lia).
  destruct (perf_loop_run fuel s0 d cand Hs) as (r & s & d' & Hrun & Hs'); [nia|].
  destruct (searching_outcome s d' Hs') as (before & ob & between & og & after & Hout).
  by exists r, s, before, ob, between, og, after.
Qed.
End search.

(** ** Examples *)

Module PerfBisectExamples.

(** The repositories, revisions and indexes of the list. *)
Definition listed (s : BisectState) : list (string * string * nat) :=
  (λ o, (depot o, revision o, index o)) <$> states_of s (revision_states s).
Definition after (m : B unit) : list (string * string * nat) := listed (snd (m no_states)).

(** bisect_state_test.py *)
Example testCreatesRevisionsStateAfterAReferenceRevision :
  after (BisectState_init "chromium" ["a"; "b"; "c"; "d"];;
         CreateRevisionStatesAfter "webkit" ["1"; "2"; "3"] "chromium" "b";;
         CreateRevisionStatesAfter "v8" ["100"; "200"] "webkit" "2";; mret ()) =
  [("chromium", "a", 0); ("chromium", "b", 1); ("webkit", "1", 2); ("webkit", "2", 3); ("v8", "100", 4);
   ("v8", "200", 5); ("webkit", "3", 6); ("chromium", "c", 7); ("chromium", "d", 8)]%nat.
Proof. by vm_compute. Qed.

(** The table keeps the places from the creation: a reference that was moved is not
    found where it is. *)
Example moved_reference :
  after (BisectState_init "chromium" ["a"; "b"; "c"];;
         CreateRevisionStatesAfter "webkit" ["1"; "2"] "chromium" "a";;
         CreateRevisionStatesAfter "v8" ["100"] "chromium" "b";; mret ()) =
  [("chromium", "a", 0); ("webkit", "1", 1); ("v8", "100", 2); ("webkit", "2", 3); ("chromium", "b", 4);
   ("chromium", "c", 5)]%nat.
Proof. by vm_compute. Qed.

(** The first state is not answered, its index being false. *)
Example first_not_found :
  (BisectState_init "chromium" ["a"; "b"];; x ← GetRevisionState "chromium" "a";
   y ← GetRevisionState "chromium" "b"; mret (x, y)) no_states =
  (Ok (None, Some 1%nat), snd (BisectState_init "chromium" ["a"; "b"] no_states)).
Proof. by vm_compute. Qed.

Lemma states_in_place_witness : ∃ s,
  revision_index s !! "chromium:b" = Some 1%nat ∧ NoDup (revision_states s) ∧
  (∀ i r, revision_states s !! i = Some r → ∃ o, objects s !! r = Some o ∧ index o = i).
Proof.
  set (s := snd (BisectState_init "chromium" ["a"; "b"; "c"] no_states)).
  destruct (states_in_place s "v8" ["1"] "chromium" "b" (history_init _ _)) as (Hnd & Hplace & _).
  exists s. split; [by vm_compute|]. exact (conj Hnd Hplace).
Defined.

(** bisect_results_test.py *)
Definition with_results (ps : list Passed) : list RevisionState :=
  imap (λ i p, mkRevisionState "chromium" "r" i None 0 0 p None) ps.
Definition range_of (ps : list Passed) : option nat * option nat :=
  let '(g, b) := FindBreakingRevRange (with_results ps) in (index <$> g, index <$> b).

Example testFindBreakingRange :
  (range_of <$> [[Broken; Broken; Pass; Pass; Pass]; [Broken; Pass; Broken; Pass; Pass];
                 [Broken; Broken; Untested; Pass; Pass]; [Pass; Pass; Pass; Pass; Pass];
                 [Broken; Broken; Broken; Broken; Broken]]) =
  [(Some 2, Some 1); (Some 1, Some 2); (Some 3, Some 1); (Some 0, None); (None, Some 4)]%nat.
Proof. by vm_compute. Qed.

(** A change of the browser's revision of V8 made it slow. *)
Definition v8_at (r : string) : gmap string string := {[ "v8" := r ]}.
Definition run_test (_ : nat) (depot revision : string) : TestResult :=
  if bool_decide (revision ∈ ["c6"; "c5"; "c4"]) then Ran 100 (v8_at "v9") 1 1
  else if bool_decide (revision = "v8") then NotRun BUILD_RESULT_FAIL
  else if bool_decide (revision = "v9") then Ran 98 ∅ 1 1
  else Ran 11 (v8_at "v7") 1 1.
Definition prepare (_ _ _ _ : string) : list string := ["v9"; "v8"; "v7"].
Definition no_bleeding_edge (_ : string) (_ : bool) : option string := None.

Definition slow_v8 : PerfSearch → outcome (option string) * PerfSearch :=
  @Run canonical_order "posix" run_test 10 100 no_bleeding_edge prepare 30 "chromium"
    ["c6"; "c5"; "c4"; "c3"; "c2"; "c1"] (v8_at "v9") (v8_at "v7") 1 1 1 1.

Example slow_v8_found :
  let '(r, s) := slow_v8 at_start in
  r = Ok None ∧
  (λ o, (revision o, passed o)) <$> states_of (bisect_state s) (revision_states (bisect_state s)) =
    [("c6", Broken); ("c5", Untested); ("c4", Broken); ("v9", Broken); ("v8", BuildFailed); ("v7", Pass); ("c3", Pass);
     ("c2", Untested); ("c1", Pass)].
Proof. by vm_compute. Qed.

Lemma Run_narrows_witness : ∃ r s before ob between og after,
  slow_v8 at_start = (Ok r, s) ∧
  states_of (bisect_state s) (revision_states (bisect_state s)) = before ++ ob :: between ++ og :: after ∧
  passed ob = Broken ∧ passed og = Pass.
Proof.
  destruct (@Run_narrows canonical_order "posix" run_test 10 100 no_bleeding_edge prepare 3) with
    (fuel := 30%nat) (d := "chromium") (revs := ["c6"; "c5"; "c4"; "c3"; "c2"; "c1"]) (be := v8_at "v9")
    (ge := v8_at "v7") (bp := 1%Z) (bb := 1%Z) (gp := 1%Z) (gb := 1%Z)
    as (r & s & before & ob & between & og & after & Hrun & Hl & Hb & Hg & _).
  - intros d e l p. split; [|done]. refine (bool_decide_eq_true_1 _ _). by vm_compute.
  - refine (bool_decide_eq_true_1 _ _). by vm_compute.
  - cbn. lia.
  - cbn. lia.
  - exists r, s, before, ob, between, og, after. exact (conj Hrun (conj Hl (conj Hb Hg))).
Defined.
End PerfBisectExamples.
